(** * Hover Highlighter: word and line resolution under the pointer

    A shallow embedding of the two revisions of the injected content script
    of the extension, and the properties of its specification.

    - [Incremental] is the revision that keeps running bounding top/bottom
      and a minimum single-character height (budget 105, factor 1.75).
    - [Recompute] is the revision that re-reads the client rectangles and
      the bounding rectangle of the whole range (budget 115, factor 1.73).

    Conventions of the embedding.
    - A string is a list of UTF-16 code units ([codeunit], a [Z]);
      [text[i]] is [charAt], which is [None] where JavaScript yields
      [undefined].
    - Rectangle coordinates are exact numbers ([Z], in layout units); the
      comparison [1.75 * a > b] is written [100 * b < 175 * a].
    - The DOM below [document.body] is a finite tree; a node reference is
      the path from the body to the node, innermost index first.
    - The rendering engine (client rectangles, bounding rectangles,
      hit-testing) is a record of functions, [Host].
    - A function that loops takes [fuel]; [Timeout] is the answer of a loop
      that was cut short, [Throw] the one of a JavaScript exception. *)

From Stdlib Require Import String Ascii.
From Stdlib Require Import ZArith List Bool Lia Arith.
Import ListNotations.

Set Warnings "-register-all".

Local Open Scope Z_scope.

(** ** Results of effectful code *)

Inductive result (A : Type) : Type :=
| Ok (a : A)
| Throw
| Timeout.
Arguments Ok {A} a.
Arguments Throw {A}.
Arguments Timeout {A}.

Definition bind {A B} (r : result A) (k : A -> result B) : result B :=
  match r with
  | Ok a => k a
  | Throw => Throw
  | Timeout => Timeout
  end.

Notation "x <- e ;; k" := (bind e (fun x => k))
  (at level 61, e at next level, right associativity).
Notation "' p <- e ;; k" := (bind e (fun x => let 'p := x in k))
  (at level 61, p pattern, e at next level, right associativity).

(** ** Characters *)

Definition codeunit := Z.

Definition charAt (text : list codeunit) (i : nat) : option codeunit :=
  nth_error text i.

(** An ASCII literal as a list of code units (used for examples). *)
Definition str (s : string) : list codeunit :=
  map (fun a => Z.of_N (N_of_ascii a)) (list_ascii_of_string s).

Definition inRange (lo hi c : codeunit) : bool := (lo <=? c) && (c <=? hi).

(** The class [\s] of ECMAScript regular expressions: WhiteSpace and
    LineTerminator code points. *)
Definition regexWhiteSpace (c : codeunit) : bool :=
  inRange 9 13 c || (c =? 32) || (c =? 160) || (c =? 5760)
  || inRange 8192 8202 c || (c =? 8232) || (c =? 8233) || (c =? 8239)
  || (c =? 8287) || (c =? 12288) || (c =? 65279).

(** The property [\p{Cf}] (format characters) on a single code unit. *)
Definition regexFormat (c : codeunit) : bool :=
  (c =? 173) || inRange 1536 1541 c || (c =? 1564) || (c =? 1757)
  || (c =? 1807) || inRange 2192 2193 c || (c =? 2274) || (c =? 6158)
  || inRange 8203 8207 c || inRange 8234 8238 c || inRange 8288 8292 c
  || inRange 8294 8303 c || (c =? 65279) || inRange 65529 65531 c.

(** One item of a bracketed character class. *)
Inductive ClassItem : Type :=
| ClsSpace
| ClsChar (c : codeunit).

Definition classItemMatches (c : codeunit) (it : ClassItem) : bool :=
  match it with
  | ClsSpace => regexWhiteSpace c
  | ClsChar d => c =? d
  end.

(** [/[...]/.test(ch)] on a string of length one. *)
Definition regexClassTest (cls : list ClassItem) (c : codeunit) : bool :=
  existsb (classItemMatches c) cls.

Definition underscore : codeunit := 95.
Definition hyphenMinus : codeunit := 45.
Definition emDash : codeunit := 8212.
Definition enDash : codeunit := 8211.
Definition slash : codeunit := 47.
Definition openParen : codeunit := 40.
Definition closeParen : codeunit := 41.
Definition openCurly : codeunit := 123.
Definition closeCurly : codeunit := 125.
Definition openSquare : codeunit := 91.
Definition closeSquare : codeunit := 93.
Definition comma : codeunit := 44.
Definition dot : codeunit := 46.
Definition colon : codeunit := 58.
Definition semicolon : codeunit := 59.
Definition questionMark : codeunit := 63.
Definition exclamationMark : codeunit := 33.
Definition ellipsis : codeunit := 8230.

(** [/\s|\p{Cf}/u.test(ch)]; [undefined] is tested as the string
    "undefined", which has no such character. *)
Definition isWhitespaceOrZeroWidth (ch : option codeunit) : bool :=
  match ch with
  | Some c => regexWhiteSpace c || regexFormat c
  | None => false
  end.

(** The delimiter set of the specification, in its own words: whitespace,
    underscore, the hyphen variants, slash, parentheses, curly braces,
    square brackets, comma, dot, colon, semicolon, question mark,
    exclamation mark and ellipsis. *)
Definition DelimiterChar (hyphens : list codeunit) (c : codeunit) : Prop :=
  regexWhiteSpace c = true \/ c = underscore \/ In c hyphens \/ c = slash
  \/ c = openParen \/ c = closeParen \/ c = openCurly \/ c = closeCurly
  \/ c = openSquare \/ c = closeSquare \/ c = comma \/ c = dot \/ c = colon
  \/ c = semicolon \/ c = questionMark \/ c = exclamationMark \/ c = ellipsis.

(** ** Rectangles *)

Record Rect : Type := mkRect { left : Z; top : Z; right : Z; bottom : Z }.

Definition width (r : Rect) : Z := right r - left r.
Definition height (r : Rect) : Z := bottom r - top r.

Definition rectOccupiesSpace (rect : Rect) : bool :=
  (0 <? width rect) && (0 <? height rect).

Definition isInsideRect (rect : Rect) (x y : Z) : bool :=
  (left rect <=? x) && (x <=? right rect) && (top rect <=? y)
  && (y <=? bottom rect) && rectOccupiesSpace rect.

Definition rectanglesAreEqual (rect1 rect2 : Rect) : bool :=
  (left rect1 =? left rect2) && (right rect1 =? right rect2)
  && (top rect1 =? top rect2) && (bottom rect1 =? bottom rect2).

(** ** The DOM tree below [document.body] *)

Inductive Node : Type :=
| TextNode (data : list codeunit)
| ElementNode (offsetWidth offsetHeight : Z) (childNodes : list Node)
| CommentNode (data : list codeunit).

Inductive NodeType : Type := ELEMENT_NODE | TEXT_NODE | COMMENT_NODE.

(** A node reference: the child indexes from the node up to the body, the
    node's own index first; [[]] is [document.body]. Two references are
    the same node ([===]) when the paths are equal. *)
Definition NodeRef := list nat.

Definition sameNode (a b : NodeRef) : bool :=
  if list_eq_dec Nat.eq_dec a b then true else false.

Definition nodeTypeOf (n : Node) : NodeType :=
  match n with
  | TextNode _ => TEXT_NODE
  | ElementNode _ _ _ => ELEMENT_NODE
  | CommentNode _ => COMMENT_NODE
  end.

Definition isEmpty (s : list codeunit) : bool :=
  match s with [] => true | _ => false end.

(** [node.textContent]: the data of a text or comment node, the
    concatenated text of the descendants of an element. *)
Fixpoint textContent (n : Node) : list codeunit :=
  match n with
  | TextNode d => d
  | CommentNode d => d
  | ElementNode _ _ cs =>
      (fix children (l : list Node) : list codeunit :=
         match l with
         | [] => []
         | c :: l' =>
             match c with
             | CommentNode _ => []
             | _ => textContent c
             end ++ children l'
         end) cs
  end.

Definition occupiesSpace (node : Node) : bool :=
  match node with
  | ElementNode w h _ => (0 <? w) && (0 <? h)
  | _ => true
  end.

(** The loops over [root.childNodes] of the two searches below, with the
    search itself, [find], as a parameter; [i] is the index of the head of
    [l] among the children of [self]. *)
Section ChildLoops.

Variable find : Node -> NodeRef -> option NodeRef.
Variable self : NodeRef.

(** [for (const childNode of root.childNodes)] *)
Fixpoint firstAmongChildren (l : list Node) (i : nat) : option NodeRef :=
  match l with
  | [] => None
  | childNode :: l' =>
      if negb (occupiesSpace childNode) then firstAmongChildren l' (S i)
      else match find childNode (i :: self) with
           | Some nextTextNode => Some nextTextNode
           | None => firstAmongChildren l' (S i)
           end
  end.

(** [for (let i = root.childNodes.length - 1; i >= 0; i--)]: the
    children after the head are tried before the head. *)
Fixpoint lastAmongChildren (l : list Node) (i : nat) : option NodeRef :=
  match l with
  | [] => None
  | childNode :: l' =>
      match lastAmongChildren l' (S i) with
      | Some lastTextNode => Some lastTextNode
      | None =>
          if negb (occupiesSpace childNode) then None
          else find childNode (i :: self)
      end
  end.

End ChildLoops.

(** [getNextTextNode(root)], with [self] the reference of [root]. *)
Fixpoint getNextTextNode (root : Node) (self : NodeRef) : option NodeRef :=
  match root with
  | TextNode d => if isEmpty d then None else Some self
  | CommentNode _ => None
  | ElementNode _ _ cs => firstAmongChildren getNextTextNode self cs 0%nat
  end.

(** [getLastNonEmptyTextNode(root)]. *)
Fixpoint getLastNonEmptyTextNode (root : Node) (self : NodeRef)
  : option NodeRef :=
  match root with
  | TextNode d => if isEmpty d then None else Some self
  | CommentNode _ => None
  | ElementNode _ _ cs => lastAmongChildren getLastNonEmptyTextNode self cs 0%nat
  end.

(** ** Ranges and the rendering engine *)

Record Range : Type := mkRange {
  startContainer : NodeRef;
  startOffset : nat;
  endContainer : NodeRef;
  endOffset : nat
}.

Record CaretPosition : Type := mkCaret {
  offsetNode : NodeRef;
  offset : nat
}.

Definition collapsed (r : Range) : bool :=
  sameNode (startContainer r) (endContainer r)
  && (startOffset r =? endOffset r)%nat.

(** [Range.setStart] and [Range.setEnd] as assignments. The scripts only
    ever leave a range with its start at or before its end, so the
    boundary swap of the DOM does not show in any range they produce. *)
Definition Range_setStart (r : Range) (node : NodeRef) (off : nat) : Range :=
  {| startContainer := node; startOffset := off;
     endContainer := endContainer r; endOffset := endOffset r |}.

Definition Range_setEnd (r : Range) (node : NodeRef) (off : nat) : Range :=
  {| startContainer := startContainer r; startOffset := startOffset r;
     endContainer := node; endOffset := off |}.

(** [range.collapse(false)]: the start moves to the end. *)
Definition Range_collapse (r : Range) : Range :=
  {| startContainer := endContainer r; startOffset := endOffset r;
     endContainer := endContainer r; endOffset := endOffset r |}.

(** The range of [document.createRange()]. *)
Definition createRange : Range :=
  {| startContainer := []; startOffset := 0;
     endContainer := []; endOffset := 0 |}.

(** What the scripts ask of the browser. *)
Record Host : Type := mkHost {
  Range_getClientRects : Range -> list Rect;
  Range_getBoundingClientRect : Range -> Rect;
  caretPositionFromPoint : Z -> Z -> option CaretPosition
}.

Record PointerEvent : Type := mkEvent { ev_x : Z; ev_y : Z }.

(** ** Navigation in a fixed document *)

Section Document.

Variable body : Node.

Fixpoint resolve (p : NodeRef) : option Node :=
  match p with
  | [] => Some body
  | i :: q =>
      match resolve q with
      | Some (ElementNode _ _ cs) => nth_error cs i
      | _ => None
      end
  end.

Definition textContentOf (p : NodeRef) : list codeunit :=
  match resolve p with
  | Some n => textContent n
  | None => []
  end.

(** [node?.nodeType === Node.TEXT_NODE] *)
Definition isTextNode (o : option NodeRef) : bool :=
  match o with
  | Some p =>
      match resolve p with
      | Some (TextNode _) => true
      | _ => false
      end
  | None => false
  end.

Definition occupiesSpaceAt (p : NodeRef) : bool :=
  match resolve p with
  | Some n => occupiesSpace n
  | None => false
  end.

(** The parent of a node below the body; the ancestors of the body are
    outside the tree. *)
Definition parentNode (p : NodeRef) : option NodeRef :=
  match p with
  | [] => None
  | _ :: q => Some q
  end.

Definition nextSibling (p : NodeRef) : option NodeRef :=
  match p with
  | [] => None
  | i :: q =>
      match resolve (S i :: q) with
      | Some _ => Some (S i :: q)
      | None => None
      end
  end.

Definition previousSibling (p : NodeRef) : option NodeRef :=
  match p with
  | [] => None
  | O :: _ => None
  | S i :: q =>
      match resolve (i :: q) with
      | Some _ => Some (i :: q)
      | None => None
      end
  end.

Definition getNextTextNodeAt (p : NodeRef) : option NodeRef :=
  match resolve p with
  | Some n => getNextTextNode n p
  | None => None
  end.

Definition getLastNonEmptyTextNodeAt (p : NodeRef) : option NodeRef :=
  match resolve p with
  | Some n => getLastNonEmptyTextNode n p
  | None => None
  end.

(** *** The word resolver, shared by both revisions *)

Section WordResolver.

Variable isDelimiter : option codeunit -> bool.

Definition isWordChar (ch : option codeunit) : bool :=
  negb (isDelimiter ch).

(** [while (endOffset < length && isWordChar(text[endOffset]))
    endOffset++], at most [n] rounds. *)
Fixpoint scanWordEnd (n : nat) (text : list codeunit) (endOffset : nat)
  : nat :=
  match n with
  | O => endOffset
  | S n' =>
      if (endOffset <? length text)%nat
         && isWordChar (charAt text endOffset)
      then scanWordEnd n' text (S endOffset)
      else endOffset
  end.

(** The loop that finds the exclusive end of the word. *)
Fixpoint findWordEnd (fuel : nat) (endNode : NodeRef) (endOffset : nat)
  : result (NodeRef * nat) :=
  match fuel with
  | O => Timeout
  | S fuel' =>
      let text := textContentOf endNode in
      let endOffset := scanWordEnd (length text - endOffset) text endOffset in
      if (endOffset <? length text)%nat
         || negb (isTextNode (nextSibling endNode))
      then Ok (endNode, endOffset)
      else match nextSibling endNode with
           | Some next => findWordEnd fuel' next 0%nat
           | None => Ok (endNode, endOffset)
           end
  end.

(** [while (startOffset > 0 && isWordChar(text[startOffset - 1]))
    startOffset--], at most [n] rounds. *)
Fixpoint scanWordStart (n : nat) (text : list codeunit) (startOffset : nat)
  : nat :=
  match n with
  | O => startOffset
  | S n' =>
      if (0 <? startOffset)%nat
         && isWordChar (charAt text (startOffset - 1))
      then scanWordStart n' text (startOffset - 1)
      else startOffset
  end.

(** [do prevNode = prevNode.previousSibling; while (prevNode is an
    empty text node)]. *)
Fixpoint skipEmptyTextNodes (fuel : nat) (prevNode : NodeRef)
  : result (option NodeRef) :=
  match fuel with
  | O => Timeout
  | S fuel' =>
      match previousSibling prevNode with
      | None => Ok None
      | Some prev =>
          if isTextNode (Some prev) && isEmpty (textContentOf prev)
          then skipEmptyTextNodes fuel' prev
          else Ok (Some prev)
      end
  end.

(** The loop that finds the inclusive start of the word. *)
Fixpoint findWordStart (fuel : nat) (startNode : NodeRef)
  (startOffset : nat) : result (NodeRef * nat) :=
  match fuel with
  | O => Timeout
  | S fuel' =>
      let startOffset :=
        scanWordStart startOffset (textContentOf startNode) startOffset in
      if (0 <? startOffset)%nat then Ok (startNode, startOffset)
      else
        prevNode <- skipEmptyTextNodes fuel startNode ;;
        match prevNode with
        | None => Ok (startNode, startOffset)
        | Some prev =>
            let text := textContentOf prev in
            if negb (isTextNode prevNode)
               || isDelimiter (charAt text (length text - 1))
            then Ok (startNode, startOffset)
            else findWordStart fuel' prev (length text - 1)
        end
  end.

Definition setHighlightWordRange (fuel : nat) (highlightWordRange : Range)
  (caretPosition : option CaretPosition) : result Range :=
  match caretPosition with
  | None => Ok highlightWordRange
  | Some cp =>
      if negb (isTextNode (Some (offsetNode cp))) then Ok highlightWordRange
      else
        let text := textContentOf (offsetNode cp) in
        let resolveFrom (endOffset : nat) :=
          '(endNode, endOffset) <-
             findWordEnd fuel (offsetNode cp) endOffset ;;
          '(startNode, startOffset) <-
             findWordStart fuel (offsetNode cp) (offset cp) ;;
          Ok (Range_setEnd
                (Range_setStart highlightWordRange startNode startOffset)
                endNode endOffset) in
        if (length text <=? offset cp)%nat then resolveFrom (length text)
        else if isDelimiter (charAt text (offset cp))
             then Ok highlightWordRange
             else resolveFrom (S (offset cp))
  end.

End WordResolver.

End Document.

(** ** The revision with running bounds *)

Module Incremental.

Definition isDelimiter (ch : option codeunit) : bool :=
  match ch with
  | Some c =>
      regexClassTest
        [ClsSpace; ClsChar underscore; ClsChar hyphenMinus; ClsChar emDash;
         ClsChar enDash; ClsChar slash; ClsChar openParen;
         ClsChar closeParen; ClsChar openCurly; ClsChar closeCurly;
         ClsChar openSquare; ClsChar closeSquare; ClsChar comma;
         ClsChar dot; ClsChar colon; ClsChar semicolon;
         ClsChar questionMark; ClsChar exclamationMark; ClsChar ellipsis] c
  | None => false
  end.

Definition isWordChar (ch : option codeunit) : bool := negb (isDelimiter ch).

Definition MAX_LINES_SPANNED_CHECKS : nat := 105.

(** The object [highlightLineRange]: the range itself and the private
    fields of the class. [probeLog] is not a field of the source: it
    records, latest first, the character handed to each call of
    [tryToExpandEnd] and [tryToExpandStart], and nothing reads it. *)
Record CachedLineRange : Type := mkLine {
  range : Range;
  singleCharRange : Range;
  manualBoundingRectTop : Z;
  manualBoundingRectBottom : Z;
  minRectHeight : Z;
  linesSpannedChecks : nat;
  probeLog : list (NodeRef * nat)
}.

Definition withRange (hl : CachedLineRange) (r : Range) : CachedLineRange :=
  {| range := r; singleCharRange := singleCharRange hl;
     manualBoundingRectTop := manualBoundingRectTop hl;
     manualBoundingRectBottom := manualBoundingRectBottom hl;
     minRectHeight := minRectHeight hl;
     linesSpannedChecks := linesSpannedChecks hl;
     probeLog := probeLog hl |}.

Definition collapse (hl : CachedLineRange) : CachedLineRange :=
  withRange hl (Range_collapse (range hl)).

Definition setInitialRect (hl : CachedLineRange) (rect : Rect)
  : CachedLineRange :=
  {| range := range hl; singleCharRange := singleCharRange hl;
     manualBoundingRectTop := top rect;
     manualBoundingRectBottom := bottom rect;
     minRectHeight := bottom rect - top rect;
     linesSpannedChecks := 0;
     probeLog := probeLog hl |}.

(** The state of the page script: the two long-lived ranges. *)
Record State : Type := mkState {
  highlightWordRange : Range;
  highlightLineRange : CachedLineRange
}.

Definition newCachedLineRange : CachedLineRange :=
  {| range := createRange; singleCharRange := createRange;
     manualBoundingRectTop := 0; manualBoundingRectBottom := 0;
     minRectHeight := 0; linesSpannedChecks := 0; probeLog := [] |}.

Definition initialState : State :=
  {| highlightWordRange := createRange;
     highlightLineRange := newCachedLineRange |}.

(** The loop of [hasMoreThanOne] over the pairs [i - 1], [i]. *)
Fixpoint adjacentRectsDiffer (rectangles : list Rect) : bool :=
  match rectangles with
  | rect1 :: ((rect2 :: _) as rest) =>
      if rectOccupiesSpace rect1 && rectOccupiesSpace rect2
         && (negb (left rect1 =? left rect2)
             || negb (top rect1 =? top rect2)
             || negb (width rect1 =? width rect2)
             || negb (height rect1 =? height rect2))
      then true
      else adjacentRectsDiffer rest
  | _ => false
  end.

Definition hasMoreThanOne (rectangles : list Rect) : bool :=
  if (length rectangles <=? 1)%nat then false
  else adjacentRectsDiffer rectangles.

Section Script.

Variable body : Node.
Variable host : Host.

(** The heuristic of one grown character, common to both ends:
    everything of [tryToExpandEnd] and [tryToExpandStart] between the
    measure of [singleCharRect] and [isSameLine]. Returns the new
    bounding top, bounding bottom, minimum height and [isSameLine]. *)
Definition sameLineCheck (hl : CachedLineRange) (singleCharRect : Rect)
  : Z * Z * Z * bool :=
  let minHeight := Z.min (minRectHeight hl) (height singleCharRect) in
  let '(newBoundingRectTop, interceptRectTop) :=
    if top singleCharRect <? manualBoundingRectTop hl
    then (top singleCharRect, manualBoundingRectTop hl)
    else (manualBoundingRectTop hl, top singleCharRect) in
  let '(newBoundingRectBottom, interceptRectBottom) :=
    if manualBoundingRectBottom hl <? bottom singleCharRect
    then (bottom singleCharRect, manualBoundingRectBottom hl)
    else (manualBoundingRectBottom hl, bottom singleCharRect) in
  let newBoundingRectHeight := newBoundingRectBottom - newBoundingRectTop in
  let interceptRectHeight := interceptRectBottom - interceptRectTop in
  let isSameLine :=
    (100 * newBoundingRectHeight <? 175 * minHeight)
    && (100 * newBoundingRectHeight <? 175 * interceptRectHeight) in
  (newBoundingRectTop, newBoundingRectBottom, minHeight, isSameLine).

(** [tryToExpandEnd(newNode, newOffset)], [newOffset] in
    (0, textContent.length]. *)
Definition tryToExpandEnd (hl : CachedLineRange) (newNode : NodeRef)
  (newOffset : nat) : bool * CachedLineRange :=
  let checks := S (linesSpannedChecks hl) in
  let log := (newNode, (newOffset - 1)%nat) :: probeLog hl in
  if (MAX_LINES_SPANNED_CHECKS <? checks)%nat then
    (false,
     {| range := range hl; singleCharRange := singleCharRange hl;
        manualBoundingRectTop := manualBoundingRectTop hl;
        manualBoundingRectBottom := manualBoundingRectBottom hl;
        minRectHeight := minRectHeight hl;
        linesSpannedChecks := checks; probeLog := log |})
  else
    let single :=
      Range_setEnd
        (Range_setStart (singleCharRange hl) newNode (newOffset - 1))
        newNode newOffset in
    let singleCharRect := Range_getBoundingClientRect host single in
    let '(newTop, newBottom, minHeight, isSameLine) :=
      sameLineCheck hl singleCharRect in
    if isSameLine then
      (true,
       {| range := Range_setEnd (range hl) newNode newOffset;
          singleCharRange := single;
          manualBoundingRectTop := newTop;
          manualBoundingRectBottom := newBottom;
          minRectHeight := minHeight;
          linesSpannedChecks := checks; probeLog := log |})
    else
      (false,
       {| range := range hl; singleCharRange := single;
          manualBoundingRectTop := manualBoundingRectTop hl;
          manualBoundingRectBottom := manualBoundingRectBottom hl;
          minRectHeight := minRectHeight hl;
          linesSpannedChecks := checks; probeLog := log |}).

(** [tryToExpandStart(newNode, newOffset)], [newOffset] in
    [0, textContent.length). *)
Definition tryToExpandStart (hl : CachedLineRange) (newNode : NodeRef)
  (newOffset : nat) : bool * CachedLineRange :=
  let checks := S (linesSpannedChecks hl) in
  let log := (newNode, newOffset) :: probeLog hl in
  if (MAX_LINES_SPANNED_CHECKS <? checks)%nat then
    (false,
     {| range := range hl; singleCharRange := singleCharRange hl;
        manualBoundingRectTop := manualBoundingRectTop hl;
        manualBoundingRectBottom := manualBoundingRectBottom hl;
        minRectHeight := minRectHeight hl;
        linesSpannedChecks := checks; probeLog := log |})
  else
    let single :=
      Range_setEnd
        (Range_setStart (singleCharRange hl) newNode newOffset)
        newNode (S newOffset) in
    let singleCharRect := Range_getBoundingClientRect host single in
    let '(newTop, newBottom, minHeight, isSameLine) :=
      sameLineCheck hl singleCharRect in
    if isSameLine then
      (true,
       {| range := Range_setStart (range hl) newNode newOffset;
          singleCharRange := single;
          manualBoundingRectTop := newTop;
          manualBoundingRectBottom := newBottom;
          minRectHeight := minHeight;
          linesSpannedChecks := checks; probeLog := log |})
    else
      (false,
       {| range := range hl; singleCharRange := single;
          manualBoundingRectTop := manualBoundingRectTop hl;
          manualBoundingRectBottom := manualBoundingRectBottom hl;
          minRectHeight := minRectHeight hl;
          linesSpannedChecks := checks; probeLog := log |}).

Definition isPointOutsideHighlightedWord (word : Range) (x y : Z) : bool :=
  if collapsed word then true
  else negb (existsb (fun clientRect => isInsideRect clientRect x y)
               (Range_getClientRects host word)).

Definition isPointOutsideHighlightedLine (hl : CachedLineRange) (x y : Z)
  : bool :=
  collapsed (range hl)
  || negb (isInsideRect (Range_getBoundingClientRect host (range hl)) x y).

(** *** Growing the end *)

(** The loop through the end of the current node, at most [n] rounds.
    [inl b] is [return b]; [inr tt] is the loop left at its end. *)
Fixpoint expandEndInNode (n : nat) (hl : CachedLineRange)
  (currentNode : NodeRef) (currentOffset : nat) (oneChar : bool)
  : (bool + unit) * CachedLineRange :=
  match n with
  | O => (inr tt, hl)
  | S n' =>
      let text := textContentOf body currentNode in
      if (currentOffset <? length text)%nat then
        let ch := charAt text currentOffset in
        let currentOffset := S currentOffset in
        if isWhitespaceOrZeroWidth ch
        then expandEndInNode n' hl currentNode currentOffset oneChar
        else
          let '(expanded, hl) :=
            tryToExpandEnd hl currentNode currentOffset in
          if negb expanded then (inl false, hl)
          else if oneChar then (inl true, hl)
          else expandEndInNode n' hl currentNode currentOffset oneChar
      else (inr tt, hl)
  end.

(** The climb to the next uncle: [None] when the body is reached. *)
Fixpoint nextUncle (parent : NodeRef) : option NodeRef :=
  match parent with
  | [] => None
  | _ :: grandParent =>
      match nextSibling body parent with
      | Some uncle => Some uncle
      | None => nextUncle grandParent
      end
  end.

(** The inner [while (true)] that looks for the next text node;
    [Ok None] is [return false]. *)
Fixpoint findNextTextNode (fuel : nat) (currentNode : NodeRef)
  : result (option NodeRef) :=
  match fuel with
  | O => Timeout
  | S fuel' =>
      nextNode <-
        match nextSibling body currentNode with
        | Some n => Ok (Some n)
        | None =>
            match parentNode currentNode with
            | None => Throw
            | Some parent => Ok (nextUncle parent)
            end
        end ;;
      match nextNode with
      | None => Ok None
      | Some nextNode =>
          if negb (occupiesSpaceAt body nextNode)
          then findNextTextNode fuel' nextNode
          else match getNextTextNodeAt body nextNode with
               | None => findNextTextNode fuel' nextNode
               | Some nextTextNode => Ok (Some nextTextNode)
               end
      end
  end.

Fixpoint expandEndLoop (fuel : nat) (hl : CachedLineRange)
  (currentNode : NodeRef) (currentOffset : nat) (oneChar : bool)
  : result (bool * CachedLineRange) :=
  match fuel with
  | O => Timeout
  | S fuel' =>
      let text := textContentOf body currentNode in
      match expandEndInNode (length text - currentOffset) hl currentNode
              currentOffset oneChar with
      | (inl b, hl) => Ok (b, hl)
      | (inr _, hl) =>
          next <- findNextTextNode fuel currentNode ;;
          match next with
          | None => Ok (false, hl)
          | Some nextTextNode =>
              expandEndLoop fuel' hl nextTextNode 0%nat oneChar
          end
      end
  end.

Definition updateHighlightLineRangeEnd (fuel : nat) (hl : CachedLineRange)
  (oneChar : bool) : result (bool * CachedLineRange) :=
  expandEndLoop fuel hl (endContainer (range hl)) (endOffset (range hl))
    oneChar.

(** *** Growing the start *)

(** The loop through the beginning of the current node, at most [n]
    rounds; the offset reached is returned with the state. *)
Fixpoint expandStartInNode (n : nat) (hl : CachedLineRange)
  (currentNode : NodeRef) (currentOffset : nat) (oneChar : bool)
  : (bool + unit) * CachedLineRange :=
  match n with
  | O => (inr tt, hl)
  | S n' =>
      let text := textContentOf body currentNode in
      if (0 <? currentOffset)%nat then
        let currentOffset := (currentOffset - 1)%nat in
        if isWhitespaceOrZeroWidth (charAt text currentOffset)
        then expandStartInNode n' hl currentNode currentOffset oneChar
        else
          let '(expanded, hl) :=
            tryToExpandStart hl currentNode currentOffset in
          if negb expanded then (inl false, hl)
          else if oneChar then (inl true, hl)
          else expandStartInNode n' hl currentNode currentOffset oneChar
      else (inr tt, hl)
  end.

(** The climb to the previous uncle: [None] when the body is reached. *)
Fixpoint previousUncle (parent : NodeRef) : option NodeRef :=
  match parent with
  | [] => None
  | _ :: grandParent =>
      match previousSibling body parent with
      | Some uncle => Some uncle
      | None => previousUncle grandParent
      end
  end.

(** The inner [while (true)] that steps to the previous text node.
    [inl b] is [return b]; [inr (node, offset)] is [break] with the
    new [currentNode] and [currentOffset]. *)
Fixpoint stepToPreviousTextNode (fuel : nat) (hl : CachedLineRange)
  (currentNode : NodeRef) (oneChar : bool)
  : result ((bool + NodeRef * nat) * CachedLineRange) :=
  match fuel with
  | O => Timeout
  | S fuel' =>
      previousNode <-
        match previousSibling body currentNode with
        | Some n => Ok (Some n)
        | None =>
            match parentNode currentNode with
            | None => Throw
            | Some parent => Ok (previousUncle parent)
            end
        end ;;
      match previousNode with
      | None => Ok (inl false, hl)
      | Some previousNode =>
          if negb (occupiesSpaceAt body previousNode)
          then stepToPreviousTextNode fuel' hl previousNode oneChar
          else
            match getLastNonEmptyTextNodeAt body previousNode with
            | None => stepToPreviousTextNode fuel' hl previousNode oneChar
            | Some lastTextNode =>
                let text := textContentOf body lastTextNode in
                let lastCharIdx := (length text - 1)%nat in
                let shouldSkip :=
                  isWhitespaceOrZeroWidth (charAt text lastCharIdx) in
                let '(expanded, hl) :=
                  if shouldSkip then (true, hl)
                  else tryToExpandStart hl lastTextNode lastCharIdx in
                if expanded then
                  if oneChar && negb shouldSkip then Ok (inl true, hl)
                  else Ok (inr (lastTextNode, (length text - 1)%nat), hl)
                else Ok (inl false, hl)
            end
      end
  end.

Fixpoint expandStartLoop (fuel : nat) (hl : CachedLineRange)
  (currentNode : NodeRef) (currentOffset : nat) (oneChar : bool)
  : result (bool * CachedLineRange) :=
  match fuel with
  | O => Timeout
  | S fuel' =>
      match expandStartInNode currentOffset hl currentNode currentOffset
              oneChar with
      | (inl b, hl) => Ok (b, hl)
      | (inr _, hl) =>
          '(step, hl) <-
            stepToPreviousTextNode fuel hl currentNode oneChar ;;
          match step with
          | inl b => Ok (b, hl)
          | inr (node, off) => expandStartLoop fuel' hl node off oneChar
          end
      end
  end.

Definition updateHighlightLineRangeStart (fuel : nat)
  (hl : CachedLineRange) (oneChar : bool)
  : result (bool * CachedLineRange) :=
  expandStartLoop fuel hl (startContainer (range hl))
    (startOffset (range hl)) oneChar.

(** *** Line resolution *)

(** [do { end; start } while (keepGoingStart && keepGoingEnd)], at
    most [n] rounds. *)
Fixpoint alternateEnds (n fuel : nat) (hl : CachedLineRange)
  : result (bool * bool * CachedLineRange) :=
  match n with
  | O => Timeout
  | S n' =>
      '(keepGoingEnd, hl) <- updateHighlightLineRangeEnd fuel hl true ;;
      '(keepGoingStart, hl) <- updateHighlightLineRangeStart fuel hl true ;;
      if keepGoingStart && keepGoingEnd then alternateEnds n' fuel hl
      else Ok (keepGoingStart, keepGoingEnd, hl)
  end.

Definition setHighlightLineRange (fuel : nat) (hl : CachedLineRange)
  (caretPosition : option CaretPosition) (mouseY : Z)
  : result CachedLineRange :=
  match caretPosition with
  | None => Ok hl
  | Some cp =>
      if negb (isTextNode body (Some (offsetNode cp))) then Ok hl
      else
        let text := textContentOf body (offsetNode cp) in
        (* [Math.min(offset, length - 1)] is [-1] on an empty node and
           [setStart(node, -1)] throws. *)
        if (length text =? 0)%nat then Throw
        else
          (* the constant [startOffset] of the source *)
          let seedOffset := Nat.min (offset cp) (length text - 1) in
          let hl :=
            withRange hl
              (Range_setEnd
                 (Range_setStart (range hl) (offsetNode cp) seedOffset)
                 (offsetNode cp) (S seedOffset)) in
          let lineRect := Range_getBoundingClientRect host (range hl) in
          if (height lineRect =? 0) || (mouseY <? top lineRect)
             || (bottom lineRect <? mouseY)
          then Ok (collapse hl)
          else
            let hl := setInitialRect hl lineRect in
            if hasMoreThanOne (Range_getClientRects host (range hl))
            then Ok (collapse hl)
            else
              '(keepGoingStart, keepGoingEnd, hl) <-
                alternateEnds fuel fuel hl ;;
              hl <- (if keepGoingStart : bool
                     then '(_, hl) <-
                            updateHighlightLineRangeStart fuel hl false ;;
                          Ok hl
                     else Ok hl) ;;
              hl <- (if keepGoingEnd : bool
                     then '(_, hl) <-
                            updateHighlightLineRangeEnd fuel hl false ;;
                          Ok hl
                     else Ok hl) ;;
              if sameNode (startContainer (range hl)) (offsetNode cp)
                 && (startOffset (range hl) =? seedOffset)%nat
                 && isWhitespaceOrZeroWidth
                      (charAt (textContentOf body (startContainer (range hl)))
                         seedOffset)
                 || sameNode (endContainer (range hl)) (offsetNode cp)
                    && (endOffset (range hl) =? S seedOffset)%nat
                    && isWhitespaceOrZeroWidth
                         (charAt (textContentOf body (endContainer (range hl)))
                            seedOffset)
              then Ok (collapse hl)
              else Ok hl
  end.

(** *** The pointer handlers *)

(** [pointerMoveHandler(event)]. Besides the new state, the final
    value of the local [caretPosition]: [None] is [undefined] (no
    hit-test was made), [Some cp] the answer of the hit-test. *)
Definition pointerMoveHandler (fuel : nat) (st : State)
  (event : PointerEvent)
  : result (State * option (option CaretPosition)) :=
  let x := ev_x event in
  let y := ev_y event in
  '(word, caretPosition) <-
    (if isPointOutsideHighlightedWord (highlightWordRange st) x y then
       let word := Range_collapse (highlightWordRange st) in
       let cp := caretPositionFromPoint host x y in
       word <- setHighlightWordRange body isDelimiter fuel word cp ;;
       Ok (if isPointOutsideHighlightedWord word x y
           then Range_collapse word else word,
           Some cp)
     else Ok (highlightWordRange st, None)) ;;
  if isPointOutsideHighlightedLine (highlightLineRange st) x y then
    let hl := collapse (highlightLineRange st) in
    let cp :=
      match caretPosition with
      | None => caretPositionFromPoint host x y
      | Some cp => cp
      end in
    hl <- setHighlightLineRange fuel hl cp y ;;
    Ok ({| highlightWordRange := word;
           highlightLineRange :=
             if isPointOutsideHighlightedLine hl x y
             then collapse hl else hl |},
        Some cp)
  else
    Ok ({| highlightWordRange := word;
           highlightLineRange := highlightLineRange st |},
        caretPosition).

Definition pointerLeaveHandler (st : State) : State :=
  {| highlightWordRange := Range_collapse (highlightWordRange st);
     highlightLineRange := collapse (highlightLineRange st) |}.

End Script.

End Incremental.

(** ** The revision that recomputes the rectangles *)

Module Recompute.

Definition isDelimiter (ch : option codeunit) : bool :=
  match ch with
  | Some c =>
      regexClassTest
        [ClsSpace; ClsChar underscore; ClsChar hyphenMinus; ClsChar enDash;
         ClsChar slash; ClsChar openParen; ClsChar closeParen;
         ClsChar openCurly; ClsChar closeCurly; ClsChar openSquare;
         ClsChar closeSquare; ClsChar comma; ClsChar dot; ClsChar colon;
         ClsChar semicolon; ClsChar questionMark; ClsChar exclamationMark;
         ClsChar ellipsis] c
  | None => false
  end.

Definition isWordChar (ch : option codeunit) : bool := negb (isDelimiter ch).

Definition MAX_LINES_SPANNED_CHECKS : nat := 115.

(** The object [highlightLineRange]: the range, the cached bounding
    rectangle and the counter. [probeLog] is not a field of the source:
    it records, latest first, the character handed to each call of
    [tryToExpandEnd] and [tryToExpandStart], and nothing reads it. *)
Record CachedLineRange : Type := mkLine {
  range : Range;
  boundingClientRect : option Rect;
  linesSpannedChecks : nat;
  probeLog : list (NodeRef * nat)
}.

Definition invalidateBoundingClientRectangle (hl : CachedLineRange)
  : CachedLineRange :=
  {| range := range hl; boundingClientRect := None;
     linesSpannedChecks := linesSpannedChecks hl; probeLog := probeLog hl |}.

Definition resetLinesSpannedChecksCount (hl : CachedLineRange)
  : CachedLineRange :=
  {| range := range hl; boundingClientRect := boundingClientRect hl;
     linesSpannedChecks := 0; probeLog := probeLog hl |}.

Definition withRange (hl : CachedLineRange) (r : Range) : CachedLineRange :=
  {| range := r; boundingClientRect := boundingClientRect hl;
     linesSpannedChecks := linesSpannedChecks hl; probeLog := probeLog hl |}.

Definition collapse (hl : CachedLineRange) : CachedLineRange :=
  let hl := invalidateBoundingClientRectangle hl in
  withRange hl (Range_collapse (range hl)).

Definition setEnd (hl : CachedLineRange) (node : NodeRef) (off : nat)
  : CachedLineRange :=
  let hl := invalidateBoundingClientRectangle hl in
  withRange hl (Range_setEnd (range hl) node off).

Definition setStart (hl : CachedLineRange) (node : NodeRef) (off : nat)
  : CachedLineRange :=
  let hl := invalidateBoundingClientRectangle hl in
  withRange hl (Range_setStart (range hl) node off).

Record State : Type := mkState {
  highlightWordRange : Range;
  highlightLineRange : CachedLineRange
}.

Definition newCachedLineRange : CachedLineRange :=
  {| range := createRange; boundingClientRect := None;
     linesSpannedChecks := 0; probeLog := [] |}.

Definition initialState : State :=
  {| highlightWordRange := createRange;
     highlightLineRange := newCachedLineRange |}.

(** [Math.min(...heights)] of a list that is not empty. *)
Definition minimum (l : list Z) : Z :=
  match l with
  | [] => 0
  | x :: l' => fold_left Z.min l' x
  end.

Section Script.

Variable body : Node.
Variable host : Host.

(** [this.#boundingClientRect ??= super.getBoundingClientRect()] *)
Definition getBoundingClientRect (hl : CachedLineRange)
  : Rect * CachedLineRange :=
  match boundingClientRect hl with
  | Some rect => (rect, hl)
  | None =>
      let rect := Range_getBoundingClientRect host (range hl) in
      (rect,
       {| range := range hl; boundingClientRect := Some rect;
          linesSpannedChecks := linesSpannedChecks hl;
          probeLog := probeLog hl |})
  end.

Definition spansMultipleLines (hl : CachedLineRange)
  : bool * CachedLineRange :=
  let checks := S (linesSpannedChecks hl) in
  let hl :=
    {| range := range hl; boundingClientRect := boundingClientRect hl;
       linesSpannedChecks := checks; probeLog := probeLog hl |} in
  if (MAX_LINES_SPANNED_CHECKS <? checks)%nat then (true, hl)
  else
    let rects :=
      filter (fun r => (0 <? width r) && (0 <? height r))
        (Range_getClientRects host (range hl)) in
    if (length rects <? 2)%nat then (false, hl)
    else
      let minHeight := minimum (map height rects) in
      let '(rect, hl) := getBoundingClientRect hl in
      (173 * minHeight <=? 100 * height rect, hl).

Definition logProbe (hl : CachedLineRange) (node : NodeRef) (idx : nat)
  : CachedLineRange :=
  {| range := range hl; boundingClientRect := boundingClientRect hl;
     linesSpannedChecks := linesSpannedChecks hl;
     probeLog := (node, idx) :: probeLog hl |}.

(** The condition of the [if] of [tryToExpandEnd] and
    [tryToExpandStart], after the boundary was moved:
    [checkRectangleGrew && rectanglesAreEqual(prevRect,
    this.getBoundingClientRect()) || spansMultipleLines()]. *)
Definition didNothingOrSpansLines (hl : CachedLineRange)
  (prevRect : option Rect) : bool * CachedLineRange :=
  match prevRect with
  | Some prev =>
      let '(rect, hl) := getBoundingClientRect hl in
      if rectanglesAreEqual prev rect then (true, hl)
      else spansMultipleLines hl
  | None => spansMultipleLines hl
  end.

(** [prevRect = checkRectangleGrew ? this.getBoundingClientRect() :
    null] *)
Definition previousRect (hl : CachedLineRange) (checkRectangleGrew : bool)
  : option Rect * CachedLineRange :=
  if checkRectangleGrew
  then let '(rect, hl) := getBoundingClientRect hl in (Some rect, hl)
  else (None, hl).

Definition tryToExpandEnd (hl : CachedLineRange) (newNode : NodeRef)
  (newOffset : nat) (checkRectangleGrew : bool) : bool * CachedLineRange :=
  let hl := logProbe hl newNode (newOffset - 1) in
  let prevNode := endContainer (range hl) in
  let prevOffset := endOffset (range hl) in
  let '(prevRect, hl) := previousRect hl checkRectangleGrew in
  let hl := setEnd hl newNode newOffset in
  let '(reject, hl) := didNothingOrSpansLines hl prevRect in
  if reject then (false, setEnd hl prevNode prevOffset)
  else (true, hl).

Definition tryToExpandStart (hl : CachedLineRange) (newNode : NodeRef)
  (newOffset : nat) (checkRectangleGrew : bool) : bool * CachedLineRange :=
  let hl := logProbe hl newNode newOffset in
  let prevNode := startContainer (range hl) in
  let prevOffset := startOffset (range hl) in
  let '(prevRect, hl) := previousRect hl checkRectangleGrew in
  let hl := setStart hl newNode newOffset in
  let '(reject, hl) := didNothingOrSpansLines hl prevRect in
  if reject then (false, setStart hl prevNode prevOffset)
  else (true, hl).

Definition isPointOutsideHighlightedWord (word : Range) (x y : Z) : bool :=
  if collapsed word then true
  else negb (existsb (fun clientRect => isInsideRect clientRect x y)
               (Range_getClientRects host word)).

Definition isPointOutsideHighlightedLine (hl : CachedLineRange) (x y : Z)
  : bool * CachedLineRange :=
  if collapsed (range hl) then (true, hl)
  else let '(rect, hl) := getBoundingClientRect hl in
       (negb (isInsideRect rect x y), hl).

(** *** Growing the start *)

Fixpoint expandStartInNode (n : nat) (hl : CachedLineRange)
  (currentNode : NodeRef) (currentOffset : nat) (oneChar : bool)
  : (bool + unit) * CachedLineRange :=
  match n with
  | O => (inr tt, hl)
  | S n' =>
      let text := textContentOf body currentNode in
      if (0 <? currentOffset)%nat then
        let currentOffset := (currentOffset - 1)%nat in
        if isWhitespaceOrZeroWidth (charAt text currentOffset)
        then expandStartInNode n' hl currentNode currentOffset oneChar
        else
          let '(expanded, hl) :=
            tryToExpandStart hl currentNode currentOffset false in
          if negb expanded then (inl false, hl)
          else if oneChar then (inl true, hl)
          else expandStartInNode n' hl currentNode currentOffset oneChar
      else (inr tt, hl)
  end.

(** The climb to the previous uncle that occupies space: [None] when
    the body is reached. *)
Fixpoint previousUncle (parent : NodeRef) : option NodeRef :=
  match parent with
  | [] => None
  | _ :: grandParent =>
      match previousSibling body parent with
      | Some uncle =>
          if occupiesSpaceAt body uncle then Some uncle
          else previousUncle grandParent
      | None => previousUncle grandParent
      end
  end.

Definition previousNodeOf (currentNode : NodeRef)
  : result (option NodeRef) :=
  let climb :=
    match parentNode currentNode with
    | None => Throw
    | Some parent => Ok (previousUncle parent)
    end in
  match previousSibling body currentNode with
  | Some n => if occupiesSpaceAt body n then Ok (Some n) else climb
  | None => climb
  end.

Fixpoint stepToPreviousTextNode (fuel : nat) (hl : CachedLineRange)
  (currentNode : NodeRef) (oneChar : bool)
  : result ((bool + NodeRef * nat) * CachedLineRange) :=
  match fuel with
  | O => Timeout
  | S fuel' =>
      previousNode <- previousNodeOf currentNode ;;
      match previousNode with
      | None => Ok (inl false, hl)
      | Some previousNode =>
          match getLastNonEmptyTextNodeAt body previousNode with
          | None => stepToPreviousTextNode fuel' hl previousNode oneChar
          | Some lastTextNode =>
              let text := textContentOf body lastTextNode in
              let lastCharIdx := (length text - 1)%nat in
              let shouldSkip :=
                isWhitespaceOrZeroWidth (charAt text lastCharIdx) in
              let '(expanded, hl) :=
                if shouldSkip then (true, hl)
                else tryToExpandStart hl lastTextNode lastCharIdx true in
              if expanded then
                if oneChar && negb shouldSkip then Ok (inl true, hl)
                else Ok (inr (lastTextNode, (length text - 1)%nat), hl)
              else Ok (inl false, hl)
          end
      end
  end.

Fixpoint expandStartLoop (fuel : nat) (hl : CachedLineRange)
  (currentNode : NodeRef) (currentOffset : nat) (oneChar : bool)
  : result (bool * CachedLineRange) :=
  match fuel with
  | O => Timeout
  | S fuel' =>
      match expandStartInNode currentOffset hl currentNode currentOffset
              oneChar with
      | (inl b, hl) => Ok (b, hl)
      | (inr _, hl) =>
          '(step, hl) <-
            stepToPreviousTextNode fuel hl currentNode oneChar ;;
          match step with
          | inl b => Ok (b, hl)
          | inr (node, off) => expandStartLoop fuel' hl node off oneChar
          end
      end
  end.

Definition updateHighlightLineRangeStart (fuel : nat)
  (hl : CachedLineRange) (oneChar : bool)
  : result (bool * CachedLineRange) :=
  expandStartLoop fuel hl (startContainer (range hl))
    (startOffset (range hl)) oneChar.

(** *** Growing the end *)

Fixpoint expandEndInNode (n : nat) (hl : CachedLineRange)
  (currentNode : NodeRef) (currentOffset : nat)
  (checkRectangleGrew oneChar : bool)
  : (bool + unit) * CachedLineRange :=
  match n with
  | O => (inr tt, hl)
  | S n' =>
      let text := textContentOf body currentNode in
      if (currentOffset <? length text)%nat then
        let ch := charAt text currentOffset in
        let currentOffset := S currentOffset in
        if isWhitespaceOrZeroWidth ch
        then expandEndInNode n' hl currentNode currentOffset
               checkRectangleGrew oneChar
        else
          let '(expanded, hl) :=
            tryToExpandEnd hl currentNode currentOffset
              checkRectangleGrew in
          if negb expanded then (inl false, hl)
          else if oneChar then (inl true, hl)
          else expandEndInNode n' hl currentNode currentOffset false
                 oneChar
      else (inr tt, hl)
  end.

(** The climb to the next uncle that occupies space: [None] when the
    body is reached. *)
Fixpoint nextUncle (parent : NodeRef) : option NodeRef :=
  match parent with
  | [] => None
  | _ :: grandParent =>
      match nextSibling body parent with
      | Some uncle =>
          if occupiesSpaceAt body uncle then Some uncle
          else nextUncle grandParent
      | None => nextUncle grandParent
      end
  end.

Definition nextNodeOf (currentNode : NodeRef) : result (option NodeRef) :=
  let climb :=
    match parentNode currentNode with
    | None => Throw
    | Some parent => Ok (nextUncle parent)
    end in
  match nextSibling body currentNode with
  | Some n => if occupiesSpaceAt body n then Ok (Some n) else climb
  | None => climb
  end.

(** The inner [while (true)] that looks for the next text node;
    [Ok None] is [return false]. *)
Fixpoint findNextTextNode (fuel : nat) (currentNode : NodeRef)
  : result (option NodeRef) :=
  match fuel with
  | O => Timeout
  | S fuel' =>
      nextNode <- nextNodeOf currentNode ;;
      match nextNode with
      | None => Ok None
      | Some nextNode =>
          match getNextTextNodeAt body nextNode with
          | None => findNextTextNode fuel' nextNode
          | Some nextTextNode => Ok (Some nextTextNode)
          end
      end
  end.

Fixpoint expandEndLoop (fuel : nat) (hl : CachedLineRange)
  (currentNode : NodeRef) (currentOffset : nat)
  (checkRectangleGrew oneChar : bool)
  : result (bool * CachedLineRange) :=
  match fuel with
  | O => Timeout
  | S fuel' =>
      let text := textContentOf body currentNode in
      match expandEndInNode (length text - currentOffset) hl currentNode
              currentOffset checkRectangleGrew oneChar with
      | (inl b, hl) => Ok (b, hl)
      | (inr _, hl) =>
          next <- findNextTextNode fuel currentNode ;;
          match next with
          | None => Ok (false, hl)
          | Some nextTextNode =>
              expandEndLoop fuel' hl nextTextNode 0%nat true oneChar
          end
      end
  end.

Definition updateHighlightLineRangeEnd (fuel : nat) (hl : CachedLineRange)
  (oneChar : bool) : result (bool * CachedLineRange) :=
  expandEndLoop fuel hl (endContainer (range hl)) (endOffset (range hl))
    false oneChar.

(** *** Line resolution *)

Fixpoint alternateEnds (n fuel : nat) (hl : CachedLineRange)
  : result (bool * bool * CachedLineRange) :=
  match n with
  | O => Timeout
  | S n' =>
      '(keepGoingEnd, hl) <- updateHighlightLineRangeEnd fuel hl true ;;
      '(keepGoingStart, hl) <- updateHighlightLineRangeStart fuel hl true ;;
      if keepGoingStart && keepGoingEnd then alternateEnds n' fuel hl
      else Ok (keepGoingStart, keepGoingEnd, hl)
  end.

Definition setHighlightLineRange (fuel : nat) (hl : CachedLineRange)
  (caretPosition : option CaretPosition) (mouseY : Z)
  : result CachedLineRange :=
  match caretPosition with
  | None => Ok hl
  | Some cp =>
      if negb (isTextNode body (Some (offsetNode cp))) then Ok hl
      else
        let text := textContentOf body (offsetNode cp) in
        (* [Math.min(offset, length - 1)] is [-1] on an empty node and
           [setStart(node, -1)] throws. *)
        if (length text =? 0)%nat then Throw
        else
          (* the constant [startOffset] of the source *)
          let seedOffset := Nat.min (offset cp) (length text - 1) in
          let hl := setStart hl (offsetNode cp) seedOffset in
          let hl := setEnd hl (offsetNode cp) (S seedOffset) in
          let '(lineRect, hl) := getBoundingClientRect hl in
          if (height lineRect =? 0) || (mouseY <? top lineRect)
             || (bottom lineRect <? mouseY)
          then Ok (collapse hl)
          else
            if (1 <? length (Range_getClientRects host (range hl)))%nat
            then Ok (collapse hl)
            else
              let hl := resetLinesSpannedChecksCount hl in
              '(keepGoingStart, keepGoingEnd, hl) <-
                alternateEnds fuel fuel hl ;;
              hl <- (if keepGoingStart : bool
                     then '(_, hl) <-
                            updateHighlightLineRangeStart fuel hl false ;;
                          Ok hl
                     else Ok hl) ;;
              hl <- (if keepGoingEnd : bool
                     then '(_, hl) <-
                            updateHighlightLineRangeEnd fuel hl false ;;
                          Ok hl
                     else Ok hl) ;;
              if sameNode (startContainer (range hl)) (offsetNode cp)
                 && (startOffset (range hl) =? seedOffset)%nat
                 && isWhitespaceOrZeroWidth
                      (charAt (textContentOf body (startContainer (range hl)))
                         seedOffset)
                 || sameNode (endContainer (range hl)) (offsetNode cp)
                    && (endOffset (range hl) =? S seedOffset)%nat
                    && isWhitespaceOrZeroWidth
                         (charAt (textContentOf body (endContainer (range hl)))
                            seedOffset)
              then Ok (collapse hl)
              else Ok hl
  end.

(** *** The pointer handlers *)

(** [pointerMoveHandler(event)]. Besides the new state, the final
    value of the local [caretPosition]: [None] is [undefined] (no
    hit-test was made), [Some cp] the answer of the hit-test. *)
Definition pointerMoveHandler (fuel : nat) (st : State)
  (event : PointerEvent)
  : result (State * option (option CaretPosition)) :=
  let x := ev_x event in
  let y := ev_y event in
  '(word, caretPosition) <-
    (if isPointOutsideHighlightedWord (highlightWordRange st) x y then
       let word := Range_collapse (highlightWordRange st) in
       let cp := caretPositionFromPoint host x y in
       word <- setHighlightWordRange body isDelimiter fuel word cp ;;
       Ok (if isPointOutsideHighlightedWord word x y
           then Range_collapse word else word,
           Some cp)
     else Ok (highlightWordRange st, None)) ;;
  let hl := invalidateBoundingClientRectangle (highlightLineRange st) in
  let '(outside, hl) := isPointOutsideHighlightedLine hl x y in
  if outside then
    let hl := collapse hl in
    let cp :=
      match caretPosition with
      | None => caretPositionFromPoint host x y
      | Some cp => cp
      end in
    hl <- setHighlightLineRange fuel hl cp y ;;
    let '(stillOutside, hl) := isPointOutsideHighlightedLine hl x y in
    Ok ({| highlightWordRange := word;
           highlightLineRange := if stillOutside then collapse hl else hl |},
        Some cp)
  else
    Ok ({| highlightWordRange := word; highlightLineRange := hl |},
        caretPosition).

Definition pointerLeaveHandler (st : State) : State :=
  {| highlightWordRange := Range_collapse (highlightWordRange st);
     highlightLineRange := collapse (highlightLineRange st) |}.

End Script.

End Recompute.


(** * Auxiliary definitions of the proofs *)

(** ** Measures on the tree *)

(** The number of nodes of a subtree. *)
Fixpoint size (n : Node) : nat :=
  match n with
  | ElementNode _ _ cs => S (list_sum (map size cs))
  | _ => 1
  end.

Definition sizeOfAll (l : list Node) : nat := list_sum (map size l).

Definition isElement (n : Node) : Prop :=
  match n with
  | ElementNode _ _ _ => True
  | _ => False
  end.

Section Weights.

Variable body : Node.

Definition sizeAt (p : NodeRef) : nat :=
  match resolve body p with
  | Some n => size n
  | None => 0
  end.

Definition childrenAt (q : NodeRef) : list Node :=
  match resolve body q with
  | Some (ElementNode _ _ cs) => cs
  | _ => []
  end.

(** The nodes that come after the subtree of [p], in document order. *)
Fixpoint weightAfter (p : NodeRef) : nat :=
  match p with
  | [] => 0
  | i :: q => sizeOfAll (skipn (S i) (childrenAt q)) + weightAfter q
  end.

(** The nodes that come before [p] and are not its ancestors. *)
Fixpoint weightBefore (p : NodeRef) : nat :=
  match p with
  | [] => 0
  | i :: q => sizeOfAll (firstn i (childrenAt q)) + weightBefore q
  end.

(** A reference to a text node with some text. *)
Definition nonEmptyText (p : NodeRef) : Prop :=
  exists d, resolve body p = Some (TextNode d) /\ d <> [].

End Weights.

(** ** What one expansion of the line range may change *)

(** The observable part of [highlightLineRange], common to both
    revisions: the range, the counter of checks and the log of probes. *)
Record View : Type := mkView {
  v_range : Range;
  v_checks : nat;
  v_log : list (NodeRef * nat)
}.

Inductive Side : Type := AtEnd | AtStart.

Definition movedBoundary (side : Side) (r : Range) : NodeRef * nat :=
  match side with
  | AtEnd => (endContainer r, endOffset r)
  | AtStart => (startContainer r, startOffset r)
  end.

Definition keptBoundary (side : Side) (r : Range) : NodeRef * nat :=
  match side with
  | AtEnd => (startContainer r, startOffset r)
  | AtStart => (endContainer r, endOffset r)
  end.

(** The boundary that includes the probed character [probe]. *)
Definition boundaryAt (side : Side) (probe : NodeRef * nat) : NodeRef * nat :=
  match side with
  | AtEnd => (fst probe, S (snd probe))
  | AtStart => probe
  end.

Section Growth.

Variable body : Node.
Variable budget : nat.

(** The probed character is there and is neither whitespace nor of
    zero width, and its node is one of [A]. *)
Definition probeOk (A : NodeRef -> Prop) (probe : NodeRef * nat) : Prop :=
  isWhitespaceOrZeroWidth
    (charAt (textContentOf body (fst probe)) (snd probe)) = false
  /\ A (fst probe).

(** [Grew side A v b v']: from [v] to [v'] some characters were probed,
    all of them [probeOk]; the counter grew by at most one per probe;
    the other boundary stayed; the boundary of [side] stayed or
    includes one of the probed characters; and an answer [b = true]
    means the counter grew and is within the budget. *)
Definition Grew (side : Side) (A : NodeRef -> Prop) (v : View) (b : bool)
  (v' : View) : Prop :=
  exists new,
    v_log v' = new ++ v_log v
    /\ (v_checks v <= v_checks v' <= v_checks v + length new)%nat
    /\ Forall (probeOk A) new
    /\ keptBoundary side (v_range v') = keptBoundary side (v_range v)
    /\ (movedBoundary side (v_range v') = movedBoundary side (v_range v)
        \/ exists probe,
             In probe new
             /\ movedBoundary side (v_range v') = boundaryAt side probe)
    /\ (b = true -> (v_checks v < v_checks v' <= budget)%nat).

End Growth.

Definition viewI (hl : Incremental.CachedLineRange) : View :=
  {| v_range := Incremental.range hl;
     v_checks := Incremental.linesSpannedChecks hl;
     v_log := Incremental.probeLog hl |}.

Definition viewR (hl : Recompute.CachedLineRange) : View :=
  {| v_range := Recompute.range hl;
     v_checks := Recompute.linesSpannedChecks hl;
     v_log := Recompute.probeLog hl |}.

(** Both boundaries of a range are in text nodes that have some text. *)
Definition anchored (body : Node) (r : Range) : Prop :=
  nonEmptyText body (startContainer r) /\ nonEmptyText body (endContainer r).

(** The hit-test never answers with an empty text node (the
    presupposition written in [setHighlightWordRange]), and the offset of a
    position is at most the length of its run. *)
Definition caretOnText (body : Node) (caretPosition : option CaretPosition)
  : Prop :=
  forall cp d,
    caretPosition = Some cp ->
    resolve body (offsetNode cp) = Some (TextNode d) ->
    d <> [] /\ (offset cp <= length d)%nat.




(** ** The word of the specification *)

Fixpoint takeWhile {A} (p : A -> bool) (l : list A) : list A :=
  match l with
  | [] => []
  | x :: l' => if p x then x :: takeWhile p l' else []
  end.

(** A word character, as a predicate on code units. *)
Definition isWordCode (isDelimiter : option codeunit -> bool) (c : codeunit)
  : bool :=
  negb (isDelimiter (Some c)).

Definition textOf (n : Node) : list codeunit :=
  match n with
  | TextNode t => t
  | _ => []
  end.

(** The text of the text nodes at the head of [l], up to the first node
    that is not a text node. *)
Fixpoint runOf (l : list Node) : list codeunit :=
  match l with
  | TextNode t :: l' => t ++ runOf l'
  | _ => []
  end.

(** The number of text nodes at the head of [l]. *)
Fixpoint textsIn (l : list Node) : nat :=
  match l with
  | TextNode _ :: l' => S (textsIn l')
  | _ => O
  end.

(** The text of the text nodes that come just before the child [i] of
    [cs], back to the first node that is not a text node. *)
Fixpoint runBefore (cs : list Node) (i : nat) : list codeunit :=
  match i with
  | O => []
  | S j =>
      match nth_error cs j with
      | Some (TextNode t) => runBefore cs j ++ t
      | _ => []
      end
  end.

(** The number of text nodes that come just before the child [i]. *)
Fixpoint textsBefore (cs : list Node) (i : nat) : nat :=
  match i with
  | O => O
  | S j =>
      match nth_error cs j with
      | Some (TextNode _) => S (textsBefore cs j)
      | _ => O
      end
  end.

(** All the text of the children [cs] before offset [o] of the child [j]. *)
Definition textBefore (cs : list Node) (j o : nat) : list codeunit :=
  concat (map textOf (firstn j cs))
  ++ firstn o (textOf (nth j cs (CommentNode []))).

(** The maximal run of word characters from offset [k] of the text child
    [i] on, through the sibling text runs that follow. *)
Definition wordAfter (isDelimiter : option codeunit -> bool) (cs : list Node)
  (i k : nat) : list codeunit :=
  takeWhile (isWordCode isDelimiter)
    (skipn k (textOf (nth i cs (CommentNode []))) ++ runOf (skipn (S i) cs)).

(** The maximal run of word characters that ends just before offset [k]
    of the text child [i], through the sibling text runs that precede. *)
Definition wordBefore (isDelimiter : option codeunit -> bool) (cs : list Node)
  (i k : nat) : list codeunit :=
  rev (takeWhile (isWordCode isDelimiter)
         (rev (runBefore cs i ++ firstn k (textOf (nth i cs (CommentNode [])))))).

(** ** Sample documents and layouts *)

(** [<body><p>runs</p></body>] *)
Definition paragraph (runs : list Node) : Node :=
  ElementNode 300 100 [ElementNode 300 20 runs].

Definition run (s : string) : Node := TextNode (str s).

(** The [i]-th run of a [paragraph]. *)
Definition runRef (i : nat) : NodeRef := [i; 0%nat].

(** The rectangle of the characters [from, to) of a line whose characters
    are all 10 wide and 20 tall. *)
Definition monoRect (from to : nat) : Rect :=
  {| left := 10 * Z.of_nat from; top := 0;
     right := 10 * Z.of_nat to; bottom := 20 |}.

(** A one-line layout of a paragraph with a single run: a range reports
    one rectangle, and a point hits the character whose box holds it. *)
Definition monoLine : Host :=
  {| Range_getClientRects :=
       fun r => [monoRect (startOffset r) (endOffset r)];
     Range_getBoundingClientRect :=
       fun r => monoRect (startOffset r) (endOffset r);
     caretPositionFromPoint :=
       fun x _ => Some (mkCaret (runRef 0) (Z.to_nat (x / 10))) |}.

(** The same line in an engine that reports every rectangle twice. *)
Definition monoLineTwice : Host :=
  {| Range_getClientRects :=
       fun r => [monoRect (startOffset r) (endOffset r);
                 monoRect (startOffset r) (endOffset r)];
     Range_getBoundingClientRect :=
       fun r => monoRect (startOffset r) (endOffset r);
     caretPositionFromPoint :=
       fun x _ => Some (mkCaret (runRef 0) (Z.to_nat (x / 10))) |}.

(** ** Statements about the ranges *)


(** The engine reports no rectangle with an area for a collapsed range. *)
Definition collapsedIsFlat (host : Host) : Prop :=
  forall r,
    collapsed r = true ->
    (forall rect, In rect (Range_getClientRects host r) ->
                  rectOccupiesSpace rect = false)
    /\ rectOccupiesSpace (Range_getBoundingClientRect host r) = false.

(** The point is inside one of the client rectangles of the word range,
    one that has an area. *)
Definition insideWord (host : Host) (word : Range) (x y : Z) : Prop :=
  exists rect,
    In rect (Range_getClientRects host word) /\ isInsideRect rect x y = true.

(** The point is inside the bounding rectangle of the line range, and the
    rectangle has an area. *)
Definition insideLine (host : Host) (line : Range) (x y : Z) : Prop :=
  isInsideRect (Range_getBoundingClientRect host line) x y = true.

(** A state of the script with the word "ab" and the line "ab cd" of a
    one-run paragraph highlighted. *)
Definition sampleStateI : Incremental.State :=
  {| Incremental.highlightWordRange := mkRange (runRef 0) 0 (runRef 0) 2;
     Incremental.highlightLineRange :=
       {| Incremental.range := mkRange (runRef 0) 0 (runRef 0) 5;
          Incremental.singleCharRange := mkRange (runRef 0) 4 (runRef 0) 5;
          Incremental.manualBoundingRectTop := 0;
          Incremental.manualBoundingRectBottom := 20;
          Incremental.minRectHeight := 20;
          Incremental.linesSpannedChecks := 3;
          Incremental.probeLog := [] |} |}.

Definition sampleStateR : Recompute.State :=
  {| Recompute.highlightWordRange := mkRange (runRef 0) 0 (runRef 0) 2;
     Recompute.highlightLineRange :=
       {| Recompute.range := mkRange (runRef 0) 0 (runRef 0) 5;
          Recompute.boundingClientRect := Some (monoRect 0 5);
          Recompute.linesSpannedChecks := 3;
          Recompute.probeLog := [] |} |}.

(** ** Statements about line resolution *)

(** The offset of the seed character: the offset of the position, or the
    last offset of the run when the position is at its end. *)
Definition seedOffsetOf (body : Node) (cp : CaretPosition) : nat :=
  Nat.min (offset cp) (length (textContentOf body (offsetNode cp)) - 1).

(** The one-character range that line resolution starts from. *)
Definition seedRange (body : Node) (cp : CaretPosition) : Range :=
  mkRange (offsetNode cp) (seedOffsetOf body cp)
    (offsetNode cp) (S (seedOffsetOf body cp)).

(** The seed passes the vertical containment check. *)
Definition seedOnLine (host : Host) (seed : Range) (mouseY : Z) : Prop :=
  height (Range_getBoundingClientRect host seed) <> 0
  /\ top (Range_getBoundingClientRect host seed) <= mouseY
  /\ mouseY <= bottom (Range_getBoundingClientRect host seed).

(** Two rectangles with an area that follow one another in the list and
    differ in position or size. *)
Definition twoDistinctInARow (rects : list Rect) : Prop :=
  exists l1 r1 r2 l2,
    rects = l1 ++ r1 :: r2 :: l2
    /\ rectOccupiesSpace r1 = true /\ rectOccupiesSpace r2 = true
    /\ (left r1 <> left r2 \/ top r1 <> top r2 \/ width r1 <> width r2
        \/ height r1 <> height r2).

(** A line whose engine reports, for every range, its rectangle on the
    line and a second one on the line below (the artifact after a
    hyphenation break). *)
Definition brokenLine : Host :=
  {| Range_getClientRects :=
       fun r => [monoRect (startOffset r) (endOffset r);
                 {| left := 0; top := 20; right := 10; bottom := 40 |}];
     Range_getBoundingClientRect :=
       fun r => monoRect (startOffset r) (endOffset r);
     caretPositionFromPoint :=
       fun x _ => Some (mkCaret (runRef 0) (Z.to_nat (x / 10))) |}.

(** A run of [n] letters "a". *)
Definition letters (n : nat) : Node := TextNode (repeat 97 n).

(** ** The single-line heuristic on a well-formed line *)

(** The vertical extent of a line: every box of the line starts between
    [bandTop] and [coreTop] and ends between [coreBottom] and
    [bandBottom]. On a line whose boxes all have the same top and bottom
    the band and the core are that top and bottom. *)
Record Band : Type := mkBand {
  bandTop : Z;
  coreTop : Z;
  coreBottom : Z;
  bandBottom : Z
}.

Definition onLine (b : Band) (r : Rect) : Prop :=
  bandTop b <= top r <= coreTop b /\ coreBottom b <= bottom r <= bandBottom b.

(** The part that all the boxes share, scaled by 1.73, is taller than the
    whole line. *)
Definition tightBand (b : Band) : Prop :=
  coreTop b < coreBottom b
  /\ 100 * (bandBottom b - bandTop b) < 173 * (coreBottom b - coreTop b).

(** The running bounds of the revision with running bounds are those of
    boxes of the line. *)
Definition boundsOnLine (b : Band) (hl : Incremental.CachedLineRange) : Prop :=
  bandTop b <= Incremental.manualBoundingRectTop hl <= coreTop b
  /\ coreBottom b <= Incremental.manualBoundingRectBottom hl <= bandBottom b
  /\ coreBottom b - coreTop b <= Incremental.minRectHeight hl.

(** The cached bounding rectangle, when there is one, is the one of the
    range. *)
Definition cacheCoherent (host : Host) (hl : Recompute.CachedLineRange) : Prop :=
  Recompute.boundingClientRect hl = None
  \/ Recompute.boundingClientRect hl
     = Some (Range_getBoundingClientRect host (Recompute.range hl)).

(** The range of the one character that ends at [off] in [node]. *)
Definition charRange (node : NodeRef) (off : nat) : Range :=
  mkRange node (off - 1) node off.

(** The range of the one character that starts at [off] in [node]. *)
Definition charRangeFrom (node : NodeRef) (off : nat) : Range :=
  mkRange node off node (S off).

(** The range [grown] that the growth by the character [single] would
    leave is on the line [b]: the box of the character is on the line,
    the client rectangles of [grown] that have an area are on the line,
    and its bounding rectangle is within the line. *)
Definition grownOnLine (host : Host) (b : Band) (single grown : Range)
  : Prop :=
  onLine b (Range_getBoundingClientRect host single)
  /\ (forall rect,
         In rect (Range_getClientRects host grown) ->
         rectOccupiesSpace rect = true -> onLine b rect)
  /\ bandTop b <= top (Range_getBoundingClientRect host grown)
  /\ bottom (Range_getBoundingClientRect host grown) <= bandBottom b.

(** The bounding rectangle of [grown] is not the one of [r]. *)
Definition rectangleGrew (host : Host) (r grown : Range) : Prop :=
  rectanglesAreEqual (Range_getBoundingClientRect host r)
    (Range_getBoundingClientRect host grown) = false.

(** Growing the end of [r] to [off] in [node] stays on a well-formed
    line, and makes the bounding rectangle grow when the check of it is
    asked for. *)
Definition wellFormedGrowth (host : Host) (b : Band) (r : Range)
  (node : NodeRef) (off : nat) (checkRectangleGrew : bool) : Prop :=
  tightBand b
  /\ grownOnLine host b (charRange node off) (Range_setEnd r node off)
  /\ (checkRectangleGrew = true ->
      rectangleGrew host r (Range_setEnd r node off)).

(** The same for the start of [r], grown to [off] in [node]. *)
Definition wellFormedGrowthStart (host : Host) (b : Band) (r : Range)
  (node : NodeRef) (off : nat) (checkRectangleGrew : bool) : Prop :=
  tightBand b
  /\ grownOnLine host b (charRangeFrom node off) (Range_setStart r node off)
  /\ (checkRectangleGrew = true ->
      rectangleGrew host r (Range_setStart r node off)).

(** The box [rect] of a character is on another line than the running
    bounds of [hl]: it ends at or above their top, or starts at or below
    their bottom. *)
Definition offTheBand (hl : Incremental.CachedLineRange) (rect : Rect)
  : Prop :=
  Incremental.manualBoundingRectTop hl <= Incremental.manualBoundingRectBottom hl
  /\ (bottom rect <= Incremental.manualBoundingRectTop hl
      \/ Incremental.manualBoundingRectBottom hl <= top rect).

(** The range [grown] is on two lines: it reports two boxes with an
    area, one above the other, inside its bounding rectangle. *)
Definition onTwoLines (host : Host) (grown : Range) : Prop :=
  exists upper lower,
    In upper (Range_getClientRects host grown)
    /\ In lower (Range_getClientRects host grown)
    /\ rectOccupiesSpace upper = true
    /\ rectOccupiesSpace lower = true
    /\ bottom upper <= top lower
    /\ top (Range_getBoundingClientRect host grown) <= top upper
    /\ bottom lower <= bottom (Range_getBoundingClientRect host grown).

(** The two revisions give the same answer to one growth of the end, and
    to one growth of the start. *)
Definition heuristicsAgree (host : Host) (hlI : Incremental.CachedLineRange)
  (hlR : Recompute.CachedLineRange) (node : NodeRef) (off : nat)
  (checkRectangleGrew : bool) : Prop :=
  fst (Incremental.tryToExpandEnd host hlI node off)
  = fst (Recompute.tryToExpandEnd host hlR node off checkRectangleGrew).

Definition heuristicsAgreeStart (host : Host)
  (hlI : Incremental.CachedLineRange) (hlR : Recompute.CachedLineRange)
  (node : NodeRef) (off : nat) (checkRectangleGrew : bool) : Prop :=
  fst (Incremental.tryToExpandStart host hlI node off)
  = fst (Recompute.tryToExpandStart host hlR node off checkRectangleGrew).

(** The line objects of the two revisions hold the same range of the
    line [b]: the running bounds of the one are those of boxes of the
    line, the cache of the other is empty or up to date. *)
Definition relatedStates (host : Host) (b : Band)
  (hlI : Incremental.CachedLineRange) (hlR : Recompute.CachedLineRange)
  : Prop :=
  Recompute.range hlR = Incremental.range hlI
  /\ boundsOnLine b hlI
  /\ cacheCoherent host hlR.

(** The line of [monoLine]: every box from 0 to 20. *)
Definition monoBand : Band :=
  {| bandTop := 0; coreTop := 0; coreBottom := 20; bandBottom := 20 |}.

(** The line range "ab" of a one-run paragraph after [n] checks, in both
    revisions. *)
Definition lineAfterI (n : nat) : Incremental.CachedLineRange :=
  {| Incremental.range := mkRange (runRef 0) 0 (runRef 0) 2;
     Incremental.singleCharRange := mkRange (runRef 0) 1 (runRef 0) 2;
     Incremental.manualBoundingRectTop := 0;
     Incremental.manualBoundingRectBottom := 20;
     Incremental.minRectHeight := 20;
     Incremental.linesSpannedChecks := n;
     Incremental.probeLog := [] |}.

Definition lineAfterR (n : nat) : Recompute.CachedLineRange :=
  {| Recompute.range := mkRange (runRef 0) 0 (runRef 0) 2;
     Recompute.boundingClientRect := None;
     Recompute.linesSpannedChecks := n;
     Recompute.probeLog := [] |}.

(** The line range "cd" of the run "abcd..." after [n] checks, in both
    revisions: a range whose start can grow. *)
Definition lineFromI (n : nat) : Incremental.CachedLineRange :=
  {| Incremental.range := mkRange (runRef 0) 2 (runRef 0) 4;
     Incremental.singleCharRange := mkRange (runRef 0) 2 (runRef 0) 3;
     Incremental.manualBoundingRectTop := 0;
     Incremental.manualBoundingRectBottom := 20;
     Incremental.minRectHeight := 20;
     Incremental.linesSpannedChecks := n;
     Incremental.probeLog := [] |}.

Definition lineFromR (n : nat) : Recompute.CachedLineRange :=
  {| Recompute.range := mkRange (runRef 0) 2 (runRef 0) 4;
     Recompute.boundingClientRect := None;
     Recompute.linesSpannedChecks := n;
     Recompute.probeLog := [] |}.


(** ** The expansion of line resolution and its last test *)






(** A line with a tall letter: the paragraph [ab<big>C</big>], whose
    run "ab" has boxes from 59 to 159 and whose letter "C" has the box
    from 0 to 174, all on one line. A range within one node reports the
    rectangle of its characters; a range from "ab" into "C" reports the
    two, and their hull as its bounding rectangle. *)
Definition tallRef : NodeRef := [0%nat; 1%nat; 0%nat].

Definition smallBox (from to : nat) : Rect :=
  {| left := 10 * Z.of_nat from; top := 59;
     right := 10 * Z.of_nat to; bottom := 159 |}.

Definition tallBox : Rect :=
  {| left := 20; top := 0; right := 37; bottom := 174 |}.

Definition tallLetterLine : Host :=
  {| Range_getClientRects :=
       fun r =>
         if sameNode (startContainer r) (endContainer r)
         then [if sameNode (startContainer r) tallRef then tallBox
               else smallBox (startOffset r) (endOffset r)]
         else [smallBox (startOffset r) 2; tallBox];
     Range_getBoundingClientRect :=
       fun r =>
         if sameNode (startContainer r) (endContainer r)
         then if sameNode (startContainer r) tallRef then tallBox
              else smallBox (startOffset r) (endOffset r)
         else {| left := 10 * Z.of_nat (startOffset r); top := 0;
                 right := 37; bottom := 174 |};
     caretPositionFromPoint := fun _ _ => None |}.

(** The line of [tallLetterLine]: the boxes share the core from 59 to
    159 and lie between 0 and 174. *)
Definition tallBand : Band :=
  {| bandTop := 0; coreTop := 59; coreBottom := 159; bandBottom := 174 |}.

(** The line range "ab" of [tallLetterLine] after two checks, in both
    revisions. *)
Definition beforeTallI : Incremental.CachedLineRange :=
  {| Incremental.range := mkRange (runRef 0) 0 (runRef 0) 2;
     Incremental.singleCharRange := mkRange (runRef 0) 0 (runRef 0) 1;
     Incremental.manualBoundingRectTop := 59;
     Incremental.manualBoundingRectBottom := 159;
     Incremental.minRectHeight := 100;
     Incremental.linesSpannedChecks := 2;
     Incremental.probeLog := [] |}.

Definition beforeTallR : Recompute.CachedLineRange :=
  {| Recompute.range := mkRange (runRef 0) 0 (runRef 0) 2;
     Recompute.boundingClientRect := None;
     Recompute.linesSpannedChecks := 2;
     Recompute.probeLog := [] |}.

(** A paragraph whose run wraps after its second character: the
    characters 0 and 1 are on a first line, from 0 to 20, and those that
    follow on a second line, from 20 to 40. A range on one line reports
    its rectangle there; a range over the wrap reports one rectangle on
    each line, and their hull as its bounding rectangle. *)
Definition secondLineRect (from to : nat) : Rect :=
  {| left := 10 * (Z.of_nat from - 2); top := 20;
     right := 10 * (Z.of_nat to - 2); bottom := 40 |}.

Definition wrappedLine : Host :=
  {| Range_getClientRects :=
       fun r =>
         if (endOffset r <=? 2)%nat
         then [monoRect (startOffset r) (endOffset r)]
         else if (2 <=? startOffset r)%nat
              then [secondLineRect (startOffset r) (endOffset r)]
              else [monoRect (startOffset r) 2;
                    secondLineRect 2 (endOffset r)];
     Range_getBoundingClientRect :=
       fun r =>
         if (endOffset r <=? 2)%nat
         then monoRect (startOffset r) (endOffset r)
         else if (2 <=? startOffset r)%nat
              then secondLineRect (startOffset r) (endOffset r)
              else {| left := 0; top := 0;
                      right := Z.max 20 (10 * (Z.of_nat (endOffset r) - 2));
                      bottom := 40 |};
     caretPositionFromPoint := fun _ _ => None |}.

(** ** Statements about the steps of line expansion *)

(** What an answer of an update adds to the count of refused growth
    attempts. *)
Definition refusals (b : bool) : nat := if b then 0%nat else 1%nat.

(** The line object of the revision that recomputes, right after the
    seed was set and measured: the seed range, its bounding rectangle in
    the cache, the counter and the log as they were. *)
Definition seedLine (host : Host) (body : Node)
  (hl : Recompute.CachedLineRange) (cp : CaretPosition)
  : Recompute.CachedLineRange :=
  {| Recompute.range := seedRange body cp;
     Recompute.boundingClientRect :=
       Some (Range_getBoundingClientRect host (seedRange body cp));
     Recompute.linesSpannedChecks := Recompute.linesSpannedChecks hl;
     Recompute.probeLog := Recompute.probeLog hl |}.

(** [hl'] has logged at most [n] growth attempts more than [hl]. *)
Definition probedAtMostI (n : nat) (hl hl' : Incremental.CachedLineRange)
  : Prop :=
  exists new,
    Incremental.probeLog hl' = new ++ Incremental.probeLog hl
    /\ (length new <= n)%nat.

Definition probedAtMostR (n : nat) (hl hl' : Recompute.CachedLineRange)
  : Prop :=
  exists new,
    Recompute.probeLog hl' = new ++ Recompute.probeLog hl
    /\ (length new <= n)%nat.

(** The running bounds of the revision with running bounds, relative to
    the bounding rectangle [seed] of the seed character: the band holds
    the seed, the minimum height is positive and at most the height of
    the seed, and the band is less than 1.75 times the minimum height. *)
Definition bandAround (seed : Rect) (hl : Incremental.CachedLineRange)
  : Prop :=
  Incremental.manualBoundingRectTop hl <= top seed
  /\ bottom seed <= Incremental.manualBoundingRectBottom hl
  /\ 0 < Incremental.minRectHeight hl <= height seed
  /\ 100 * (Incremental.manualBoundingRectBottom hl
            - Incremental.manualBoundingRectTop hl)
     < 175 * Incremental.minRectHeight hl.

(** The running bounds and the minimum height are those of [hl]. *)
Definition sameBounds (hl hl' : Incremental.CachedLineRange) : Prop :=
  Incremental.manualBoundingRectTop hl' = Incremental.manualBoundingRectTop hl
  /\ Incremental.manualBoundingRectBottom hl'
     = Incremental.manualBoundingRectBottom hl
  /\ Incremental.minRectHeight hl' = Incremental.minRectHeight hl.

(** ** Statements about the pointer handlers *)

(** The hit-test at the point answers no position, or a position in a
    node that is not a text node. *)
Definition hitsNoText (body : Node) (host : Host) (x y : Z) : Prop :=
  match caretPositionFromPoint host x y with
  | None => True
  | Some cp => isTextNode body (Some (offsetNode cp)) = false
  end.

(** ** The visible text nodes of a subtree *)

Section TextsAmong.

Variable texts : Node -> NodeRef -> list NodeRef.
Variable self : NodeRef.

(** The visible text nodes below the children [l] of [self] that occupy
    space, [i] being the index of the head of [l]. *)
Fixpoint textsAmongChildren (l : list Node) (i : nat) : list NodeRef :=
  match l with
  | [] => []
  | childNode :: l' =>
      (if occupiesSpace childNode then texts childNode (i :: self) else [])
      ++ textsAmongChildren l' (S i)
  end.

End TextsAmong.

(** The text nodes with some text of the subtree of [root], in document
    order, leaving out what is below a child element without an area:
    the specification of the two searches [getNextTextNode] and
    [getLastNonEmptyTextNode], which is not a function of the scripts. *)
Fixpoint visibleTexts (root : Node) (self : NodeRef) : list NodeRef :=
  match root with
  | TextNode d => if isEmpty d then [] else [self]
  | CommentNode _ => []
  | ElementNode _ _ cs => textsAmongChildren visibleTexts self cs 0%nat
  end.

(** Every node from [t] up to [top], [top] left out, occupies space. *)
Definition visibleBelow (body : Node) (top t : NodeRef) : Prop :=
  exists l,
    t = l ++ top
    /\ forall l1 l2,
         l = l1 ++ l2 -> l2 <> [] -> occupiesSpaceAt body (l2 ++ top) = true.

(** ** The page around the script: turning the extension on and off *)

(** What the immediately invoked function of the injected script does
    to the page outside its two ranges: the window property that holds
    its callbacks, the event listeners, the registry of highlights and
    the custom properties of the root element. *)

(** [document] and [document.body] as event targets: the two objects
    that the scripts add listeners to. *)
Inductive EventTarget : Type := TargetDocument | TargetBody.

Inductive EventType : Type := Pointermove | Pointerleave.

(** The node that an event is dispatched at: [document], the root
    element, [document.body], or a node below the body (the element
    under the pointer, most of the time). *)
Inductive EventOrigin : Type := AtDocument | AtRoot | AtBody | BelowBody.

(** [pointermove] bubbles, [pointerleave] does not. *)
Definition bubbles (type : EventType) : bool :=
  match type with
  | Pointermove => true
  | Pointerleave => false
  end.

(** The event path of an event dispatched at [origin], from the target
    up to [document], cut down to the objects that hold listeners in
    this model. *)
Definition eventPath (origin : EventOrigin) : list EventTarget :=
  match origin with
  | AtDocument | AtRoot => [TargetDocument]
  | AtBody | BelowBody => [TargetBody; TargetDocument]
  end.

(** The target itself, when it is one of the two objects. *)
Definition targetOf (origin : EventOrigin) : list EventTarget :=
  match origin with
  | AtDocument => [TargetDocument]
  | AtBody => [TargetBody]
  | AtRoot | BelowBody => []
  end.

(** A callback is a closure of one run of the script: [run] is the
    index of that run among the runs that turned the extension on. *)
Inductive Callback : Type :=
| PointerMoveHandlerOf (run : nat)
| PointerLeaveHandlerOf (run : nat).

Record Listener : Type := mkListener {
  l_target : EventTarget;
  l_type : EventType;
  l_callback : Callback
}.

(** The range objects of a run, as members of a [Highlight]. *)
Inductive RangeObject : Type :=
| WordRangeOf (run : nat)
| LineRangeOf (run : nat).

(** [window.hoverHighlighterArgs]; a field that is [undefined] or [null]
    is [None]. *)
Record Args : Type := mkArgs {
  lineBackgroundColor : option string;
  lineTextColor : option string;
  wordBackgroundColor : option string;
  wordTextColor : option string
}.

(** The calls made on [document.documentElement.style]. *)
Inductive StyleCall : Type :=
| SetProperty (name : string) (value : option string)
| RemoveProperty (name : string).

Definition CSS_HIGHLIGHT_WORD_KEY : string := "hover-highlighter_word".
Definition CSS_HIGHLIGHT_LINE_KEY : string := "hover-highlighter_line".

Section Page.

(** The variables that the closures of a run capture: the two ranges. *)
Variable ScriptState : Type.

(** [hoverHighlighterInfo] is [window.hoverHighlighterInfo]: the run
    whose two callbacks the object holds. [styleCalls] has the latest
    call first. [runs] holds the state of each run that went as far as
    creating its ranges. *)
Record Page : Type := mkPage {
  hoverHighlighterInfo : option nat;
  hoverHighlighterArgs : option Args;
  listeners : list Listener;
  highlights : list (string * list RangeObject);
  styleCalls : list StyleCall;
  runs : list ScriptState
}.

Definition sameCallback (a b : Callback) : bool :=
  match a, b with
  | PointerMoveHandlerOf r, PointerMoveHandlerOf r' => (r =? r')%nat
  | PointerLeaveHandlerOf r, PointerLeaveHandlerOf r' => (r =? r')%nat
  | _, _ => false
  end.

Definition sameTarget (a b : EventTarget) : bool :=
  match a, b with
  | TargetDocument, TargetDocument | TargetBody, TargetBody => true
  | _, _ => false
  end.

Definition sameType (a b : EventType) : bool :=
  match a, b with
  | Pointermove, Pointermove | Pointerleave, Pointerleave => true
  | _, _ => false
  end.

Definition sameListener (a b : Listener) : bool :=
  sameTarget (l_target a) (l_target b) && sameType (l_type a) (l_type b)
  && sameCallback (l_callback a) (l_callback b).

(** [target.addEventListener(type, callback)]: nothing is added when
    the target has the same listener already. *)
Definition addEventListener (ls : list Listener) (l : Listener)
  : list Listener :=
  if existsb (sameListener l) ls then ls else ls ++ [l].

(** [target.removeEventListener(type, callback)] *)
Fixpoint removeEventListener (ls : list Listener) (l : Listener)
  : list Listener :=
  match ls with
  | [] => []
  | l' :: ls' =>
      if sameListener l l' then ls' else l' :: removeEventListener ls' l
  end.

(** [CSS.highlights.set(key, value)]: a map that keeps the order of
    insertion; a key that is there keeps its place. *)
Fixpoint highlights_set (m : list (string * list RangeObject)) (key : string)
  (value : list RangeObject) : list (string * list RangeObject) :=
  match m with
  | [] => [(key, value)]
  | (k, v) :: m' =>
      if String.eqb k key then (k, value) :: m'
      else (k, v) :: highlights_set m' key value
  end.

(** [CSS.highlights.delete(key)] *)
Fixpoint highlights_delete (m : list (string * list RangeObject))
  (key : string) : list (string * list RangeObject) :=
  match m with
  | [] => []
  | (k, v) :: m' =>
      if String.eqb k key then m' else (k, v) :: highlights_delete m' key
  end.

Fixpoint highlights_get (m : list (string * list RangeObject)) (key : string)
  : option (list RangeObject) :=
  match m with
  | [] => None
  | (k, v) :: m' => if String.eqb k key then Some v else highlights_get m' key
  end.

(** The state of run [r] after [f]. *)
Fixpoint updateRun (rs : list ScriptState) (r : nat)
  (f : ScriptState -> ScriptState) : list ScriptState :=
  match rs, r with
  | [], _ => []
  | s :: rs', O => f s :: rs'
  | s :: rs', S r' => s :: updateRun rs' r' f
  end.

(** What differs between the two revisions of the script: the event
    target of the listeners, the state of a new run, its
    [pointerLeaveHandler], and how a colour is written. *)
Variable target : EventTarget.
Variable initialState : ScriptState.
Variable pointerLeaveHandler : ScriptState -> ScriptState.
Variable writeColor : string -> option string -> StyleCall.

(** The injected script, from its first line to its [return]. The
    answer is [Some b] for [return b] and [None] for the [TypeError] of
    reading a property of [hoverHighlighterArgs] when it is [undefined];
    what was done before the exception stays done. *)
Definition injectedScript (page : Page) : Page * option bool :=
  match hoverHighlighterInfo page with
  | Some run =>
      (* Turning off. *)
      let ls :=
        removeEventListener (listeners page)
          (mkListener target Pointermove (PointerMoveHandlerOf run)) in
      let ls :=
        removeEventListener ls
          (mkListener target Pointerleave (PointerLeaveHandlerOf run)) in
      let rs := updateRun (runs page) run pointerLeaveHandler in
      let hs := highlights_delete (highlights page) CSS_HIGHLIGHT_WORD_KEY in
      let hs := highlights_delete hs CSS_HIGHLIGHT_LINE_KEY in
      ({| hoverHighlighterInfo := None;
          hoverHighlighterArgs := hoverHighlighterArgs page;
          listeners := ls; highlights := hs;
          styleCalls := styleCalls page; runs := rs |},
       Some false)
  | None =>
      (* Turning on: the ranges and the callbacks of this run. *)
      let run := length (runs page) in
      let rs := runs page ++ [initialState] in
      let hs :=
        highlights_set (highlights page) CSS_HIGHLIGHT_LINE_KEY
          [LineRangeOf run] in
      let hs := highlights_set hs CSS_HIGHLIGHT_WORD_KEY [WordRangeOf run] in
      let ls :=
        addEventListener (listeners page)
          (mkListener target Pointermove (PointerMoveHandlerOf run)) in
      let ls :=
        addEventListener ls
          (mkListener target Pointerleave (PointerLeaveHandlerOf run)) in
      match hoverHighlighterArgs page with
      | None =>
          ({| hoverHighlighterInfo := None; hoverHighlighterArgs := None;
              listeners := ls; highlights := hs;
              styleCalls := styleCalls page; runs := rs |},
           None)
      | Some args =>
          let calls :=
            [writeColor "--hover_highlighter-word_text_color"
               (wordTextColor args);
             writeColor "--hover_highlighter-word_background_color"
               (wordBackgroundColor args);
             writeColor "--hover_highlighter-line_text_color"
               (lineTextColor args);
             writeColor "--hover_highlighter-line_background_color"
               (lineBackgroundColor args)] in
          ({| hoverHighlighterInfo := Some run;
              hoverHighlighterArgs := Some args;
              listeners := ls; highlights := hs;
              styleCalls := calls ++ styleCalls page; runs := rs |},
           Some true)
      end
  end.

(** The listeners of one object of the event path for [type] are
    invoked in order, each on the state of its run; [move] is the
    pointer-move handler of the revision on a document and a layout. A
    handler that throws or runs out of fuel ends the dispatch with that
    answer. *)
Variable move : ScriptState -> PointerEvent -> result ScriptState.

Definition invoke (cb : Callback) (event : PointerEvent)
  (rs : list ScriptState) : result (list ScriptState) :=
  match cb with
  | PointerLeaveHandlerOf r => Ok (updateRun rs r pointerLeaveHandler)
  | PointerMoveHandlerOf r =>
      match nth_error rs r with
      | None => Ok rs
      | Some s => s' <- move s event ;; Ok (updateRun rs r (fun _ => s'))
      end
  end.

Fixpoint invokeAll (ls : list Listener) (on : EventTarget) (type : EventType)
  (event : PointerEvent) (rs : list ScriptState)
  : result (list ScriptState) :=
  match ls with
  | [] => Ok rs
  | l :: ls' =>
      if sameTarget (l_target l) on && sameType (l_type l) type
      then rs' <- invoke (l_callback l) event rs ;;
           invokeAll ls' on type event rs'
      else invokeAll ls' on type event rs
  end.

(** The objects of [path] in turn, the target first. *)
Fixpoint invokeAlong (ls : list Listener) (path : list EventTarget)
  (type : EventType) (event : PointerEvent) (rs : list ScriptState)
  : result (list ScriptState) :=
  match path with
  | [] => Ok rs
  | on :: path' =>
      rs' <- invokeAll ls on type event rs ;;
      invokeAlong ls path' type event rs'
  end.

(** The dispatch of an event at [origin]. None of the listeners was
    added with [capture], so they run on the target and, when the event
    bubbles, on its ancestors after it, the nearest first; an event that
    does not bubble runs the listeners of its target alone. *)
Definition dispatch (page : Page) (origin : EventOrigin) (type : EventType)
  (event : PointerEvent) : result (list ScriptState) :=
  invokeAlong (listeners page)
    (if bubbles type then eventPath origin else targetOf origin)
    type event (runs page).

(** Every listener and the window property refer to runs that exist. *)
Definition callbackRun (cb : Callback) : nat :=
  match cb with
  | PointerMoveHandlerOf r | PointerLeaveHandlerOf r => r
  end.

Definition wellFormedPage (page : Page) : Prop :=
  (forall l, In l (listeners page) ->
             (callbackRun (l_callback l) < length (runs page))%nat)
  /\ (forall r, hoverHighlighterInfo page = Some r ->
                (r < length (runs page))%nat).

End Page.

Arguments mkPage {ScriptState}.
Arguments hoverHighlighterInfo {ScriptState}.
Arguments hoverHighlighterArgs {ScriptState}.
Arguments listeners {ScriptState}.
Arguments highlights {ScriptState}.
Arguments styleCalls {ScriptState}.
Arguments runs {ScriptState}.
Arguments updateRun {ScriptState}.
Arguments injectedScript {ScriptState}.
Arguments invoke {ScriptState}.
Arguments invokeAll {ScriptState}.
Arguments invokeAlong {ScriptState}.
Arguments dispatch {ScriptState}.
Arguments wellFormedPage {ScriptState}.

(** [updateProperty(propertyName, propertyValue)] of the revision with
    running bounds. *)
Definition updateProperty (propertyName : string)
  (propertyValue : option string) : StyleCall :=
  match propertyValue with
  | None => RemoveProperty propertyName
  | Some _ => SetProperty propertyName propertyValue
  end.

(** The script of the revision with running bounds listens on
    [document] and writes the colours with [updateProperty]. *)
Definition Incremental_injectedScript
  : Page Incremental.State -> Page Incremental.State * option bool :=
  injectedScript TargetDocument Incremental.initialState
    Incremental.pointerLeaveHandler updateProperty.

(** The script of the revision that recomputes listens on
    [document.body] and calls [setProperty] for every colour. *)
Definition Recompute_injectedScript
  : Page Recompute.State -> Page Recompute.State * option bool :=
  injectedScript TargetBody Recompute.initialState
    Recompute.pointerLeaveHandler SetProperty.

(** The pointer-move handler of a revision as a listener: its effect on
    the state of its run. *)
Definition Incremental_move (body : Node) (host : Host) (fuel : nat)
  (st : Incremental.State) (event : PointerEvent)
  : result Incremental.State :=
  '(st', _) <- Incremental.pointerMoveHandler body host fuel st event ;;
  Ok st'.

Definition Recompute_move (body : Node) (host : Host) (fuel : nat)
  (st : Recompute.State) (event : PointerEvent) : result Recompute.State :=
  '(st', _) <- Recompute.pointerMoveHandler body host fuel st event ;;
  Ok st'.

Definition Incremental_dispatch (body : Node) (host : Host) (fuel : nat) :=
  dispatch Incremental.pointerLeaveHandler (Incremental_move body host fuel).

Definition Recompute_dispatch (body : Node) (host : Host) (fuel : nat) :=
  dispatch Recompute.pointerLeaveHandler (Recompute_move body host fuel).

(** The script run [n] times in a row; the answers, first run first. *)
Fixpoint runTimes {St : Type} (script : Page St -> Page St * option bool)
  (n : nat) (page : Page St) : Page St * list (option bool) :=
  match n with
  | O => (page, [])
  | S n' =>
      let '(page1, answer) := script page in
      let '(page2, answers) := runTimes script n' page1 in
      (page2, answer :: answers)
  end.

(** No highlight is registered under the two names of the script. *)
Definition namesFree {St : Type} (page : Page St) : Prop :=
  highlights_get (highlights page) CSS_HIGHLIGHT_LINE_KEY = None
  /\ highlights_get (highlights page) CSS_HIGHLIGHT_WORD_KEY = None.

(** The two listeners of run [n] on [target]. *)
Definition listenersOf (target : EventTarget) (n : nat) : list Listener :=
  [mkListener target Pointermove (PointerMoveHandlerOf n);
   mkListener target Pointerleave (PointerLeaveHandlerOf n)].

(** The two highlights of run [n], the line first. *)
Definition highlightsOf (n : nat) : list (string * list RangeObject) :=
  [(CSS_HIGHLIGHT_LINE_KEY, [LineRangeOf n]);
   (CSS_HIGHLIGHT_WORD_KEY, [WordRangeOf n])].

(** The page is off and ready to be turned on: the window property is
    not set, the arguments are, and the two names are free. *)
Definition readyToTurnOn {St : Type} (page : Page St) (args : Args) : Prop :=
  wellFormedPage page
  /\ hoverHighlighterInfo page = None
  /\ hoverHighlighterArgs page = Some args
  /\ namesFree page.

(** One run of [script] turns the page on and the next one turns it off
    again. *)
Definition togglesOnAndOff {St : Type}
  (script : Page St -> Page St * option bool) (target : EventTarget)
  (initialState : St) (pointerLeaveHandler : St -> St)
  (writeColor : string -> option string -> StyleCall)
  (page : Page St) (args : Args) : Prop :=
  let n := length (runs page) in
  let on := fst (script page) in
  let off := fst (script on) in
  snd (script page) = Some true
  /\ snd (script on) = Some false
  /\ hoverHighlighterInfo on = Some n
  /\ listeners on = listeners page ++ listenersOf target n
  /\ highlights on = highlights page ++ highlightsOf n
  /\ runs on = runs page ++ [initialState]
  /\ styleCalls on
     = [writeColor "--hover_highlighter-word_text_color"%string (wordTextColor args);
        writeColor "--hover_highlighter-word_background_color"%string
          (wordBackgroundColor args);
        writeColor "--hover_highlighter-line_text_color"%string (lineTextColor args);
        writeColor "--hover_highlighter-line_background_color"%string
          (lineBackgroundColor args)] ++ styleCalls page
  /\ listeners off = listeners page
  /\ highlights off = highlights page
  /\ runs off = runs page ++ [pointerLeaveHandler initialState]
  /\ styleCalls off = styleCalls on
  /\ readyToTurnOn off args.

(** Arguments with two colours missing, and a page that is off. *)
Definition partialArgs : Args :=
  mkArgs (Some "#ADD8E6"%string) (Some "black"%string) None None.

Definition freshPage {St : Type} (args : option Args) : Page St :=
  mkPage None args [] [] [] [].

(** ** The service worker *)

(** A tab as the service worker sees it: its URL ([None] when the
    browser does not show it to the extension, [tab.url] is then
    [undefined]), its page, the style sheets that the extension
    inserted, and the title and the badge text of the action for the tab
    ([None]: the title of the manifest). *)
Record Tab (St : Type) : Type := mkTab {
  url : option string;
  tabPage : Page St;
  insertedCSS : list string;
  title : option string;
  badgeText : string
}.
Arguments mkTab {St}.
Arguments url {St}.
Arguments tabPage {St}.
Arguments insertedCSS {St}.
Arguments title {St}.
Arguments badgeText {St}.

(** The colours that [src/src/service-worker.js] passes to the page,
    and those of the service worker at the head of the revision with
    running bounds. *)
Definition serviceWorkerArgs : Args :=
  mkArgs (Some "#ADD8E6"%string) (Some "black"%string)
    (Some "#FDE97D"%string) (Some "black"%string).

Definition serviceWorkerArgs_rgba : Args :=
  mkArgs (Some "rgba(173, 216, 230, 1)"%string) (Some "black"%string)
    (Some "rgba(253, 233, 125, 1)"%string) (Some "black"%string).

(** [chrome.scripting.removeCSS]: one style sheet of the file is taken
    out. *)
Fixpoint removeCSS (css : list string) (file : string) : list string :=
  match css with
  | [] => []
  | f :: css' => if String.eqb f file then css' else f :: removeCSS css' file
  end.

(** What [executeScript] gives the service worker when the injected
    script throws is the browser's business: the promise is rejected, or
    it is fulfilled with a result that is not there. *)
Inductive ThrowPolicy : Type := PromiseRejected | ResultMissing.

(** The calls that the service worker makes on the browser. *)
Inductive ApiCall : Type :=
| ExecuteScript | InsertCSS | RemoveCSS | SetTitle | SetBadgeText.

(** How the promise of the listener settles. *)
Inductive Settled : Type := Fulfilled | Rejected.

Section ServiceWorker.

Variable St : Type.
Variable policy : ThrowPolicy.

(** Whether the browser carries out a call on a tab or rejects its
    promise, as it does for [executeScript] on a page that extensions
    may not script. *)
Variable carriesOut : ApiCall -> Tab St -> bool.

(** The arguments that the first [executeScript] assigns to
    [window.hoverHighlighterArgs]; [None] for the service worker that
    injects the script alone. *)
Variable assigned : option Args.

(** The injected script, [injected.js]. *)
Variable script : Page St -> Page St * option bool.

Definition withPage (tab : Tab St) (page : Page St) : Tab St :=
  {| url := url tab; tabPage := page; insertedCSS := insertedCSS tab;
     title := title tab; badgeText := badgeText tab |}.

Definition insertCSS (tab : Tab St) : Tab St :=
  {| url := url tab; tabPage := tabPage tab;
     insertedCSS := "injected.css"%string :: insertedCSS tab;
     title := title tab; badgeText := badgeText tab |}.

Definition removeInjectedCSS (tab : Tab St) : Tab St :=
  {| url := url tab; tabPage := tabPage tab;
     insertedCSS := removeCSS (insertedCSS tab) "injected.css";
     title := title tab; badgeText := badgeText tab |}.

Definition setTitle (text : string) (tab : Tab St) : Tab St :=
  {| url := url tab; tabPage := tabPage tab; insertedCSS := insertedCSS tab;
     title := Some text; badgeText := badgeText tab |}.

Definition setBadgeText (text : string) (tab : Tab St) : Tab St :=
  {| url := url tab; tabPage := tabPage tab; insertedCSS := insertedCSS tab;
     title := title tab; badgeText := text |}.

(** [await Promise.all([...])] of three calls: the three are made
    before anything is awaited, each one that the browser carries out
    has its effect, and the promise is rejected as soon as one of them
    is. *)
Definition promiseAll (calls : list (ApiCall * (Tab St -> Tab St)))
  (tab : Tab St) : Tab St * Settled :=
  (fold_left
     (fun t call => if carriesOut (fst call) tab then snd call t else t)
     calls tab,
   if forallb (fun call => carriesOut (fst call) tab) calls
   then Fulfilled else Rejected).

Definition turnedOn : list (ApiCall * (Tab St -> Tab St)) :=
  [(InsertCSS, insertCSS);
   (SetTitle, setTitle "Hover Highlighter (ON)");
   (SetBadgeText, setBadgeText "ON")].

Definition turnedOff : list (ApiCall * (Tab St -> Tab St)) :=
  [(RemoveCSS, removeInjectedCSS);
   (SetTitle, setTitle "Hover Highlighter (OFF)");
   (SetBadgeText, setBadgeText "")].

(** The first [executeScript], of the service worker that passes the
    colours: [window.hoverHighlighterArgs = args]. *)
Definition assignArgs (tab : Tab St) : Tab St * Settled :=
  match assigned with
  | None => (tab, Fulfilled)
  | Some args =>
      if carriesOut ExecuteScript tab
      then (withPage tab
              {| hoverHighlighterInfo := hoverHighlighterInfo (tabPage tab);
                 hoverHighlighterArgs := Some args;
                 listeners := listeners (tabPage tab);
                 highlights := highlights (tabPage tab);
                 styleCalls := styleCalls (tabPage tab);
                 runs := runs (tabPage tab) |},
            Fulfilled)
      else (tab, Rejected)
  end.

(** The listener of [chrome.action.onClicked]: the tab after it, and
    how its promise settles. Reading [startsWith] of a URL that is
    [undefined] is a [TypeError]; a call that the browser rejects, or
    an injected script that throws when the browser then rejects
    [executeScript], ends the listener where it is. *)
Definition onClicked (tab : Tab St) : Tab St * Settled :=
  match url tab with
  | None => (tab, Rejected)
  | Some address =>
      if String.prefix "chrome://" address then (tab, Fulfilled)
      else
        match assignArgs tab with
        | (tab, Rejected) => (tab, Rejected)
        | (tab, Fulfilled) =>
            if carriesOut ExecuteScript tab then
              match script (tabPage tab) with
              | (page, Some true) => promiseAll turnedOn (withPage tab page)
              | (page, Some false) => promiseAll turnedOff (withPage tab page)
              | (page, None) =>
                  match policy with
                  | PromiseRejected => (withPage tab page, Rejected)
                  | ResultMissing => promiseAll turnedOff (withPage tab page)
                  end
              end
            else (tab, Rejected)
        end
  end.

End ServiceWorker.

Arguments withPage {St}.
Arguments insertCSS {St}.
Arguments removeInjectedCSS {St}.
Arguments setTitle {St}.
Arguments setBadgeText {St}.
Arguments promiseAll {St}.
Arguments turnedOn {St}.
Arguments turnedOff {St}.
Arguments assignArgs {St}.
Arguments onClicked {St}.

(** The browser carries out every call of the extension on the tabs
    that show the URL of [tab]. *)
Definition scriptable {St : Type} (carriesOut : ApiCall -> Tab St -> bool)
  (tab : Tab St) : Prop :=
  forall call tab', url tab' = url tab -> carriesOut call tab' = true.

(** The page says on, and so do the badge, the title and the style
    sheet; or the page says off, and so do the badge and the title. *)
Definition inSync {St : Type} (tab : Tab St) : Prop :=
  (hoverHighlighterInfo (tabPage tab) <> None
   /\ badgeText tab = "ON"%string
   /\ title tab = Some "Hover Highlighter (ON)"%string
   /\ In "injected.css"%string (insertedCSS tab))
  \/ (hoverHighlighterInfo (tabPage tab) = None
      /\ badgeText tab = ""%string
      /\ title tab = Some "Hover Highlighter (OFF)"%string).

(** The page of a tab with [args] assigned to
    [window.hoverHighlighterArgs]. *)
Definition withArgs {St : Type} (page : Page St) (args : Args) : Page St :=
  {| hoverHighlighterInfo := hoverHighlighterInfo page;
     hoverHighlighterArgs := Some args;
     listeners := listeners page;
     highlights := highlights page;
     styleCalls := styleCalls page;
     runs := runs page |}.

(** Two clicks on the action of [tab], the first of which turns the
    extension on: the badge says so, and after the second click the
    style sheets, the listeners and the highlights are those before the
    first. *)
Definition clickedTwice {St : Type} (click : Tab St -> Tab St * Settled)
  (tab : Tab St) : Prop :=
  exists on off,
    click tab = (on, Fulfilled) /\ click on = (off, Fulfilled)
    /\ inSync on /\ badgeText on = "ON"%string
    /\ inSync off /\ badgeText off = ""%string
    /\ insertedCSS off = insertedCSS tab
    /\ listeners (tabPage off) = listeners (tabPage tab)
    /\ highlights (tabPage off) = highlights (tabPage tab).

(** A tab that was never clicked. *)
Definition newTab {St : Type} (address : string) : Tab St :=
  mkTab (Some address) (freshPage None) [] None "".

(** A browser that lets the extension script every page but those of
    the Chrome Web Store. *)
Definition storeIsOffLimits {St : Type} (call : ApiCall) (tab : Tab St)
  : bool :=
  match url tab with
  | Some address =>
      negb (String.prefix "https://chromewebstore.google.com/" address)
  | None => false
  end.

(** ** Statements about the heuristic of the revision that recomputes *)

(** The range passes the single-line heuristic of the revision that
    recomputes: it has fewer than two client rectangles with an area, or
    its bounding rectangle is less than 1.73 times as tall as the
    shortest of them. *)
Definition looksLikeOneLine (host : Host) (r : Range) : Prop :=
  let rects := filter rectOccupiesSpace (Range_getClientRects host r) in
  (length rects < 2)%nat
  \/ 100 * height (Range_getBoundingClientRect host r)
     < 173 * Recompute.minimum (map height rects).


(** [c] is a sibling of [p] or of one of its ancestors, on the side
    that [R] tells. *)
Definition besideSubtree (R : nat -> nat -> Prop) (p c : NodeRef) : Prop :=
  exists l j k q, p = l ++ j :: q /\ c = k :: q /\ R j k.

(** [t] is [p] or below it. *)
Definition inSubtree (p t : NodeRef) : Prop := exists l, t = l ++ p.

(** * Properties *)

Arguments resolve : simpl never.
Arguments nextSibling : simpl never.
Arguments previousSibling : simpl never.
Arguments parentNode : simpl never.
Arguments textContentOf : simpl never.
Arguments isTextNode : simpl never.
Arguments occupiesSpaceAt : simpl never.
Arguments getNextTextNodeAt : simpl never.
Arguments getLastNonEmptyTextNodeAt : simpl never.
Arguments weightAfter : simpl never.
Arguments weightBefore : simpl never.
Arguments sizeAt : simpl never.
Arguments Nat.ltb : simpl never.
Arguments Nat.leb : simpl never.
Arguments Nat.sub : simpl never.
Arguments Incremental.tryToExpandEnd : simpl never.
Arguments Incremental.tryToExpandStart : simpl never.
Arguments Recompute.tryToExpandEnd : simpl never.
Arguments Recompute.tryToExpandStart : simpl never.

(** ** The tree *)

Lemma Node_nested_ind (P : Node -> Prop) :
  (forall d, P (TextNode d)) ->
  (forall d, P (CommentNode d)) ->
  (forall w h cs, Forall P cs -> P (ElementNode w h cs)) ->
  forall n, P n.
Proof.
  intros HT HC HE.
  fix IH 1. intros [d | w h cs | d].
  - apply HT.
  - apply HE. induction cs as [|c cs IHcs]; constructor; [apply IH | exact IHcs].
  - apply HC.
Qed.

Lemma size_pos (n : Node) : (1 <= size n)%nat.
Proof. destruct n; simpl; lia. Qed.

Lemma sizeOfAll_app (l1 l2 : list Node) :
  sizeOfAll (l1 ++ l2) = (sizeOfAll l1 + sizeOfAll l2)%nat.
Proof. unfold sizeOfAll. rewrite map_app, list_sum_app. reflexivity. Qed.

Lemma skipn_nth_error {A} (l : list A) (n : nat) (x : A) :
  nth_error l n = Some x -> skipn n l = x :: skipn (S n) l.
Proof.
  revert n. induction l as [|a l IH]; intros [|n] H; simpl in *; try discriminate.
  - congruence.
  - apply IH in H. rewrite H. reflexivity.
Qed.

Lemma sizeOfAll_split (l : list Node) (n : nat) :
  sizeOfAll l = (sizeOfAll (firstn n l) + sizeOfAll (skipn n l))%nat.
Proof. rewrite <- sizeOfAll_app, firstn_skipn. reflexivity. Qed.

Lemma sizeOfAll_skipn_nth (l : list Node) (n : nat) (x : Node) :
  nth_error l n = Some x ->
  sizeOfAll (skipn n l) = (size x + sizeOfAll (skipn (S n) l))%nat.
Proof. intros H. rewrite (skipn_nth_error _ _ _ H). reflexivity. Qed.

Lemma sizeOfAll_firstn_nth (l : list Node) (n : nat) (x : Node) :
  nth_error l n = Some x ->
  sizeOfAll (firstn (S n) l) = (sizeOfAll (firstn n l) + size x)%nat.
Proof.
  revert n. induction l as [|a l IH]; intros [|n] H; simpl in *; try discriminate.
  - injection H as ->. unfold sizeOfAll. simpl. lia.
  - apply IH in H. unfold sizeOfAll in *. simpl in *. lia.
Qed.

Section TreeFacts.

Variable body : Node.

Lemma resolve_cons (i : nat) (q : NodeRef) :
  resolve body (i :: q) = nth_error (childrenAt body q) i.
Proof.
  unfold childrenAt. unfold resolve at 1. fold (resolve body q).
  destruct (resolve body q) as [[d | w h cs | d]|]; try reflexivity;
    destruct i; reflexivity.
Qed.

Lemma sizeAt_childrenAt (q : NodeRef) :
  (sizeOfAll (childrenAt body q) <= sizeAt body q)%nat.
Proof.
  unfold childrenAt, sizeAt.
  destruct (resolve body q) as [[d | w h cs | d]|]; simpl;
    unfold sizeOfAll; simpl; lia.
Qed.

Lemma sizeAt_pos (p : NodeRef) (n : Node) :
  resolve body p = Some n -> (1 <= sizeAt body p)%nat.
Proof. intros H. unfold sizeAt. rewrite H. apply size_pos. Qed.

Lemma weightAfter_cons (i : nat) (q : NodeRef) :
  weightAfter body (i :: q)
  = (sizeOfAll (skipn (S i) (childrenAt body q)) + weightAfter body q)%nat.
Proof. reflexivity. Qed.

Lemma weightBefore_cons (i : nat) (q : NodeRef) :
  weightBefore body (i :: q)
  = (sizeOfAll (firstn i (childrenAt body q)) + weightBefore body q)%nat.
Proof. reflexivity. Qed.

(** A node weighs, with what follows it, less than its parent does. *)
Lemma weightAfter_child (i : nat) (q : NodeRef) :
  (sizeAt body (i :: q) + weightAfter body (i :: q)
   <= sizeAt body q + weightAfter body q)%nat.
Proof.
  pose proof (sizeAt_childrenAt q) as Hq.
  rewrite (sizeOfAll_split _ i) in Hq.
  unfold sizeAt at 1. rewrite resolve_cons. rewrite weightAfter_cons.
  destruct (nth_error (childrenAt body q) i) as [x|] eqn:Hx.
  - rewrite (sizeOfAll_skipn_nth _ _ _ Hx) in Hq. lia.
  - rewrite (sizeOfAll_split (skipn i (childrenAt body q)) 1) in Hq.
    rewrite skipn_skipn in Hq. replace (1 + i)%nat with (S i) in Hq by lia.
    lia.
Qed.

Lemma weightBefore_child (i : nat) (q : NodeRef) :
  (sizeAt body (i :: q) + weightBefore body (i :: q)
   <= sizeAt body q + weightBefore body q)%nat.
Proof.
  pose proof (sizeAt_childrenAt q) as Hq.
  rewrite (sizeOfAll_split _ i) in Hq.
  unfold sizeAt at 1. rewrite resolve_cons. rewrite weightBefore_cons.
  destruct (nth_error (childrenAt body q) i) as [x|] eqn:Hx.
  - rewrite (sizeOfAll_skipn_nth _ _ _ Hx) in Hq. lia.
  - lia.
Qed.

Lemma weightAfter_descend (l p : NodeRef) :
  (sizeAt body (l ++ p) + weightAfter body (l ++ p)
   <= sizeAt body p + weightAfter body p)%nat.
Proof.
  induction l as [|i l IH]; simpl app; [lia|].
  pose proof (weightAfter_child i (l ++ p)). lia.
Qed.

Lemma weightBefore_descend (l p : NodeRef) :
  (sizeAt body (l ++ p) + weightBefore body (l ++ p)
   <= sizeAt body p + weightBefore body p)%nat.
Proof.
  induction l as [|i l IH]; simpl app; [lia|].
  pose proof (weightBefore_child i (l ++ p)). lia.
Qed.

Lemma weightAfter_bound (p : NodeRef) :
  (sizeAt body p + weightAfter body p <= size body)%nat.
Proof.
  pose proof (weightAfter_descend p []) as H.
  rewrite app_nil_r in H.
  change (sizeAt body []) with (size body) in H.
  change (weightAfter body []) with 0%nat in H. lia.
Qed.

Lemma weightBefore_bound (p : NodeRef) :
  (sizeAt body p + weightBefore body p <= size body)%nat.
Proof.
  pose proof (weightBefore_descend p []) as H.
  rewrite app_nil_r in H.
  change (sizeAt body []) with (size body) in H.
  change (weightBefore body []) with 0%nat in H. lia.
Qed.

Lemma nextSibling_cons (i : nat) (q : NodeRef) :
  nextSibling body (i :: q)
  = match nth_error (childrenAt body q) (S i) with
    | Some _ => Some (S i :: q)
    | None => None
    end.
Proof. unfold nextSibling. rewrite resolve_cons. reflexivity. Qed.

Lemma previousSibling_cons (i : nat) (q : NodeRef) :
  previousSibling body (S i :: q)
  = match nth_error (childrenAt body q) i with
    | Some _ => Some (i :: q)
    | None => None
    end.
Proof. unfold previousSibling. rewrite resolve_cons. reflexivity. Qed.

(** The next sibling and what follows it are what follows the node. *)
Lemma nextSibling_weight (p p' : NodeRef) :
  nextSibling body p = Some p' ->
  p' <> [] /\ resolve body p' <> None
  /\ (sizeAt body p' + weightAfter body p' = weightAfter body p)%nat.
Proof.
  destruct p as [|i q]; [discriminate|].
  rewrite nextSibling_cons.
  destruct (nth_error (childrenAt body q) (S i)) as [x|] eqn:Hx; [|discriminate].
  intros H. injection H as <-.
  split; [discriminate|]. split.
  - rewrite resolve_cons, Hx. discriminate.
  - unfold sizeAt. rewrite resolve_cons, Hx. rewrite !weightAfter_cons.
    rewrite (sizeOfAll_skipn_nth _ _ _ Hx). lia.
Qed.

Lemma previousSibling_weight (p p' : NodeRef) :
  previousSibling body p = Some p' ->
  p' <> [] /\ resolve body p' <> None
  /\ (sizeAt body p' + weightBefore body p' = weightBefore body p)%nat.
Proof.
  destruct p as [|[|i] q]; try discriminate.
  rewrite previousSibling_cons.
  destruct (nth_error (childrenAt body q) i) as [x|] eqn:Hx; [|discriminate].
  intros H. injection H as <-.
  split; [discriminate|]. split.
  - rewrite resolve_cons, Hx. discriminate.
  - unfold sizeAt. rewrite resolve_cons, Hx. rewrite !weightBefore_cons.
    rewrite (sizeOfAll_firstn_nth _ _ _ Hx). lia.
Qed.

End TreeFacts.

(** ** The searches for a text node *)

Lemma firstAmongChildren_some find self l i t :
  firstAmongChildren find self l i = Some t ->
  exists j c, nth_error l j = Some c /\ find c ((i + j)%nat :: self) = Some t.
Proof.
  revert i. induction l as [|c l IH]; intros i H; simpl in H; [discriminate|].
  destruct (negb (occupiesSpace c)).
  - apply IH in H. destruct H as (j & c' & Hj & Hf).
    exists (S j), c'. split; [exact Hj|].
    replace (i + S j)%nat with (S i + j)%nat by lia. exact Hf.
  - destruct (find c (i :: self)) as [t'|] eqn:Hc.
    + exists 0%nat, c. split; [reflexivity|].
      rewrite Nat.add_0_r. congruence.
    + apply IH in H. destruct H as (j & c' & Hj & Hf).
      exists (S j), c'. split; [exact Hj|].
      replace (i + S j)%nat with (S i + j)%nat by lia. exact Hf.
Qed.

Lemma lastAmongChildren_some find self l i t :
  lastAmongChildren find self l i = Some t ->
  exists j c, nth_error l j = Some c /\ find c ((i + j)%nat :: self) = Some t.
Proof.
  revert i. induction l as [|c l IH]; intros i H; simpl in H; [discriminate|].
  destruct (lastAmongChildren find self l (S i)) as [t'|] eqn:Hl.
  - injection H as ->. apply IH in Hl. destruct Hl as (j & c' & Hj & Hf).
    exists (S j), c'. split; [exact Hj|].
    replace (i + S j)%nat with (S i + j)%nat by lia. exact Hf.
  - destruct (negb (occupiesSpace c)); [discriminate|].
    exists 0%nat, c. split; [reflexivity|].
    rewrite Nat.add_0_r. exact H.
Qed.

Section SearchFacts.

Variable body : Node.

Lemma childrenAt_element (p : NodeRef) w h cs :
  resolve body p = Some (ElementNode w h cs) -> childrenAt body p = cs.
Proof. intros H. unfold childrenAt. rewrite H. reflexivity. Qed.

(** What the two searches find is a text node with some text, below the
    root of the search. *)
Lemma getNextTextNode_sound (n : Node) :
  forall p t,
    resolve body p = Some n -> getNextTextNode n p = Some t ->
    (exists l, t = l ++ p) /\ nonEmptyText body t.
Proof.
  induction n as [d | d | w h cs IH] using Node_nested_ind;
    intros p t Hp H; simpl in H.
  - destruct d as [|c d]; simpl in H; [discriminate|].
    injection H as <-. split; [exists []; reflexivity|].
    exists (c :: d). split; [exact Hp | discriminate].
  - discriminate.
  - apply firstAmongChildren_some in H. destruct H as (j & c & Hj & Hf).
    rewrite Forall_forall in IH.
    destruct (IH c (nth_error_In _ _ Hj) (j :: p) t) as [[l Hl] Ht].
    + rewrite resolve_cons, (childrenAt_element _ _ _ _ Hp). exact Hj.
    + exact Hf.
    + split; [|exact Ht]. exists (l ++ [j]). rewrite <- app_assoc. exact Hl.
Qed.

Lemma getLastNonEmptyTextNode_sound (n : Node) :
  forall p t,
    resolve body p = Some n -> getLastNonEmptyTextNode n p = Some t ->
    (exists l, t = l ++ p) /\ nonEmptyText body t.
Proof.
  induction n as [d | d | w h cs IH] using Node_nested_ind;
    intros p t Hp H; simpl in H.
  - destruct d as [|c d]; simpl in H; [discriminate|].
    injection H as <-. split; [exists []; reflexivity|].
    exists (c :: d). split; [exact Hp | discriminate].
  - discriminate.
  - apply lastAmongChildren_some in H. destruct H as (j & c & Hj & Hf).
    rewrite Forall_forall in IH.
    destruct (IH c (nth_error_In _ _ Hj) (j :: p) t) as [[l Hl] Ht].
    + rewrite resolve_cons, (childrenAt_element _ _ _ _ Hp). exact Hj.
    + exact Hf.
    + split; [|exact Ht]. exists (l ++ [j]). rewrite <- app_assoc. exact Hl.
Qed.

Lemma nonEmptyText_resolves (t : NodeRef) :
  nonEmptyText body t -> (1 <= sizeAt body t)%nat.
Proof. intros (d & Hd & _). exact (sizeAt_pos _ _ _ Hd). Qed.

Lemma getNextTextNodeAt_sound (p t : NodeRef) :
  p <> [] -> getNextTextNodeAt body p = Some t ->
  t <> [] /\ nonEmptyText body t
  /\ (sizeAt body t + weightAfter body t
      <= sizeAt body p + weightAfter body p)%nat.
Proof.
  unfold getNextTextNodeAt. intros Hne H.
  destruct (resolve body p) as [n|] eqn:Hp; [|discriminate].
  destruct (getNextTextNode_sound n p t Hp H) as [[l ->] Ht].
  split; [|split; [exact Ht | apply weightAfter_descend]].
  destruct l; [exact Hne | discriminate].
Qed.

Lemma getLastNonEmptyTextNodeAt_sound (p t : NodeRef) :
  p <> [] -> getLastNonEmptyTextNodeAt body p = Some t ->
  t <> [] /\ nonEmptyText body t
  /\ (sizeAt body t + weightBefore body t
      <= sizeAt body p + weightBefore body p)%nat.
Proof.
  unfold getLastNonEmptyTextNodeAt. intros Hne H.
  destruct (resolve body p) as [n|] eqn:Hp; [|discriminate].
  destruct (getLastNonEmptyTextNode_sound n p t Hp H) as [[l ->] Ht].
  split; [|split; [exact Ht | apply weightBefore_descend]].
  destruct l; [exact Hne | discriminate].
Qed.

End SearchFacts.

(** ** Expansions compose *)

Section GrowthFacts.

Variable body : Node.
Variable budget : nat.

Lemma Grew_refl side A v : Grew body budget side A v false v.
Proof.
  exists []. split; [reflexivity|]. split; [simpl; lia|].
  split; [constructor|]. split; [reflexivity|].
  split; [left; reflexivity | discriminate].
Qed.

Lemma Grew_trans side A v1 b1 v2 b2 v3 :
  Grew body budget side A v1 b1 v2 ->
  Grew body budget side A v2 b2 v3 ->
  Grew body budget side A v1 b2 v3.
Proof.
  intros (n1 & L1 & C1 & F1 & K1 & M1 & B1) (n2 & L2 & C2 & F2 & K2 & M2 & B2).
  exists (n2 ++ n1). rewrite length_app.
  split; [rewrite L2, L1, app_assoc; reflexivity|].
  split; [lia|].
  split; [apply Forall_app; split; assumption|].
  split; [congruence|].
  split.
  - destruct M2 as [M2 | (pr & Hin & M2)].
    + destruct M1 as [M1 | (pr & Hin & M1)].
      * left. congruence.
      * right. exists pr. split; [apply in_or_app; right; exact Hin|congruence].
    + right. exists pr. split; [apply in_or_app; left; exact Hin|exact M2].
  - intros Hb. specialize (B2 Hb). lia.
Qed.

Lemma Grew_false side A v b v' :
  Grew body budget side A v b v' -> Grew body budget side A v false v'.
Proof.
  intros (n & L & C & F & K & M & B).
  exists n. split; [exact L|]. split; [exact C|]. split; [exact F|].
  split; [exact K|]. split; [exact M | discriminate].
Qed.

Lemma Grew_weaken side (A A' : NodeRef -> Prop) v b v' :
  (forall n, A n -> A' n) ->
  Grew body budget side A v b v' -> Grew body budget side A' v b v'.
Proof.
  intros HA (n & L & C & F & K & M & B).
  exists n. split; [exact L|]. split; [exact C|].
  split; [|split; [exact K | split; [exact M | exact B]]].
  eapply Forall_impl; [|exact F]. intros pr [H1 H2]. split; auto.
Qed.

(** The boundary of [side] after an expansion is in a node of [A], if
    it was. *)
Lemma Grew_container side (A : NodeRef -> Prop) v b v' :
  Grew body budget side A v b v' ->
  A (fst (movedBoundary side (v_range v))) ->
  A (fst (movedBoundary side (v_range v'))).
Proof.
  intros (n & L & C & F & K & M & B) HA.
  destruct M as [M | (pr & Hin & M)].
  - rewrite M. exact HA.
  - rewrite M. rewrite Forall_forall in F. destruct (F pr Hin) as [_ Hpr].
    destruct side; exact Hpr.
Qed.

End GrowthFacts.

(** ** Ranges *)

Lemma sameNode_refl (a : NodeRef) : sameNode a a = true.
Proof. unfold sameNode. destruct (list_eq_dec Nat.eq_dec a a); congruence. Qed.

Lemma sameNode_true (a b : NodeRef) : sameNode a b = true <-> a = b.
Proof.
  unfold sameNode. destruct (list_eq_dec Nat.eq_dec a b); split; congruence.
Qed.

Lemma collapsed_collapse (r : Range) : collapsed (Range_collapse r) = true.
Proof.
  unfold collapsed, Range_collapse. simpl.
  rewrite sameNode_refl, Nat.eqb_refl. reflexivity.
Qed.

Lemma collapsed_true (r : Range) :
  collapsed r = true
  <-> startContainer r = endContainer r /\ startOffset r = endOffset r.
Proof.
  unfold collapsed. rewrite andb_true_iff, sameNode_true, Nat.eqb_eq. tauto.
Qed.

Section AnchorFacts.

Variable body : Node.

Lemma isTextNode_true (p : NodeRef) :
  isTextNode body (Some p) = true ->
  exists d, resolve body p = Some (TextNode d).
Proof.
  unfold isTextNode. destruct (resolve body p) as [[d | w h cs | d]|];
    try discriminate. intros _. exists d. reflexivity.
Qed.

Lemma isTextNode_text (p : NodeRef) d :
  resolve body p = Some (TextNode d) -> isTextNode body (Some p) = true.
Proof. intros H. unfold isTextNode. rewrite H. reflexivity. Qed.

Lemma textContentOf_text (p : NodeRef) d :
  resolve body p = Some (TextNode d) -> textContentOf body p = d.
Proof. intros H. unfold textContentOf. rewrite H. reflexivity. Qed.

Lemma nonEmptyText_not_body (t : NodeRef) :
  isElement body -> nonEmptyText body t -> t <> [].
Proof.
  intros Hb (d & Hd & _) ->. change (resolve body []) with (Some body) in Hd.
  injection Hd as ->. exact Hb.
Qed.

Lemma Grew_anchored budget side v b v' :
  Grew body budget side (nonEmptyText body) v b v' ->
  anchored body (v_range v) -> anchored body (v_range v').
Proof.
  intros Hg [Hs He].
  pose proof (Grew_container body budget side _ v b v' Hg) as Hc.
  destruct Hg as (n & L & C & F & K & M & B).
  destruct side; simpl in *; unfold anchored.
  - injection K as K1 K2. rewrite K1. split; [exact Hs | exact (Hc He)].
  - injection K as K1 K2. rewrite K1. split; [exact (Hc Hs) | exact He].
Qed.

End AnchorFacts.

(** ** Expansion in the revision with running bounds *)

Section IncrementalExpansion.

Variable body : Node.
Variable host : Host.

Let budget := Incremental.MAX_LINES_SPANNED_CHECKS.

Lemma I_tryToExpandEnd_grew A hl node off :
  (0 < off)%nat -> probeOk body A (node, (off - 1)%nat) ->
  Grew body budget AtEnd A (viewI hl)
    (fst (Incremental.tryToExpandEnd host hl node off))
    (viewI (snd (Incremental.tryToExpandEnd host hl node off))).
Proof.
  intros Hoff Hpr. unfold Incremental.tryToExpandEnd.
  destruct (Incremental.MAX_LINES_SPANNED_CHECKS
            <? S (Incremental.linesSpannedChecks hl))%nat eqn:Hmax.
  - exists [(node, (off - 1)%nat)]. simpl.
    split; [reflexivity|]. split; [lia|]. split; [constructor; [exact Hpr | constructor]|].
    split; [reflexivity|]. split; [left; reflexivity | discriminate].
  - apply Nat.ltb_ge in Hmax.
    destruct (Incremental.sameLineCheck hl _) as [[[nt nb] mh] [|]]; simpl.
    + exists [(node, (off - 1)%nat)]. simpl.
      split; [reflexivity|]. split; [lia|].
      split; [constructor; [exact Hpr | constructor]|].
      split; [reflexivity|]. split.
      * right. exists (node, (off - 1)%nat). split; [left; reflexivity|].
        simpl. f_equal. lia.
      * intros _. unfold budget. lia.
    + exists [(node, (off - 1)%nat)]. simpl.
      split; [reflexivity|]. split; [lia|].
      split; [constructor; [exact Hpr | constructor]|].
      split; [reflexivity|]. split; [left; reflexivity | discriminate].
Qed.

Lemma I_tryToExpandStart_grew A hl node off :
  probeOk body A (node, off) ->
  Grew body budget AtStart A (viewI hl)
    (fst (Incremental.tryToExpandStart host hl node off))
    (viewI (snd (Incremental.tryToExpandStart host hl node off))).
Proof.
  intros Hpr. unfold Incremental.tryToExpandStart.
  destruct (Incremental.MAX_LINES_SPANNED_CHECKS
            <? S (Incremental.linesSpannedChecks hl))%nat eqn:Hmax.
  - exists [(node, off)]. simpl.
    split; [reflexivity|]. split; [lia|]. split; [constructor; [exact Hpr | constructor]|].
    split; [reflexivity|]. split; [left; reflexivity | discriminate].
  - apply Nat.ltb_ge in Hmax.
    destruct (Incremental.sameLineCheck hl _) as [[[nt nb] mh] [|]]; simpl.
    + exists [(node, off)]. simpl.
      split; [reflexivity|]. split; [lia|].
      split; [constructor; [exact Hpr | constructor]|].
      split; [reflexivity|]. split.
      * right. exists (node, off). split; [left; reflexivity | reflexivity].
      * intros _. unfold budget. lia.
    + exists [(node, off)]. simpl.
      split; [reflexivity|]. split; [lia|].
      split; [constructor; [exact Hpr | constructor]|].
      split; [reflexivity|]. split; [left; reflexivity | discriminate].
Qed.

Definition answerOf (r : bool + unit) : bool :=
  match r with inl b => b | inr _ => false end.

Lemma I_expandEndInNode_grew (A : NodeRef -> Prop) n :
  forall hl cur off oneChar,
    A cur ->
    Grew body budget AtEnd A (viewI hl)
      (answerOf (fst (Incremental.expandEndInNode body host n hl cur off oneChar)))
      (viewI (snd (Incremental.expandEndInNode body host n hl cur off oneChar))).
Proof.
  induction n as [|n IH]; intros hl cur off oneChar HA; simpl.
  - apply Grew_refl.
  - destruct (off <? length (textContentOf body cur))%nat; [|apply Grew_refl].
    destruct (isWhitespaceOrZeroWidth (charAt (textContentOf body cur) off)) eqn:Hws.
    + apply IH. exact HA.
    + pose proof (I_tryToExpandEnd_grew A hl cur (S off)) as Hg.
      destruct (Incremental.tryToExpandEnd host hl cur (S off)) as [ex hl1].
      simpl in Hg.
      assert (Hg1 : Grew body budget AtEnd A (viewI hl) ex (viewI hl1)).
      { apply Hg; [lia|]. split; [|exact HA]. simpl.
        replace (S off - 1)%nat with off by lia. exact Hws. }
      destruct ex; simpl.
      * destruct oneChar; simpl; [exact Hg1|].
        eapply Grew_trans; [exact Hg1 | apply IH; exact HA].
      * exact Hg1.
Qed.

Lemma I_expandStartInNode_grew (A : NodeRef -> Prop) n :
  forall hl cur off oneChar,
    A cur ->
    Grew body budget AtStart A (viewI hl)
      (answerOf (fst (Incremental.expandStartInNode body host n hl cur off oneChar)))
      (viewI (snd (Incremental.expandStartInNode body host n hl cur off oneChar))).
Proof.
  induction n as [|n IH]; intros hl cur off oneChar HA; simpl.
  - apply Grew_refl.
  - destruct (0 <? off)%nat; [|apply Grew_refl].
    destruct (isWhitespaceOrZeroWidth
                (charAt (textContentOf body cur) (off - 1))) eqn:Hws.
    + apply IH. exact HA.
    + pose proof (I_tryToExpandStart_grew A hl cur (off - 1)%nat) as Hg.
      destruct (Incremental.tryToExpandStart host hl cur (off - 1)) as [ex hl1].
      simpl in Hg.
      assert (Hg1 : Grew body budget AtStart A (viewI hl) ex (viewI hl1)).
      { apply Hg. split; [exact Hws | exact HA]. }
      destruct ex; simpl.
      * destruct oneChar; simpl; [exact Hg1|].
        eapply Grew_trans; [exact Hg1 | apply IH; exact HA].
      * exact Hg1.
Qed.

Lemma I_nextUncle_weight parent u :
  Incremental.nextUncle body parent = Some u ->
  u <> [] /\ resolve body u <> None
  /\ (sizeAt body u + weightAfter body u <= weightAfter body parent)%nat.
Proof.
  induction parent as [|c g IH]; simpl; [discriminate|].
  destruct (nextSibling body (c :: g)) as [s|] eqn:Hs.
  - intros H. injection H as <-.
    destruct (nextSibling_weight body _ _ Hs) as (H1 & H2 & H3).
    repeat split; try assumption. lia.
  - intros H. destruct (IH H) as (H1 & H2 & H3).
    repeat split; try assumption. rewrite weightAfter_cons. lia.
Qed.

Lemma I_previousUncle_weight parent u :
  Incremental.previousUncle body parent = Some u ->
  u <> [] /\ resolve body u <> None
  /\ (sizeAt body u + weightBefore body u <= weightBefore body parent)%nat.
Proof.
  induction parent as [|c g IH]; simpl; [discriminate|].
  destruct (previousSibling body (c :: g)) as [s|] eqn:Hs.
  - intros H. injection H as <-.
    destruct (previousSibling_weight body _ _ Hs) as (H1 & H2 & H3).
    repeat split; try assumption. lia.
  - intros H. destruct (IH H) as (H1 & H2 & H3).
    repeat split; try assumption. rewrite weightBefore_cons. lia.
Qed.

(** The node that the search for the next text node looks at first. *)
Lemma I_nextNode_weight cur :
  cur <> [] ->
  exists r,
    match nextSibling body cur with
    | Some n => Ok (Some n)
    | None =>
        match parentNode cur with
        | None => Throw
        | Some parent => Ok (Incremental.nextUncle body parent)
        end
    end = Ok r
    /\ forall n, r = Some n ->
         n <> [] /\ (1 <= sizeAt body n)%nat
         /\ (sizeAt body n + weightAfter body n <= weightAfter body cur)%nat.
Proof.
  intros Hne. destruct cur as [|c g]; [congruence|].
  destruct (nextSibling body (c :: g)) as [s|] eqn:Hs.
  - exists (Some s). split; [reflexivity|]. intros n Hn. injection Hn as <-.
    destruct (nextSibling_weight body _ _ Hs) as (H1 & H2 & H3).
    split; [exact H1|]. split; [|lia].
    destruct (resolve body s) eqn:Hr; [|congruence].
    exact (sizeAt_pos _ _ _ Hr).
  - simpl parentNode. exists (Incremental.nextUncle body g).
    split; [reflexivity|]. intros n Hn.
    destruct (I_nextUncle_weight _ _ Hn) as (H1 & H2 & H3).
    split; [exact H1|]. split.
    + destruct (resolve body n) eqn:Hr; [|congruence].
      exact (sizeAt_pos _ _ _ Hr).
    + rewrite weightAfter_cons. lia.
Qed.

Lemma I_findNextTextNode_total fuel :
  forall cur,
    (weightAfter body cur < fuel)%nat -> cur <> [] ->
    exists r,
      Incremental.findNextTextNode body fuel cur = Ok r
      /\ forall t, r = Some t ->
           t <> [] /\ nonEmptyText body t
           /\ (weightAfter body t < weightAfter body cur)%nat.
Proof.
  induction fuel as [|fuel IH]; intros cur Hw Hne; [lia|].
  simpl. destruct (I_nextNode_weight cur Hne) as (r & Hr & Hspec).
  rewrite Hr. simpl. destruct r as [n|].
  - destruct (Hspec n eq_refl) as (Hn1 & Hn2 & Hn3).
    assert (Hrec : exists r,
               Incremental.findNextTextNode body fuel n = Ok r
               /\ forall t, r = Some t ->
                    t <> [] /\ nonEmptyText body t
                    /\ (weightAfter body t < weightAfter body cur)%nat).
    { destruct (IH n) as (r & Hr' & Hs'); [lia | exact Hn1 |].
      exists r. split; [exact Hr'|]. intros t Ht.
      destruct (Hs' t Ht) as (T1 & T2 & T3). repeat split; try assumption. lia. }
    destruct (negb (occupiesSpaceAt body n)); [exact Hrec|].
    destruct (getNextTextNodeAt body n) as [t|] eqn:Ht; [|exact Hrec].
    exists (Some t). split; [reflexivity|]. intros t' Ht'. injection Ht' as <-.
    destruct (getNextTextNodeAt_sound body n t Hn1 Ht) as (T1 & T2 & T3).
    pose proof (nonEmptyText_resolves body t T2).
    repeat split; try assumption. lia.
  - exists None. split; [reflexivity|]. discriminate.
Qed.

Lemma I_expandEndLoop_spec (A : NodeRef -> Prop) fuel :
  (forall t, nonEmptyText body t -> A t) ->
  forall hl cur off oneChar,
    (weightAfter body cur < fuel)%nat -> cur <> [] -> A cur ->
    exists b hl',
      Incremental.expandEndLoop body host fuel hl cur off oneChar = Ok (b, hl')
      /\ Grew body budget AtEnd A (viewI hl) b (viewI hl').
Proof.
  intros HA. induction fuel as [|fuel IH]; intros hl cur off oneChar Hw Hne Hcur;
    [lia|].
  cbn [Incremental.expandEndLoop].
  pose proof (I_expandEndInNode_grew A
                (length (textContentOf body cur) - off) hl cur off oneChar Hcur)
    as Hin.
  destruct (Incremental.expandEndInNode body host _ hl cur off oneChar)
    as [[b | u] hl1]; simpl in Hin.
  - exists b, hl1. split; [reflexivity | exact Hin].
  - destruct (I_findNextTextNode_total (S fuel) cur Hw Hne) as (r & Hr & Hs).
    rewrite Hr. cbn [bind]. destruct r as [t|].
    + destruct (Hs t eq_refl) as (T1 & T2 & T3).
      destruct (IH hl1 t 0%nat oneChar) as (b & hl2 & Hrun & Hg);
        [lia | exact T1 | apply HA; exact T2 |].
      exists b, hl2. split; [exact Hrun|].
      eapply Grew_trans; [exact Hin | exact Hg].
    + exists false, hl1. split; [reflexivity | exact Hin].
Qed.

Lemma I_previousNode_weight cur :
  cur <> [] ->
  exists r,
    match previousSibling body cur with
    | Some n => Ok (Some n)
    | None =>
        match parentNode cur with
        | None => Throw
        | Some parent => Ok (Incremental.previousUncle body parent)
        end
    end = Ok r
    /\ forall n, r = Some n ->
         n <> [] /\ (1 <= sizeAt body n)%nat
         /\ (sizeAt body n + weightBefore body n <= weightBefore body cur)%nat.
Proof.
  intros Hne. destruct cur as [|c g]; [congruence|].
  destruct (previousSibling body (c :: g)) as [s|] eqn:Hs.
  - exists (Some s). split; [reflexivity|]. intros n Hn. injection Hn as <-.
    destruct (previousSibling_weight body _ _ Hs) as (H1 & H2 & H3).
    split; [exact H1|]. split; [|lia].
    destruct (resolve body s) eqn:Hr; [|congruence].
    exact (sizeAt_pos _ _ _ Hr).
  - exists (Incremental.previousUncle body g).
    split; [reflexivity|]. intros n Hn.
    destruct (I_previousUncle_weight _ _ Hn) as (H1 & H2 & H3).
    split; [exact H1|]. split.
    + destruct (resolve body n) eqn:Hr; [|congruence].
      exact (sizeAt_pos _ _ _ Hr).
    + rewrite weightBefore_cons. lia.
Qed.

Definition stepAnswer (r : bool + NodeRef * nat) : bool :=
  match r with inl b => b | inr _ => false end.

Lemma I_stepToPreviousTextNode_spec (A : NodeRef -> Prop) fuel :
  (forall t, nonEmptyText body t -> A t) ->
  forall hl cur oneChar,
    (weightBefore body cur < fuel)%nat -> cur <> [] ->
    exists r hl',
      Incremental.stepToPreviousTextNode body host fuel hl cur oneChar
      = Ok (r, hl')
      /\ Grew body budget AtStart A (viewI hl) (stepAnswer r) (viewI hl')
      /\ forall node off, r = inr (node, off) ->
           node <> [] /\ nonEmptyText body node
           /\ (weightBefore body node < weightBefore body cur)%nat.
Proof.
  intros HA. induction fuel as [|fuel IH]; intros hl cur oneChar Hw Hne; [lia|].
  cbn [Incremental.stepToPreviousTextNode].
  destruct (I_previousNode_weight cur Hne) as (r & Hr & Hspec).
  rewrite Hr. cbn [bind]. destruct r as [n|].
  - destruct (Hspec n eq_refl) as (Hn1 & Hn2 & Hn3).
    assert (Hrec : exists r hl',
               Incremental.stepToPreviousTextNode body host fuel hl n oneChar
               = Ok (r, hl')
               /\ Grew body budget AtStart A (viewI hl) (stepAnswer r) (viewI hl')
               /\ forall node off, r = inr (node, off) ->
                    node <> [] /\ nonEmptyText body node
                    /\ (weightBefore body node < weightBefore body cur)%nat).
    { destruct (IH hl n oneChar) as (r & hl' & Hr' & Hg & Hs'); [lia | exact Hn1 |].
      exists r, hl'. split; [exact Hr'|]. split; [exact Hg|].
      intros node off Hno. destruct (Hs' node off Hno) as (T1 & T2 & T3).
      repeat split; try assumption. lia. }
    destruct (negb (occupiesSpaceAt body n)); [exact Hrec|].
    destruct (getLastNonEmptyTextNodeAt body n) as [t|] eqn:Ht; [|exact Hrec].
    destruct (getLastNonEmptyTextNodeAt_sound body n t Hn1 Ht) as (T1 & T2 & T3).
    pose proof (nonEmptyText_resolves body t T2) as Hsz.
    destruct (isWhitespaceOrZeroWidth
                (charAt (textContentOf body t)
                   (length (textContentOf body t) - 1))) eqn:Hws.
    + cbn [andb negb]. rewrite andb_false_r.
      eexists _, hl. split; [reflexivity|]. split; [apply Grew_refl|].
      intros node off Hno. injection Hno as <- <-.
      repeat split; try assumption. lia.
    + pose proof (I_tryToExpandStart_grew A hl t
                    (length (textContentOf body t) - 1)%nat) as Hg.
      destruct (Incremental.tryToExpandStart host hl t _) as [ex hl1].
      simpl in Hg.
      assert (Hg1 : Grew body budget AtStart A (viewI hl) ex (viewI hl1)).
      { apply Hg. split; [exact Hws | apply HA; exact T2]. }
      destruct ex.
      * destruct oneChar; cbn [andb negb].
        -- eexists _, hl1. split; [reflexivity|]. split; [exact Hg1|].
           discriminate.
        -- eexists _, hl1. split; [reflexivity|].
           split; [exact (Grew_false _ _ _ _ _ _ _ Hg1)|].
           intros node off Hno. injection Hno as <- <-.
           repeat split; try assumption. lia.
      * eexists _, hl1. split; [reflexivity|]. split; [exact Hg1|].
        discriminate.
  - eexists _, hl. split; [reflexivity|]. split; [apply Grew_refl|].
    discriminate.
Qed.

Lemma I_expandStartLoop_spec (A : NodeRef -> Prop) fuel :
  (forall t, nonEmptyText body t -> A t) ->
  forall hl cur off oneChar,
    (weightBefore body cur < fuel)%nat -> cur <> [] -> A cur ->
    exists b hl',
      Incremental.expandStartLoop body host fuel hl cur off oneChar
      = Ok (b, hl')
      /\ Grew body budget AtStart A (viewI hl) b (viewI hl').
Proof.
  intros HA. induction fuel as [|fuel IH]; intros hl cur off oneChar Hw Hne Hcur;
    [lia|].
  cbn [Incremental.expandStartLoop].
  pose proof (I_expandStartInNode_grew A off hl cur off oneChar Hcur) as Hin.
  destruct (Incremental.expandStartInNode body host off hl cur off oneChar)
    as [[b | u] hl1]; simpl in Hin.
  - exists b, hl1. split; [reflexivity | exact Hin].
  - destruct (I_stepToPreviousTextNode_spec A (S fuel) HA hl1 cur oneChar Hw Hne)
      as (r & hl2 & Hr & Hg & Hs).
    rewrite Hr. cbn [bind]. destruct r as [b | [node off']].
    + exists b, hl2. split; [reflexivity|].
      eapply Grew_trans; [exact Hin | exact Hg].
    + destruct (Hs node off' eq_refl) as (T1 & T2 & T3).
      destruct (IH hl2 node off' oneChar) as (b & hl3 & Hrun & Hg3);
        [lia | exact T1 | apply HA; exact T2 |].
      exists b, hl3. split; [exact Hrun|].
      eapply Grew_trans; [exact Hin|].
      eapply Grew_trans; [exact Hg | exact Hg3].
Qed.

(** Both [update] functions return, and what they did is an expansion
    of their side. *)
Lemma I_updateEnd_spec (A : NodeRef -> Prop) fuel hl oneChar :
  (forall t, nonEmptyText body t -> A t) ->
  (size body < fuel)%nat ->
  endContainer (Incremental.range hl) <> [] ->
  A (endContainer (Incremental.range hl)) ->
  exists b hl',
    Incremental.updateHighlightLineRangeEnd body host fuel hl oneChar
    = Ok (b, hl')
    /\ Grew body budget AtEnd A (viewI hl) b (viewI hl').
Proof.
  intros HA Hf Hne Hc. unfold Incremental.updateHighlightLineRangeEnd.
  apply I_expandEndLoop_spec; try assumption.
  pose proof (weightAfter_bound body (endContainer (Incremental.range hl))). lia.
Qed.

Lemma I_updateStart_spec (A : NodeRef -> Prop) fuel hl oneChar :
  (forall t, nonEmptyText body t -> A t) ->
  (size body < fuel)%nat ->
  startContainer (Incremental.range hl) <> [] ->
  A (startContainer (Incremental.range hl)) ->
  exists b hl',
    Incremental.updateHighlightLineRangeStart body host fuel hl oneChar
    = Ok (b, hl')
    /\ Grew body budget AtStart A (viewI hl) b (viewI hl').
Proof.
  intros HA Hf Hne Hc. unfold Incremental.updateHighlightLineRangeStart.
  apply I_expandStartLoop_spec; try assumption.
  pose proof (weightBefore_bound body (startContainer (Incremental.range hl))). lia.
Qed.

Lemma I_alternateEnds_spec n :
  forall fuel hl,
    isElement body ->
    (size body < fuel)%nat ->
    (budget + 1 - Incremental.linesSpannedChecks hl < n)%nat ->
    anchored body (Incremental.range hl) ->
    exists ks ke hl',
      Incremental.alternateEnds body host n fuel hl = Ok (ks, ke, hl')
      /\ anchored body (Incremental.range hl').
Proof.
  induction n as [|n IH]; intros fuel hl Hb Hf Hn Ha; [lia|].
  cbn [Incremental.alternateEnds].
  destruct (I_updateEnd_spec (nonEmptyText body) fuel hl true)
    as (ke & hl1 & He & Hg1); auto.
  { apply (nonEmptyText_not_body body); [exact Hb | apply Ha]. }
  { apply Ha. }
  rewrite He. cbn [bind].
  pose proof (Grew_anchored body _ _ _ _ _ Hg1 Ha) as Ha1.
  destruct (I_updateStart_spec (nonEmptyText body) fuel hl1 true)
    as (ks & hl2 & Hs & Hg2); auto.
  { apply (nonEmptyText_not_body body); [exact Hb | apply Ha1]. }
  { apply Ha1. }
  rewrite Hs. cbn [bind].
  pose proof (Grew_anchored body _ _ _ _ _ Hg2 Ha1) as Ha2.
  destruct (ks && ke) eqn:Hboth.
  - apply andb_true_iff in Hboth. destruct Hboth as [-> ->].
    destruct Hg1 as (n1 & _ & C1 & _ & _ & _ & B1).
    destruct Hg2 as (n2 & _ & C2 & _ & _ & _ & B2).
    specialize (B1 eq_refl). specialize (B2 eq_refl).
    apply IH; try assumption.
    unfold budget, Incremental.MAX_LINES_SPANNED_CHECKS in *. simpl in *. lia.
  - exists ks, ke, hl2. split; [reflexivity | exact Ha2].
Qed.

(** Line resolution returns, and leaves the range collapsed, anchored
    in text, or as it was. *)
Lemma I_setHighlightLineRange_full fuel hl caretPosition mouseY :
  isElement body ->
  (size body + budget + 1 < fuel)%nat ->
  caretOnText body caretPosition ->
  exists hl',
    Incremental.setHighlightLineRange body host fuel hl caretPosition mouseY
    = Ok hl'
    /\ (hl' = hl \/ collapsed (Incremental.range hl') = true
        \/ anchored body (Incremental.range hl'))
    /\ forall cp,
         caretPosition = Some cp ->
         isTextNode body (Some (offsetNode cp)) = true ->
         isWhitespaceOrZeroWidth
           (charAt (textContentOf body (offsetNode cp)) (seedOffsetOf body cp))
         = true ->
         movedBoundary AtStart (Incremental.range hl')
         = (offsetNode cp, seedOffsetOf body cp)
         \/ movedBoundary AtEnd (Incremental.range hl')
            = (offsetNode cp, S (seedOffsetOf body cp)) ->
         collapsed (Incremental.range hl') = true.
Proof.
  intros Hb Hf Hcaret. unfold Incremental.setHighlightLineRange.
  destruct caretPosition as [cp|];
    [|exists hl; split; [reflexivity|]; split; [left; reflexivity|];
      intros cp' Hcp'; discriminate].
  destruct (isTextNode body (Some (offsetNode cp))) eqn:Htext; cbn [negb];
    [|exists hl; split; [reflexivity|]; split; [left; reflexivity|];
      intros cp' Hcp' Htext'; injection Hcp' as <-; congruence].
  destruct (isTextNode_true body _ Htext) as [d Hd].
  destruct (Hcaret cp d eq_refl Hd) as [Hne _].
  rewrite (textContentOf_text body _ _ Hd).
  destruct d as [|c d]; [congruence|]. cbn [length Nat.eqb].
  set (seed := Nat.min (offset cp) (length (c :: d) - 1)).
  set (hl0 := Incremental.withRange hl _).
  destruct (_ || _ || _);
    [eexists; split; [reflexivity|];
     split; [right; left; apply collapsed_collapse|];
     intros; apply collapsed_collapse|].
  destruct (Incremental.hasMoreThanOne _);
    [eexists; split; [reflexivity|];
     split; [right; left; apply collapsed_collapse|];
     intros; apply collapsed_collapse|].
  set (hl1 := Incremental.setInitialRect hl0 _).
  assert (Ha1 : anchored body (Incremental.range hl1)).
  { split; exists (c :: d); (split; [exact Hd | discriminate]). }
  destruct (I_alternateEnds_spec fuel fuel hl1) as (ks & ke & hl2 & Hrun & Ha2);
    auto; try lia.
  rewrite Hrun. cbn [bind].
  assert (Hstart : exists hl3,
             (if ks
              then '(_, hl) <-
                     Incremental.updateHighlightLineRangeStart body host fuel
                       hl2 false ;; Ok hl
              else Ok hl2) = Ok hl3
             /\ anchored body (Incremental.range hl3)).
  { destruct ks; [|exists hl2; split; [reflexivity | exact Ha2]].
    destruct (I_updateStart_spec (nonEmptyText body) fuel hl2 false)
      as (b & hl3 & Hs & Hg); auto; try lia.
    { apply (nonEmptyText_not_body body); [exact Hb | apply Ha2]. }
    { apply Ha2. }
    rewrite Hs. exists hl3. split; [reflexivity|].
    exact (Grew_anchored body _ _ _ _ _ Hg Ha2). }
  destruct Hstart as (hl3 & Hs3 & Ha3). rewrite Hs3. cbn [bind].
  assert (Hend : exists hl4,
             (if ke
              then '(_, hl) <-
                     Incremental.updateHighlightLineRangeEnd body host fuel
                       hl3 false ;; Ok hl
              else Ok hl3) = Ok hl4
             /\ anchored body (Incremental.range hl4)).
  { destruct ke; [|exists hl3; split; [reflexivity | exact Ha3]].
    destruct (I_updateEnd_spec (nonEmptyText body) fuel hl3 false)
      as (b & hl4 & Hs & Hg); auto; try lia.
    { apply (nonEmptyText_not_body body); [exact Hb | apply Ha3]. }
    { apply Ha3. }
    rewrite Hs. exists hl4. split; [reflexivity|].
    exact (Grew_anchored body _ _ _ _ _ Hg Ha3). }
  destruct Hend as (hl4 & Hs4 & Ha4). rewrite Hs4. cbn [bind].
  destruct (_ || _) eqn:Hcond.
  - eexists; split; [reflexivity|].
    split; [right; left; apply collapsed_collapse|].
    intros; apply collapsed_collapse.
  - exists hl4. split; [reflexivity|]. split; [right; right; exact Ha4|].
    intros cp' Hcp' _ Hws Hat. injection Hcp' as <-. exfalso.
    unfold seedOffsetOf in Hws, Hat.
    rewrite (textContentOf_text body _ _ Hd) in Hws, Hat.
    apply orb_false_iff in Hcond. destruct Hcond as [Hc1 Hc2].
    unfold seed in *. cbn [length] in *.
    destruct Hat as [Hat | Hat]; cbn [movedBoundary] in Hat;
      injection Hat as Hn Ho.
    + rewrite Hn, Ho, sameNode_refl, Nat.eqb_refl in Hc1.
      rewrite (textContentOf_text body _ _ Hd), Hws in Hc1. discriminate.
    + rewrite Hn, Ho, sameNode_refl, Nat.eqb_refl in Hc2.
      rewrite (textContentOf_text body _ _ Hd), Hws in Hc2. discriminate.
Qed.

Lemma I_setHighlightLineRange_spec fuel hl caretPosition mouseY :
  isElement body ->
  (size body + budget + 1 < fuel)%nat ->
  caretOnText body caretPosition ->
  exists hl',
    Incremental.setHighlightLineRange body host fuel hl caretPosition mouseY
    = Ok hl'
    /\ (hl' = hl \/ collapsed (Incremental.range hl') = true
        \/ anchored body (Incremental.range hl')).
Proof.
  intros Hb Hf Hcaret.
  destruct (I_setHighlightLineRange_full fuel hl caretPosition mouseY
              Hb Hf Hcaret) as (hl' & Hrun & Hres & _).
  exists hl'. split; assumption.
Qed.

End IncrementalExpansion.

(** ** Expansion in the revision that recomputes *)

(** The three components of an equation between views. *)
Ltac view_fields H :=
  let E1 := fresh "Erange" in
  let E2 := fresh "Echecks" in
  let E3 := fresh "Elog" in
  pose proof (f_equal v_range H) as E1;
  pose proof (f_equal v_checks H) as E2;
  pose proof (f_equal v_log H) as E3;
  simpl in E1, E2, E3.

Section RecomputeExpansion.

Variable body : Node.
Variable host : Host.

Let budget := Recompute.MAX_LINES_SPANNED_CHECKS.

Lemma R_getBoundingClientRect_view hl :
  viewR (snd (Recompute.getBoundingClientRect host hl)) = viewR hl.
Proof.
  unfold Recompute.getBoundingClientRect.
  destruct (Recompute.boundingClientRect hl); reflexivity.
Qed.

Lemma R_spansMultipleLines_view hl :
  let res := Recompute.spansMultipleLines host hl in
  v_range (viewR (snd res)) = v_range (viewR hl)
  /\ v_log (viewR (snd res)) = v_log (viewR hl)
  /\ v_checks (viewR (snd res)) = S (v_checks (viewR hl))
  /\ (fst res = false -> (S (v_checks (viewR hl)) <= budget)%nat).
Proof.
  unfold Recompute.spansMultipleLines.
  destruct (Recompute.MAX_LINES_SPANNED_CHECKS
            <? S (Recompute.linesSpannedChecks hl))%nat eqn:Hmax.
  - simpl. repeat split. discriminate.
  - apply Nat.ltb_ge in Hmax.
    destruct (length _ <? 2)%nat.
    + simpl. repeat split. intros _. exact Hmax.
    + match goal with
      | |- context [Recompute.getBoundingClientRect host ?h] =>
          pose proof (R_getBoundingClientRect_view h) as Hv;
          destruct (Recompute.getBoundingClientRect host h) as [rect h']
      end.
      view_fields Hv. simpl. rewrite Erange, Echecks, Elog.
      repeat split. intros _. exact Hmax.
Qed.

Lemma R_didNothingOrSpansLines_view hl prevRect :
  let res := Recompute.didNothingOrSpansLines host hl prevRect in
  v_range (viewR (snd res)) = v_range (viewR hl)
  /\ v_log (viewR (snd res)) = v_log (viewR hl)
  /\ (v_checks (viewR hl) <= v_checks (viewR (snd res))
      <= S (v_checks (viewR hl)))%nat
  /\ (fst res = false ->
      (v_checks (viewR hl) < v_checks (viewR (snd res)) <= budget)%nat).
Proof.
  unfold Recompute.didNothingOrSpansLines.
  destruct prevRect as [prev|].
  - pose proof (R_getBoundingClientRect_view hl) as Hv.
    destruct (Recompute.getBoundingClientRect host hl) as [rect h'].
    view_fields Hv.
    destruct (rectanglesAreEqual prev rect).
    + simpl. rewrite Erange, Echecks, Elog. repeat split; try lia;
        discriminate.
    + destruct (R_spansMultipleLines_view h') as (S1 & S2 & S3 & S4).
      simpl in *. rewrite S1, S2, S3, Erange, Echecks, Elog in *.
      repeat split; try lia; apply S4; assumption.
  - destruct (R_spansMultipleLines_view hl) as (S1 & S2 & S3 & S4).
    simpl in *. rewrite S1, S2, S3.
    repeat split; try lia; apply S4; assumption.
Qed.

Lemma R_previousRect_view hl check :
  viewR (snd (Recompute.previousRect host hl check)) = viewR hl.
Proof.
  unfold Recompute.previousRect. destruct check; [|reflexivity].
  pose proof (R_getBoundingClientRect_view hl) as Hv.
  destruct (Recompute.getBoundingClientRect host hl). exact Hv.
Qed.

Lemma R_tryToExpandEnd_grew A hl node off check :
  (0 < off)%nat -> probeOk body A (node, (off - 1)%nat) ->
  Grew body budget AtEnd A (viewR hl)
    (fst (Recompute.tryToExpandEnd host hl node off check))
    (viewR (snd (Recompute.tryToExpandEnd host hl node off check))).
Proof.
  intros Hoff Hpr. unfold Recompute.tryToExpandEnd.
  set (hl0 := Recompute.logProbe hl node (off - 1)).
  pose proof (R_previousRect_view hl0 check) as Hv1.
  destruct (Recompute.previousRect host hl0 check) as [prevRect hl1].
  simpl in Hv1.
  pose proof (R_didNothingOrSpansLines_view
                (Recompute.setEnd hl1 node off) prevRect) as Hv2.
  destruct (Recompute.didNothingOrSpansLines host
              (Recompute.setEnd hl1 node off) prevRect) as [reject hl3].
  simpl in Hv2. destruct Hv2 as (V1 & V2 & V3 & V4).
  assert (Hr1 : Recompute.range hl1 = Recompute.range hl)
    by (change (v_range (viewR hl1) = v_range (viewR hl0)); rewrite Hv1; reflexivity).
  assert (Hl1 : Recompute.probeLog hl1
                = (node, (off - 1)%nat) :: Recompute.probeLog hl)
    by (change (v_log (viewR hl1) = v_log (viewR hl0)); rewrite Hv1; reflexivity).
  assert (Hc1 : Recompute.linesSpannedChecks hl1 = Recompute.linesSpannedChecks hl)
    by (change (v_checks (viewR hl1) = v_checks (viewR hl0)); rewrite Hv1; reflexivity).
  exists [(node, (off - 1)%nat)]. simpl in *.
  destruct reject; simpl.
  - rewrite V1, V2, Hr1, Hl1. simpl.
    split; [reflexivity|]. split; [lia|].
    split; [constructor; [exact Hpr | constructor]|].
    split; [reflexivity|]. split; [left; reflexivity | discriminate].
  - rewrite V1, V2, Hr1, Hl1. simpl.
    split; [reflexivity|]. split; [lia|].
    split; [constructor; [exact Hpr | constructor]|].
    split; [reflexivity|]. split.
    + right. exists (node, (off - 1)%nat). split; [left; reflexivity|].
      simpl. f_equal. lia.
    + intros _. specialize (V4 eq_refl). lia.
Qed.

Lemma R_tryToExpandStart_grew A hl node off check :
  probeOk body A (node, off) ->
  Grew body budget AtStart A (viewR hl)
    (fst (Recompute.tryToExpandStart host hl node off check))
    (viewR (snd (Recompute.tryToExpandStart host hl node off check))).
Proof.
  intros Hpr. unfold Recompute.tryToExpandStart.
  set (hl0 := Recompute.logProbe hl node off).
  pose proof (R_previousRect_view hl0 check) as Hv1.
  destruct (Recompute.previousRect host hl0 check) as [prevRect hl1].
  simpl in Hv1.
  pose proof (R_didNothingOrSpansLines_view
                (Recompute.setStart hl1 node off) prevRect) as Hv2.
  destruct (Recompute.didNothingOrSpansLines host
              (Recompute.setStart hl1 node off) prevRect) as [reject hl3].
  simpl in Hv2. destruct Hv2 as (V1 & V2 & V3 & V4).
  assert (Hr1 : Recompute.range hl1 = Recompute.range hl)
    by (change (v_range (viewR hl1) = v_range (viewR hl0)); rewrite Hv1; reflexivity).
  assert (Hl1 : Recompute.probeLog hl1 = (node, off) :: Recompute.probeLog hl)
    by (change (v_log (viewR hl1) = v_log (viewR hl0)); rewrite Hv1; reflexivity).
  assert (Hc1 : Recompute.linesSpannedChecks hl1 = Recompute.linesSpannedChecks hl)
    by (change (v_checks (viewR hl1) = v_checks (viewR hl0)); rewrite Hv1; reflexivity).
  exists [(node, off)]. simpl in *.
  destruct reject; simpl.
  - rewrite V1, V2, Hr1, Hl1. simpl.
    split; [reflexivity|]. split; [lia|].
    split; [constructor; [exact Hpr | constructor]|].
    split; [reflexivity|]. split; [left; reflexivity | discriminate].
  - rewrite V1, V2, Hr1, Hl1. simpl.
    split; [reflexivity|]. split; [lia|].
    split; [constructor; [exact Hpr | constructor]|].
    split; [reflexivity|]. split.
    + right. exists (node, off). split; [left; reflexivity | reflexivity].
    + intros _. specialize (V4 eq_refl). lia.
Qed.

Lemma R_expandEndInNode_grew (A : NodeRef -> Prop) n :
  forall hl cur off check oneChar,
    A cur ->
    Grew body budget AtEnd A (viewR hl)
      (answerOf (fst (Recompute.expandEndInNode body host n hl cur off check oneChar)))
      (viewR (snd (Recompute.expandEndInNode body host n hl cur off check oneChar))).
Proof.
  induction n as [|n IH]; intros hl cur off check oneChar HA; simpl.
  - apply Grew_refl.
  - destruct (off <? length (textContentOf body cur))%nat; [|apply Grew_refl].
    destruct (isWhitespaceOrZeroWidth (charAt (textContentOf body cur) off)) eqn:Hws.
    + apply IH. exact HA.
    + pose proof (R_tryToExpandEnd_grew A hl cur (S off) check) as Hg.
      destruct (Recompute.tryToExpandEnd host hl cur (S off) check) as [ex hl1].
      simpl in Hg.
      assert (Hg1 : Grew body budget AtEnd A (viewR hl) ex (viewR hl1)).
      { apply Hg; [lia|]. split; [|exact HA]. simpl.
        replace (S off - 1)%nat with off by lia. exact Hws. }
      destruct ex; simpl.
      * destruct oneChar; simpl; [exact Hg1|].
        eapply Grew_trans; [exact Hg1 | apply IH; exact HA].
      * exact Hg1.
Qed.

Lemma R_expandStartInNode_grew (A : NodeRef -> Prop) n :
  forall hl cur off oneChar,
    A cur ->
    Grew body budget AtStart A (viewR hl)
      (answerOf (fst (Recompute.expandStartInNode body host n hl cur off oneChar)))
      (viewR (snd (Recompute.expandStartInNode body host n hl cur off oneChar))).
Proof.
  induction n as [|n IH]; intros hl cur off oneChar HA; simpl.
  - apply Grew_refl.
  - destruct (0 <? off)%nat; [|apply Grew_refl].
    destruct (isWhitespaceOrZeroWidth
                (charAt (textContentOf body cur) (off - 1))) eqn:Hws.
    + apply IH. exact HA.
    + pose proof (R_tryToExpandStart_grew A hl cur (off - 1)%nat false) as Hg.
      destruct (Recompute.tryToExpandStart host hl cur (off - 1) false)
        as [ex hl1].
      simpl in Hg.
      assert (Hg1 : Grew body budget AtStart A (viewR hl) ex (viewR hl1)).
      { apply Hg. split; [exact Hws | exact HA]. }
      destruct ex; simpl.
      * destruct oneChar; simpl; [exact Hg1|].
        eapply Grew_trans; [exact Hg1 | apply IH; exact HA].
      * exact Hg1.
Qed.

Lemma R_nextUncle_weight parent u :
  Recompute.nextUncle body parent = Some u ->
  u <> [] /\ resolve body u <> None
  /\ (sizeAt body u + weightAfter body u <= weightAfter body parent)%nat.
Proof.
  induction parent as [|c g IH]; simpl; [discriminate|].
  assert (Hup : Recompute.nextUncle body g = Some u ->
                u <> [] /\ resolve body u <> None
                /\ (sizeAt body u + weightAfter body u
                    <= weightAfter body (c :: g))%nat).
  { intros H. destruct (IH H) as (H1 & H2 & H3).
    repeat split; try assumption. rewrite weightAfter_cons. lia. }
  destruct (nextSibling body (c :: g)) as [s|] eqn:Hs; [|exact Hup].
  destruct (occupiesSpaceAt body s); [|exact Hup].
  intros H. injection H as <-.
  destruct (nextSibling_weight body _ _ Hs) as (H1 & H2 & H3).
  repeat split; try assumption. lia.
Qed.

Lemma R_previousUncle_weight parent u :
  Recompute.previousUncle body parent = Some u ->
  u <> [] /\ resolve body u <> None
  /\ (sizeAt body u + weightBefore body u <= weightBefore body parent)%nat.
Proof.
  induction parent as [|c g IH]; simpl; [discriminate|].
  assert (Hup : Recompute.previousUncle body g = Some u ->
                u <> [] /\ resolve body u <> None
                /\ (sizeAt body u + weightBefore body u
                    <= weightBefore body (c :: g))%nat).
  { intros H. destruct (IH H) as (H1 & H2 & H3).
    repeat split; try assumption. rewrite weightBefore_cons. lia. }
  destruct (previousSibling body (c :: g)) as [s|] eqn:Hs; [|exact Hup].
  destruct (occupiesSpaceAt body s); [|exact Hup].
  intros H. injection H as <-.
  destruct (previousSibling_weight body _ _ Hs) as (H1 & H2 & H3).
  repeat split; try assumption. lia.
Qed.

Lemma R_nextNodeOf_weight cur :
  cur <> [] ->
  exists r,
    Recompute.nextNodeOf body cur = Ok r
    /\ forall n, r = Some n ->
         n <> [] /\ (1 <= sizeAt body n)%nat
         /\ (sizeAt body n + weightAfter body n <= weightAfter body cur)%nat.
Proof.
  intros Hne. destruct cur as [|c g]; [congruence|].
  unfold Recompute.nextNodeOf.
  assert (Hup : exists r,
             Ok (Recompute.nextUncle body g) = Ok r
             /\ forall n, r = Some n ->
                  n <> [] /\ (1 <= sizeAt body n)%nat
                  /\ (sizeAt body n + weightAfter body n
                      <= weightAfter body (c :: g))%nat).
  { exists (Recompute.nextUncle body g).
    split; [reflexivity|]. intros n Hn.
    destruct (R_nextUncle_weight _ _ Hn) as (H1 & H2 & H3).
    split; [exact H1|]. split.
    + destruct (resolve body n) eqn:Hr; [|congruence].
      exact (sizeAt_pos _ _ _ Hr).
    + rewrite weightAfter_cons. lia. }
  change (parentNode (c :: g)) with (Some g).
  destruct (nextSibling body (c :: g)) as [s|] eqn:Hs; [|exact Hup].
  destruct (occupiesSpaceAt body s); [|exact Hup].
  exists (Some s). split; [reflexivity|]. intros n Hn. injection Hn as <-.
  destruct (nextSibling_weight body _ _ Hs) as (H1 & H2 & H3).
  split; [exact H1|]. split; [|lia].
  destruct (resolve body s) eqn:Hr; [|congruence].
  exact (sizeAt_pos _ _ _ Hr).
Qed.

Lemma R_findNextTextNode_total fuel :
  forall cur,
    (weightAfter body cur < fuel)%nat -> cur <> [] ->
    exists r,
      Recompute.findNextTextNode body fuel cur = Ok r
      /\ forall t, r = Some t ->
           t <> [] /\ nonEmptyText body t
           /\ (weightAfter body t < weightAfter body cur)%nat.
Proof.
  induction fuel as [|fuel IH]; intros cur Hw Hne; [lia|].
  cbn [Recompute.findNextTextNode].
  destruct (R_nextNodeOf_weight cur Hne) as (r & Hr & Hspec).
  rewrite Hr. cbn [bind]. destruct r as [n|].
  - destruct (Hspec n eq_refl) as (Hn1 & Hn2 & Hn3).
    destruct (getNextTextNodeAt body n) as [t|] eqn:Ht.
    + exists (Some t). split; [reflexivity|]. intros t' Ht'. injection Ht' as <-.
      destruct (getNextTextNodeAt_sound body n t Hn1 Ht) as (T1 & T2 & T3).
      pose proof (nonEmptyText_resolves body t T2).
      repeat split; try assumption. lia.
    + destruct (IH n) as (r & Hr' & Hs'); [lia | exact Hn1 |].
      exists r. split; [exact Hr'|]. intros t Ht'.
      destruct (Hs' t Ht') as (T1 & T2 & T3). repeat split; try assumption. lia.
  - exists None. split; [reflexivity|]. discriminate.
Qed.

Lemma R_expandEndLoop_spec (A : NodeRef -> Prop) fuel :
  (forall t, nonEmptyText body t -> A t) ->
  forall hl cur off check oneChar,
    (weightAfter body cur < fuel)%nat -> cur <> [] -> A cur ->
    exists b hl',
      Recompute.expandEndLoop body host fuel hl cur off check oneChar
      = Ok (b, hl')
      /\ Grew body budget AtEnd A (viewR hl) b (viewR hl').
Proof.
  intros HA. induction fuel as [|fuel IH];
    intros hl cur off check oneChar Hw Hne Hcur; [lia|].
  cbn [Recompute.expandEndLoop].
  pose proof (R_expandEndInNode_grew A
                (length (textContentOf body cur) - off) hl cur off check
                oneChar Hcur) as Hin.
  destruct (Recompute.expandEndInNode body host _ hl cur off check oneChar)
    as [[b | u] hl1]; simpl in Hin.
  - exists b, hl1. split; [reflexivity | exact Hin].
  - destruct (R_findNextTextNode_total (S fuel) cur Hw Hne) as (r & Hr & Hs).
    rewrite Hr. cbn [bind]. destruct r as [t|].
    + destruct (Hs t eq_refl) as (T1 & T2 & T3).
      destruct (IH hl1 t 0%nat true oneChar) as (b & hl2 & Hrun & Hg);
        [lia | exact T1 | apply HA; exact T2 |].
      exists b, hl2. split; [exact Hrun|].
      eapply Grew_trans; [exact Hin | exact Hg].
    + exists false, hl1. split; [reflexivity | exact Hin].
Qed.

Lemma R_previousNodeOf_weight cur :
  cur <> [] ->
  exists r,
    Recompute.previousNodeOf body cur = Ok r
    /\ forall n, r = Some n ->
         n <> [] /\ (1 <= sizeAt body n)%nat
         /\ (sizeAt body n + weightBefore body n <= weightBefore body cur)%nat.
Proof.
  intros Hne. destruct cur as [|c g]; [congruence|].
  unfold Recompute.previousNodeOf.
  assert (Hup : exists r,
             Ok (Recompute.previousUncle body g) = Ok r
             /\ forall n, r = Some n ->
                  n <> [] /\ (1 <= sizeAt body n)%nat
                  /\ (sizeAt body n + weightBefore body n
                      <= weightBefore body (c :: g))%nat).
  { exists (Recompute.previousUncle body g).
    split; [reflexivity|]. intros n Hn.
    destruct (R_previousUncle_weight _ _ Hn) as (H1 & H2 & H3).
    split; [exact H1|]. split.
    + destruct (resolve body n) eqn:Hr; [|congruence].
      exact (sizeAt_pos _ _ _ Hr).
    + rewrite weightBefore_cons. lia. }
  change (parentNode (c :: g)) with (Some g).
  destruct (previousSibling body (c :: g)) as [s|] eqn:Hs; [|exact Hup].
  destruct (occupiesSpaceAt body s); [|exact Hup].
  exists (Some s). split; [reflexivity|]. intros n Hn. injection Hn as <-.
  destruct (previousSibling_weight body _ _ Hs) as (H1 & H2 & H3).
  split; [exact H1|]. split; [|lia].
  destruct (resolve body s) eqn:Hr; [|congruence].
  exact (sizeAt_pos _ _ _ Hr).
Qed.

Lemma R_stepToPreviousTextNode_spec (A : NodeRef -> Prop) fuel :
  (forall t, nonEmptyText body t -> A t) ->
  forall hl cur oneChar,
    (weightBefore body cur < fuel)%nat -> cur <> [] ->
    exists r hl',
      Recompute.stepToPreviousTextNode body host fuel hl cur oneChar
      = Ok (r, hl')
      /\ Grew body budget AtStart A (viewR hl) (stepAnswer r) (viewR hl')
      /\ forall node off, r = inr (node, off) ->
           node <> [] /\ nonEmptyText body node
           /\ (weightBefore body node < weightBefore body cur)%nat.
Proof.
  intros HA. induction fuel as [|fuel IH]; intros hl cur oneChar Hw Hne; [lia|].
  cbn [Recompute.stepToPreviousTextNode].
  destruct (R_previousNodeOf_weight cur Hne) as (r & Hr & Hspec).
  rewrite Hr. cbn [bind]. destruct r as [n|].
  - destruct (Hspec n eq_refl) as (Hn1 & Hn2 & Hn3).
    assert (Hrec : exists r hl',
               Recompute.stepToPreviousTextNode body host fuel hl n oneChar
               = Ok (r, hl')
               /\ Grew body budget AtStart A (viewR hl) (stepAnswer r) (viewR hl')
               /\ forall node off, r = inr (node, off) ->
                    node <> [] /\ nonEmptyText body node
                    /\ (weightBefore body node < weightBefore body cur)%nat).
    { destruct (IH hl n oneChar) as (r & hl' & Hr' & Hg & Hs'); [lia | exact Hn1 |].
      exists r, hl'. split; [exact Hr'|]. split; [exact Hg|].
      intros node off Hno. destruct (Hs' node off Hno) as (T1 & T2 & T3).
      repeat split; try assumption. lia. }
    destruct (getLastNonEmptyTextNodeAt body n) as [t|] eqn:Ht; [|exact Hrec].
    destruct (getLastNonEmptyTextNodeAt_sound body n t Hn1 Ht) as (T1 & T2 & T3).
    pose proof (nonEmptyText_resolves body t T2) as Hsz.
    destruct (isWhitespaceOrZeroWidth
                (charAt (textContentOf body t)
                   (length (textContentOf body t) - 1))) eqn:Hws.
    + cbn [andb negb]. rewrite andb_false_r.
      eexists _, hl. split; [reflexivity|]. split; [apply Grew_refl|].
      intros node off Hno. injection Hno as <- <-.
      repeat split; try assumption. lia.
    + pose proof (R_tryToExpandStart_grew A hl t
                    (length (textContentOf body t) - 1)%nat true) as Hg.
      destruct (Recompute.tryToExpandStart host hl t _ true) as [ex hl1].
      simpl in Hg.
      assert (Hg1 : Grew body budget AtStart A (viewR hl) ex (viewR hl1)).
      { apply Hg. split; [exact Hws | apply HA; exact T2]. }
      destruct ex.
      * destruct oneChar; cbn [andb negb].
        -- eexists _, hl1. split; [reflexivity|]. split; [exact Hg1|].
           discriminate.
        -- eexists _, hl1. split; [reflexivity|].
           split; [exact (Grew_false _ _ _ _ _ _ _ Hg1)|].
           intros node off Hno. injection Hno as <- <-.
           repeat split; try assumption. lia.
      * eexists _, hl1. split; [reflexivity|]. split; [exact Hg1|].
        discriminate.
  - eexists _, hl. split; [reflexivity|]. split; [apply Grew_refl|].
    discriminate.
Qed.

Lemma R_expandStartLoop_spec (A : NodeRef -> Prop) fuel :
  (forall t, nonEmptyText body t -> A t) ->
  forall hl cur off oneChar,
    (weightBefore body cur < fuel)%nat -> cur <> [] -> A cur ->
    exists b hl',
      Recompute.expandStartLoop body host fuel hl cur off oneChar
      = Ok (b, hl')
      /\ Grew body budget AtStart A (viewR hl) b (viewR hl').
Proof.
  intros HA. induction fuel as [|fuel IH]; intros hl cur off oneChar Hw Hne Hcur;
    [lia|].
  cbn [Recompute.expandStartLoop].
  pose proof (R_expandStartInNode_grew A off hl cur off oneChar Hcur) as Hin.
  destruct (Recompute.expandStartInNode body host off hl cur off oneChar)
    as [[b | u] hl1]; simpl in Hin.
  - exists b, hl1. split; [reflexivity | exact Hin].
  - destruct (R_stepToPreviousTextNode_spec A (S fuel) HA hl1 cur oneChar Hw Hne)
      as (r & hl2 & Hr & Hg & Hs).
    rewrite Hr. cbn [bind]. destruct r as [b | [node off']].
    + exists b, hl2. split; [reflexivity|].
      eapply Grew_trans; [exact Hin | exact Hg].
    + destruct (Hs node off' eq_refl) as (T1 & T2 & T3).
      destruct (IH hl2 node off' oneChar) as (b & hl3 & Hrun & Hg3);
        [lia | exact T1 | apply HA; exact T2 |].
      exists b, hl3. split; [exact Hrun|].
      eapply Grew_trans; [exact Hin|].
      eapply Grew_trans; [exact Hg | exact Hg3].
Qed.

(** Both [update] functions return, and what they did is an expansion
    of their side. *)
Lemma R_updateEnd_spec (A : NodeRef -> Prop) fuel hl oneChar :
  (forall t, nonEmptyText body t -> A t) ->
  (size body < fuel)%nat ->
  endContainer (Recompute.range hl) <> [] ->
  A (endContainer (Recompute.range hl)) ->
  exists b hl',
    Recompute.updateHighlightLineRangeEnd body host fuel hl oneChar
    = Ok (b, hl')
    /\ Grew body budget AtEnd A (viewR hl) b (viewR hl').
Proof.
  intros HA Hf Hne Hc. unfold Recompute.updateHighlightLineRangeEnd.
  apply R_expandEndLoop_spec; try assumption.
  pose proof (weightAfter_bound body (endContainer (Recompute.range hl))). lia.
Qed.

Lemma R_updateStart_spec (A : NodeRef -> Prop) fuel hl oneChar :
  (forall t, nonEmptyText body t -> A t) ->
  (size body < fuel)%nat ->
  startContainer (Recompute.range hl) <> [] ->
  A (startContainer (Recompute.range hl)) ->
  exists b hl',
    Recompute.updateHighlightLineRangeStart body host fuel hl oneChar
    = Ok (b, hl')
    /\ Grew body budget AtStart A (viewR hl) b (viewR hl').
Proof.
  intros HA Hf Hne Hc. unfold Recompute.updateHighlightLineRangeStart.
  apply R_expandStartLoop_spec; try assumption.
  pose proof (weightBefore_bound body (startContainer (Recompute.range hl))). lia.
Qed.

Lemma R_alternateEnds_spec n :
  forall fuel hl,
    isElement body ->
    (size body < fuel)%nat ->
    (budget + 1 - Recompute.linesSpannedChecks hl < n)%nat ->
    anchored body (Recompute.range hl) ->
    exists ks ke hl',
      Recompute.alternateEnds body host n fuel hl = Ok (ks, ke, hl')
      /\ anchored body (Recompute.range hl').
Proof.
  induction n as [|n IH]; intros fuel hl Hb Hf Hn Ha; [lia|].
  cbn [Recompute.alternateEnds].
  destruct (R_updateEnd_spec (nonEmptyText body) fuel hl true)
    as (ke & hl1 & He & Hg1); auto.
  { apply (nonEmptyText_not_body body); [exact Hb | apply Ha]. }
  { apply Ha. }
  rewrite He. cbn [bind].
  pose proof (Grew_anchored body _ _ _ _ _ Hg1 Ha) as Ha1.
  destruct (R_updateStart_spec (nonEmptyText body) fuel hl1 true)
    as (ks & hl2 & Hs & Hg2); auto.
  { apply (nonEmptyText_not_body body); [exact Hb | apply Ha1]. }
  { apply Ha1. }
  rewrite Hs. cbn [bind].
  pose proof (Grew_anchored body _ _ _ _ _ Hg2 Ha1) as Ha2.
  destruct (ks && ke) eqn:Hboth.
  - apply andb_true_iff in Hboth. destruct Hboth as [-> ->].
    destruct Hg1 as (n1 & _ & C1 & _ & _ & _ & B1).
    destruct Hg2 as (n2 & _ & C2 & _ & _ & _ & B2).
    specialize (B1 eq_refl). specialize (B2 eq_refl).
    apply IH; try assumption.
    unfold budget, Recompute.MAX_LINES_SPANNED_CHECKS in *. simpl in *. lia.
  - exists ks, ke, hl2. split; [reflexivity | exact Ha2].
Qed.

(** Line resolution returns, and leaves the range collapsed, anchored
    in text, or as it was. *)
Lemma R_setHighlightLineRange_full fuel hl caretPosition mouseY :
  isElement body ->
  (size body + budget + 1 < fuel)%nat ->
  caretOnText body caretPosition ->
  exists hl',
    Recompute.setHighlightLineRange body host fuel hl caretPosition mouseY
    = Ok hl'
    /\ (hl' = hl \/ collapsed (Recompute.range hl') = true
        \/ anchored body (Recompute.range hl'))
    /\ forall cp,
         caretPosition = Some cp ->
         isTextNode body (Some (offsetNode cp)) = true ->
         isWhitespaceOrZeroWidth
           (charAt (textContentOf body (offsetNode cp)) (seedOffsetOf body cp))
         = true ->
         movedBoundary AtStart (Recompute.range hl')
         = (offsetNode cp, seedOffsetOf body cp)
         \/ movedBoundary AtEnd (Recompute.range hl')
            = (offsetNode cp, S (seedOffsetOf body cp)) ->
         collapsed (Recompute.range hl') = true.
Proof.
  intros Hb Hf Hcaret. unfold Recompute.setHighlightLineRange.
  destruct caretPosition as [cp|];
    [|exists hl; split; [reflexivity|]; split; [left; reflexivity|];
      intros cp' Hcp'; discriminate].
  destruct (isTextNode body (Some (offsetNode cp))) eqn:Htext; cbn [negb];
    [|exists hl; split; [reflexivity|]; split; [left; reflexivity|];
      intros cp' Hcp' Htext'; injection Hcp' as <-; congruence].
  destruct (isTextNode_true body _ Htext) as [d Hd].
  destruct (Hcaret cp d eq_refl Hd) as [Hne _].
  rewrite (textContentOf_text body _ _ Hd).
  destruct d as [|c d]; [congruence|]. cbn [length Nat.eqb].
  set (seed := Nat.min (offset cp) (length (c :: d) - 1)).
  set (hl0 := Recompute.setEnd _ _ _).
  pose proof (R_getBoundingClientRect_view hl0) as Hv.
  destruct (Recompute.getBoundingClientRect host hl0) as [lineRect hl0'].
  simpl in Hv.
  assert (Hr0 : Recompute.range hl0' = Recompute.range hl0)
    by (change (v_range (viewR hl0') = v_range (viewR hl0)); rewrite Hv;
        reflexivity).
  destruct (_ || _ || _);
    [eexists; split; [reflexivity|];
     split; [right; left; apply collapsed_collapse|];
     intros; apply collapsed_collapse|].
  destruct (1 <? _)%nat;
    [eexists; split; [reflexivity|];
     split; [right; left; apply collapsed_collapse|];
     intros; apply collapsed_collapse|].
  set (hl1 := Recompute.resetLinesSpannedChecksCount hl0').
  assert (Ha1 : anchored body (Recompute.range hl1)).
  { unfold hl1. simpl. rewrite Hr0.
    split; exists (c :: d); (split; [exact Hd | discriminate]). }
  destruct (R_alternateEnds_spec fuel fuel hl1) as (ks & ke & hl2 & Hrun & Ha2);
    auto; try lia.
  rewrite Hrun. cbn [bind].
  assert (Hstart : exists hl3,
             (if ks
              then '(_, hl) <-
                     Recompute.updateHighlightLineRangeStart body host fuel
                       hl2 false ;; Ok hl
              else Ok hl2) = Ok hl3
             /\ anchored body (Recompute.range hl3)).
  { destruct ks; [|exists hl2; split; [reflexivity | exact Ha2]].
    destruct (R_updateStart_spec (nonEmptyText body) fuel hl2 false)
      as (b & hl3 & Hs & Hg); auto; try lia.
    { apply (nonEmptyText_not_body body); [exact Hb | apply Ha2]. }
    { apply Ha2. }
    rewrite Hs. exists hl3. split; [reflexivity|].
    exact (Grew_anchored body _ _ _ _ _ Hg Ha2). }
  destruct Hstart as (hl3 & Hs3 & Ha3). rewrite Hs3. cbn [bind].
  assert (Hend : exists hl4,
             (if ke
              then '(_, hl) <-
                     Recompute.updateHighlightLineRangeEnd body host fuel
                       hl3 false ;; Ok hl
              else Ok hl3) = Ok hl4
             /\ anchored body (Recompute.range hl4)).
  { destruct ke; [|exists hl3; split; [reflexivity | exact Ha3]].
    destruct (R_updateEnd_spec (nonEmptyText body) fuel hl3 false)
      as (b & hl4 & Hs & Hg); auto; try lia.
    { apply (nonEmptyText_not_body body); [exact Hb | apply Ha3]. }
    { apply Ha3. }
    rewrite Hs. exists hl4. split; [reflexivity|].
    exact (Grew_anchored body _ _ _ _ _ Hg Ha3). }
  destruct Hend as (hl4 & Hs4 & Ha4). rewrite Hs4. cbn [bind].
  destruct (_ || _) eqn:Hcond.
  - eexists; split; [reflexivity|].
    split; [right; left; apply collapsed_collapse|].
    intros; apply collapsed_collapse.
  - exists hl4. split; [reflexivity|]. split; [right; right; exact Ha4|].
    intros cp' Hcp' _ Hws Hat. injection Hcp' as <-. exfalso.
    unfold seedOffsetOf in Hws, Hat.
    rewrite (textContentOf_text body _ _ Hd) in Hws, Hat.
    apply orb_false_iff in Hcond. destruct Hcond as [Hc1 Hc2].
    unfold seed in *. cbn [length] in *.
    destruct Hat as [Hat | Hat]; cbn [movedBoundary] in Hat;
      injection Hat as Hn Ho.
    + rewrite Hn, Ho, sameNode_refl, Nat.eqb_refl in Hc1.
      rewrite (textContentOf_text body _ _ Hd), Hws in Hc1. discriminate.
    + rewrite Hn, Ho, sameNode_refl, Nat.eqb_refl in Hc2.
      rewrite (textContentOf_text body _ _ Hd), Hws in Hc2. discriminate.
Qed.

Lemma R_setHighlightLineRange_spec fuel hl caretPosition mouseY :
  isElement body ->
  (size body + budget + 1 < fuel)%nat ->
  caretOnText body caretPosition ->
  exists hl',
    Recompute.setHighlightLineRange body host fuel hl caretPosition mouseY
    = Ok hl'
    /\ (hl' = hl \/ collapsed (Recompute.range hl') = true
        \/ anchored body (Recompute.range hl')).
Proof.
  intros Hb Hf Hcaret.
  destruct (R_setHighlightLineRange_full fuel hl caretPosition mouseY
              Hb Hf Hcaret) as (hl' & Hrun & Hres & _).
  exists hl'. split; assumption.
Qed.

End RecomputeExpansion.

(** ** Words *)

Section TakeWhile.

Context {A : Type} (p : A -> bool).

Lemma takeWhile_all (l : list A) : forallb p (takeWhile p l) = true.
Proof.
  induction l as [|x l IH]; simpl; [reflexivity|].
  destruct (p x) eqn:Hx; simpl; [rewrite Hx; exact IH | reflexivity].
Qed.

Lemma takeWhile_app_all (l1 l2 : list A) :
  forallb p l1 = true -> takeWhile p (l1 ++ l2) = l1 ++ takeWhile p l2.
Proof.
  induction l1 as [|x l1 IH]; simpl; [reflexivity|].
  intros H. apply andb_true_iff in H. destruct H as [Hx Hl].
  rewrite Hx, IH by exact Hl. reflexivity.
Qed.

Lemma takeWhile_app_stop (w : list A) (d : A) (r : list A) :
  forallb p w = true -> p d = false -> takeWhile p (w ++ d :: r) = w.
Proof.
  intros Hw Hd. rewrite takeWhile_app_all by exact Hw. simpl.
  rewrite Hd, app_nil_r. reflexivity.
Qed.

Lemma takeWhile_length (l : list A) :
  (length (takeWhile p l) <= length l)%nat.
Proof.
  induction l as [|x l IH]; simpl; [lia|]. destruct (p x); simpl; lia.
Qed.

Lemma takeWhile_short (l : list A) :
  (length (takeWhile p l) < length l)%nat ->
  exists d r, l = takeWhile p l ++ d :: r /\ p d = false.
Proof.
  induction l as [|x l IH]; simpl; [lia|].
  destruct (p x) eqn:Hx; simpl; intros H.
  - destruct IH as (d & r & Hl & Hd); [lia|].
    exists d, r. split; [f_equal; exact Hl | exact Hd].
  - exists x, l. split; [reflexivity | exact Hx].
Qed.

Lemma takeWhile_full (l : list A) :
  length (takeWhile p l) = length l -> takeWhile p l = l.
Proof.
  induction l as [|x l IH]; simpl; [reflexivity|].
  destruct (p x); simpl; intros H; [f_equal; apply IH; lia | discriminate].
Qed.

End TakeWhile.

Lemma firstn_snoc {A} (l : list A) (n : nat) (x : A) :
  nth_error l n = Some x -> firstn (S n) l = firstn n l ++ [x].
Proof.
  revert n. induction l as [|a l IH]; intros [|n] H; simpl in *; try discriminate.
  - congruence.
  - f_equal. apply IH. exact H.
Qed.

Lemma firstn_plus {A} (a b : nat) (l : list A) :
  firstn (a + b) l = firstn a l ++ firstn b (skipn a l).
Proof.
  revert l. induction a as [|a IH]; intros l; [reflexivity|].
  destruct l as [|x l]; simpl.
  - destruct b; reflexivity.
  - f_equal. apply IH.
Qed.

Lemma firstn_length_app {A} (w r : list A) : firstn (length w) (w ++ r) = w.
Proof.
  induction w as [|x w IH]; simpl; [destruct r; reflexivity|].
  f_equal. exact IH.
Qed.

Arguments skipn : simpl never.
Arguments firstn : simpl never.

Section WordScan.

Variable isDelimiter : option codeunit -> bool.

Let p := isWordCode isDelimiter.

Lemma scanWordEnd_spec (text : list codeunit) n :
  forall off,
    (length text - off <= n)%nat ->
    scanWordEnd isDelimiter n text off
    = (off + length (takeWhile p (skipn off text)))%nat.
Proof.
  induction n as [|n IH]; intros off Hn; simpl.
  - rewrite skipn_all2 by lia. simpl. lia.
  - destruct (off <? length text)%nat eqn:Hlt; simpl.
    + apply Nat.ltb_lt in Hlt.
      destruct (nth_error text off) as [c|] eqn:Hc;
        [|apply nth_error_None in Hc; lia].
      unfold charAt. rewrite Hc, (skipn_nth_error _ _ _ Hc). simpl.
      unfold isWordChar. fold (isWordCode isDelimiter c). fold p.
      destruct (p c); simpl; [|lia].
      rewrite IH by lia. lia.
    + apply Nat.ltb_ge in Hlt. rewrite skipn_all2 by lia. simpl. lia.
Qed.

Lemma scanWordStart_spec (text : list codeunit) n :
  forall off,
    (off <= n)%nat -> (off <= length text)%nat ->
    scanWordStart isDelimiter n text off
    = (off - length (takeWhile p (rev (firstn off text))))%nat.
Proof.
  induction n as [|n IH]; intros off Hn Hlen; simpl.
  - replace off with 0%nat by lia. reflexivity.
  - destruct off as [|m]; [reflexivity|].
    change (0 <? S m)%nat with true. cbn [andb].
    replace (S m - 1)%nat with m by lia.
    destruct (nth_error text m) as [c|] eqn:Hc;
      [|apply nth_error_None in Hc; lia].
    unfold charAt. rewrite Hc, (firstn_snoc _ _ _ Hc), rev_app_distr. simpl.
    unfold isWordChar. fold (isWordCode isDelimiter c). fold p.
    destruct (p c); simpl; [|lia].
    rewrite IH by lia.
    pose proof (takeWhile_length p (rev (firstn m text))) as Hl.
    rewrite length_rev, length_firstn in Hl. lia.
Qed.

End WordScan.

(** *** The siblings of the hit node *)

Section Siblings.

Variable body : Node.
Variable isDelimiter : option codeunit -> bool.
Variable q : NodeRef.

Let p := isWordCode isDelimiter.
Let cs := childrenAt body q.

Lemma sibling_text (j : nat) (t : list codeunit) :
  nth_error cs j = Some (TextNode t) ->
  isTextNode body (Some (j :: q)) = true
  /\ textContentOf body (j :: q) = t.
Proof.
  intros H. unfold isTextNode, textContentOf.
  rewrite resolve_cons. fold cs. rewrite H. split; reflexivity.
Qed.

Lemma sibling_not_text (j : nat) :
  (forall t, nth_error cs j <> Some (TextNode t)) ->
  isTextNode body (Some (j :: q)) = false.
Proof.
  intros H. unfold isTextNode. rewrite resolve_cons. fold cs.
  destruct (nth_error cs j) as [[t | w h l | d]|]; try reflexivity.
  exfalso. exact (H t eq_refl).
Qed.

Lemma textBefore_text (j o : nat) (t : list codeunit) :
  nth_error cs j = Some (TextNode t) ->
  textBefore cs j o = concat (map textOf (firstn j cs)) ++ firstn o t.
Proof.
  intros H. unfold textBefore.
  rewrite (nth_error_nth _ _ _ H). reflexivity.
Qed.

Lemma texts_upto_next (j : nat) (n : Node) :
  nth_error cs j = Some n ->
  concat (map textOf (firstn (S j) cs))
  = concat (map textOf (firstn j cs)) ++ textOf n.
Proof.
  intros H. rewrite (firstn_snoc _ _ _ H), map_app, concat_app. simpl.
  rewrite app_nil_r. reflexivity.
Qed.

Lemma findWordEnd_spec fuel :
  forall i t off,
    nth_error cs i = Some (TextNode t) ->
    (off <= length t)%nat ->
    (textsIn (skipn (S i) cs) < fuel)%nat ->
    exists j tj o,
      findWordEnd body isDelimiter fuel (i :: q) off = Ok (j :: q, o)
      /\ (i <= j <= i + textsIn (skipn (S i) cs))%nat
      /\ nth_error cs j = Some (TextNode tj)
      /\ (o <= length tj)%nat
      /\ textBefore cs j o
         = textBefore cs i off
           ++ takeWhile p (skipn off t ++ runOf (skipn (S i) cs)).
Proof.
  induction fuel as [|fuel IH]; intros i t off Hi Hoff Hfuel; [lia|].
  cbn [findWordEnd].
  destruct (sibling_text i t Hi) as [Htext Hcontent]. rewrite Hcontent.
  rewrite (scanWordEnd_spec isDelimiter t _ off (Nat.le_refl _)). fold p.
  set (w := takeWhile p (skipn off t)).
  pose proof (takeWhile_length p (skipn off t)) as Hwlen. fold w in Hwlen.
  rewrite length_skipn in Hwlen.
  pose proof (takeWhile_all p (skipn off t)) as Hwall. fold w in Hwall.
  rewrite (textBefore_text i off t Hi).
  destruct (off + length w <? length t)%nat eqn:Hlt; cbn [orb].
  - apply Nat.ltb_lt in Hlt.
    destruct (takeWhile_short p (skipn off t)) as (d & r & Hsplit & Hd).
    { fold w. rewrite length_skipn. lia. }
    fold w in Hsplit.
    exists i, t, (off + length w)%nat.
    split; [reflexivity|]. split; [lia|]. split; [exact Hi|]. split; [lia|].
    rewrite (textBefore_text i _ t Hi), firstn_plus, Hsplit.
    rewrite firstn_length_app, <- app_assoc.
    rewrite <- app_assoc. simpl.
    rewrite (takeWhile_app_stop p w d _ Hwall Hd). reflexivity.
  - apply Nat.ltb_ge in Hlt.
    assert (Hw : w = skipn off t).
    { apply takeWhile_full. fold w. rewrite length_skipn. lia. }
    rewrite nextSibling_cons. fold cs.
    assert (Hstop : runOf (skipn (S i) cs) = [] ->
              exists j tj o,
                Ok (i :: q, (off + length w)%nat) = Ok (j :: q, o)
                /\ (i <= j <= i + textsIn (skipn (S i) cs))%nat
                /\ nth_error cs j = Some (TextNode tj)
                /\ (o <= length tj)%nat
                /\ textBefore cs j o
                   = (concat (map textOf (firstn i cs)) ++ firstn off t)
                     ++ takeWhile p (skipn off t ++ runOf (skipn (S i) cs))).
    { intros Hrun. exists i, t, (off + length w)%nat.
      split; [reflexivity|]. split; [lia|]. split; [exact Hi|]. split; [lia|].
      rewrite Hrun, app_nil_r. fold w.
      rewrite (textBefore_text i _ t Hi), firstn_plus, Hw.
      rewrite firstn_all, app_assoc. reflexivity. }
    destruct (nth_error cs (S i)) as [n|] eqn:Hn.
    + destruct n as [t' | w' h' l' | d'].
      * destruct (sibling_text (S i) t' Hn) as [Htext' _].
        rewrite Htext'. cbn [negb].
        pose proof (skipn_nth_error _ _ _ Hn) as Hskip.
        rewrite Hskip in Hfuel. cbn [textsIn] in Hfuel.
        destruct (IH (S i) t' 0%nat Hn) as (j & tj & o & Hrun & Hj & Htj & Ho & Htb);
          [lia | lia |].
        exists j, tj, o. split; [exact Hrun|].
        split; [rewrite Hskip; cbn [textsIn]; lia|].
        split; [exact Htj|]. split; [exact Ho|].
        rewrite Htb, Hskip. cbn [runOf].
        rewrite (textBefore_text (S i) 0 t' Hn).
        rewrite (texts_upto_next i _ Hi). cbn [textOf].
        change (skipn 0 t') with t'. change (firstn 0 t') with (@nil codeunit).
        rewrite app_nil_r.
        rewrite (takeWhile_app_all p (skipn off t)) by (rewrite <- Hw; exact Hwall).
        rewrite <- (firstn_skipn off t) at 1.
        rewrite <- !app_assoc. reflexivity.
      * rewrite sibling_not_text by (intros t'; rewrite Hn; discriminate).
        cbn [negb]. apply Hstop.
        rewrite (skipn_nth_error _ _ _ Hn). reflexivity.
      * rewrite sibling_not_text by (intros t'; rewrite Hn; discriminate).
        cbn [negb]. apply Hstop.
        rewrite (skipn_nth_error _ _ _ Hn). reflexivity.
    + cbn [isTextNode negb]. apply Hstop.
      apply nth_error_None in Hn. rewrite skipn_all2 by lia. reflexivity.
Qed.

Lemma empties_between (j : nat) :
  forall i,
    (j <= i)%nat ->
    (forall m, (j <= m < i)%nat -> nth_error cs m = Some (TextNode [])) ->
    runBefore cs i = runBefore cs j
    /\ textsBefore cs i = (textsBefore cs j + (i - j))%nat
    /\ concat (map textOf (firstn i cs)) = concat (map textOf (firstn j cs)).
Proof.
  induction i as [|i IH]; intros Hji Hall.
  - replace j with 0%nat by lia. repeat split; lia.
  - destruct (Nat.eq_dec j (S i)) as [-> | Hne].
    + repeat split; lia.
    + destruct IH as (R1 & R2 & R3); [lia | intros m Hm; apply Hall; lia |].
      pose proof (Hall i ltac:(lia)) as Hi.
      cbn [runBefore textsBefore]. rewrite Hi.
      rewrite (texts_upto_next i _ Hi). cbn [textOf].
      rewrite !app_nil_r. repeat split; try assumption. lia.
Qed.

Lemma skipEmptyTextNodes_spec fuel :
  forall i,
    (i <= length cs)%nat -> (i < fuel)%nat ->
    exists r,
      skipEmptyTextNodes body fuel (i :: q) = Ok r
      /\ match r with
         | None =>
             forall m, (m < i)%nat -> nth_error cs m = Some (TextNode [])
         | Some prev =>
             exists j n,
               prev = j :: q /\ (j < i)%nat /\ nth_error cs j = Some n
               /\ n <> TextNode []
               /\ forall m, (j < m < i)%nat ->
                    nth_error cs m = Some (TextNode [])
         end.
Proof.
  induction fuel as [|fuel IH]; intros i Hlen Hfuel; [lia|].
  cbn [skipEmptyTextNodes].
  destruct i as [|m].
  - exists None. split; [reflexivity|]. intros m Hm. lia.
  - rewrite previousSibling_cons. fold cs.
    destruct (nth_error cs m) as [n|] eqn:Hn;
      [|apply nth_error_None in Hn; lia].
    assert (Hstop : n <> TextNode [] ->
              exists r,
                Ok (Some (m :: q)) = Ok r
                /\ match r with
                   | None =>
                       forall m', (m' < S m)%nat ->
                                  nth_error cs m' = Some (TextNode [])
                   | Some prev =>
                       exists j n',
                         prev = j :: q /\ (j < S m)%nat
                         /\ nth_error cs j = Some n' /\ n' <> TextNode []
                         /\ forall m', (j < m' < S m)%nat ->
                              nth_error cs m' = Some (TextNode [])
                   end).
    { intros Hne. exists (Some (m :: q)). split; [reflexivity|].
      exists m, n. repeat split; try assumption; try lia. }
    destruct n as [t | w h l | d].
    + destruct (sibling_text m t Hn) as [Htext Hcontent].
      unfold NodeRef in *. rewrite Htext, Hcontent. cbn [andb].
      destruct t as [|c t]; cbn [isEmpty]; [|apply Hstop; discriminate].
      destruct (IH m) as (r & Hr & Hspec); [lia | lia |].
      exists r. split; [exact Hr|].
      destruct r as [prev|].
      * destruct Hspec as (j & n' & Hp & Hj & Hn' & Hne & Hall).
        exists j, n'. repeat split; try assumption; try lia.
        intros m' Hm'. destruct (Nat.eq_dec m' m) as [-> | Hd];
          [exact Hn | apply Hall; lia].
      * intros m' Hm'. destruct (Nat.eq_dec m' m) as [-> | Hd];
          [exact Hn | apply Hspec; lia].
    + rewrite sibling_not_text by (intros t; rewrite Hn; discriminate).
      cbn [andb]. apply Hstop. discriminate.
    + rewrite sibling_not_text by (intros t; rewrite Hn; discriminate).
      cbn [andb]. apply Hstop. discriminate.
Qed.

Lemma last_char (t : list codeunit) :
  t <> [] ->
  exists c,
    nth_error t (length t - 1) = Some c
    /\ t = firstn (length t - 1) t ++ [c].
Proof.
  intros Hne.
  destruct (nth_error t (length t - 1)) as [c|] eqn:Hc.
  - exists c. split; [reflexivity|].
    rewrite <- (firstn_snoc _ _ _ Hc).
    replace (S (length t - 1)) with (length t)
      by (destruct t; [congruence | simpl; lia]).
    rewrite firstn_all. reflexivity.
  - apply nth_error_None in Hc. destruct t; [congruence | simpl in Hc; lia].
Qed.

Lemma findWordStart_spec fuel :
  forall i t off,
    nth_error cs i = Some (TextNode t) ->
    (off <= length t)%nat ->
    (i < fuel)%nat ->
    exists j tj o,
      findWordStart body isDelimiter fuel (i :: q) off = Ok (j :: q, o)
      /\ (i - textsBefore cs i <= j <= i)%nat
      /\ nth_error cs j = Some (TextNode tj)
      /\ (o <= length tj)%nat
      /\ (j = i \/ tj <> [])
      /\ textBefore cs j o
         ++ rev (takeWhile p (rev (runBefore cs i ++ firstn off t)))
         = textBefore cs i off.
Proof.
  induction fuel as [|fuel IH]; intros i t off Hi Hoff Hfuel; [lia|].
  cbn [findWordStart].
  destruct (sibling_text i t Hi) as [Htext Hcontent]. rewrite Hcontent.
  rewrite (scanWordStart_spec isDelimiter t off off (Nat.le_refl _) Hoff).
  fold p.
  pose proof (takeWhile_length p (rev (firstn off t))) as Hwlen.
  pose proof (takeWhile_all p (rev (firstn off t))) as Hwall.
  pose proof (takeWhile_short p (rev (firstn off t))) as Hshort.
  pose proof (takeWhile_full p (rev (firstn off t))) as Hfull.
  remember (takeWhile p (rev (firstn off t))) as w eqn:Hwdef.
  rewrite length_rev, length_firstn in Hwlen, Hshort, Hfull.
  rewrite rev_app_distr. rewrite (textBefore_text i off t Hi).
  destruct (0 <? off - length w)%nat eqn:Hlt.
  - apply Nat.ltb_lt in Hlt.
    destruct Hshort as (d & r & Hsplit & Hd); [lia|].
    exists i, t, (off - length w)%nat.
    split; [reflexivity|]. split; [lia|]. split; [exact Hi|]. split; [lia|].
    split; [left; reflexivity|].
    rewrite Hsplit, <- app_assoc. simpl.
    rewrite (takeWhile_app_stop p w d _ Hwall Hd).
    rewrite (textBefore_text i _ t Hi), <- app_assoc. f_equal.
    assert (Hft : firstn off t = rev (d :: r) ++ rev w).
    { rewrite <- rev_app_distr, <- Hsplit, rev_involutive. reflexivity. }
    assert (Hlen : length (rev (d :: r)) = (off - length w)%nat).
    { apply (f_equal (@length _)) in Hft.
      rewrite length_app, length_firstn, length_rev in Hft.
      rewrite length_rev in *. lia. }
    replace (firstn (off - length w) t)
      with (firstn (off - length w) (firstn off t))
      by (rewrite firstn_firstn; f_equal; lia).
    rewrite Hft at 1. rewrite <- Hlen, firstn_length_app. symmetry. exact Hft.
  - apply Nat.ltb_ge in Hlt.
    assert (Hw : w = rev (firstn off t)) by (apply Hfull; lia).
    replace (off - length w)%nat with 0%nat by lia.
    assert (Hstop : runBefore cs i = [] \/
                    (exists c X, rev (runBefore cs i) = c :: X /\ p c = false) ->
              exists j tj o,
                Ok (i :: q, 0%nat) = Ok (j :: q, o)
                /\ (i - textsBefore cs i <= j <= i)%nat
                /\ nth_error cs j = Some (TextNode tj)
                /\ (o <= length tj)%nat
                /\ (j = i \/ tj <> [])
                /\ textBefore cs j o
                   ++ rev (takeWhile p (rev (firstn off t) ++ rev (runBefore cs i)))
                   = concat (map textOf (firstn i cs)) ++ firstn off t).
    { intros Hrun. exists i, t, 0%nat.
      split; [reflexivity|]. split; [lia|]. split; [exact Hi|]. split; [lia|].
      split; [left; reflexivity|].
      rewrite (textBefore_text i 0 t Hi).
      change (firstn 0 t) with (@nil codeunit). rewrite app_nil_r.
      f_equal. rewrite <- Hw.
      destruct Hrun as [-> | (c & X & -> & Hc)].
      - simpl. rewrite takeWhile_app_all by exact Hwall. simpl.
        rewrite app_nil_r, Hw, rev_involutive. reflexivity.
      - rewrite (takeWhile_app_stop p w c X Hwall Hc).
        rewrite Hw, rev_involutive. reflexivity. }
    assert (Hilen : (i <= length cs)%nat).
    { apply Nat.lt_le_incl. apply nth_error_Some. rewrite Hi. discriminate. }
    destruct (skipEmptyTextNodes_spec (S fuel) i Hilen Hfuel) as (r & Hr & Hspec).
    rewrite Hr. cbn [bind].
    destruct r as [prev|]; unfold NodeRef in *.
    + destruct Hspec as (j & n & -> & Hj & Hn & Hne & Hall).
      destruct (empties_between (S j) i) as (R1 & R2 & R3);
        [lia | intros m Hm; apply Hall; lia |].
      cbn [runBefore textsBefore] in R1, R2. rewrite Hn in R1, R2.
      destruct n as [tj | w' h' l' | d'].
      * destruct (sibling_text j tj Hn) as [Htextj Hcontentj].
        rewrite Htextj, Hcontentj. cbn [negb orb].
        assert (Htj : tj <> []) by (intros ->; apply Hne; reflexivity).
        destruct (last_char tj Htj) as (c & Hc & Hsplit).
        unfold charAt. rewrite Hc.
        destruct (isDelimiter (Some c)) eqn:Hdel.
        -- apply Hstop. right. rewrite R1, Hsplit, !rev_app_distr. simpl.
           eexists _, _. split; [reflexivity|].
           unfold p, isWordCode. rewrite Hdel. reflexivity.
        -- destruct (IH j tj (length tj - 1)%nat Hn) as
             (j' & tj' & o & Hrun & Hb & Htj' & Ho & Hor & Htb); [lia | lia |].
           exists j', tj', o. split; [exact Hrun|].
           split; [lia|]. split; [exact Htj'|]. split; [exact Ho|].
           split.
           { destruct Hor as [-> | Hor]; right; [|exact Hor].
             congruence. }
           rewrite R1. rewrite Hsplit at 1.
           rewrite !rev_app_distr. simpl.
           rewrite <- rev_app_distr.
           assert (Hpc : p c = true)
             by (unfold p, isWordCode; rewrite Hdel; reflexivity).
           rewrite (takeWhile_app_all p (rev (firstn off t)))
             by (rewrite <- Hw; exact Hwall).
           simpl. rewrite Hpc. rewrite rev_app_distr. simpl.
           rewrite rev_involutive.
           rewrite <- !app_assoc. rewrite app_assoc. rewrite Htb.
           rewrite R3, (texts_upto_next j _ Hn). cbn [textOf].
           rewrite (textBefore_text j _ tj Hn).
           rewrite Hsplit at 3. rewrite <- !app_assoc. reflexivity.
      * rewrite sibling_not_text by (intros t'; rewrite Hn; discriminate).
        cbn [negb orb]. apply Hstop. left. exact R1.
      * rewrite sibling_not_text by (intros t'; rewrite Hn; discriminate).
        cbn [negb orb]. apply Hstop. left. exact R1.
    + destruct (empties_between 0 i) as (R1 & R2 & R3);
        [lia | intros m Hm; apply Hspec; lia |].
      apply Hstop. left. exact R1.
Qed.

Lemma textsIn_length (l : list Node) : (textsIn l <= length l)%nat.
Proof.
  induction l as [|[t | w h l' | d] l IH]; simpl; lia.
Qed.

Lemma textBefore_step (i k : nat) (t : list codeunit) (c : codeunit) :
  nth_error cs i = Some (TextNode t) -> nth_error t k = Some c ->
  textBefore cs i (S k) = textBefore cs i k ++ [c].
Proof.
  intros Hi Hc. rewrite !(textBefore_text i _ t Hi).
  rewrite (firstn_snoc _ _ _ Hc), app_assoc. reflexivity.
Qed.

(** Word resolution on a word character: both boundaries are siblings
    of the hit run, within its block of text runs, and the characters
    between them are the maximal run of word characters around the
    position. *)
Lemma word_resolution (i k : nat) (t : list codeunit) fuel wr :
  nth_error cs i = Some (TextNode t) ->
  (k < length t)%nat ->
  isDelimiter (charAt t k) = false ->
  (length cs < fuel)%nat ->
  exists js os je oe,
    setHighlightWordRange body isDelimiter fuel wr (Some (mkCaret (i :: q) k))
    = Ok (mkRange (js :: q) os (je :: q) oe)
    /\ (i - textsBefore cs i <= js)%nat /\ (js <= i)%nat /\ (i <= je)%nat
    /\ (je <= i + textsIn (skipn (S i) cs))%nat
    /\ nonEmptyText body (js :: q)
    /\ textBefore cs js os ++ wordBefore isDelimiter cs i k
       = textBefore cs i k
    /\ textBefore cs je oe
       = textBefore cs i k ++ wordAfter isDelimiter cs i k.
Proof.
  intros Hi Hk Hdel Hfuel.
  destruct (sibling_text i t Hi) as [Htext Hcontent].
  unfold setHighlightWordRange. cbn [offsetNode offset].
  unfold NodeRef in *. rewrite Htext, Hcontent. cbn [negb].
  destruct (length t <=? k)%nat eqn:Hle; [apply Nat.leb_le in Hle; lia|].
  rewrite Hdel.
  assert (Hilt : (i < length cs)%nat)
    by (apply nth_error_Some; rewrite Hi; discriminate).
  pose proof (textsIn_length (skipn (S i) cs)) as Hti.
  rewrite length_skipn in Hti.
  destruct (findWordEnd_spec fuel i t (S k) Hi) as
    (je & te & oe & Hend & Hje & Hte & Hoe & Htbe); [lia | lia |].
  destruct (findWordStart_spec fuel i t k Hi) as
    (js & ts & os & Hstart & Hjs & Hts & Hos & Hor & Htbs); [lia | lia |].
  rewrite Hend. cbn [bind]. rewrite Hstart. cbn [bind].
  exists js, os, je, oe.
  split; [reflexivity|]. split; [lia|]. split; [lia|]. split; [lia|].
  split; [lia|].
  destruct (nth_error t k) as [c|] eqn:Hc; [|apply nth_error_None in Hc; lia].
  unfold charAt in Hdel. rewrite Hc in Hdel.
  split; [|split].
  - exists ts. split.
    + rewrite resolve_cons. exact Hts.
    + destruct Hor as [-> | Hne]; [|exact Hne].
      rewrite Hi in Hts. injection Hts as <-. intros ->. simpl in Hk. lia.
  - unfold wordBefore. rewrite (nth_error_nth _ _ _ Hi). cbn [textOf].
    exact Htbs.
  - unfold wordAfter. rewrite (nth_error_nth _ _ _ Hi). cbn [textOf].
    rewrite Htbe, (textBefore_step i k t c Hi Hc).
    rewrite (skipn_nth_error _ _ _ Hc). simpl.
    unfold p, isWordCode at 2. rewrite Hdel. simpl.
    rewrite <- app_assoc. reflexivity.
Qed.

(** Word resolution returns on every position in a run with some text,
    and the start of the range it sets is in such a run. *)
Lemma word_resolution_anchor (i k : nat) (t : list codeunit) fuel wr :
  nth_error cs i = Some (TextNode t) ->
  t <> [] ->
  (k <= length t)%nat ->
  (length cs < fuel)%nat ->
  exists r,
    setHighlightWordRange body isDelimiter fuel wr (Some (mkCaret (i :: q) k))
    = Ok r
    /\ (r = wr \/ nonEmptyText body (startContainer r)).
Proof.
  intros Hi Hne Hk Hfuel.
  destruct (sibling_text i t Hi) as [Htext Hcontent].
  unfold setHighlightWordRange. cbn [offsetNode offset].
  unfold NodeRef in *. rewrite Htext, Hcontent. cbn [negb].
  assert (Hilt : (i < length cs)%nat)
    by (apply nth_error_Some; rewrite Hi; discriminate).
  pose proof (textsIn_length (skipn (S i) cs)) as Hti.
  rewrite length_skipn in Hti.
  assert (Hfrom : forall off, (off <= length t)%nat ->
            exists r,
              (' (endNode, endOffset) <-
                 findWordEnd body isDelimiter fuel (i :: q) off ;;
               ' (startNode, startOffset) <-
                 findWordStart body isDelimiter fuel (i :: q) k ;;
               Ok (Range_setEnd (Range_setStart wr startNode startOffset)
                     endNode endOffset)) = Ok r
              /\ (r = wr \/ nonEmptyText body (startContainer r))).
  { intros off Hoff.
    destruct (findWordEnd_spec fuel i t off Hi) as
      (je & te & oe & Hend & _); [lia | lia |].
    destruct (findWordStart_spec fuel i t k Hi) as
      (js & ts & os & Hstart & Hjs & Hts & Hos & Hor & _); [lia | lia |].
    rewrite Hend. cbn [bind]. rewrite Hstart. cbn [bind].
    eexists. split; [reflexivity|]. right. cbn [Range_setEnd Range_setStart startContainer].
    exists ts. split; [rewrite resolve_cons; exact Hts|].
    destruct Hor as [-> | Hts']; [|exact Hts'].
    rewrite Hi in Hts. injection Hts as <-. exact Hne. }
  destruct (length t <=? k)%nat eqn:Hle; [apply Hfrom; lia|].
  apply Nat.leb_gt in Hle.
  destruct (isDelimiter (charAt t k)).
  - exists wr. split; [reflexivity | left; reflexivity].
  - apply Hfrom. lia.
Qed.

End Siblings.

(** ** The delimiter classifier *)

Lemma regexClassTest_cons (it : ClassItem) (cls : list ClassItem) (c : codeunit) :
  regexClassTest (it :: cls) c = classItemMatches c it || regexClassTest cls c.
Proof. reflexivity. Qed.

Lemma isDelimiter_incremental_spec (c : codeunit) :
  Incremental.isDelimiter (Some c) = true
  <-> DelimiterChar [hyphenMinus; emDash; enDash] c.
Proof.
  unfold Incremental.isDelimiter, DelimiterChar.
  repeat rewrite regexClassTest_cons. unfold regexClassTest.
  cbn [existsb classItemMatches In].
  repeat rewrite orb_true_iff. repeat rewrite Z.eqb_eq.
  intuition congruence.
Qed.

Lemma isDelimiter_recompute_spec (c : codeunit) :
  Recompute.isDelimiter (Some c) = true
  <-> DelimiterChar [hyphenMinus; enDash] c.
Proof.
  unfold Recompute.isDelimiter, DelimiterChar.
  repeat rewrite regexClassTest_cons. unfold regexClassTest.
  cbn [existsb classItemMatches In].
  repeat rewrite orb_true_iff. repeat rewrite Z.eqb_eq.
  intuition congruence.
Qed.

(** C3. In both revisions [isDelimiter] is a function of the code unit
    alone, true exactly on the literal delimiter set of the specification
    (the hyphen variants being hyphen-minus, en dash and, in the revision
    with running bounds, em dash), and [isWordChar] is its complement on
    every character. *)
Theorem C3_isDelimiter_literal_set :
  (forall c : codeunit,
      Incremental.isDelimiter (Some c) = true
      <-> DelimiterChar [hyphenMinus; emDash; enDash] c)
  /\ (forall c : codeunit,
         Recompute.isDelimiter (Some c) = true
         <-> DelimiterChar [hyphenMinus; enDash] c)
  /\ (forall ch : option codeunit,
         Incremental.isWordChar ch = negb (Incremental.isDelimiter ch))
  /\ (forall ch : option codeunit,
         Recompute.isWordChar ch = negb (Recompute.isDelimiter ch)).
Proof.
  split; [exact isDelimiter_incremental_spec|].
  split; [exact isDelimiter_recompute_spec|].
  split; reflexivity.
Qed.

Section WordTotal.

Variable body : Node.
Variable isDelimiter : option codeunit -> bool.

Lemma length_le_sizeOfAll (l : list Node) : (length l <= sizeOfAll l)%nat.
Proof.
  induction l as [|n l IH]; [apply Nat.le_refl|].
  unfold sizeOfAll in *. simpl. pose proof (size_pos n). lia.
Qed.

Lemma children_below_size (q : NodeRef) :
  (length (childrenAt body q) <= size body)%nat.
Proof.
  pose proof (length_le_sizeOfAll (childrenAt body q)).
  pose proof (sizeAt_childrenAt body q).
  pose proof (weightAfter_bound body q). lia.
Qed.

(** A text node of a document whose body is an element is a child. *)
Lemma text_is_child (pth : NodeRef) (d : list codeunit) :
  isElement body -> resolve body pth = Some (TextNode d) ->
  exists i q, pth = i :: q /\ nth_error (childrenAt body q) i = Some (TextNode d).
Proof.
  intros Hb H. destruct pth as [|i q].
  - change (resolve body []) with (Some body) in H. injection H as ->.
    contradiction.
  - exists i, q. split; [reflexivity|]. rewrite <- resolve_cons. exact H.
Qed.

Lemma setHighlightWordRange_total fuel wr caretPosition :
  isElement body ->
  caretOnText body caretPosition ->
  (size body < fuel)%nat ->
  exists r,
    setHighlightWordRange body isDelimiter fuel wr caretPosition = Ok r
    /\ (r = wr \/ nonEmptyText body (startContainer r)).
Proof.
  intros Hb Hcaret Hfuel.
  destruct caretPosition as [[node k]|];
    [|exists wr; split; [reflexivity | left; reflexivity]].
  destruct (isTextNode body (Some node)) eqn:Htext.
  - destruct (isTextNode_true body _ Htext) as [d Hd].
    destruct (Hcaret _ d eq_refl Hd) as [Hne Hk]. cbn [offset] in Hk.
    destruct (text_is_child node d Hb Hd) as (i & q & -> & Hi).
    apply (word_resolution_anchor body isDelimiter q i k d fuel wr Hi Hne Hk).
    pose proof (children_below_size q). lia.
  - exists wr. split; [|left; reflexivity].
    unfold setHighlightWordRange. cbn [offsetNode]. rewrite Htext. reflexivity.
Qed.

(** On a delimiter the word range is left as it was, whatever the fuel. *)
Lemma setHighlightWordRange_delimiter fuel wr cp t :
  resolve body (offsetNode cp) = Some (TextNode t) ->
  (offset cp < length t)%nat ->
  isDelimiter (charAt t (offset cp)) = true ->
  setHighlightWordRange body isDelimiter fuel wr (Some cp) = Ok wr.
Proof.
  intros Ht Hk Hdel. unfold setHighlightWordRange.
  rewrite (isTextNode_text body _ _ Ht), (textContentOf_text body _ _ Ht).
  cbn [negb].
  destruct (length t <=? offset cp)%nat eqn:Hle;
    [apply Nat.leb_le in Hle; lia|].
  rewrite Hdel. reflexivity.
Qed.

End WordTotal.

(** ** Word resolution *)

(** C2. On a position whose character is a word character, word
    resolution returns the range of the maximal run of word characters
    around the position: the boundaries are sibling runs of the hit run,
    inside its block of consecutive text runs ([textsBefore], [textsIn]),
    the text from the start to the position is [wordBefore] and the text
    from the position to the end is [wordAfter], the longest runs of word
    characters of the block on either side. An empty run between two
    letters is passed through from either side: hit on "a" or on "b" of
    the runs "a", "", "b", the word is the one range from the start of "a"
    to the end of "b". *)
Theorem C2_word_is_maximal_run :
  (forall (body : Node) (isDelimiter : option codeunit -> bool) (q : NodeRef)
          (i k : nat) (t : list codeunit) (fuel : nat) (wr : Range),
      nth_error (childrenAt body q) i = Some (TextNode t) ->
      (k < length t)%nat ->
      isDelimiter (charAt t k) = false ->
      (length (childrenAt body q) < fuel)%nat ->
      exists js os je oe,
        setHighlightWordRange body isDelimiter fuel wr
          (Some (mkCaret (i :: q) k))
        = Ok (mkRange (js :: q) os (je :: q) oe)
        /\ (i - textsBefore (childrenAt body q) i <= js)%nat
        /\ (js <= i)%nat /\ (i <= je)%nat
        /\ (je <= i + textsIn (skipn (S i) (childrenAt body q)))%nat
        /\ textBefore (childrenAt body q) js os
           ++ wordBefore isDelimiter (childrenAt body q) i k
           = textBefore (childrenAt body q) i k
        /\ textBefore (childrenAt body q) je oe
           = textBefore (childrenAt body q) i k
             ++ wordAfter isDelimiter (childrenAt body q) i k)
  /\ (forall isDelimiter,
         isDelimiter = Incremental.isDelimiter
         \/ isDelimiter = Recompute.isDelimiter ->
         setHighlightWordRange (paragraph [run "a"; run ""; run "b"])
           isDelimiter 4 createRange (Some (mkCaret (runRef 0) 0))
         = Ok (mkRange (runRef 0) 0 (runRef 2) 1)
         /\ setHighlightWordRange (paragraph [run "a"; run ""; run "b"])
              isDelimiter 4 createRange (Some (mkCaret (runRef 2) 0))
            = Ok (mkRange (runRef 0) 0 (runRef 2) 1)).
Proof.
  split.
  - intros body isDelimiter q i k t fuel wr Hi Hk Hdel Hfuel.
    destruct (word_resolution body isDelimiter q i k t fuel wr Hi Hk Hdel Hfuel)
      as (js & os & je & oe & H1 & H2 & H3 & H4 & H5 & _ & H7 & H8).
    exists js, os, je, oe. repeat split; assumption.
  - intros isDelimiter [-> | ->]; split; vm_compute; reflexivity.
Qed.

Lemma C2_word_is_maximal_run_witness :
  (exists js os je oe,
      setHighlightWordRange (paragraph [run "to "; run "be"; run "; or"])
        Incremental.isDelimiter 4 createRange (Some (mkCaret (runRef 1) 1))
      = Ok (mkRange [js; 0%nat] os [je; 0%nat] oe)
      /\ (1 - textsBefore [run "to "; run "be"; run "; or"] 1 <= js)%nat
      /\ (js <= 1)%nat /\ (1 <= je)%nat
      /\ (je <= 1 + textsIn (skipn 2 [run "to "; run "be"; run "; or"]))%nat
      /\ textBefore [run "to "; run "be"; run "; or"] js os
         ++ wordBefore Incremental.isDelimiter
              [run "to "; run "be"; run "; or"] 1 1
         = textBefore [run "to "; run "be"; run "; or"] 1 1
      /\ textBefore [run "to "; run "be"; run "; or"] je oe
         = textBefore [run "to "; run "be"; run "; or"] 1 1
           ++ wordAfter Incremental.isDelimiter
                [run "to "; run "be"; run "; or"] 1 1)
  /\ (setHighlightWordRange (paragraph [run "a"; run ""; run "b"])
        Recompute.isDelimiter 4 createRange (Some (mkCaret (runRef 0) 0))
      = Ok (mkRange (runRef 0) 0 (runRef 2) 1)
      /\ setHighlightWordRange (paragraph [run "a"; run ""; run "b"])
           Recompute.isDelimiter 4 createRange (Some (mkCaret (runRef 2) 0))
         = Ok (mkRange (runRef 0) 0 (runRef 2) 1)).
Proof.
  split.
  - apply (proj1 C2_word_is_maximal_run
             (paragraph [run "to "; run "be"; run "; or"])
             Incremental.isDelimiter [0%nat] 1%nat 1%nat (str "be") 4%nat
             createRange).
    + reflexivity.
    + simpl. lia.
    + reflexivity.
    + simpl. lia.
  - apply (proj2 C2_word_is_maximal_run Recompute.isDelimiter).
    right. reflexivity.
Defined.

(** *** The start of the word, whatever the position *)




Lemma setHighlightWordRange_returns body isDelimiter fuel wr cp d :
  isElement body ->
  (size body < fuel)%nat ->
  resolve body (offsetNode cp) = Some (TextNode d) ->
  (offset cp <= length d)%nat ->
  exists r, setHighlightWordRange body isDelimiter fuel wr (Some cp) = Ok r.
Proof.
  intros Hb Hfuel Hd Hk. destruct cp as [node k]. cbn [offsetNode offset] in *.
  destruct (text_is_child body node d Hb Hd) as (i & q & -> & Hi).
  destruct (sibling_text body q i d Hi) as [Htext Hcontent].
  unfold setHighlightWordRange. cbn [offsetNode offset].
  unfold NodeRef in *. rewrite Htext, Hcontent. cbn [negb].
  pose proof (children_below_size body q) as Hsize.
  assert (Hilt : (i < length (childrenAt body q))%nat)
    by (apply nth_error_Some; rewrite Hi; discriminate).
  pose proof (textsIn_length (skipn (S i) (childrenAt body q))) as Hti.
  rewrite length_skipn in Hti.
  assert (Hfrom : forall off, (off <= length d)%nat ->
            exists r,
              (' (endNode, endOffset) <-
                 findWordEnd body isDelimiter fuel (i :: q) off ;;
               ' (startNode, startOffset) <-
                 findWordStart body isDelimiter fuel (i :: q) k ;;
               Ok (Range_setEnd (Range_setStart wr startNode startOffset)
                     endNode endOffset)) = Ok r).
  { intros off Hoff.
    destruct (findWordEnd_spec body isDelimiter q fuel i d off Hi) as
      (je & te & oe & Hend & _); [lia | lia |].
    destruct (findWordStart_spec body isDelimiter q fuel i d k Hi) as
      (js & ts & os & Hstart & _); [lia | lia |].
    rewrite Hend. cbn [bind]. rewrite Hstart. cbn [bind].
    eexists. reflexivity. }
  destruct (length d <=? k)%nat eqn:Hle; [apply Hfrom; lia|].
  apply Nat.leb_gt in Hle.
  destruct (isDelimiter (charAt d k)); [eexists; reflexivity|].
  apply Hfrom. lia.
Qed.


(** *** Line resolution, whatever the position *)











Lemma sample_caretOnText (runs : list Node) (i k : nat) (t : list codeunit) :
  nth_error runs i = Some (TextNode t) -> t <> [] -> (k <= length t)%nat ->
  caretOnText (paragraph runs) (Some (mkCaret (runRef i) k)).
Proof.
  intros Hi Hne Hk cp d Hcp Hd. injection Hcp as <-.
  unfold runRef in Hd. cbn [offsetNode] in Hd.
  rewrite resolve_cons in Hd.
  change (childrenAt (paragraph runs) [0%nat]) with runs in Hd.
  rewrite Hi in Hd. injection Hd as <-. split; assumption.
Qed.


(** ** The pointer-move handler *)

Lemma isInsideRect_occupies (rect : Rect) (x y : Z) :
  isInsideRect rect x y = true -> rectOccupiesSpace rect = true.
Proof. unfold isInsideRect. intros H. apply andb_true_iff in H. apply H. Qed.

Lemma caretOnText_delimiter (body : Node) (cp : CaretPosition)
  (t : list codeunit) :
  resolve body (offsetNode cp) = Some (TextNode t) ->
  (offset cp < length t)%nat ->
  caretOnText body (Some cp).
Proof.
  intros Ht Hk cp' d Hcp Hd. injection Hcp as <-.
  rewrite Ht in Hd. injection Hd as <-.
  split; [intros ->; simpl in Hk; lia | lia].
Qed.

Section Handlers.

Variable body : Node.
Variable host : Host.

Lemma I_inside_word (word : Range) (x y : Z) :
  collapsedIsFlat host -> insideWord host word x y ->
  Incremental.isPointOutsideHighlightedWord host word x y = false.
Proof.
  intros Hflat (rect & Hin & Hinside).
  unfold Incremental.isPointOutsideHighlightedWord.
  destruct (collapsed word) eqn:Hc.
  - destruct (Hflat word Hc) as [Hrects _].
    pose proof (isInsideRect_occupies _ _ _ Hinside) as Ho.
    rewrite (Hrects rect Hin) in Ho. discriminate.
  - apply negb_false_iff. apply existsb_exists. exists rect. split; assumption.
Qed.

Lemma R_inside_word (word : Range) (x y : Z) :
  collapsedIsFlat host -> insideWord host word x y ->
  Recompute.isPointOutsideHighlightedWord host word x y = false.
Proof. exact (I_inside_word word x y). Qed.

Lemma I_inside_line (hl : Incremental.CachedLineRange) (x y : Z) :
  collapsedIsFlat host -> insideLine host (Incremental.range hl) x y ->
  Incremental.isPointOutsideHighlightedLine host hl x y = false.
Proof.
  intros Hflat Hinside. unfold Incremental.isPointOutsideHighlightedLine.
  unfold insideLine in Hinside. rewrite Hinside. cbn [negb].
  rewrite orb_false_r.
  destruct (collapsed (Incremental.range hl)) eqn:Hc; [|reflexivity].
  destruct (Hflat _ Hc) as [_ Hb].
  rewrite (isInsideRect_occupies _ _ _ Hinside) in Hb. discriminate.
Qed.

Lemma R_inside_line (hl : Recompute.CachedLineRange) (x y : Z) :
  collapsedIsFlat host -> insideLine host (Recompute.range hl) x y ->
  exists hl',
    Recompute.isPointOutsideHighlightedLine host
      (Recompute.invalidateBoundingClientRectangle hl) x y = (false, hl')
    /\ Recompute.range hl' = Recompute.range hl.
Proof.
  intros Hflat Hinside. unfold Recompute.isPointOutsideHighlightedLine.
  unfold insideLine in Hinside.
  unfold Recompute.getBoundingClientRect,
    Recompute.invalidateBoundingClientRectangle. simpl.
  destruct (collapsed (Recompute.range hl)) eqn:Hc.
  - destruct (Hflat _ Hc) as [_ Hb].
    rewrite (isInsideRect_occupies _ _ _ Hinside) in Hb. discriminate.
  - rewrite Hinside. eexists. split; reflexivity.
Qed.

(** When the point is in the word the handler leaves the word range;
    when it is in the line it leaves the line range; when it is in both
    it makes no hit-test. *)
Lemma I_handler_frame fuel st ev :
  collapsedIsFlat host ->
  (insideWord host (Incremental.highlightWordRange st) (ev_x ev) (ev_y ev) ->
   insideLine host (Incremental.range (Incremental.highlightLineRange st))
     (ev_x ev) (ev_y ev) ->
   Incremental.pointerMoveHandler body host fuel st ev = Ok (st, None))
  /\ (insideWord host (Incremental.highlightWordRange st) (ev_x ev) (ev_y ev) ->
      forall st' c,
        Incremental.pointerMoveHandler body host fuel st ev = Ok (st', c) ->
        Incremental.highlightWordRange st' = Incremental.highlightWordRange st)
  /\ (insideLine host (Incremental.range (Incremental.highlightLineRange st))
        (ev_x ev) (ev_y ev) ->
      forall st' c,
        Incremental.pointerMoveHandler body host fuel st ev = Ok (st', c) ->
        Incremental.highlightLineRange st' = Incremental.highlightLineRange st).
Proof.
  intros Hflat. unfold Incremental.pointerMoveHandler.
  split; [|split].
  - intros Hw Hl. rewrite (I_inside_word _ _ _ Hflat Hw). cbn [bind].
    rewrite (I_inside_line _ _ _ Hflat Hl). destruct st; reflexivity.
  - intros Hw st' c. rewrite (I_inside_word _ _ _ Hflat Hw). cbn [bind].
    destruct (Incremental.isPointOutsideHighlightedLine host _ _ _).
    + destruct (Incremental.setHighlightLineRange _ _ _ _ _ _); cbn [bind];
        try discriminate.
      intros H. injection H as <- _. reflexivity.
    + intros H. injection H as <- _. reflexivity.
  - intros Hl st' c.
    destruct (Incremental.isPointOutsideHighlightedWord host _ _ _).
    + destruct (setHighlightWordRange _ _ _ _ _); cbn [bind]; try discriminate.
      rewrite (I_inside_line _ _ _ Hflat Hl).
      intros H. injection H as <- _. reflexivity.
    + cbn [bind]. rewrite (I_inside_line _ _ _ Hflat Hl).
      intros H. injection H as <- _. reflexivity.
Qed.

Lemma R_handler_frame fuel st ev :
  collapsedIsFlat host ->
  (insideWord host (Recompute.highlightWordRange st) (ev_x ev) (ev_y ev) ->
   insideLine host (Recompute.range (Recompute.highlightLineRange st))
     (ev_x ev) (ev_y ev) ->
   exists st',
     Recompute.pointerMoveHandler body host fuel st ev = Ok (st', None)
     /\ Recompute.highlightWordRange st' = Recompute.highlightWordRange st
     /\ Recompute.range (Recompute.highlightLineRange st')
        = Recompute.range (Recompute.highlightLineRange st))
  /\ (insideWord host (Recompute.highlightWordRange st) (ev_x ev) (ev_y ev) ->
      forall st' c,
        Recompute.pointerMoveHandler body host fuel st ev = Ok (st', c) ->
        Recompute.highlightWordRange st' = Recompute.highlightWordRange st)
  /\ (insideLine host (Recompute.range (Recompute.highlightLineRange st))
        (ev_x ev) (ev_y ev) ->
      forall st' c,
        Recompute.pointerMoveHandler body host fuel st ev = Ok (st', c) ->
        Recompute.range (Recompute.highlightLineRange st')
        = Recompute.range (Recompute.highlightLineRange st)).
Proof.
  intros Hflat. unfold Recompute.pointerMoveHandler.
  split; [|split].
  - intros Hw Hl. rewrite (R_inside_word _ _ _ Hflat Hw). cbn [bind].
    destruct (R_inside_line _ _ _ Hflat Hl) as (hl' & Hrun & Hr).
    rewrite Hrun. eexists. split; [reflexivity|]. split; [reflexivity | exact Hr].
  - intros Hw st' c. rewrite (R_inside_word _ _ _ Hflat Hw). cbn [bind].
    destruct (Recompute.isPointOutsideHighlightedLine host _ _ _) as [[|] hl1].
    + destruct (Recompute.setHighlightLineRange _ _ _ _ _ _) as [hl2| |];
        cbn [bind]; try discriminate.
      destruct (Recompute.isPointOutsideHighlightedLine host hl2 _ _).
      intros H. injection H as <- _. reflexivity.
    + intros H. injection H as <- _. reflexivity.
  - intros Hl st' c.
    destruct (R_inside_line _ _ _ Hflat Hl) as (hl' & Hrun & Hr).
    destruct (Recompute.isPointOutsideHighlightedWord host _ _ _).
    + destruct (setHighlightWordRange _ _ _ _ _); cbn [bind]; try discriminate.
      rewrite Hrun. intros H. injection H as <- _. exact Hr.
    + cbn [bind]. rewrite Hrun. intros H. injection H as <- _. exact Hr.
Qed.

(** On a delimiter, a handler that resolves the word leaves the word
    range collapsed, and returns. *)
Lemma I_handler_on_delimiter fuel st ev cp t :
  isElement body ->
  (size body + Incremental.MAX_LINES_SPANNED_CHECKS + 1 < fuel)%nat ->
  Incremental.isPointOutsideHighlightedWord host
    (Incremental.highlightWordRange st) (ev_x ev) (ev_y ev) = true ->
  caretPositionFromPoint host (ev_x ev) (ev_y ev) = Some cp ->
  resolve body (offsetNode cp) = Some (TextNode t) ->
  (offset cp < length t)%nat ->
  Incremental.isDelimiter (charAt t (offset cp)) = true ->
  exists st' c,
    Incremental.pointerMoveHandler body host fuel st ev = Ok (st', c)
    /\ collapsed (Incremental.highlightWordRange st') = true.
Proof.
  intros Hb Hfuel Hout Hcp Ht Hk Hdel. unfold Incremental.pointerMoveHandler.
  rewrite Hout, Hcp.
  rewrite (setHighlightWordRange_delimiter body _ fuel _ cp t Ht Hk Hdel).
  cbn [bind].
  set (word := if Incremental.isPointOutsideHighlightedWord host _ _ _
               then _ else _).
  assert (Hword : collapsed word = true).
  { unfold word.
    match goal with |- context [if ?b then _ else _] => destruct b end;
      apply collapsed_collapse. }
  destruct (Incremental.isPointOutsideHighlightedLine host _ _ _).
  - destruct (I_setHighlightLineRange_spec body host fuel
                (Incremental.collapse (Incremental.highlightLineRange st))
                (Some cp) (ev_y ev) Hb Hfuel
                (caretOnText_delimiter body cp t Ht Hk)) as (hl' & Hrun & _).
    rewrite Hrun. cbn [bind]. eexists _, _. split; [reflexivity | exact Hword].
  - eexists _, _. split; [reflexivity | exact Hword].
Qed.

Lemma R_handler_on_delimiter fuel st ev cp t :
  isElement body ->
  (size body + Recompute.MAX_LINES_SPANNED_CHECKS + 1 < fuel)%nat ->
  Recompute.isPointOutsideHighlightedWord host
    (Recompute.highlightWordRange st) (ev_x ev) (ev_y ev) = true ->
  caretPositionFromPoint host (ev_x ev) (ev_y ev) = Some cp ->
  resolve body (offsetNode cp) = Some (TextNode t) ->
  (offset cp < length t)%nat ->
  Recompute.isDelimiter (charAt t (offset cp)) = true ->
  exists st' c,
    Recompute.pointerMoveHandler body host fuel st ev = Ok (st', c)
    /\ collapsed (Recompute.highlightWordRange st') = true.
Proof.
  intros Hb Hfuel Hout Hcp Ht Hk Hdel. unfold Recompute.pointerMoveHandler.
  rewrite Hout, Hcp.
  rewrite (setHighlightWordRange_delimiter body _ fuel _ cp t Ht Hk Hdel).
  cbn [bind].
  set (word := if Recompute.isPointOutsideHighlightedWord host _ _ _
               then _ else _).
  assert (Hword : collapsed word = true).
  { unfold word.
    match goal with |- context [if ?b then _ else _] => destruct b end;
      apply collapsed_collapse. }
  destruct (Recompute.isPointOutsideHighlightedLine host _ _ _) as [[|] hl1].
  - destruct (R_setHighlightLineRange_spec body host fuel
                (Recompute.collapse hl1)
                (Some cp) (ev_y ev) Hb Hfuel
                (caretOnText_delimiter body cp t Ht Hk)) as (hl' & Hrun & _).
    rewrite Hrun. cbn [bind].
    destruct (Recompute.isPointOutsideHighlightedLine host hl' _ _).
    eexists _, _. split; [reflexivity | exact Hword].
  - eexists _, _. split; [reflexivity | exact Hword].
Qed.

End Handlers.

Lemma monoLine_flat : collapsedIsFlat monoLine.
Proof.
  intros r Hc. apply collapsed_true in Hc. destruct Hc as [_ Ho].
  assert (Hflat : rectOccupiesSpace (monoRect (startOffset r) (endOffset r))
                  = false).
  { unfold rectOccupiesSpace, monoRect, width.
    cbn [left right]. rewrite Ho, Z.sub_diag. reflexivity. }
  split; [|exact Hflat].
  intros rect [<- | []]. exact Hflat.
Qed.

(** C7. When the handler resolves the word (the point is outside the
    highlighted word) and the hit-test answers a position, below the
    length of its run, whose character is a delimiter, word resolution
    leaves the range as the handler collapsed it and the handler returns
    with the word range collapsed. Line resolution runs on the same event
    all the same: on the dot of "a.b" the word range is collapsed and the
    line range is the whole line. *)
Theorem C7_delimiter_collapses_word_not_line :
  (forall body host fuel st ev cp t,
      isElement body ->
      (size body + Incremental.MAX_LINES_SPANNED_CHECKS + 1 < fuel)%nat ->
      Incremental.isPointOutsideHighlightedWord host
        (Incremental.highlightWordRange st) (ev_x ev) (ev_y ev) = true ->
      caretPositionFromPoint host (ev_x ev) (ev_y ev) = Some cp ->
      resolve body (offsetNode cp) = Some (TextNode t) ->
      (offset cp < length t)%nat ->
      Incremental.isDelimiter (charAt t (offset cp)) = true ->
      setHighlightWordRange body Incremental.isDelimiter fuel
        (Range_collapse (Incremental.highlightWordRange st)) (Some cp)
      = Ok (Range_collapse (Incremental.highlightWordRange st))
      /\ exists st' c,
           Incremental.pointerMoveHandler body host fuel st ev = Ok (st', c)
           /\ collapsed (Incremental.highlightWordRange st') = true)
  /\ (forall body host fuel st ev cp t,
         isElement body ->
         (size body + Recompute.MAX_LINES_SPANNED_CHECKS + 1 < fuel)%nat ->
         Recompute.isPointOutsideHighlightedWord host
           (Recompute.highlightWordRange st) (ev_x ev) (ev_y ev) = true ->
         caretPositionFromPoint host (ev_x ev) (ev_y ev) = Some cp ->
         resolve body (offsetNode cp) = Some (TextNode t) ->
         (offset cp < length t)%nat ->
         Recompute.isDelimiter (charAt t (offset cp)) = true ->
         setHighlightWordRange body Recompute.isDelimiter fuel
           (Range_collapse (Recompute.highlightWordRange st)) (Some cp)
         = Ok (Range_collapse (Recompute.highlightWordRange st))
         /\ exists st' c,
              Recompute.pointerMoveHandler body host fuel st ev = Ok (st', c)
              /\ collapsed (Recompute.highlightWordRange st') = true)
  /\ (exists st',
         Incremental.pointerMoveHandler (paragraph [run "a.b"]) monoLine 200
           Incremental.initialState (mkEvent 15 10)
         = Ok (st', Some (Some (mkCaret (runRef 0) 1)))
         /\ collapsed (Incremental.highlightWordRange st') = true
         /\ Incremental.range (Incremental.highlightLineRange st')
            = mkRange (runRef 0) 0 (runRef 0) 3)
  /\ (exists st',
         Recompute.pointerMoveHandler (paragraph [run "a.b"]) monoLine 200
           Recompute.initialState (mkEvent 15 10)
         = Ok (st', Some (Some (mkCaret (runRef 0) 1)))
         /\ collapsed (Recompute.highlightWordRange st') = true
         /\ Recompute.range (Recompute.highlightLineRange st')
            = mkRange (runRef 0) 0 (runRef 0) 3).
Proof.
  split; [|split; [|split]].
  - intros body host fuel st ev cp t Hb Hf Hout Hcp Ht Hk Hdel.
    split; [apply (setHighlightWordRange_delimiter body _ fuel _ cp t Ht Hk Hdel)|].
    exact (I_handler_on_delimiter body host fuel st ev cp t Hb Hf Hout Hcp Ht Hk Hdel).
  - intros body host fuel st ev cp t Hb Hf Hout Hcp Ht Hk Hdel.
    split; [apply (setHighlightWordRange_delimiter body _ fuel _ cp t Ht Hk Hdel)|].
    exact (R_handler_on_delimiter body host fuel st ev cp t Hb Hf Hout Hcp Ht Hk Hdel).
  - eexists. split; [vm_compute; reflexivity|]. split; reflexivity.
  - eexists. split; [vm_compute; reflexivity|]. split; reflexivity.
Qed.

Lemma C7_delimiter_collapses_word_not_line_witness :
  (setHighlightWordRange (paragraph [run "a.b"]) Incremental.isDelimiter 200
     (Range_collapse (Incremental.highlightWordRange Incremental.initialState))
     (Some (mkCaret (runRef 0) 1))
   = Ok (Range_collapse (Incremental.highlightWordRange Incremental.initialState))
   /\ exists st' c,
        Incremental.pointerMoveHandler (paragraph [run "a.b"]) monoLine 200
          Incremental.initialState (mkEvent 15 10) = Ok (st', c)
        /\ collapsed (Incremental.highlightWordRange st') = true)
  /\ (setHighlightWordRange (paragraph [run "a.b"]) Recompute.isDelimiter 200
        (Range_collapse (Recompute.highlightWordRange Recompute.initialState))
        (Some (mkCaret (runRef 0) 1))
      = Ok (Range_collapse (Recompute.highlightWordRange Recompute.initialState))
      /\ exists st' c,
           Recompute.pointerMoveHandler (paragraph [run "a.b"]) monoLine 200
             Recompute.initialState (mkEvent 15 10) = Ok (st', c)
           /\ collapsed (Recompute.highlightWordRange st') = true).
Proof.
  split.
  - apply (proj1 C7_delimiter_collapses_word_not_line
             (paragraph [run "a.b"]) monoLine 200%nat Incremental.initialState
             (mkEvent 15 10) (mkCaret (runRef 0) 1) (str "a.b")).
    + exact I.
    + vm_compute. lia.
    + reflexivity.
    + reflexivity.
    + reflexivity.
    + simpl. lia.
    + reflexivity.
  - apply (proj1 (proj2 C7_delimiter_collapses_word_not_line)
             (paragraph [run "a.b"]) monoLine 200%nat Recompute.initialState
             (mkEvent 15 10) (mkCaret (runRef 0) 1) (str "a.b")).
    + exact I.
    + vm_compute. lia.
    + reflexivity.
    + reflexivity.
    + reflexivity.
    + simpl. lia.
    + reflexivity.
Defined.

(** C9. With an engine that reports no area for a collapsed range: a
    pointer-move inside one of the client rectangles of the word range
    and inside the bounding rectangle of the line range makes no hit-test
    (the local [caretPosition] stays [undefined]) and leaves the
    boundaries of both ranges; and each check gates its own range alone:
    inside the word, the word range is left whatever happens to the line,
    and inside the line, the line range is left whatever happens to the
    word. *)
Theorem C9_containment_skips_resolution :
  (forall body host fuel st ev,
      collapsedIsFlat host ->
      (insideWord host (Incremental.highlightWordRange st) (ev_x ev) (ev_y ev) ->
       insideLine host (Incremental.range (Incremental.highlightLineRange st))
         (ev_x ev) (ev_y ev) ->
       Incremental.pointerMoveHandler body host fuel st ev = Ok (st, None))
      /\ (insideWord host (Incremental.highlightWordRange st) (ev_x ev) (ev_y ev) ->
          forall st' c,
            Incremental.pointerMoveHandler body host fuel st ev = Ok (st', c) ->
            Incremental.highlightWordRange st' = Incremental.highlightWordRange st)
      /\ (insideLine host (Incremental.range (Incremental.highlightLineRange st))
            (ev_x ev) (ev_y ev) ->
          forall st' c,
            Incremental.pointerMoveHandler body host fuel st ev = Ok (st', c) ->
            Incremental.highlightLineRange st' = Incremental.highlightLineRange st))
  /\ (forall body host fuel st ev,
         collapsedIsFlat host ->
         (insideWord host (Recompute.highlightWordRange st) (ev_x ev) (ev_y ev) ->
          insideLine host (Recompute.range (Recompute.highlightLineRange st))
            (ev_x ev) (ev_y ev) ->
          exists st',
            Recompute.pointerMoveHandler body host fuel st ev = Ok (st', None)
            /\ Recompute.highlightWordRange st' = Recompute.highlightWordRange st
            /\ Recompute.range (Recompute.highlightLineRange st')
               = Recompute.range (Recompute.highlightLineRange st))
         /\ (insideWord host (Recompute.highlightWordRange st) (ev_x ev) (ev_y ev) ->
             forall st' c,
               Recompute.pointerMoveHandler body host fuel st ev = Ok (st', c) ->
               Recompute.highlightWordRange st' = Recompute.highlightWordRange st)
         /\ (insideLine host (Recompute.range (Recompute.highlightLineRange st))
               (ev_x ev) (ev_y ev) ->
             forall st' c,
               Recompute.pointerMoveHandler body host fuel st ev = Ok (st', c) ->
               Recompute.range (Recompute.highlightLineRange st')
               = Recompute.range (Recompute.highlightLineRange st))).
Proof.
  split.
  - intros body host fuel st ev Hflat. apply I_handler_frame. exact Hflat.
  - intros body host fuel st ev Hflat. apply R_handler_frame. exact Hflat.
Qed.

Lemma C9_containment_skips_resolution_witness :
  Incremental.pointerMoveHandler (paragraph [run "ab cd"]) monoLine 0
    sampleStateI (mkEvent 15 10) = Ok (sampleStateI, None)
  /\ exists st',
       Recompute.pointerMoveHandler (paragraph [run "ab cd"]) monoLine 0
         sampleStateR (mkEvent 15 10) = Ok (st', None)
       /\ Recompute.highlightWordRange st'
          = Recompute.highlightWordRange sampleStateR
       /\ Recompute.range (Recompute.highlightLineRange st')
          = Recompute.range (Recompute.highlightLineRange sampleStateR).
Proof.
  split.
  - apply (proj1 (proj1 C9_containment_skips_resolution
                    (paragraph [run "ab cd"]) monoLine 0%nat sampleStateI
                    (mkEvent 15 10) monoLine_flat)).
    + exists (monoRect 0 2). split; [left; reflexivity | reflexivity].
    + reflexivity.
  - apply (proj1 (proj2 C9_containment_skips_resolution
                    (paragraph [run "ab cd"]) monoLine 0%nat sampleStateR
                    (mkEvent 15 10) monoLine_flat)).
    + exists (monoRect 0 2). split; [left; reflexivity | reflexivity].
    + reflexivity.
Defined.

(** ** The seed of line resolution *)

Lemma hasMoreThanOne_true (rects : list Rect) :
  twoDistinctInARow rects -> Incremental.hasMoreThanOne rects = true.
Proof.
  intros (l1 & r1 & r2 & l2 & -> & H1 & H2 & Hd).
  unfold Incremental.hasMoreThanOne.
  assert (Hlen : (length (l1 ++ r1 :: r2 :: l2) <=? 1)%nat = false).
  { apply Nat.leb_gt. rewrite length_app. simpl. lia. }
  rewrite Hlen.
  induction l1 as [|a l1 IH].
  - simpl. rewrite H1, H2. simpl.
    assert (Hne : negb (left r1 =? left r2) || negb (top r1 =? top r2)
                  || negb (width r1 =? width r2)
                  || negb (height r1 =? height r2) = true).
    { destruct Hd as [Hd | [Hd | [Hd | Hd]]]; apply Z.eqb_neq in Hd;
        rewrite Hd; simpl; repeat rewrite orb_true_r; reflexivity. }
    rewrite Hne. reflexivity.
  - simpl. destruct (l1 ++ r1 :: r2 :: l2) as [|b rest] eqn:Hl.
    + destruct l1; discriminate.
    + destruct (_ && _ && _); [reflexivity|].
      apply IH. apply Nat.leb_gt. rewrite <- Hl, length_app. simpl. lia.
Qed.

Lemma seed_check_passes (host : Host) (seed : Range) (mouseY : Z) :
  seedOnLine host seed mouseY ->
  (height (Range_getBoundingClientRect host seed) =? 0)
  || (mouseY <? top (Range_getBoundingClientRect host seed))
  || (bottom (Range_getBoundingClientRect host seed) <? mouseY) = false.
Proof.
  intros (H1 & H2 & H3).
  apply Z.eqb_neq in H1. rewrite H1.
  apply Z.ltb_ge in H2. rewrite H2.
  apply Z.ltb_ge in H3. rewrite H3. reflexivity.
Qed.

Section SeedCheck.

Variable body : Node.
Variable host : Host.

Lemma I_two_rects_collapse fuel hl cp mouseY t :
  resolve body (offsetNode cp) = Some (TextNode t) ->
  t <> [] ->
  seedOnLine host (seedRange body cp) mouseY ->
  twoDistinctInARow (Range_getClientRects host (seedRange body cp)) ->
  exists hl',
    Incremental.setHighlightLineRange body host fuel hl (Some cp) mouseY
    = Ok hl'
    /\ collapsed (Incremental.range hl') = true
    /\ Incremental.probeLog hl' = Incremental.probeLog hl.
Proof.
  intros Ht Hne Hseed Htwo. unfold Incremental.setHighlightLineRange.
  rewrite (isTextNode_text body _ _ Ht). cbn [negb].
  unfold seedRange, seedOffsetOf in *.
  rewrite (textContentOf_text body _ _ Ht) in *.
  assert (Hlen : (length t =? 0)%nat = false)
    by (destruct t; [congruence | reflexivity]).
  rewrite Hlen.
  unfold Incremental.setInitialRect, Incremental.withRange, Range_setEnd,
    Range_setStart.
  cbn [Incremental.range startContainer startOffset endContainer endOffset].
  rewrite (seed_check_passes _ _ _ Hseed).
  rewrite (hasMoreThanOne_true _ Htwo).
  eexists. split; [reflexivity|]. split; [apply collapsed_collapse | reflexivity].
Qed.

Lemma R_two_rects_collapse fuel hl cp mouseY t :
  resolve body (offsetNode cp) = Some (TextNode t) ->
  t <> [] ->
  seedOnLine host (seedRange body cp) mouseY ->
  (1 < length (Range_getClientRects host (seedRange body cp)))%nat ->
  exists hl',
    Recompute.setHighlightLineRange body host fuel hl (Some cp) mouseY
    = Ok hl'
    /\ collapsed (Recompute.range hl') = true
    /\ Recompute.probeLog hl' = Recompute.probeLog hl
    /\ Recompute.linesSpannedChecks hl' = Recompute.linesSpannedChecks hl.
Proof.
  intros Ht Hne Hseed Htwo. unfold Recompute.setHighlightLineRange.
  rewrite (isTextNode_text body _ _ Ht). cbn [negb].
  unfold seedRange, seedOffsetOf in *.
  rewrite (textContentOf_text body _ _ Ht) in *.
  assert (Hlen : (length t =? 0)%nat = false)
    by (destruct t; [congruence | reflexivity]).
  rewrite Hlen.
  unfold Recompute.getBoundingClientRect, Recompute.setEnd,
    Recompute.setStart, Recompute.invalidateBoundingClientRectangle,
    Recompute.withRange, Range_setEnd, Range_setStart.
  cbn [Recompute.range startContainer startOffset endContainer endOffset
       Recompute.boundingClientRect].
  rewrite (seed_check_passes _ _ _ Hseed).
  apply Nat.ltb_lt in Htwo. rewrite Htwo.
  eexists. split; [reflexivity|].
  split; [apply collapsed_collapse | split; reflexivity].
Qed.

End SeedCheck.

(** C8, as stated, fails in the revision with running bounds: with an
    engine that reports the one rectangle of the seed twice, the seed has
    two client rectangles with an area and the line is resolved all the
    same. *)
Lemma C8_counterexample :
  seedOnLine monoLineTwice
    (seedRange (paragraph [run "ab cd"]) (mkCaret (runRef 0) 1)) 10
  /\ length (filter rectOccupiesSpace
               (Range_getClientRects monoLineTwice
                  (seedRange (paragraph [run "ab cd"]) (mkCaret (runRef 0) 1))))
     = 2%nat
  /\ exists hl',
       Incremental.setHighlightLineRange (paragraph [run "ab cd"])
         monoLineTwice 200 Incremental.newCachedLineRange
         (Some (mkCaret (runRef 0) 1)) 10 = Ok hl'
       /\ collapsed (Incremental.range hl') = false.
Proof.
  split; [|split].
  - vm_compute. repeat split; discriminate.
  - reflexivity.
  - eexists. split; [vm_compute; reflexivity | reflexivity].
Qed.

(** C8, amended. After the vertical containment check, line resolution
    collapses the line range and stops, with no character probed: in the
    revision with running bounds, when the seed range reports two client
    rectangles in a row that have an area and differ in position or size;
    in the revision that recomputes, when the seed range reports more
    than one client rectangle of any kind. *)
Theorem C8_seed_with_two_rectangles_collapses :
  (forall body host fuel hl cp mouseY t,
      resolve body (offsetNode cp) = Some (TextNode t) ->
      t <> [] ->
      seedOnLine host (seedRange body cp) mouseY ->
      twoDistinctInARow (Range_getClientRects host (seedRange body cp)) ->
      exists hl',
        Incremental.setHighlightLineRange body host fuel hl (Some cp) mouseY
        = Ok hl'
        /\ collapsed (Incremental.range hl') = true
        /\ Incremental.probeLog hl' = Incremental.probeLog hl)
  /\ (forall body host fuel hl cp mouseY t,
         resolve body (offsetNode cp) = Some (TextNode t) ->
         t <> [] ->
         seedOnLine host (seedRange body cp) mouseY ->
         (1 < length (Range_getClientRects host (seedRange body cp)))%nat ->
         exists hl',
           Recompute.setHighlightLineRange body host fuel hl (Some cp) mouseY
           = Ok hl'
           /\ collapsed (Recompute.range hl') = true
           /\ Recompute.probeLog hl' = Recompute.probeLog hl
           /\ Recompute.linesSpannedChecks hl' = Recompute.linesSpannedChecks hl).
Proof.
  split.
  - intros. eapply I_two_rects_collapse; eassumption.
  - intros. eapply R_two_rects_collapse; eassumption.
Qed.

Lemma C8_seed_with_two_rectangles_collapses_witness :
  (exists hl',
      Incremental.setHighlightLineRange (paragraph [run "ab cd"]) brokenLine 0
        Incremental.newCachedLineRange (Some (mkCaret (runRef 0) 1)) 10
      = Ok hl'
      /\ collapsed (Incremental.range hl') = true
      /\ Incremental.probeLog hl'
         = Incremental.probeLog Incremental.newCachedLineRange)
  /\ (exists hl',
         Recompute.setHighlightLineRange (paragraph [run "ab cd"]) brokenLine 0
           Recompute.newCachedLineRange (Some (mkCaret (runRef 0) 1)) 10
         = Ok hl'
         /\ collapsed (Recompute.range hl') = true
         /\ Recompute.probeLog hl'
            = Recompute.probeLog Recompute.newCachedLineRange
         /\ Recompute.linesSpannedChecks hl'
            = Recompute.linesSpannedChecks Recompute.newCachedLineRange).
Proof.
  split.
  - apply (proj1 C8_seed_with_two_rectangles_collapses
             (paragraph [run "ab cd"]) brokenLine 0%nat
             Incremental.newCachedLineRange (mkCaret (runRef 0) 1) 10
             (str "ab cd")).
    + reflexivity.
    + discriminate.
    + vm_compute. repeat split; discriminate.
    + exists [], (monoRect 1 2),
        {| left := 0; top := 20; right := 10; bottom := 40 |}, [].
      split; [reflexivity|]. split; [reflexivity|]. split; [reflexivity|].
      left. discriminate.
  - apply (proj2 C8_seed_with_two_rectangles_collapses
             (paragraph [run "ab cd"]) brokenLine 0%nat
             Recompute.newCachedLineRange (mkCaret (runRef 0) 1) 10
             (str "ab cd")).
    + reflexivity.
    + discriminate.
    + vm_compute. repeat split; discriminate.
    + simpl. lia.
Defined.

(** ** Whitespace under the pointer *)







(** ** Whitespace and the step budget *)

(** C10. Each of the four [update] functions returns, and what it did is
    an expansion ([Grew]) of its side: every character it handed to the
    heuristic is there and is neither whitespace nor of zero width; the
    counter grew by at most one per such character, so a character that
    is skipped as whitespace never counts against the budget; the other
    boundary did not move; and the boundary of its side either did not
    move or includes one of the probed characters, so skipped whitespace
    enters the range only behind an accepted character that is not
    whitespace. Seeded on "b" of "ab cd", the line range becomes the whole
    line after three checks, of "c", "a" and "d": the space was never
    probed. *)
Theorem C10_whitespace_is_never_probed :
  (forall body host fuel hl oneChar,
      (size body < fuel)%nat ->
      endContainer (Incremental.range hl) <> [] ->
      exists b hl',
        Incremental.updateHighlightLineRangeEnd body host fuel hl oneChar
        = Ok (b, hl')
        /\ Grew body Incremental.MAX_LINES_SPANNED_CHECKS AtEnd
             (fun _ => True) (viewI hl) b (viewI hl'))
  /\ (forall body host fuel hl oneChar,
         (size body < fuel)%nat ->
         startContainer (Incremental.range hl) <> [] ->
         exists b hl',
           Incremental.updateHighlightLineRangeStart body host fuel hl oneChar
           = Ok (b, hl')
           /\ Grew body Incremental.MAX_LINES_SPANNED_CHECKS AtStart
                (fun _ => True) (viewI hl) b (viewI hl'))
  /\ (forall body host fuel hl oneChar,
         (size body < fuel)%nat ->
         endContainer (Recompute.range hl) <> [] ->
         exists b hl',
           Recompute.updateHighlightLineRangeEnd body host fuel hl oneChar
           = Ok (b, hl')
           /\ Grew body Recompute.MAX_LINES_SPANNED_CHECKS AtEnd
                (fun _ => True) (viewR hl) b (viewR hl'))
  /\ (forall body host fuel hl oneChar,
         (size body < fuel)%nat ->
         startContainer (Recompute.range hl) <> [] ->
         exists b hl',
           Recompute.updateHighlightLineRangeStart body host fuel hl oneChar
           = Ok (b, hl')
           /\ Grew body Recompute.MAX_LINES_SPANNED_CHECKS AtStart
                (fun _ => True) (viewR hl) b (viewR hl'))
  /\ (exists hl',
         Incremental.setHighlightLineRange (paragraph [run "ab cd"]) monoLine
           200 Incremental.newCachedLineRange (Some (mkCaret (runRef 0) 1)) 10
         = Ok hl'
         /\ Incremental.range hl' = mkRange (runRef 0) 0 (runRef 0) 5
         /\ Incremental.linesSpannedChecks hl' = 3%nat
         /\ Incremental.probeLog hl'
            = [(runRef 0, 4%nat); (runRef 0, 0%nat); (runRef 0, 3%nat)])
  /\ (exists hl',
         Recompute.setHighlightLineRange (paragraph [run "ab cd"]) monoLine
           200 Recompute.newCachedLineRange (Some (mkCaret (runRef 0) 1)) 10
         = Ok hl'
         /\ Recompute.range hl' = mkRange (runRef 0) 0 (runRef 0) 5
         /\ Recompute.linesSpannedChecks hl' = 3%nat
         /\ Recompute.probeLog hl'
            = [(runRef 0, 4%nat); (runRef 0, 0%nat); (runRef 0, 3%nat)]).
Proof.
  split; [|split; [|split; [|split; [|split]]]].
  - intros body host fuel hl oneChar Hf Hne.
    apply I_updateEnd_spec; auto.
  - intros body host fuel hl oneChar Hf Hne.
    apply I_updateStart_spec; auto.
  - intros body host fuel hl oneChar Hf Hne.
    apply R_updateEnd_spec; auto.
  - intros body host fuel hl oneChar Hf Hne.
    apply R_updateStart_spec; auto.
  - eexists. split; [vm_compute; reflexivity|]. repeat split.
  - eexists. split; [vm_compute; reflexivity|]. repeat split.
Qed.

Lemma C10_whitespace_is_never_probed_witness :
  (exists b hl',
      Incremental.updateHighlightLineRangeEnd (paragraph [run "ab cd"]) monoLine
        10 (Incremental.highlightLineRange sampleStateI) false
      = Ok (b, hl')
      /\ Grew (paragraph [run "ab cd"]) Incremental.MAX_LINES_SPANNED_CHECKS
           AtEnd (fun _ => True)
           (viewI (Incremental.highlightLineRange sampleStateI)) b (viewI hl'))
  /\ (exists b hl',
         Incremental.updateHighlightLineRangeStart (paragraph [run "ab cd"])
           monoLine 10 (Incremental.highlightLineRange sampleStateI) false
         = Ok (b, hl')
         /\ Grew (paragraph [run "ab cd"]) Incremental.MAX_LINES_SPANNED_CHECKS
              AtStart (fun _ => True)
              (viewI (Incremental.highlightLineRange sampleStateI)) b
              (viewI hl'))
  /\ (exists b hl',
         Recompute.updateHighlightLineRangeEnd (paragraph [run "ab cd"])
           monoLine 10 (Recompute.highlightLineRange sampleStateR) false
         = Ok (b, hl')
         /\ Grew (paragraph [run "ab cd"]) Recompute.MAX_LINES_SPANNED_CHECKS
              AtEnd (fun _ => True)
              (viewR (Recompute.highlightLineRange sampleStateR)) b (viewR hl'))
  /\ (exists b hl',
         Recompute.updateHighlightLineRangeStart (paragraph [run "ab cd"])
           monoLine 10 (Recompute.highlightLineRange sampleStateR) false
         = Ok (b, hl')
         /\ Grew (paragraph [run "ab cd"]) Recompute.MAX_LINES_SPANNED_CHECKS
              AtStart (fun _ => True)
              (viewR (Recompute.highlightLineRange sampleStateR)) b
              (viewR hl')).
Proof.
  split; [|split; [|split]].
  - apply (proj1 C10_whitespace_is_never_probed).
    + vm_compute. lia.
    + discriminate.
  - apply (proj1 (proj2 C10_whitespace_is_never_probed)).
    + vm_compute. lia.
    + discriminate.
  - apply (proj1 (proj2 (proj2 C10_whitespace_is_never_probed))).
    + vm_compute. lia.
    + discriminate.
  - apply (proj1 (proj2 (proj2 (proj2 C10_whitespace_is_never_probed)))).
    + vm_compute. lia.
    + discriminate.
Defined.

(** ** Termination and the budget *)

Lemma Range_setEnd_back (r : Range) (node : NodeRef) (off : nat) :
  Range_setEnd (Range_setEnd r node off) (endContainer r) (endOffset r) = r.
Proof. destruct r; reflexivity. Qed.

Lemma Range_setStart_back (r : Range) (node : NodeRef) (off : nat) :
  Range_setStart (Range_setStart r node off) (startContainer r) (startOffset r)
  = r.
Proof. destruct r; reflexivity. Qed.

Section Budget.

Variable host : Host.

Lemma I_over_budget_end hl node off :
  (Incremental.MAX_LINES_SPANNED_CHECKS <= Incremental.linesSpannedChecks hl)%nat ->
  fst (Incremental.tryToExpandEnd host hl node off) = false
  /\ Incremental.range (snd (Incremental.tryToExpandEnd host hl node off))
     = Incremental.range hl.
Proof.
  intros H. unfold Incremental.tryToExpandEnd.
  assert (Hlt : (Incremental.MAX_LINES_SPANNED_CHECKS
                 <? S (Incremental.linesSpannedChecks hl))%nat = true)
    by (apply Nat.ltb_lt; lia).
  rewrite Hlt. split; reflexivity.
Qed.

Lemma I_over_budget_start hl node off :
  (Incremental.MAX_LINES_SPANNED_CHECKS <= Incremental.linesSpannedChecks hl)%nat ->
  fst (Incremental.tryToExpandStart host hl node off) = false
  /\ Incremental.range (snd (Incremental.tryToExpandStart host hl node off))
     = Incremental.range hl.
Proof.
  intros H. unfold Incremental.tryToExpandStart.
  assert (Hlt : (Incremental.MAX_LINES_SPANNED_CHECKS
                 <? S (Incremental.linesSpannedChecks hl))%nat = true)
    by (apply Nat.ltb_lt; lia).
  rewrite Hlt. split; reflexivity.
Qed.

Lemma R_over_budget_rejects hl prevRect :
  (Recompute.MAX_LINES_SPANNED_CHECKS <= Recompute.linesSpannedChecks hl)%nat ->
  fst (Recompute.didNothingOrSpansLines host hl prevRect) = true.
Proof.
  intros H.
  destruct (R_didNothingOrSpansLines_view host hl prevRect) as (_ & _ & _ & V4).
  destruct (fst (Recompute.didNothingOrSpansLines host hl prevRect));
    [reflexivity|].
  specialize (V4 eq_refl). simpl in V4. lia.
Qed.

Lemma R_over_budget_end hl node off check :
  (Recompute.MAX_LINES_SPANNED_CHECKS <= Recompute.linesSpannedChecks hl)%nat ->
  fst (Recompute.tryToExpandEnd host hl node off check) = false
  /\ Recompute.range (snd (Recompute.tryToExpandEnd host hl node off check))
     = Recompute.range hl.
Proof.
  intros H. unfold Recompute.tryToExpandEnd.
  set (hl0 := Recompute.logProbe hl node (off - 1)).
  pose proof (R_previousRect_view host hl0 check) as Hv1.
  destruct (Recompute.previousRect host hl0 check) as [prevRect hl1].
  view_fields Hv1.
  pose proof (R_over_budget_rejects (Recompute.setEnd hl1 node off) prevRect)
    as Hrej.
  pose proof (R_didNothingOrSpansLines_view host
                (Recompute.setEnd hl1 node off) prevRect) as Hv2.
  destruct (Recompute.didNothingOrSpansLines host
              (Recompute.setEnd hl1 node off) prevRect) as [reject hl3].
  simpl in Hrej, Hv2. destruct Hv2 as (V1 & _).
  rewrite Hrej by lia. simpl. split; [reflexivity|].
  rewrite V1, Erange. apply Range_setEnd_back.
Qed.

Lemma R_over_budget_start hl node off check :
  (Recompute.MAX_LINES_SPANNED_CHECKS <= Recompute.linesSpannedChecks hl)%nat ->
  fst (Recompute.tryToExpandStart host hl node off check) = false
  /\ Recompute.range (snd (Recompute.tryToExpandStart host hl node off check))
     = Recompute.range hl.
Proof.
  intros H. unfold Recompute.tryToExpandStart.
  set (hl0 := Recompute.logProbe hl node off).
  pose proof (R_previousRect_view host hl0 check) as Hv1.
  destruct (Recompute.previousRect host hl0 check) as [prevRect hl1].
  view_fields Hv1.
  pose proof (R_over_budget_rejects (Recompute.setStart hl1 node off) prevRect)
    as Hrej.
  pose proof (R_didNothingOrSpansLines_view host
                (Recompute.setStart hl1 node off) prevRect) as Hv2.
  destruct (Recompute.didNothingOrSpansLines host
              (Recompute.setStart hl1 node off) prevRect) as [reject hl3].
  simpl in Hrej, Hv2. destruct Hv2 as (V1 & _).
  rewrite Hrej by lia. simpl. split; [reflexivity|].
  rewrite V1, Erange. apply Range_setStart_back.
Qed.

End Budget.

(** C4. Line resolution returns, without an exception, on every document
    whose body is an element, every layout, every state and every
    position that is not in an empty text run, given fuel above the size
    of the document plus the budget. Once the counter has reached the
    budget (105 in one revision, 115 in the other), so that the next
    check exceeds it, every attempt to grow either boundary answers
    [false] and leaves the range as it was. On a line of 300 letters,
    seeded on letter 150, the range stops after 105 (respectively 115)
    accepted characters. *)
Theorem C4_expansion_terminates_within_budget :
  (forall body host fuel hl caretPosition mouseY,
      isElement body ->
      caretOnText body caretPosition ->
      (size body + Incremental.MAX_LINES_SPANNED_CHECKS + 1 < fuel)%nat ->
      exists hl',
        Incremental.setHighlightLineRange body host fuel hl caretPosition
          mouseY = Ok hl')
  /\ (forall body host fuel hl caretPosition mouseY,
         isElement body ->
         caretOnText body caretPosition ->
         (size body + Recompute.MAX_LINES_SPANNED_CHECKS + 1 < fuel)%nat ->
         exists hl',
           Recompute.setHighlightLineRange body host fuel hl caretPosition
             mouseY = Ok hl')
  /\ (forall host hl node off,
         (105 <= Incremental.linesSpannedChecks hl)%nat ->
         (fst (Incremental.tryToExpandEnd host hl node off) = false
          /\ Incremental.range (snd (Incremental.tryToExpandEnd host hl node off))
             = Incremental.range hl)
         /\ (fst (Incremental.tryToExpandStart host hl node off) = false
             /\ Incremental.range
                  (snd (Incremental.tryToExpandStart host hl node off))
                = Incremental.range hl))
  /\ (forall host hl node off check,
         (115 <= Recompute.linesSpannedChecks hl)%nat ->
         (fst (Recompute.tryToExpandEnd host hl node off check) = false
          /\ Recompute.range
               (snd (Recompute.tryToExpandEnd host hl node off check))
             = Recompute.range hl)
         /\ (fst (Recompute.tryToExpandStart host hl node off check) = false
             /\ Recompute.range
                  (snd (Recompute.tryToExpandStart host hl node off check))
                = Recompute.range hl))
  /\ (exists hl',
         Incremental.setHighlightLineRange (paragraph [letters 300]) monoLine
           500 Incremental.newCachedLineRange (Some (mkCaret (runRef 0) 150))
           10 = Ok hl'
         /\ Incremental.range hl' = mkRange (runRef 0) 98 (runRef 0) 204)
  /\ (exists hl',
         Recompute.setHighlightLineRange (paragraph [letters 300]) monoLine
           500 Recompute.newCachedLineRange (Some (mkCaret (runRef 0) 150))
           10 = Ok hl'
         /\ Recompute.range hl' = mkRange (runRef 0) 93 (runRef 0) 209).
Proof.
  split; [|split; [|split; [|split; [|split]]]].
  - intros body host fuel hl caretPosition mouseY Hb Hc Hf.
    destruct (I_setHighlightLineRange_spec body host fuel hl caretPosition
                mouseY Hb Hf Hc) as (hl' & Hrun & _).
    exists hl'. exact Hrun.
  - intros body host fuel hl caretPosition mouseY Hb Hc Hf.
    destruct (R_setHighlightLineRange_spec body host fuel hl caretPosition
                mouseY Hb Hf Hc) as (hl' & Hrun & _).
    exists hl'. exact Hrun.
  - intros host hl node off H. split.
    + apply I_over_budget_end. exact H.
    + apply I_over_budget_start. exact H.
  - intros host hl node off check H. split.
    + apply R_over_budget_end. exact H.
    + apply R_over_budget_start. exact H.
  - eexists. split; [vm_compute; reflexivity | reflexivity].
  - eexists. split; [vm_compute; reflexivity | reflexivity].
Qed.

Lemma C4_expansion_terminates_within_budget_witness :
  (exists hl',
      Incremental.setHighlightLineRange (paragraph [run "ab cd"]) monoLine 200
        Incremental.newCachedLineRange (Some (mkCaret (runRef 0) 1)) 10
      = Ok hl')
  /\ (exists hl',
         Recompute.setHighlightLineRange (paragraph [run "ab cd"]) monoLine 200
           Recompute.newCachedLineRange (Some (mkCaret (runRef 0) 1)) 10
         = Ok hl')
  /\ ((fst (Incremental.tryToExpandEnd monoLine (lineAfterI 105) (runRef 0) 3)
        = false
        /\ Incremental.range
             (snd (Incremental.tryToExpandEnd monoLine (lineAfterI 105)
                     (runRef 0) 3))
           = Incremental.range (lineAfterI 105))
       /\ (fst (Incremental.tryToExpandStart monoLine (lineAfterI 105)
                  (runRef 0) 0) = false
           /\ Incremental.range
                (snd (Incremental.tryToExpandStart monoLine (lineAfterI 105)
                        (runRef 0) 0))
              = Incremental.range (lineAfterI 105)))
  /\ ((fst (Recompute.tryToExpandEnd monoLine (lineAfterR 115) (runRef 0) 3
              true) = false
        /\ Recompute.range
             (snd (Recompute.tryToExpandEnd monoLine (lineAfterR 115)
                     (runRef 0) 3 true))
           = Recompute.range (lineAfterR 115))
       /\ (fst (Recompute.tryToExpandStart monoLine (lineAfterR 115)
                  (runRef 0) 0 true) = false
           /\ Recompute.range
                (snd (Recompute.tryToExpandStart monoLine (lineAfterR 115)
                        (runRef 0) 0 true))
              = Recompute.range (lineAfterR 115))).
Proof.
  split; [|split; [|split]].
  - apply (proj1 C4_expansion_terminates_within_budget).
    + exact I.
    + apply (sample_caretOnText _ 0%nat 1%nat (str "ab cd"));
        [reflexivity | discriminate | simpl; lia].
    + vm_compute. lia.
  - apply (proj1 (proj2 C4_expansion_terminates_within_budget)).
    + exact I.
    + apply (sample_caretOnText _ 0%nat 1%nat (str "ab cd"));
        [reflexivity | discriminate | simpl; lia].
    + vm_compute. lia.
  - split.
    + apply (proj1 (proj1 (proj2 (proj2 C4_expansion_terminates_within_budget))
                      monoLine (lineAfterI 105) (runRef 0) 3%nat
                      (Nat.le_refl 105))).
    + apply (proj2 (proj1 (proj2 (proj2 C4_expansion_terminates_within_budget))
                      monoLine (lineAfterI 105) (runRef 0) 0%nat
                      (Nat.le_refl 105))).
  - split.
    + apply (proj1 (proj1 (proj2 (proj2 (proj2
                      C4_expansion_terminates_within_budget)))
                      monoLine (lineAfterR 115) (runRef 0) 3%nat true
                      (Nat.le_refl 115))).
    + apply (proj2 (proj1 (proj2 (proj2 (proj2
                      C4_expansion_terminates_within_budget)))
                      monoLine (lineAfterR 115) (runRef 0) 0%nat true
                      (Nat.le_refl 115))).
Defined.

(** ** The two heuristics on a well-formed line *)

Lemma fold_left_min_ge (k : Z) (l : list Z) :
  forall a, k <= a -> (forall x, In x l -> k <= x) -> k <= fold_left Z.min l a.
Proof.
  induction l as [|x l IH]; intros a Ha Hl; simpl; [exact Ha|].
  apply IH.
  - pose proof (Hl x (or_introl eq_refl)). lia.
  - intros y Hy. apply Hl. right. exact Hy.
Qed.

Lemma minimum_ge (k : Z) (l : list Z) :
  l <> [] -> (forall x, In x l -> k <= x) -> k <= Recompute.minimum l.
Proof.
  destruct l as [|a l]; [congruence|]. intros _ Hl. simpl.
  apply fold_left_min_ge.
  - apply Hl. left. reflexivity.
  - intros x Hx. apply Hl. right. exact Hx.
Qed.

Lemma onLine_height (b : Band) (r : Rect) :
  onLine b r -> coreBottom b - coreTop b <= height r.
Proof. unfold onLine, height. lia. Qed.

Section Agreement.

Variable host : Host.
Variable b : Band.
Hypothesis Htight : tightBand b.

(** On a tight line the check of the running bounds accepts the box of
    any character of the line, and the new bounds are on the line. *)
Lemma I_sameLineCheck_tight hl rect :
  boundsOnLine b hl -> onLine b rect ->
  exists nt nb mh,
    Incremental.sameLineCheck hl rect = (nt, nb, mh, true)
    /\ bandTop b <= nt <= coreTop b
    /\ coreBottom b <= nb <= bandBottom b
    /\ coreBottom b - coreTop b <= mh.
Proof.
  intros (Ht & Hb & Hm) Hr. pose proof (onLine_height b rect Hr) as Hh.
  destruct Hr as [Hrt Hrb]. destruct Htight as [Hcore Hfac].
  unfold Incremental.sameLineCheck.
  destruct (top rect <? Incremental.manualBoundingRectTop hl) eqn:E1;
    destruct (Incremental.manualBoundingRectBottom hl <? bottom rect) eqn:E2;
    eexists _, _, _;
    (split;
     [f_equal; apply andb_true_iff; split; apply Z.ltb_lt; unfold height in *;
      lia
     | repeat split; unfold height in *; lia]).
Qed.

Lemma I_budget_test (n : nat) :
  (Incremental.MAX_LINES_SPANNED_CHECKS <? S n)%nat = negb (n <? 105)%nat.
Proof.
  unfold Incremental.MAX_LINES_SPANNED_CHECKS.
  destruct (n <? 105)%nat eqn:E; cbn [negb];
    [apply Nat.ltb_ge; apply Nat.ltb_lt in E
    | apply Nat.ltb_lt; apply Nat.ltb_ge in E]; lia.
Qed.

(** The revision with running bounds, on a character of the line:
    accepted exactly when its budget is not used up; the running bounds
    stay those of boxes of the line either way. *)
Lemma I_end_on_line hl node off :
  boundsOnLine b hl ->
  onLine b (Range_getBoundingClientRect host (charRange node off)) ->
  fst (Incremental.tryToExpandEnd host hl node off)
  = (Incremental.linesSpannedChecks hl <? 105)%nat
  /\ boundsOnLine b (snd (Incremental.tryToExpandEnd host hl node off))
  /\ Incremental.range (snd (Incremental.tryToExpandEnd host hl node off))
     = if (Incremental.linesSpannedChecks hl <? 105)%nat
       then Range_setEnd (Incremental.range hl) node off
       else Incremental.range hl.
Proof.
  intros Hbounds Hrect. unfold Incremental.tryToExpandEnd.
  rewrite I_budget_test.
  destruct (Incremental.linesSpannedChecks hl <? 105)%nat; cbn [negb].
  - change (Range_setEnd
              (Range_setStart (Incremental.singleCharRange hl) node (off - 1))
              node off) with (charRange node off).
    destruct (I_sameLineCheck_tight hl _ Hbounds Hrect)
      as (nt & nb & mh & Hcheck & H1 & H2 & H3).
    rewrite Hcheck. cbn [fst snd Incremental.range].
    split; [reflexivity|]. split; [|reflexivity].
    unfold boundsOnLine.
    cbn [Incremental.manualBoundingRectTop Incremental.manualBoundingRectBottom
         Incremental.minRectHeight].
    repeat split; lia.
  - cbn [fst snd Incremental.range]. split; [reflexivity|].
    split; [exact Hbounds | reflexivity].
Qed.

Lemma I_start_on_line hl node off :
  boundsOnLine b hl ->
  onLine b (Range_getBoundingClientRect host (charRangeFrom node off)) ->
  fst (Incremental.tryToExpandStart host hl node off)
  = (Incremental.linesSpannedChecks hl <? 105)%nat
  /\ boundsOnLine b (snd (Incremental.tryToExpandStart host hl node off))
  /\ Incremental.range (snd (Incremental.tryToExpandStart host hl node off))
     = if (Incremental.linesSpannedChecks hl <? 105)%nat
       then Range_setStart (Incremental.range hl) node off
       else Incremental.range hl.
Proof.
  intros Hbounds Hrect. unfold Incremental.tryToExpandStart.
  rewrite I_budget_test.
  destruct (Incremental.linesSpannedChecks hl <? 105)%nat; cbn [negb].
  - change (Range_setEnd
              (Range_setStart (Incremental.singleCharRange hl) node off)
              node (S off)) with (charRangeFrom node off).
    destruct (I_sameLineCheck_tight hl _ Hbounds Hrect)
      as (nt & nb & mh & Hcheck & H1 & H2 & H3).
    rewrite Hcheck. cbn [fst snd Incremental.range].
    split; [reflexivity|]. split; [|reflexivity].
    unfold boundsOnLine.
    cbn [Incremental.manualBoundingRectTop Incremental.manualBoundingRectBottom
         Incremental.minRectHeight].
    repeat split; lia.
  - cbn [fst snd Incremental.range]. split; [reflexivity|].
    split; [exact Hbounds | reflexivity].
Qed.

(** On a tight line the recomputed check does not find several lines,
    as long as its budget is not used up. *)
Lemma R_spans_on_line hl :
  cacheCoherent host hl ->
  (Recompute.linesSpannedChecks hl < 115)%nat ->
  (forall rect,
      In rect (Range_getClientRects host (Recompute.range hl)) ->
      rectOccupiesSpace rect = true -> onLine b rect) ->
  bandTop b <= top (Range_getBoundingClientRect host (Recompute.range hl)) ->
  bottom (Range_getBoundingClientRect host (Recompute.range hl)) <= bandBottom b ->
  fst (Recompute.spansMultipleLines host hl) = false
  /\ Recompute.range (snd (Recompute.spansMultipleLines host hl))
     = Recompute.range hl
  /\ cacheCoherent host (snd (Recompute.spansMultipleLines host hl)).
Proof.
  intros Hcache Hk Hrects Htop Hbottom. destruct Htight as [Hcore Hfac].
  unfold Recompute.spansMultipleLines.
  assert (Hlt : (Recompute.MAX_LINES_SPANNED_CHECKS
                 <? S (Recompute.linesSpannedChecks hl))%nat = false)
    by (apply Nat.ltb_ge; unfold Recompute.MAX_LINES_SPANNED_CHECKS; lia).
  rewrite Hlt. cbn [Recompute.range].
  set (rects := filter _ _).
  destruct (length rects <? 2)%nat eqn:Hlen.
  - simpl. split; [reflexivity|]. split; [reflexivity | exact Hcache].
  - apply Nat.ltb_ge in Hlen.
    assert (Hmin : coreBottom b - coreTop b
                   <= Recompute.minimum (map height rects)).
    { apply minimum_ge.
      - destruct rects; [simpl in Hlen; lia | discriminate].
      - intros x Hx. apply in_map_iff in Hx. destruct Hx as (rect & <- & Hin).
        unfold rects in Hin. apply filter_In in Hin. destruct Hin as [Hin Hocc].
        apply onLine_height. apply Hrects; assumption. }
    unfold Recompute.getBoundingClientRect.
    cbn [Recompute.boundingClientRect Recompute.range].
    remember (Recompute.minimum (map height rects)) as m eqn:Hm.
    assert (Hbound : forall rect,
               rect = Range_getBoundingClientRect host (Recompute.range hl) ->
               (173 * m <=? 100 * height rect) = false).
    { intros rect ->. apply Z.leb_gt. unfold height. lia. }
    destruct Hcache as [Hc | Hc]; rewrite Hc; cbn [fst snd].
    + rewrite (Hbound _ eq_refl). split; [reflexivity|].
      split; [reflexivity|]. right. reflexivity.
    + rewrite (Hbound _ eq_refl). split; [reflexivity|].
      split; [reflexivity|]. right. reflexivity.
Qed.

(** The test of [tryToExpandEnd] and [tryToExpandStart] of the revision
    that recomputes, on a line object [hl2] whose boundary was just
    moved: nothing is found against the growth. *)
Lemma R_check_on_line hl2 (r : Range) check :
  Recompute.boundingClientRect hl2 = None ->
  (Recompute.linesSpannedChecks hl2 < 115)%nat ->
  (forall rect,
      In rect (Range_getClientRects host (Recompute.range hl2)) ->
      rectOccupiesSpace rect = true -> onLine b rect) ->
  bandTop b <= top (Range_getBoundingClientRect host (Recompute.range hl2)) ->
  bottom (Range_getBoundingClientRect host (Recompute.range hl2))
  <= bandBottom b ->
  (check = true -> rectangleGrew host r (Recompute.range hl2)) ->
  exists hl3,
    Recompute.didNothingOrSpansLines host hl2
      (if check then Some (Range_getBoundingClientRect host r) else None)
    = (false, hl3)
    /\ Recompute.range hl3 = Recompute.range hl2
    /\ cacheCoherent host hl3.
Proof.
  intros Hnone Hk Hrects Htop Hbottom Hgrew.
  assert (Hspans : forall h,
             Recompute.range h = Recompute.range hl2 ->
             Recompute.linesSpannedChecks h = Recompute.linesSpannedChecks hl2 ->
             cacheCoherent host h ->
             exists hl3,
               Recompute.spansMultipleLines host h = (false, hl3)
               /\ Recompute.range hl3 = Recompute.range hl2
               /\ cacheCoherent host hl3).
  { intros h Hrh Hch Hcoh.
    destruct (R_spans_on_line h Hcoh) as (S1 & S2 & S3).
    - lia.
    - rewrite Hrh. exact Hrects.
    - rewrite Hrh. exact Htop.
    - rewrite Hrh. exact Hbottom.
    - destruct (Recompute.spansMultipleLines host h) as [sp hl3].
      cbn [fst snd] in S1, S2, S3. subst sp. exists hl3.
      split; [reflexivity|]. split; [rewrite S2; exact Hrh | exact S3]. }
  unfold Recompute.didNothingOrSpansLines. destruct check.
  - unfold Recompute.getBoundingClientRect. rewrite Hnone.
    specialize (Hgrew eq_refl). unfold rectangleGrew in Hgrew.
    rewrite Hgrew. apply Hspans; [reflexivity | reflexivity |].
    right. reflexivity.
  - apply Hspans; [reflexivity | reflexivity |]. left. exact Hnone.
Qed.

(** What [prevRect] is, on a line object whose cache is empty or up to
    date. *)
Lemma R_previousRect_coherent hl check :
  cacheCoherent host hl ->
  exists hl1,
    Recompute.previousRect host hl check
    = (if check
       then Some (Range_getBoundingClientRect host (Recompute.range hl))
       else None, hl1)
    /\ Recompute.range hl1 = Recompute.range hl
    /\ Recompute.linesSpannedChecks hl1 = Recompute.linesSpannedChecks hl.
Proof.
  intros Hcache.
  unfold Recompute.previousRect, Recompute.getBoundingClientRect.
  destruct check; [|exists hl; repeat split].
  destruct Hcache as [Hc | Hc]; rewrite Hc; eexists; repeat split.
Qed.

Lemma R_end_accepts hl node off check :
  grownOnLine host b (charRange node off)
    (Range_setEnd (Recompute.range hl) node off) ->
  (check = true ->
   rectangleGrew host (Recompute.range hl)
     (Range_setEnd (Recompute.range hl) node off)) ->
  cacheCoherent host hl ->
  (Recompute.linesSpannedChecks hl < 115)%nat ->
  fst (Recompute.tryToExpandEnd host hl node off check) = true
  /\ cacheCoherent host (snd (Recompute.tryToExpandEnd host hl node off check))
  /\ Recompute.range (snd (Recompute.tryToExpandEnd host hl node off check))
     = Range_setEnd (Recompute.range hl) node off.
Proof.
  intros (_ & Hrects & Htop & Hbottom) Hgrew Hcache Hk.
  unfold Recompute.tryToExpandEnd.
  set (hl0 := Recompute.logProbe hl node (off - 1)).
  destruct (R_previousRect_coherent hl0 check Hcache)
    as (hl1 & Hprev & Hr1 & Hc1).
  rewrite Hprev.
  change (Recompute.range hl0) with (Recompute.range hl) in *.
  change (Recompute.linesSpannedChecks hl0)
    with (Recompute.linesSpannedChecks hl) in Hc1.
  destruct (R_check_on_line (Recompute.setEnd hl1 node off)
              (Recompute.range hl) check)
    as (hl3 & Hdid & Hr3 & Hcoh3).
  - reflexivity.
  - cbn [Recompute.setEnd Recompute.withRange
         Recompute.invalidateBoundingClientRectangle
         Recompute.linesSpannedChecks]. lia.
  - cbn [Recompute.setEnd Recompute.withRange
         Recompute.invalidateBoundingClientRectangle Recompute.range].
    rewrite Hr1. exact Hrects.
  - cbn [Recompute.setEnd Recompute.withRange
         Recompute.invalidateBoundingClientRectangle Recompute.range].
    rewrite Hr1. exact Htop.
  - cbn [Recompute.setEnd Recompute.withRange
         Recompute.invalidateBoundingClientRectangle Recompute.range].
    rewrite Hr1. exact Hbottom.
  - cbn [Recompute.setEnd Recompute.withRange
         Recompute.invalidateBoundingClientRectangle Recompute.range].
    rewrite Hr1. exact Hgrew.
  - rewrite Hdid. cbn [fst snd]. split; [reflexivity|].
    split; [exact Hcoh3|]. rewrite Hr3.
    cbn [Recompute.setEnd Recompute.withRange
         Recompute.invalidateBoundingClientRectangle Recompute.range].
    rewrite Hr1. reflexivity.
Qed.

Lemma R_start_accepts hl node off check :
  grownOnLine host b (charRangeFrom node off)
    (Range_setStart (Recompute.range hl) node off) ->
  (check = true ->
   rectangleGrew host (Recompute.range hl)
     (Range_setStart (Recompute.range hl) node off)) ->
  cacheCoherent host hl ->
  (Recompute.linesSpannedChecks hl < 115)%nat ->
  fst (Recompute.tryToExpandStart host hl node off check) = true
  /\ cacheCoherent host
       (snd (Recompute.tryToExpandStart host hl node off check))
  /\ Recompute.range (snd (Recompute.tryToExpandStart host hl node off check))
     = Range_setStart (Recompute.range hl) node off.
Proof.
  intros (_ & Hrects & Htop & Hbottom) Hgrew Hcache Hk.
  unfold Recompute.tryToExpandStart.
  set (hl0 := Recompute.logProbe hl node off).
  destruct (R_previousRect_coherent hl0 check Hcache)
    as (hl1 & Hprev & Hr1 & Hc1).
  rewrite Hprev.
  change (Recompute.range hl0) with (Recompute.range hl) in *.
  change (Recompute.linesSpannedChecks hl0)
    with (Recompute.linesSpannedChecks hl) in Hc1.
  destruct (R_check_on_line (Recompute.setStart hl1 node off)
              (Recompute.range hl) check)
    as (hl3 & Hdid & Hr3 & Hcoh3).
  - reflexivity.
  - cbn [Recompute.setStart Recompute.withRange
         Recompute.invalidateBoundingClientRectangle
         Recompute.linesSpannedChecks]. lia.
  - cbn [Recompute.setStart Recompute.withRange
         Recompute.invalidateBoundingClientRectangle Recompute.range].
    rewrite Hr1. exact Hrects.
  - cbn [Recompute.setStart Recompute.withRange
         Recompute.invalidateBoundingClientRectangle Recompute.range].
    rewrite Hr1. exact Htop.
  - cbn [Recompute.setStart Recompute.withRange
         Recompute.invalidateBoundingClientRectangle Recompute.range].
    rewrite Hr1. exact Hbottom.
  - cbn [Recompute.setStart Recompute.withRange
         Recompute.invalidateBoundingClientRectangle Recompute.range].
    rewrite Hr1. exact Hgrew.
  - rewrite Hdid. cbn [fst snd]. split; [reflexivity|].
    split; [exact Hcoh3|]. rewrite Hr3.
    cbn [Recompute.setStart Recompute.withRange
         Recompute.invalidateBoundingClientRectangle Recompute.range].
    rewrite Hr1. reflexivity.
Qed.

End Agreement.

(** A growth that the revision that recomputes refuses leaves its cache
    empty. *)
Lemma R_end_refused_cache host hl node off check :
  fst (Recompute.tryToExpandEnd host hl node off check) = false ->
  Recompute.boundingClientRect
    (snd (Recompute.tryToExpandEnd host hl node off check)) = None.
Proof.
  unfold Recompute.tryToExpandEnd.
  destruct (Recompute.previousRect host _ check) as [prevRect hl1].
  destruct (Recompute.didNothingOrSpansLines host _ prevRect)
    as [[|] hl3]; [reflexivity | discriminate].
Qed.

Lemma R_start_refused_cache host hl node off check :
  fst (Recompute.tryToExpandStart host hl node off check) = false ->
  Recompute.boundingClientRect
    (snd (Recompute.tryToExpandStart host hl node off check)) = None.
Proof.
  unfold Recompute.tryToExpandStart.
  destruct (Recompute.previousRect host _ check) as [prevRect hl1].
  destruct (Recompute.didNothingOrSpansLines host _ prevRect)
    as [[|] hl3]; [reflexivity | discriminate].
Qed.

Lemma budget_tests_agree (cI cR : nat) :
  (cI <? 105)%nat = (cR <? 115)%nat ->
  ((cI < 105)%nat /\ (cR < 115)%nat) \/ ((105 <= cI)%nat /\ (115 <= cR)%nat).
Proof.
  destruct (cI <? 105)%nat eqn:E1; destruct (cR <? 115)%nat eqn:E2;
    try discriminate; intros _;
    [left; split; apply Nat.ltb_lt; assumption
    | right; split; apply Nat.ltb_ge; assumption].
Qed.

(** The growth of the end on a well-formed line, in both revisions. *)
Lemma end_on_line host b hlI hlR node off check :
  relatedStates host b hlI hlR ->
  wellFormedGrowth host b (Incremental.range hlI) node off check ->
  fst (Incremental.tryToExpandEnd host hlI node off)
  = (Incremental.linesSpannedChecks hlI <? 105)%nat
  /\ fst (Recompute.tryToExpandEnd host hlR node off check)
     = (Recompute.linesSpannedChecks hlR <? 115)%nat
  /\ ((Incremental.linesSpannedChecks hlI <? 105)%nat
      = (Recompute.linesSpannedChecks hlR <? 115)%nat ->
      relatedStates host b (snd (Incremental.tryToExpandEnd host hlI node off))
        (snd (Recompute.tryToExpandEnd host hlR node off check))).
Proof.
  intros (Hrange & Hbounds & Hcache) (Htight & Hline & Hgrew).
  pose proof Hline as (Hchar & _).
  destruct (I_end_on_line host b Htight hlI node off Hbounds Hchar)
    as (I1 & I2 & I3).
  rewrite <- Hrange in Hline, Hgrew.
  assert (HR : fst (Recompute.tryToExpandEnd host hlR node off check)
               = (Recompute.linesSpannedChecks hlR <? 115)%nat).
  { destruct (Recompute.linesSpannedChecks hlR <? 115)%nat eqn:E.
    - apply Nat.ltb_lt in E.
      apply (R_end_accepts host b Htight hlR node off check Hline Hgrew
               Hcache E).
    - apply Nat.ltb_ge in E. apply R_over_budget_end. exact E. }
  split; [exact I1|]. split; [exact HR|].
  intros Hsame. destruct (budget_tests_agree _ _ Hsame) as [[HI Hk] | [HI Hk]].
  - destruct (R_end_accepts host b Htight hlR node off check Hline Hgrew
                Hcache Hk) as (_ & R2 & R3).
    apply Nat.ltb_lt in HI. rewrite HI in I3.
    split; [rewrite R3, I3, Hrange; reflexivity|].
    split; [exact I2 | exact R2].
  - destruct (R_over_budget_end host hlR node off check Hk) as (R1 & R3).
    apply Nat.ltb_ge in HI. rewrite HI in I3.
    split; [rewrite R3, I3; exact Hrange|].
    split; [exact I2|]. left. apply R_end_refused_cache. exact R1.
Qed.

Lemma start_on_line host b hlI hlR node off check :
  relatedStates host b hlI hlR ->
  wellFormedGrowthStart host b (Incremental.range hlI) node off check ->
  fst (Incremental.tryToExpandStart host hlI node off)
  = (Incremental.linesSpannedChecks hlI <? 105)%nat
  /\ fst (Recompute.tryToExpandStart host hlR node off check)
     = (Recompute.linesSpannedChecks hlR <? 115)%nat
  /\ ((Incremental.linesSpannedChecks hlI <? 105)%nat
      = (Recompute.linesSpannedChecks hlR <? 115)%nat ->
      relatedStates host b
        (snd (Incremental.tryToExpandStart host hlI node off))
        (snd (Recompute.tryToExpandStart host hlR node off check))).
Proof.
  intros (Hrange & Hbounds & Hcache) (Htight & Hline & Hgrew).
  pose proof Hline as (Hchar & _).
  destruct (I_start_on_line host b Htight hlI node off Hbounds Hchar)
    as (I1 & I2 & I3).
  rewrite <- Hrange in Hline, Hgrew.
  assert (HR : fst (Recompute.tryToExpandStart host hlR node off check)
               = (Recompute.linesSpannedChecks hlR <? 115)%nat).
  { destruct (Recompute.linesSpannedChecks hlR <? 115)%nat eqn:E.
    - apply Nat.ltb_lt in E.
      apply (R_start_accepts host b Htight hlR node off check Hline Hgrew
               Hcache E).
    - apply Nat.ltb_ge in E. apply R_over_budget_start. exact E. }
  split; [exact I1|]. split; [exact HR|].
  intros Hsame. destruct (budget_tests_agree _ _ Hsame) as [[HI Hk] | [HI Hk]].
  - destruct (R_start_accepts host b Htight hlR node off check Hline Hgrew
                Hcache Hk) as (_ & R2 & R3).
    apply Nat.ltb_lt in HI. rewrite HI in I3.
    split; [rewrite R3, I3, Hrange; reflexivity|].
    split; [exact I2 | exact R2].
  - destruct (R_over_budget_start host hlR node off check Hk) as (R1 & R3).
    apply Nat.ltb_ge in HI. rewrite HI in I3.
    split; [rewrite R3, I3; exact Hrange|].
    split; [exact I2|]. left. apply R_start_refused_cache. exact R1.
Qed.

(** *** A growth onto another line *)

Lemma fold_left_min_le (l : list Z) :
  forall a,
    fold_left Z.min l a <= a
    /\ forall x, In x l -> fold_left Z.min l a <= x.
Proof.
  induction l as [|y l IH]; intros a; cbn [fold_left].
  - split; [lia | intros x []].
  - destruct (IH (Z.min a y)) as [H1 H2]. split; [lia|].
    intros x [<- | Hx]; [lia | exact (H2 x Hx)].
Qed.

Lemma minimum_le (l : list Z) (x : Z) :
  In x l -> Recompute.minimum l <= x.
Proof.
  destruct l as [|a l]; [intros []|]. cbn [Recompute.minimum].
  destruct (fold_left_min_le l a) as [H1 H2].
  intros [<- | Hx]; [exact H1 | exact (H2 x Hx)].
Qed.

Lemma two_members {A : Type} (l : list A) (x y : A) :
  In x l -> In y l -> x <> y -> (2 <= length l)%nat.
Proof.
  intros Hx Hy Hne. apply in_split in Hx. destruct Hx as (l1 & l2 & ->).
  apply in_app_or in Hy. rewrite length_app. cbn [length].
  destruct Hy as [Hy | [Hy | Hy]]; [| congruence |].
  - destruct l1; [destruct Hy | cbn [length]; lia].
  - destruct l2; [destruct Hy | cbn [length]; lia].
Qed.

(** The revision with running bounds refuses a character whose box is
    on another line than its running bounds. *)
Lemma I_sameLineCheck_off hl rect nt nb mh same :
  offTheBand hl rect ->
  Incremental.sameLineCheck hl rect = (nt, nb, mh, same) ->
  same = false.
Proof.
  intros (Hband & Hoff) Hcheck. unfold Incremental.sameLineCheck in Hcheck.
  destruct (top rect <? Incremental.manualBoundingRectTop hl) eqn:E1;
    destruct (Incremental.manualBoundingRectBottom hl <? bottom rect) eqn:E2;
    pose proof (f_equal snd Hcheck) as Hsame; cbn [snd] in Hsame;
    clear Hcheck; subst same;
    first [apply Z.ltb_lt in E1 | apply Z.ltb_ge in E1];
    first [apply Z.ltb_lt in E2 | apply Z.ltb_ge in E2];
    apply andb_false_iff; right; apply Z.ltb_ge; lia.
Qed.

(** A growth that the revision with running bounds refuses leaves the
    range and the running bounds as they were. *)
Lemma I_end_refused_keeps host b hl node off :
  fst (Incremental.tryToExpandEnd host hl node off) = false ->
  Incremental.range (snd (Incremental.tryToExpandEnd host hl node off))
  = Incremental.range hl
  /\ (boundsOnLine b hl ->
      boundsOnLine b (snd (Incremental.tryToExpandEnd host hl node off))).
Proof.
  unfold Incremental.tryToExpandEnd.
  destruct (Incremental.MAX_LINES_SPANNED_CHECKS
            <? S (Incremental.linesSpannedChecks hl))%nat;
    [intros _; split; [reflexivity | intros H; exact H]|].
  destruct (Incremental.sameLineCheck hl _) as [[[nt nb] mh] [|]];
    [discriminate|].
  intros _. split; [reflexivity | intros H; exact H].
Qed.

Lemma I_start_refused_keeps host b hl node off :
  fst (Incremental.tryToExpandStart host hl node off) = false ->
  Incremental.range (snd (Incremental.tryToExpandStart host hl node off))
  = Incremental.range hl
  /\ (boundsOnLine b hl ->
      boundsOnLine b (snd (Incremental.tryToExpandStart host hl node off))).
Proof.
  unfold Incremental.tryToExpandStart.
  destruct (Incremental.MAX_LINES_SPANNED_CHECKS
            <? S (Incremental.linesSpannedChecks hl))%nat;
    [intros _; split; [reflexivity | intros H; exact H]|].
  destruct (Incremental.sameLineCheck hl _) as [[[nt nb] mh] [|]];
    [discriminate|].
  intros _. split; [reflexivity | intros H; exact H].
Qed.

Lemma I_end_off_band host hl node off :
  offTheBand hl (Range_getBoundingClientRect host (charRange node off)) ->
  fst (Incremental.tryToExpandEnd host hl node off) = false.
Proof.
  intros Hoff. unfold Incremental.tryToExpandEnd.
  destruct (Incremental.MAX_LINES_SPANNED_CHECKS
            <? S (Incremental.linesSpannedChecks hl))%nat; [reflexivity|].
  change (Range_setEnd
            (Range_setStart (Incremental.singleCharRange hl) node (off - 1))
            node off) with (charRange node off).
  destruct (Incremental.sameLineCheck hl _) as [[[nt nb] mh] same] eqn:Hcheck.
  rewrite (I_sameLineCheck_off hl _ nt nb mh same Hoff Hcheck). reflexivity.
Qed.

Lemma I_start_off_band host hl node off :
  offTheBand hl (Range_getBoundingClientRect host (charRangeFrom node off)) ->
  fst (Incremental.tryToExpandStart host hl node off) = false.
Proof.
  intros Hoff. unfold Incremental.tryToExpandStart.
  destruct (Incremental.MAX_LINES_SPANNED_CHECKS
            <? S (Incremental.linesSpannedChecks hl))%nat; [reflexivity|].
  change (Range_setEnd
            (Range_setStart (Incremental.singleCharRange hl) node off)
            node (S off)) with (charRangeFrom node off).
  destruct (Incremental.sameLineCheck hl _) as [[[nt nb] mh] same] eqn:Hcheck.
  rewrite (I_sameLineCheck_off hl _ nt nb mh same Hoff Hcheck). reflexivity.
Qed.

(** The revision that recomputes finds several lines in a range that is
    on two lines. *)
Lemma R_spans_two_lines host hl :
  cacheCoherent host hl ->
  onTwoLines host (Recompute.range hl) ->
  fst (Recompute.spansMultipleLines host hl) = true.
Proof.
  intros Hcache (upper & lower & Hu & Hl & Hou & Hol & Hstack & Htop & Hbot).
  unfold Recompute.spansMultipleLines.
  destruct (Recompute.MAX_LINES_SPANNED_CHECKS
            <? S (Recompute.linesSpannedChecks hl))%nat; [reflexivity|].
  cbn [Recompute.range].
  change (fun r : Rect => (0 <? width r) && (0 <? height r))
    with rectOccupiesSpace.
  set (rects := filter rectOccupiesSpace
                  (Range_getClientRects host (Recompute.range hl))).
  assert (Hinu : In upper rects) by (apply filter_In; split; assumption).
  assert (Hinl : In lower rects) by (apply filter_In; split; assumption).
  pose proof Hou as Hou'. pose proof Hol as Hol'.
  unfold rectOccupiesSpace in Hou', Hol'.
  apply andb_true_iff in Hou'. destruct Hou' as [_ Hhu].
  apply andb_true_iff in Hol'. destruct Hol' as [_ Hhl].
  apply Z.ltb_lt in Hhu. apply Z.ltb_lt in Hhl.
  assert (Hne : upper <> lower).
  { intros ->. unfold height in Hhl. lia. }
  pose proof (two_members rects upper lower Hinu Hinl Hne) as Hlen.
  assert (Hlt : (length rects <? 2)%nat = false) by (apply Nat.ltb_ge; lia).
  rewrite Hlt.
  assert (Hmu : Recompute.minimum (map height rects) <= height upper)
    by (apply minimum_le, in_map; exact Hinu).
  assert (Hml : Recompute.minimum (map height rects) <= height lower)
    by (apply minimum_le, in_map; exact Hinl).
  assert (Hpos : 1 <= Recompute.minimum (map height rects)).
  { apply minimum_ge.
    - destruct rects; [destruct Hinu | discriminate].
    - intros x Hx. apply in_map_iff in Hx. destruct Hx as (rect & <- & Hin).
      unfold rects in Hin. apply filter_In in Hin. destruct Hin as [_ Hocc].
      unfold rectOccupiesSpace in Hocc. apply andb_true_iff in Hocc.
      destruct Hocc as [_ Hh]. apply Z.ltb_lt in Hh. lia. }
  unfold Recompute.getBoundingClientRect.
  cbn [Recompute.boundingClientRect Recompute.range].
  destruct Hcache as [Hc | Hc]; rewrite Hc; cbn [fst];
    apply Z.leb_le; unfold height in *; lia.
Qed.

Lemma R_check_two_lines host hl prevRect :
  cacheCoherent host hl ->
  onTwoLines host (Recompute.range hl) ->
  fst (Recompute.didNothingOrSpansLines host hl prevRect) = true.
Proof.
  intros Hcache Htwo. unfold Recompute.didNothingOrSpansLines.
  destruct prevRect as [prev|]; [|exact (R_spans_two_lines host hl Hcache Htwo)].
  unfold Recompute.getBoundingClientRect.
  destruct Hcache as [Hc | Hc]; rewrite Hc.
  - destruct (rectanglesAreEqual prev _); [reflexivity|].
    apply R_spans_two_lines; [right; reflexivity | exact Htwo].
  - destruct (rectanglesAreEqual prev _); [reflexivity|].
    apply R_spans_two_lines; [right; exact Hc | exact Htwo].
Qed.

Lemma R_end_two_lines host hl node off check :
  onTwoLines host (Range_setEnd (Recompute.range hl) node off) ->
  fst (Recompute.tryToExpandEnd host hl node off check) = false
  /\ Recompute.range (snd (Recompute.tryToExpandEnd host hl node off check))
     = Recompute.range hl.
Proof.
  intros Htwo. unfold Recompute.tryToExpandEnd.
  set (hl0 := Recompute.logProbe hl node (off - 1)).
  pose proof (R_previousRect_view host hl0 check) as Hv1.
  destruct (Recompute.previousRect host hl0 check) as [prevRect hl1].
  view_fields Hv1.
  assert (Hrej : fst (Recompute.didNothingOrSpansLines host
                        (Recompute.setEnd hl1 node off) prevRect) = true).
  { apply R_check_two_lines; [left; reflexivity|].
    cbn [Recompute.setEnd Recompute.withRange
         Recompute.invalidateBoundingClientRectangle Recompute.range].
    rewrite Erange. exact Htwo. }
  pose proof (R_didNothingOrSpansLines_view host
                (Recompute.setEnd hl1 node off) prevRect) as Hv2.
  destruct (Recompute.didNothingOrSpansLines host
              (Recompute.setEnd hl1 node off) prevRect) as [reject hl3].
  simpl in Hrej, Hv2. destruct Hv2 as (V1 & _).
  rewrite Hrej. simpl. split; [reflexivity|].
  rewrite V1, Erange. apply Range_setEnd_back.
Qed.

Lemma R_start_two_lines host hl node off check :
  onTwoLines host (Range_setStart (Recompute.range hl) node off) ->
  fst (Recompute.tryToExpandStart host hl node off check) = false
  /\ Recompute.range (snd (Recompute.tryToExpandStart host hl node off check))
     = Recompute.range hl.
Proof.
  intros Htwo. unfold Recompute.tryToExpandStart.
  set (hl0 := Recompute.logProbe hl node off).
  pose proof (R_previousRect_view host hl0 check) as Hv1.
  destruct (Recompute.previousRect host hl0 check) as [prevRect hl1].
  view_fields Hv1.
  assert (Hrej : fst (Recompute.didNothingOrSpansLines host
                        (Recompute.setStart hl1 node off) prevRect) = true).
  { apply R_check_two_lines; [left; reflexivity|].
    cbn [Recompute.setStart Recompute.withRange
         Recompute.invalidateBoundingClientRectangle Recompute.range].
    rewrite Erange. exact Htwo. }
  pose proof (R_didNothingOrSpansLines_view host
                (Recompute.setStart hl1 node off) prevRect) as Hv2.
  destruct (Recompute.didNothingOrSpansLines host
              (Recompute.setStart hl1 node off) prevRect) as [reject hl3].
  simpl in Hrej, Hv2. destruct Hv2 as (V1 & _).
  rewrite Hrej. simpl. split; [reflexivity|].
  rewrite V1, Erange. apply Range_setStart_back.
Qed.

(** The growth of the end onto another line, in both revisions. *)
Lemma end_off_line host b hlI hlR node off check :
  relatedStates host b hlI hlR ->
  offTheBand hlI (Range_getBoundingClientRect host (charRange node off)) ->
  onTwoLines host (Range_setEnd (Incremental.range hlI) node off) ->
  fst (Incremental.tryToExpandEnd host hlI node off) = false
  /\ fst (Recompute.tryToExpandEnd host hlR node off check) = false
  /\ relatedStates host b (snd (Incremental.tryToExpandEnd host hlI node off))
       (snd (Recompute.tryToExpandEnd host hlR node off check)).
Proof.
  intros (Hrange & Hbounds & Hcache) Hoff Htwo.
  pose proof (I_end_off_band host hlI node off Hoff) as HI.
  rewrite <- Hrange in Htwo.
  destruct (R_end_two_lines host hlR node off check Htwo) as (HR & Hr).
  destruct (I_end_refused_keeps host b hlI node off HI) as (Hi & Hb).
  split; [exact HI|]. split; [exact HR|].
  split; [rewrite Hr, Hi; exact Hrange|].
  split; [exact (Hb Hbounds)|]. left. apply R_end_refused_cache. exact HR.
Qed.

Lemma start_off_line host b hlI hlR node off check :
  relatedStates host b hlI hlR ->
  offTheBand hlI (Range_getBoundingClientRect host (charRangeFrom node off)) ->
  onTwoLines host (Range_setStart (Incremental.range hlI) node off) ->
  fst (Incremental.tryToExpandStart host hlI node off) = false
  /\ fst (Recompute.tryToExpandStart host hlR node off check) = false
  /\ relatedStates host b
       (snd (Incremental.tryToExpandStart host hlI node off))
       (snd (Recompute.tryToExpandStart host hlR node off check)).
Proof.
  intros (Hrange & Hbounds & Hcache) Hoff Htwo.
  pose proof (I_start_off_band host hlI node off Hoff) as HI.
  rewrite <- Hrange in Htwo.
  destruct (R_start_two_lines host hlR node off check Htwo) as (HR & Hr).
  destruct (I_start_refused_keeps host b hlI node off HI) as (Hi & Hb).
  split; [exact HI|]. split; [exact HR|].
  split; [rewrite Hr, Hi; exact Hrange|].
  split; [exact (Hb Hbounds)|]. left. apply R_start_refused_cache. exact HR.
Qed.

Lemma wrappedLine_related (n m : nat) :
  relatedStates wrappedLine monoBand (lineAfterI n) (lineAfterR m).
Proof.
  split; [reflexivity|]. split; [|left; reflexivity].
  unfold boundsOnLine. simpl. lia.
Qed.

Lemma wrappedLine_two_lines :
  onTwoLines wrappedLine
    (Range_setEnd (Incremental.range (lineAfterI 3)) (runRef 0) 3).
Proof.
  exists (monoRect 0 2), (secondLineRect 2 3).
  split; [left; reflexivity|]. split; [right; left; reflexivity|].
  split; [reflexivity|]. split; [reflexivity|].
  vm_compute. repeat split; discriminate.
Qed.

Lemma monoLine_grownOnLine (n : nat) :
  (n < 3)%nat ->
  grownOnLine monoLine monoBand (charRange (runRef 0) 3)
    (Range_setEnd (mkRange (runRef 0) n (runRef 0) 2) (runRef 0) 3).
Proof.
  intros Hn. unfold grownOnLine, onLine. simpl.
  split; [lia|]. split.
  - intros rect [<- | []] _. simpl. lia.
  - split; lia.
Qed.

Lemma monoLine_growth (n : nat) check :
  (n < 3)%nat ->
  wellFormedGrowth monoLine monoBand (mkRange (runRef 0) n (runRef 0) 2)
    (runRef 0) 3 check.
Proof.
  intros Hn. split; [unfold tightBand; simpl; lia|].
  split; [apply monoLine_grownOnLine; exact Hn|].
  intros _. unfold rectangleGrew, rectanglesAreEqual, monoRect. simpl.
  cbn [left right top bottom]. rewrite Z.eqb_refl. reflexivity.
Qed.

Lemma monoLine_growthStart check :
  wellFormedGrowthStart monoLine monoBand (mkRange (runRef 0) 2 (runRef 0) 4)
    (runRef 0) 1 check.
Proof.
  split; [unfold tightBand; simpl; lia|]. split.
  - unfold grownOnLine, onLine. simpl.
    split; [lia|]. split.
    + intros rect [<- | []] _. simpl. lia.
    + split; lia.
  - intros _. reflexivity.
Qed.

Lemma monoLine_related (n m : nat) :
  relatedStates monoLine monoBand (lineAfterI n) (lineAfterR m).
Proof.
  split; [reflexivity|]. split; [|left; reflexivity].
  unfold boundsOnLine. simpl. lia.
Qed.

Lemma monoLine_relatedStart (n m : nat) :
  relatedStates monoLine monoBand (lineFromI n) (lineFromR m).
Proof.
  split; [reflexivity|]. split; [|left; reflexivity].
  unfold boundsOnLine. simpl. lia.
Qed.

(** C1, as stated, fails on two grounds. The budgets differ: on the
    one-line layout [monoLine], after 105 checks in both revisions, the
    106th growth is refused by the revision with running bounds (budget
    105) and accepted by the revision that recomputes (budget 115);
    from the same seed on a line of 300 letters the two revisions so
    end with different line ranges. The factors differ: on the line
    [tallLetterLine], whose tall letter makes the line 1.74 times as
    tall as its other boxes, after two checks, the growth of the end
    into the tall letter is accepted by the revision with running bounds
    (factor 1.75) and refused by the revision that recomputes (factor
    1.73). *)
Lemma C1_counterexample :
  (wellFormedGrowth monoLine monoBand (Incremental.range (lineAfterI 105))
     (runRef 0) 3 true
   /\ relatedStates monoLine monoBand (lineAfterI 105) (lineAfterR 105)
   /\ ~ heuristicsAgree monoLine (lineAfterI 105) (lineAfterR 105)
          (runRef 0) 3 true
   /\ (exists hlI hlR,
          Incremental.setHighlightLineRange (paragraph [letters 300]) monoLine
            500 Incremental.newCachedLineRange (Some (mkCaret (runRef 0) 150))
            10 = Ok hlI
          /\ Recompute.setHighlightLineRange (paragraph [letters 300])
               monoLine 500 Recompute.newCachedLineRange
               (Some (mkCaret (runRef 0) 150)) 10 = Ok hlR
          /\ Incremental.range hlI <> Recompute.range hlR))
  /\ (coreTop tallBand < coreBottom tallBand
      /\ grownOnLine tallLetterLine tallBand (charRange tallRef 1)
           (Range_setEnd (Incremental.range beforeTallI) tallRef 1)
      /\ rectangleGrew tallLetterLine (Incremental.range beforeTallI)
           (Range_setEnd (Incremental.range beforeTallI) tallRef 1)
      /\ relatedStates tallLetterLine tallBand beforeTallI beforeTallR
      /\ fst (Incremental.tryToExpandEnd tallLetterLine beforeTallI tallRef 1)
         = true
      /\ fst (Recompute.tryToExpandEnd tallLetterLine beforeTallR tallRef 1
                true) = false).
Proof.
  split.
  - split; [apply (monoLine_growth 0); lia|].
    split; [apply monoLine_related|].
    split; [unfold heuristicsAgree; vm_compute; discriminate|].
    eexists _, _.
    split; [vm_compute; reflexivity|].
    split; [vm_compute; reflexivity|].
    cbn [Incremental.range Recompute.range]. discriminate.
  - split; [reflexivity|]. split.
    { unfold grownOnLine, onLine. vm_compute.
      split; [repeat split; discriminate|]. split.
      - intros rect [<- | [<- | []]] _; repeat split; discriminate.
      - split; discriminate. }
    split; [reflexivity|]. split.
    { split; [reflexivity|]. split; [|left; reflexivity].
      unfold boundsOnLine. vm_compute. repeat split; discriminate. }
    split; vm_compute; reflexivity.
Qed.

(** C1, amended. On a well-formed single line (the boxes of the line
    share a vertical core that, scaled by 1.73, is taller than the whole
    line; the grown range reports boxes of the line and a bounding
    rectangle within the line, one that differs from the one before when
    the check of it is asked for), from states that hold the same range,
    with running bounds that are those of boxes of the line and a cache
    that is empty or up to date, each revision answers a growth by one
    character, of the end or of the start, by its budget alone: the
    revision with running bounds accepts it exactly when fewer than 105
    checks were made, the one that recomputes exactly when fewer than
    115 were. So the two give the same answer exactly when these two
    tests agree: both accept while both counters are below 105, both
    refuse once they are at 105 and 115 or more; and when they agree the
    states after the growth are again such states. A growth onto
    another line (the box of the character does not overlap the running
    bounds, and the grown range reports two boxes, one above the other,
    inside its bounding rectangle) is refused by both, at either end and
    whatever the counters, and the states after it are again such
    states. *)
Theorem C1_heuristics_agree_within_budget :
  forall host b hlI hlR node off checkRectangleGrew,
    relatedStates host b hlI hlR ->
    (wellFormedGrowth host b (Incremental.range hlI) node off
       checkRectangleGrew ->
     fst (Incremental.tryToExpandEnd host hlI node off)
     = (Incremental.linesSpannedChecks hlI <? 105)%nat
     /\ fst (Recompute.tryToExpandEnd host hlR node off checkRectangleGrew)
        = (Recompute.linesSpannedChecks hlR <? 115)%nat
     /\ (heuristicsAgree host hlI hlR node off checkRectangleGrew
         <-> (Incremental.linesSpannedChecks hlI <? 105)%nat
             = (Recompute.linesSpannedChecks hlR <? 115)%nat)
     /\ (heuristicsAgree host hlI hlR node off checkRectangleGrew ->
         relatedStates host b
           (snd (Incremental.tryToExpandEnd host hlI node off))
           (snd (Recompute.tryToExpandEnd host hlR node off
                   checkRectangleGrew))))
    /\ (wellFormedGrowthStart host b (Incremental.range hlI) node off
          checkRectangleGrew ->
        fst (Incremental.tryToExpandStart host hlI node off)
        = (Incremental.linesSpannedChecks hlI <? 105)%nat
        /\ fst (Recompute.tryToExpandStart host hlR node off
                  checkRectangleGrew)
           = (Recompute.linesSpannedChecks hlR <? 115)%nat
        /\ (heuristicsAgreeStart host hlI hlR node off checkRectangleGrew
            <-> (Incremental.linesSpannedChecks hlI <? 105)%nat
                = (Recompute.linesSpannedChecks hlR <? 115)%nat)
        /\ (heuristicsAgreeStart host hlI hlR node off checkRectangleGrew ->
            relatedStates host b
              (snd (Incremental.tryToExpandStart host hlI node off))
              (snd (Recompute.tryToExpandStart host hlR node off
                      checkRectangleGrew))))
    /\ (offTheBand hlI
          (Range_getBoundingClientRect host (charRange node off)) ->
        onTwoLines host (Range_setEnd (Incremental.range hlI) node off) ->
        fst (Incremental.tryToExpandEnd host hlI node off) = false
        /\ fst (Recompute.tryToExpandEnd host hlR node off
                  checkRectangleGrew) = false
        /\ relatedStates host b
             (snd (Incremental.tryToExpandEnd host hlI node off))
             (snd (Recompute.tryToExpandEnd host hlR node off
                     checkRectangleGrew)))
    /\ (offTheBand hlI
          (Range_getBoundingClientRect host (charRangeFrom node off)) ->
        onTwoLines host (Range_setStart (Incremental.range hlI) node off) ->
        fst (Incremental.tryToExpandStart host hlI node off) = false
        /\ fst (Recompute.tryToExpandStart host hlR node off
                  checkRectangleGrew) = false
        /\ relatedStates host b
             (snd (Incremental.tryToExpandStart host hlI node off))
             (snd (Recompute.tryToExpandStart host hlR node off
                     checkRectangleGrew))).
Proof.
  intros host b hlI hlR node off check Hrel.
  split; [|split; [|split]];
    [| | apply end_off_line; exact Hrel | apply start_off_line; exact Hrel].
  - intros Hwf.
    destruct (end_on_line host b hlI hlR node off check Hrel Hwf)
      as (HI & HR & Hafter).
    split; [exact HI|]. split; [exact HR|].
    unfold heuristicsAgree. rewrite HI, HR.
    split; [tauto | exact Hafter].
  - intros Hwf.
    destruct (start_on_line host b hlI hlR node off check Hrel Hwf)
      as (HI & HR & Hafter).
    split; [exact HI|]. split; [exact HR|].
    unfold heuristicsAgreeStart. rewrite HI, HR.
    split; [tauto | exact Hafter].
Qed.

Lemma C1_heuristics_agree_within_budget_witness :
  (heuristicsAgree monoLine (lineAfterI 3) (lineAfterR 3) (runRef 0) 3 true
   /\ fst (Incremental.tryToExpandEnd monoLine (lineAfterI 3) (runRef 0) 3)
      = true)
  /\ (heuristicsAgree monoLine (lineAfterI 120) (lineAfterR 120) (runRef 0) 3
        true
      /\ fst (Incremental.tryToExpandEnd monoLine (lineAfterI 120) (runRef 0)
                3) = false)
  /\ (heuristicsAgreeStart monoLine (lineFromI 3) (lineFromR 3) (runRef 0) 1
        false
      /\ relatedStates monoLine monoBand
           (snd (Incremental.tryToExpandStart monoLine (lineFromI 3)
                   (runRef 0) 1))
           (snd (Recompute.tryToExpandStart monoLine (lineFromR 3)
                   (runRef 0) 1 false)))
  /\ (fst (Incremental.tryToExpandEnd wrappedLine (lineAfterI 3) (runRef 0) 3)
      = false
      /\ fst (Recompute.tryToExpandEnd wrappedLine (lineAfterR 3) (runRef 0) 3
                true) = false
      /\ relatedStates wrappedLine monoBand
           (snd (Incremental.tryToExpandEnd wrappedLine (lineAfterI 3)
                   (runRef 0) 3))
           (snd (Recompute.tryToExpandEnd wrappedLine (lineAfterR 3)
                   (runRef 0) 3 true))).
Proof.
  split; [|split; [|split]].
  - destruct (proj1 (C1_heuristics_agree_within_budget monoLine monoBand
                       (lineAfterI 3) (lineAfterR 3) (runRef 0) 3%nat true
                       (monoLine_related 3 3))
                (monoLine_growth 0 true (Nat.lt_0_succ 2)))
      as (HI & _ & Hiff & _).
    split; [apply Hiff; reflexivity | exact HI].
  - destruct (proj1 (C1_heuristics_agree_within_budget monoLine monoBand
                       (lineAfterI 120) (lineAfterR 120) (runRef 0) 3%nat
                       true (monoLine_related 120 120))
                (monoLine_growth 0 true (Nat.lt_0_succ 2)))
      as (HI & _ & Hiff & _).
    split; [apply Hiff; reflexivity | exact HI].
  - destruct (proj1 (proj2 (C1_heuristics_agree_within_budget monoLine
                               monoBand (lineFromI 3) (lineFromR 3)
                               (runRef 0) 1%nat false
                               (monoLine_relatedStart 3 3)))
                (monoLine_growthStart false))
      as (_ & _ & Hiff & Hafter).
    assert (Hagree : heuristicsAgreeStart monoLine (lineFromI 3)
                       (lineFromR 3) (runRef 0) 1 false)
      by (apply Hiff; reflexivity).
    split; [exact Hagree | exact (Hafter Hagree)].
  - apply (proj1 (proj2 (proj2 (C1_heuristics_agree_within_budget wrappedLine
                                  monoBand (lineAfterI 3) (lineAfterR 3)
                                  (runRef 0) 3%nat true
                                  (wrappedLine_related 3 3))))).
    + unfold offTheBand. vm_compute. split; [discriminate|].
      right. discriminate.
    + exact wrappedLine_two_lines.
Defined.

(** * Further properties of the scripts *)

(** ** Invariants of line expansion, step by step *)

(** A family [P k] of properties of the line object, [k] counting the
    growth attempts that were refused: when every attempt keeps [P k] if
    it is accepted and gives [P (S k)] if it is refused, an update of one
    end gives [P k] when it answers [true] and [P (S k)] when it answers
    [false]. *)
Section IncrementalSteps.

Variable body : Node.
Variable host : Host.
Variable P : nat -> Incremental.CachedLineRange -> Prop.

Hypothesis P_mono : forall k hl, P k hl -> P (S k) hl.
Hypothesis P_end :
  forall k hl node off,
    P k hl ->
    if fst (Incremental.tryToExpandEnd host hl node off)
    then P k (snd (Incremental.tryToExpandEnd host hl node off))
    else P (S k) (snd (Incremental.tryToExpandEnd host hl node off)).
Hypothesis P_start :
  forall k hl node off,
    P k hl ->
    if fst (Incremental.tryToExpandStart host hl node off)
    then P k (snd (Incremental.tryToExpandStart host hl node off))
    else P (S k) (snd (Incremental.tryToExpandStart host hl node off)).

Lemma I_expandEndInNode_steps n :
  forall k hl cur off oneChar,
    P k hl ->
    match Incremental.expandEndInNode body host n hl cur off oneChar with
    | (inl false, hl') => P (S k) hl'
    | (_, hl') => P k hl'
    end.
Proof.
  induction n as [|n IH]; intros k hl cur off oneChar HP;
    cbn [Incremental.expandEndInNode]; [exact HP|].
  destruct (off <? length (textContentOf body cur))%nat; [|exact HP].
  destruct (isWhitespaceOrZeroWidth _); [apply IH; exact HP|].
  pose proof (P_end k hl cur (S off) HP) as Hstep.
  destruct (Incremental.tryToExpandEnd host hl cur (S off)) as [[|] hl1];
    cbn [fst snd negb] in *; [|exact Hstep].
  destruct oneChar; [exact Hstep | apply IH; exact Hstep].
Qed.

Lemma I_expandStartInNode_steps n :
  forall k hl cur off oneChar,
    P k hl ->
    match Incremental.expandStartInNode body host n hl cur off oneChar with
    | (inl false, hl') => P (S k) hl'
    | (_, hl') => P k hl'
    end.
Proof.
  induction n as [|n IH]; intros k hl cur off oneChar HP;
    cbn [Incremental.expandStartInNode]; [exact HP|].
  destruct (0 <? off)%nat; [|exact HP].
  destruct (isWhitespaceOrZeroWidth _); [apply IH; exact HP|].
  pose proof (P_start k hl cur (off - 1)%nat HP) as Hstep.
  destruct (Incremental.tryToExpandStart host hl cur (off - 1)) as [[|] hl1];
    cbn [fst snd negb] in *; [|exact Hstep].
  destruct oneChar; [exact Hstep | apply IH; exact Hstep].
Qed.

Lemma I_expandEndLoop_steps fuel :
  forall k hl cur off oneChar b hl',
    P k hl ->
    Incremental.expandEndLoop body host fuel hl cur off oneChar = Ok (b, hl') ->
    P (k + refusals b) hl'.
Proof.
  induction fuel as [|fuel IH]; intros k hl cur off oneChar b hl' HP Hrun;
    cbn [Incremental.expandEndLoop] in Hrun; [discriminate|].
  pose proof (I_expandEndInNode_steps
                (length (textContentOf body cur) - off) k hl cur off oneChar HP)
    as Hin.
  destruct (Incremental.expandEndInNode body host _ hl cur off oneChar)
    as [[[|] | []] hl1].
  - injection Hrun as <- <-. cbn [refusals]. rewrite Nat.add_0_r. exact Hin.
  - injection Hrun as <- <-. cbn [refusals]. rewrite Nat.add_1_r. exact Hin.
  - destruct (Incremental.findNextTextNode body (S fuel) cur) as [[next|] | |];
      cbn [bind] in Hrun; try discriminate.
    + exact (IH _ _ _ _ _ _ _ Hin Hrun).
    + injection Hrun as <- <-. cbn [refusals]. rewrite Nat.add_1_r.
      apply P_mono. exact Hin.
Qed.

Lemma I_stepToPreviousTextNode_steps fuel :
  forall k hl cur oneChar step hl',
    P k hl ->
    Incremental.stepToPreviousTextNode body host fuel hl cur oneChar
    = Ok (step, hl') ->
    match step with
    | inl false => P (S k) hl'
    | _ => P k hl'
    end.
Proof.
  induction fuel as [|fuel IH]; intros k hl cur oneChar step hl' HP Hrun;
    cbn [Incremental.stepToPreviousTextNode] in Hrun; [discriminate|].
  destruct (match previousSibling body cur with
            | Some n => Ok (Some n)
            | None =>
                match parentNode cur with
                | None => Throw
                | Some parent => Ok (Incremental.previousUncle body parent)
                end
            end) as [[prev|] | |]; cbn [bind] in Hrun; try discriminate.
  - destruct (negb (occupiesSpaceAt body prev));
      [exact (IH _ _ _ _ _ _ HP Hrun)|].
    destruct (getLastNonEmptyTextNodeAt body prev) as [last|];
      [|exact (IH _ _ _ _ _ _ HP Hrun)].
    destruct (isWhitespaceOrZeroWidth _); cbn [andb negb] in Hrun.
    + rewrite andb_false_r in Hrun. injection Hrun as <- <-. exact HP.
    + pose proof (P_start k hl last
                    (length (textContentOf body last) - 1)%nat HP) as Hstep.
      destruct (Incremental.tryToExpandStart host hl last _) as [[|] hl1];
        cbn [fst snd] in *.
      * destruct oneChar; cbn [andb] in Hrun; injection Hrun as <- <-;
          exact Hstep.
      * injection Hrun as <- <-. exact Hstep.
  - injection Hrun as <- <-. apply P_mono. exact HP.
Qed.

Lemma I_expandStartLoop_steps fuel :
  forall k hl cur off oneChar b hl',
    P k hl ->
    Incremental.expandStartLoop body host fuel hl cur off oneChar
    = Ok (b, hl') ->
    P (k + refusals b) hl'.
Proof.
  induction fuel as [|fuel IH]; intros k hl cur off oneChar b hl' HP Hrun;
    cbn [Incremental.expandStartLoop] in Hrun; [discriminate|].
  pose proof (I_expandStartInNode_steps off k hl cur off oneChar HP) as Hin.
  destruct (Incremental.expandStartInNode body host off hl cur off oneChar)
    as [[[|] | []] hl1].
  - injection Hrun as <- <-. cbn [refusals]. rewrite Nat.add_0_r. exact Hin.
  - injection Hrun as <- <-. cbn [refusals]. rewrite Nat.add_1_r. exact Hin.
  - destruct (Incremental.stepToPreviousTextNode body host (S fuel) hl1 cur
                oneChar) as [[step hl2] | |] eqn:Hstep;
      cbn [bind] in Hrun; try discriminate.
    pose proof (I_stepToPreviousTextNode_steps _ _ _ _ _ _ _ Hin Hstep) as Hs.
    destruct step as [[|] | [node o]].
    + injection Hrun as <- <-. cbn [refusals]. rewrite Nat.add_0_r. exact Hs.
    + injection Hrun as <- <-. cbn [refusals]. rewrite Nat.add_1_r. exact Hs.
    + exact (IH _ _ _ _ _ _ _ Hs Hrun).
Qed.

Lemma I_alternateEnds_steps n :
  forall fuel hl ks ke hl',
    P 0 hl ->
    Incremental.alternateEnds body host n fuel hl = Ok (ks, ke, hl') ->
    P (refusals ke + refusals ks) hl'.
Proof.
  induction n as [|n IH]; intros fuel hl ks ke hl' HP Hrun;
    cbn [Incremental.alternateEnds] in Hrun; [discriminate|].
  unfold Incremental.updateHighlightLineRangeEnd,
    Incremental.updateHighlightLineRangeStart in Hrun.
  destruct (Incremental.expandEndLoop body host fuel hl _ _ true)
    as [[e hl1] | |] eqn:He; cbn [bind] in Hrun; try discriminate.
  pose proof (I_expandEndLoop_steps _ _ _ _ _ _ _ _ HP He) as H1.
  destruct (Incremental.expandStartLoop body host fuel hl1 _ _ true)
    as [[s hl2] | |] eqn:Hs; cbn [bind] in Hrun; try discriminate.
  pose proof (I_expandStartLoop_steps _ _ _ _ _ _ _ _ H1 Hs) as H2.
  destruct s, e; cbn [andb] in Hrun.
  - exact (IH _ _ _ _ _ H2 Hrun).
  - injection Hrun as <- <- <-. exact H2.
  - injection Hrun as <- <- <-. exact H2.
  - injection Hrun as <- <- <-. exact H2.
Qed.

(** The expansion of [setHighlightLineRange], from the seed to the last
    update: at most two attempts are refused. *)
Lemma I_expansion_steps fuel hl ks ke hl1 hl2 hl3 :
  P 0 hl ->
  Incremental.alternateEnds body host fuel fuel hl = Ok (ks, ke, hl1) ->
  (if ks : bool
   then '(_, h) <- Incremental.updateHighlightLineRangeStart body host fuel
                     hl1 false ;; Ok h
   else Ok hl1) = Ok hl2 ->
  (if ke : bool
   then '(_, h) <- Incremental.updateHighlightLineRangeEnd body host fuel
                     hl2 false ;; Ok h
   else Ok hl2) = Ok hl3 ->
  P 2 hl3.
Proof.
  intros HP Halt Hs He.
  pose proof (I_alternateEnds_steps _ _ _ _ _ _ HP Halt) as H1.
  unfold Incremental.updateHighlightLineRangeStart in Hs.
  unfold Incremental.updateHighlightLineRangeEnd in He.
  assert (Hup : forall k h, P k h -> (k <= 2)%nat -> P 2 h).
  { intros k h Hk Hle. destruct k as [|[|[|k]]]; [| | |lia].
    - apply P_mono, P_mono. exact Hk.
    - apply P_mono. exact Hk.
    - exact Hk. }
  destruct ks, ke; cbn [refusals Nat.add] in H1.
  - destruct (Incremental.expandStartLoop body host fuel hl1 _ _ false)
      as [[b h] | |] eqn:E1; cbn [bind] in Hs; try discriminate.
    injection Hs as <-.
    pose proof (I_expandStartLoop_steps _ _ _ _ _ _ _ _ H1 E1) as H2.
    destruct (Incremental.expandEndLoop body host fuel h _ _ false)
      as [[b' h'] | |] eqn:E2; cbn [bind] in He; try discriminate.
    injection He as <-.
    pose proof (I_expandEndLoop_steps _ _ _ _ _ _ _ _ H2 E2) as H3.
    apply (Hup _ _ H3). destruct b, b'; cbn [refusals Nat.add]; lia.
  - destruct (Incremental.expandStartLoop body host fuel hl1 _ _ false)
      as [[b h] | |] eqn:E1; cbn [bind] in Hs; try discriminate.
    injection Hs as <-. injection He as <-.
    pose proof (I_expandStartLoop_steps _ _ _ _ _ _ _ _ H1 E1) as H2.
    apply (Hup _ _ H2). destruct b; cbn [refusals Nat.add]; lia.
  - injection Hs as <-.
    destruct (Incremental.expandEndLoop body host fuel hl1 _ _ false)
      as [[b' h'] | |] eqn:E2; cbn [bind] in He; try discriminate.
    injection He as <-.
    pose proof (I_expandEndLoop_steps _ _ _ _ _ _ _ _ H1 E2) as H3.
    apply (Hup _ _ H3). destruct b'; cbn [refusals Nat.add]; lia.
  - injection Hs as <-. injection He as <-. exact H1.
Qed.

End IncrementalSteps.

Section RecomputeSteps.

Variable body : Node.
Variable host : Host.
Variable P : nat -> Recompute.CachedLineRange -> Prop.

Hypothesis P_mono : forall k hl, P k hl -> P (S k) hl.
Hypothesis P_end :
  forall k hl node off check,
    P k hl ->
    if fst (Recompute.tryToExpandEnd host hl node off check)
    then P k (snd (Recompute.tryToExpandEnd host hl node off check))
    else P (S k) (snd (Recompute.tryToExpandEnd host hl node off check)).
Hypothesis P_start :
  forall k hl node off check,
    P k hl ->
    if fst (Recompute.tryToExpandStart host hl node off check)
    then P k (snd (Recompute.tryToExpandStart host hl node off check))
    else P (S k) (snd (Recompute.tryToExpandStart host hl node off check)).

Lemma R_expandEndInNode_steps n :
  forall k hl cur off check oneChar,
    P k hl ->
    match Recompute.expandEndInNode body host n hl cur off check oneChar with
    | (inl false, hl') => P (S k) hl'
    | (_, hl') => P k hl'
    end.
Proof.
  induction n as [|n IH]; intros k hl cur off check oneChar HP;
    cbn [Recompute.expandEndInNode]; [exact HP|].
  destruct (off <? length (textContentOf body cur))%nat; [|exact HP].
  destruct (isWhitespaceOrZeroWidth _); [apply IH; exact HP|].
  pose proof (P_end k hl cur (S off) check HP) as Hstep.
  destruct (Recompute.tryToExpandEnd host hl cur (S off) check) as [[|] hl1];
    cbn [fst snd negb] in *; [|exact Hstep].
  destruct oneChar; [exact Hstep | apply IH; exact Hstep].
Qed.

Lemma R_expandStartInNode_steps n :
  forall k hl cur off oneChar,
    P k hl ->
    match Recompute.expandStartInNode body host n hl cur off oneChar with
    | (inl false, hl') => P (S k) hl'
    | (_, hl') => P k hl'
    end.
Proof.
  induction n as [|n IH]; intros k hl cur off oneChar HP;
    cbn [Recompute.expandStartInNode]; [exact HP|].
  destruct (0 <? off)%nat; [|exact HP].
  destruct (isWhitespaceOrZeroWidth _); [apply IH; exact HP|].
  pose proof (P_start k hl cur (off - 1)%nat false HP) as Hstep.
  destruct (Recompute.tryToExpandStart host hl cur (off - 1) false)
    as [[|] hl1]; cbn [fst snd negb] in *; [|exact Hstep].
  destruct oneChar; [exact Hstep | apply IH; exact Hstep].
Qed.

Lemma R_expandEndLoop_steps fuel :
  forall k hl cur off check oneChar b hl',
    P k hl ->
    Recompute.expandEndLoop body host fuel hl cur off check oneChar
    = Ok (b, hl') ->
    P (k + refusals b) hl'.
Proof.
  induction fuel as [|fuel IH]; intros k hl cur off check oneChar b hl' HP Hrun;
    cbn [Recompute.expandEndLoop] in Hrun; [discriminate|].
  pose proof (R_expandEndInNode_steps
                (length (textContentOf body cur) - off) k hl cur off check
                oneChar HP) as Hin.
  destruct (Recompute.expandEndInNode body host _ hl cur off check oneChar)
    as [[[|] | []] hl1].
  - injection Hrun as <- <-. cbn [refusals]. rewrite Nat.add_0_r. exact Hin.
  - injection Hrun as <- <-. cbn [refusals]. rewrite Nat.add_1_r. exact Hin.
  - destruct (Recompute.findNextTextNode body (S fuel) cur) as [[next|] | |];
      cbn [bind] in Hrun; try discriminate.
    + exact (IH _ _ _ _ _ _ _ _ Hin Hrun).
    + injection Hrun as <- <-. cbn [refusals]. rewrite Nat.add_1_r.
      apply P_mono. exact Hin.
Qed.

Lemma R_stepToPreviousTextNode_steps fuel :
  forall k hl cur oneChar step hl',
    P k hl ->
    Recompute.stepToPreviousTextNode body host fuel hl cur oneChar
    = Ok (step, hl') ->
    match step with
    | inl false => P (S k) hl'
    | _ => P k hl'
    end.
Proof.
  induction fuel as [|fuel IH]; intros k hl cur oneChar step hl' HP Hrun;
    cbn [Recompute.stepToPreviousTextNode] in Hrun; [discriminate|].
  destruct (Recompute.previousNodeOf body cur) as [[prev|] | |];
    cbn [bind] in Hrun; try discriminate.
  - destruct (getLastNonEmptyTextNodeAt body prev) as [last|];
      [|exact (IH _ _ _ _ _ _ HP Hrun)].
    destruct (isWhitespaceOrZeroWidth _); cbn [andb negb] in Hrun.
    + rewrite andb_false_r in Hrun. injection Hrun as <- <-. exact HP.
    + pose proof (P_start k hl last
                    (length (textContentOf body last) - 1)%nat true HP)
        as Hstep.
      destruct (Recompute.tryToExpandStart host hl last _ true) as [[|] hl1];
        cbn [fst snd] in *.
      * destruct oneChar; cbn [andb] in Hrun; injection Hrun as <- <-;
          exact Hstep.
      * injection Hrun as <- <-. exact Hstep.
  - injection Hrun as <- <-. apply P_mono. exact HP.
Qed.

Lemma R_expandStartLoop_steps fuel :
  forall k hl cur off oneChar b hl',
    P k hl ->
    Recompute.expandStartLoop body host fuel hl cur off oneChar
    = Ok (b, hl') ->
    P (k + refusals b) hl'.
Proof.
  induction fuel as [|fuel IH]; intros k hl cur off oneChar b hl' HP Hrun;
    cbn [Recompute.expandStartLoop] in Hrun; [discriminate|].
  pose proof (R_expandStartInNode_steps off k hl cur off oneChar HP) as Hin.
  destruct (Recompute.expandStartInNode body host off hl cur off oneChar)
    as [[[|] | []] hl1].
  - injection Hrun as <- <-. cbn [refusals]. rewrite Nat.add_0_r. exact Hin.
  - injection Hrun as <- <-. cbn [refusals]. rewrite Nat.add_1_r. exact Hin.
  - destruct (Recompute.stepToPreviousTextNode body host (S fuel) hl1 cur
                oneChar) as [[step hl2] | |] eqn:Hstep;
      cbn [bind] in Hrun; try discriminate.
    pose proof (R_stepToPreviousTextNode_steps _ _ _ _ _ _ _ Hin Hstep) as Hs.
    destruct step as [[|] | [node o]].
    + injection Hrun as <- <-. cbn [refusals]. rewrite Nat.add_0_r. exact Hs.
    + injection Hrun as <- <-. cbn [refusals]. rewrite Nat.add_1_r. exact Hs.
    + exact (IH _ _ _ _ _ _ _ Hs Hrun).
Qed.

Lemma R_alternateEnds_steps n :
  forall fuel hl ks ke hl',
    P 0 hl ->
    Recompute.alternateEnds body host n fuel hl = Ok (ks, ke, hl') ->
    P (refusals ke + refusals ks) hl'.
Proof.
  induction n as [|n IH]; intros fuel hl ks ke hl' HP Hrun;
    cbn [Recompute.alternateEnds] in Hrun; [discriminate|].
  unfold Recompute.updateHighlightLineRangeEnd,
    Recompute.updateHighlightLineRangeStart in Hrun.
  destruct (Recompute.expandEndLoop body host fuel hl _ _ false true)
    as [[e hl1] | |] eqn:He; cbn [bind] in Hrun; try discriminate.
  pose proof (R_expandEndLoop_steps _ _ _ _ _ _ _ _ _ HP He) as H1.
  destruct (Recompute.expandStartLoop body host fuel hl1 _ _ true)
    as [[s hl2] | |] eqn:Hs; cbn [bind] in Hrun; try discriminate.
  pose proof (R_expandStartLoop_steps _ _ _ _ _ _ _ _ H1 Hs) as H2.
  destruct s, e; cbn [andb] in Hrun.
  - exact (IH _ _ _ _ _ H2 Hrun).
  - injection Hrun as <- <- <-. exact H2.
  - injection Hrun as <- <- <-. exact H2.
  - injection Hrun as <- <- <-. exact H2.
Qed.

Lemma R_expansion_steps fuel hl ks ke hl1 hl2 hl3 :
  P 0 hl ->
  Recompute.alternateEnds body host fuel fuel hl = Ok (ks, ke, hl1) ->
  (if ks : bool
   then '(_, h) <- Recompute.updateHighlightLineRangeStart body host fuel
                     hl1 false ;; Ok h
   else Ok hl1) = Ok hl2 ->
  (if ke : bool
   then '(_, h) <- Recompute.updateHighlightLineRangeEnd body host fuel
                     hl2 false ;; Ok h
   else Ok hl2) = Ok hl3 ->
  P 2 hl3.
Proof.
  intros HP Halt Hs He.
  pose proof (R_alternateEnds_steps _ _ _ _ _ _ HP Halt) as H1.
  unfold Recompute.updateHighlightLineRangeStart in Hs.
  unfold Recompute.updateHighlightLineRangeEnd in He.
  assert (Hup : forall k h, P k h -> (k <= 2)%nat -> P 2 h).
  { intros k h Hk Hle. destruct k as [|[|[|k]]]; [| | |lia].
    - apply P_mono, P_mono. exact Hk.
    - apply P_mono. exact Hk.
    - exact Hk. }
  destruct ks, ke; cbn [refusals Nat.add] in H1.
  - destruct (Recompute.expandStartLoop body host fuel hl1 _ _ false)
      as [[b h] | |] eqn:E1; cbn [bind] in Hs; try discriminate.
    injection Hs as <-.
    pose proof (R_expandStartLoop_steps _ _ _ _ _ _ _ _ H1 E1) as H2.
    destruct (Recompute.expandEndLoop body host fuel h _ _ false false)
      as [[b' h'] | |] eqn:E2; cbn [bind] in He; try discriminate.
    injection He as <-.
    pose proof (R_expandEndLoop_steps _ _ _ _ _ _ _ _ _ H2 E2) as H3.
    apply (Hup _ _ H3). destruct b, b'; cbn [refusals Nat.add]; lia.
  - destruct (Recompute.expandStartLoop body host fuel hl1 _ _ false)
      as [[b h] | |] eqn:E1; cbn [bind] in Hs; try discriminate.
    injection Hs as <-. injection He as <-.
    pose proof (R_expandStartLoop_steps _ _ _ _ _ _ _ _ H1 E1) as H2.
    apply (Hup _ _ H2). destruct b; cbn [refusals Nat.add]; lia.
  - injection Hs as <-.
    destruct (Recompute.expandEndLoop body host fuel hl1 _ _ false false)
      as [[b' h'] | |] eqn:E2; cbn [bind] in He; try discriminate.
    injection He as <-.
    pose proof (R_expandEndLoop_steps _ _ _ _ _ _ _ _ _ H1 E2) as H3.
    apply (Hup _ _ H3). destruct b'; cbn [refusals Nat.add]; lia.
  - injection Hs as <-. injection He as <-. exact H1.
Qed.

End RecomputeSteps.

(** ** One growth attempt *)

Lemma I_tryToExpandEnd_facts (host : Host) hl node off :
  Incremental.probeLog (snd (Incremental.tryToExpandEnd host hl node off))
  = (node, (off - 1)%nat) :: Incremental.probeLog hl
  /\ Incremental.linesSpannedChecks
       (snd (Incremental.tryToExpandEnd host hl node off))
     = S (Incremental.linesSpannedChecks hl)
  /\ (fst (Incremental.tryToExpandEnd host hl node off) = true ->
      (S (Incremental.linesSpannedChecks hl)
       <= Incremental.MAX_LINES_SPANNED_CHECKS)%nat).
Proof.
  unfold Incremental.tryToExpandEnd.
  destruct (Incremental.MAX_LINES_SPANNED_CHECKS
            <? S (Incremental.linesSpannedChecks hl))%nat eqn:Hmax.
  - repeat split. discriminate.
  - apply Nat.ltb_ge in Hmax.
    destruct (Incremental.sameLineCheck hl _) as [[[nt nb] mh] [|]];
      repeat split; intros; assumption.
Qed.

Lemma I_tryToExpandStart_facts (host : Host) hl node off :
  Incremental.probeLog (snd (Incremental.tryToExpandStart host hl node off))
  = (node, off) :: Incremental.probeLog hl
  /\ Incremental.linesSpannedChecks
       (snd (Incremental.tryToExpandStart host hl node off))
     = S (Incremental.linesSpannedChecks hl)
  /\ (fst (Incremental.tryToExpandStart host hl node off) = true ->
      (S (Incremental.linesSpannedChecks hl)
       <= Incremental.MAX_LINES_SPANNED_CHECKS)%nat).
Proof.
  unfold Incremental.tryToExpandStart.
  destruct (Incremental.MAX_LINES_SPANNED_CHECKS
            <? S (Incremental.linesSpannedChecks hl))%nat eqn:Hmax.
  - repeat split. discriminate.
  - apply Nat.ltb_ge in Hmax.
    destruct (Incremental.sameLineCheck hl _) as [[[nt nb] mh] [|]];
      repeat split; intros; assumption.
Qed.

(** The cases of a line resolution that returns, on a position in a
    text node: the vertical check fails, the seed has several
    rectangles, or both ends are expanded and the result is kept or
    collapsed. *)
Lemma I_setHighlightLineRange_cases body host fuel hl cp mouseY hl' :
  Incremental.setHighlightLineRange body host fuel hl (Some cp) mouseY
  = Ok hl' ->
  isTextNode body (Some (offsetNode cp)) = true ->
  let seed := Incremental.withRange hl (seedRange body cp) in
  let lineRect := Range_getBoundingClientRect host (seedRange body cp) in
  textContentOf body (offsetNode cp) <> []
  /\ ((~ seedOnLine host (seedRange body cp) mouseY
       /\ hl' = Incremental.collapse seed)
      \/ (seedOnLine host (seedRange body cp) mouseY
          /\ Incremental.hasMoreThanOne
               (Range_getClientRects host (seedRange body cp)) = true
          /\ hl' = Incremental.collapse
                     (Incremental.setInitialRect seed lineRect))
      \/ (seedOnLine host (seedRange body cp) mouseY
          /\ Incremental.hasMoreThanOne
               (Range_getClientRects host (seedRange body cp)) = false
          /\ exists ks ke hl1 hl2 hl3,
               Incremental.alternateEnds body host fuel fuel
                 (Incremental.setInitialRect seed lineRect)
               = Ok (ks, ke, hl1)
               /\ (if ks : bool
                   then '(_, h) <-
                          Incremental.updateHighlightLineRangeStart body host
                            fuel hl1 false ;; Ok h
                   else Ok hl1) = Ok hl2
               /\ (if ke : bool
                   then '(_, h) <-
                          Incremental.updateHighlightLineRangeEnd body host
                            fuel hl2 false ;; Ok h
                   else Ok hl2) = Ok hl3
               /\ (hl' = hl3 \/ hl' = Incremental.collapse hl3))).
Proof.
  intros Hrun Htext seed lineRect.
  unfold Incremental.setHighlightLineRange in Hrun.
  rewrite Htext in Hrun. cbn [negb] in Hrun.
  destruct (length (textContentOf body (offsetNode cp)) =? 0)%nat eqn:Hlen;
    [discriminate|].
  split.
  { intros E. rewrite E in Hlen. discriminate. }
  change (Incremental.withRange hl
            (Range_setEnd
               (Range_setStart (Incremental.range hl) (offsetNode cp)
                  (Nat.min (offset cp)
                     (length (textContentOf body (offsetNode cp)) - 1)))
               (offsetNode cp)
               (S (Nat.min (offset cp)
                     (length (textContentOf body (offsetNode cp)) - 1)))))
    with seed in Hrun.
  change (Incremental.range seed) with (seedRange body cp) in Hrun.
  fold lineRect in Hrun.
  destruct ((height lineRect =? 0) || (mouseY <? top lineRect)
            || (bottom lineRect <? mouseY)) eqn:Hcheck.
  - left. injection Hrun as <-. split; [|reflexivity].
    intros (H1 & H2 & H3). fold lineRect in H1, H2, H3.
    apply orb_true_iff in Hcheck. destruct Hcheck as [Hcheck | Hcheck].
    + apply orb_true_iff in Hcheck. destruct Hcheck as [Hcheck | Hcheck].
      * apply Z.eqb_eq in Hcheck. contradiction.
      * apply Z.ltb_lt in Hcheck. lia.
    + apply Z.ltb_lt in Hcheck. lia.
  - assert (Hseed : seedOnLine host (seedRange body cp) mouseY).
    { apply orb_false_iff in Hcheck. destruct Hcheck as [Hcheck H3].
      apply orb_false_iff in Hcheck. destruct Hcheck as [H1 H2].
      apply Z.eqb_neq in H1. apply Z.ltb_ge in H2. apply Z.ltb_ge in H3.
      repeat split; assumption. }
    right.
    change (Incremental.range (Incremental.setInitialRect seed lineRect))
      with (seedRange body cp) in Hrun.
    destruct (Incremental.hasMoreThanOne _) eqn:Hmore.
    + left. injection Hrun as <-. split; [exact Hseed | split; reflexivity].
    + right. split; [exact Hseed|]. split; [reflexivity|].
      destruct (Incremental.alternateEnds body host fuel fuel _)
        as [[[ks ke] hl1] | |]; cbn [bind] in Hrun; try discriminate.
      exists ks, ke, hl1.
      match type of Hrun with
      | bind ?e _ = _ => destruct e as [hl2 | |] eqn:E2
      end; cbn [bind] in Hrun; try discriminate.
      match type of Hrun with
      | bind ?e _ = _ => destruct e as [hl3 | |] eqn:E3
      end; cbn [bind] in Hrun; try discriminate.
      exists hl2, hl3. split; [reflexivity|]. split; [reflexivity|].
      split; [exact E3|].
      match type of Hrun with
      | (if ?c then _ else _) = _ => destruct c
      end; injection Hrun as <-; [right | left]; reflexivity.
Qed.

Lemma R_setHighlightLineRange_cases body host fuel hl cp mouseY hl' :
  Recompute.setHighlightLineRange body host fuel hl (Some cp) mouseY
  = Ok hl' ->
  isTextNode body (Some (offsetNode cp)) = true ->
  let seed := seedLine host body hl cp in
  textContentOf body (offsetNode cp) <> []
  /\ ((~ seedOnLine host (seedRange body cp) mouseY
       /\ hl' = Recompute.collapse seed)
      \/ (seedOnLine host (seedRange body cp) mouseY
          /\ (1 < length (Range_getClientRects host (seedRange body cp)))%nat
          /\ hl' = Recompute.collapse seed)
      \/ (seedOnLine host (seedRange body cp) mouseY
          /\ (length (Range_getClientRects host (seedRange body cp)) <= 1)%nat
          /\ exists ks ke hl1 hl2 hl3,
               Recompute.alternateEnds body host fuel fuel
                 (Recompute.resetLinesSpannedChecksCount seed)
               = Ok (ks, ke, hl1)
               /\ (if ks : bool
                   then '(_, h) <-
                          Recompute.updateHighlightLineRangeStart body host
                            fuel hl1 false ;; Ok h
                   else Ok hl1) = Ok hl2
               /\ (if ke : bool
                   then '(_, h) <-
                          Recompute.updateHighlightLineRangeEnd body host
                            fuel hl2 false ;; Ok h
                   else Ok hl2) = Ok hl3
               /\ (hl' = hl3 \/ hl' = Recompute.collapse hl3))).
Proof.
  intros Hrun Htext seed.
  unfold Recompute.setHighlightLineRange in Hrun.
  rewrite Htext in Hrun. cbn [negb] in Hrun.
  destruct (length (textContentOf body (offsetNode cp)) =? 0)%nat eqn:Hlen;
    [discriminate|].
  split.
  { intros E. rewrite E in Hlen. discriminate. }
  unfold Recompute.getBoundingClientRect in Hrun.
  cbn [Recompute.setEnd Recompute.setStart Recompute.withRange
       Recompute.invalidateBoundingClientRectangle
       Recompute.boundingClientRect Recompute.range
       Recompute.linesSpannedChecks Recompute.probeLog] in Hrun.
  change (Range_setEnd
            (Range_setStart (Recompute.range hl) (offsetNode cp)
               (Nat.min (offset cp)
                  (length (textContentOf body (offsetNode cp)) - 1)))
            (offsetNode cp)
            (S (Nat.min (offset cp)
                  (length (textContentOf body (offsetNode cp)) - 1))))
    with (seedRange body cp) in Hrun.
  change {| Recompute.range := seedRange body cp;
            Recompute.boundingClientRect :=
              Some (Range_getBoundingClientRect host (seedRange body cp));
            Recompute.linesSpannedChecks := Recompute.linesSpannedChecks hl;
            Recompute.probeLog := Recompute.probeLog hl |}
    with seed in Hrun.
  set (lineRect := Range_getBoundingClientRect host (seedRange body cp)) in *.
  destruct ((height lineRect =? 0) || (mouseY <? top lineRect)
            || (bottom lineRect <? mouseY)) eqn:Hcheck.
  - left. injection Hrun as <-. split; [|reflexivity].
    intros (H1 & H2 & H3). fold lineRect in H1, H2, H3.
    apply orb_true_iff in Hcheck. destruct Hcheck as [Hcheck | Hcheck].
    + apply orb_true_iff in Hcheck. destruct Hcheck as [Hcheck | Hcheck].
      * apply Z.eqb_eq in Hcheck. contradiction.
      * apply Z.ltb_lt in Hcheck. lia.
    + apply Z.ltb_lt in Hcheck. lia.
  - assert (Hseed : seedOnLine host (seedRange body cp) mouseY).
    { apply orb_false_iff in Hcheck. destruct Hcheck as [Hcheck H3].
      apply orb_false_iff in Hcheck. destruct Hcheck as [H1 H2].
      apply Z.eqb_neq in H1. apply Z.ltb_ge in H2. apply Z.ltb_ge in H3.
      repeat split; assumption. }
    right.
    change (Recompute.range seed) with (seedRange body cp) in Hrun.
    destruct (1 <? length (Range_getClientRects host (seedRange body cp)))%nat
      eqn:Hmore.
    + left. injection Hrun as <-. apply Nat.ltb_lt in Hmore.
      split; [exact Hseed | split; [exact Hmore | reflexivity]].
    + right. apply Nat.ltb_ge in Hmore.
      split; [exact Hseed|]. split; [exact Hmore|].
      destruct (Recompute.alternateEnds body host fuel fuel _)
        as [[[ks ke] hl1] | |]; cbn [bind] in Hrun; try discriminate.
      exists ks, ke, hl1.
      match type of Hrun with
      | bind ?e _ = _ => destruct e as [hl2 | |] eqn:E2
      end; cbn [bind] in Hrun; try discriminate.
      match type of Hrun with
      | bind ?e _ = _ => destruct e as [hl3 | |] eqn:E3
      end; cbn [bind] in Hrun; try discriminate.
      exists hl2, hl3. split; [reflexivity|]. split; [reflexivity|].
      split; [exact E3|].
      match type of Hrun with
      | (if ?c then _ else _) = _ => destruct c
      end; injection Hrun as <-; [right | left]; reflexivity.
Qed.

(** ** The cached bounding rectangle *)

Section CacheFacts.

Variable host : Host.

Lemma R_getBoundingClientRect_coherent hl :
  cacheCoherent host hl ->
  fst (Recompute.getBoundingClientRect host hl)
  = Range_getBoundingClientRect host (Recompute.range hl)
  /\ Recompute.boundingClientRect
       (snd (Recompute.getBoundingClientRect host hl))
     = Some (Range_getBoundingClientRect host (Recompute.range hl)).
Proof.
  intros [Hc | Hc]; unfold Recompute.getBoundingClientRect; rewrite Hc;
    split; first [reflexivity | exact Hc].
Qed.

Lemma cacheCoherent_fields hl hl' :
  Recompute.range hl' = Recompute.range hl ->
  Recompute.boundingClientRect hl' = Recompute.boundingClientRect hl ->
  cacheCoherent host hl -> cacheCoherent host hl'.
Proof.
  intros Hr Hb [Hc | Hc]; [left | right]; rewrite Hb, ?Hr; exact Hc.
Qed.

Lemma R_getBoundingClientRect_keeps hl :
  cacheCoherent host hl ->
  cacheCoherent host (snd (Recompute.getBoundingClientRect host hl)).
Proof.
  intros Hc. right.
  destruct (R_getBoundingClientRect_coherent hl Hc) as [_ ->].
  pose proof (f_equal v_range (R_getBoundingClientRect_view host hl)) as Hr.
  cbn [viewR v_range] in Hr. rewrite Hr. reflexivity.
Qed.

Lemma R_spansMultipleLines_coherent hl :
  cacheCoherent host hl ->
  cacheCoherent host (snd (Recompute.spansMultipleLines host hl)).
Proof.
  intros Hc. unfold Recompute.spansMultipleLines.
  destruct (Recompute.MAX_LINES_SPANNED_CHECKS
            <? S (Recompute.linesSpannedChecks hl))%nat;
    [exact (cacheCoherent_fields hl _ eq_refl eq_refl Hc)|].
  destruct (length _ <? 2)%nat;
    [exact (cacheCoherent_fields hl _ eq_refl eq_refl Hc)|].
  match goal with
  | |- context [Recompute.getBoundingClientRect host ?h] =>
      pose proof (R_getBoundingClientRect_keeps h
                    (cacheCoherent_fields hl h eq_refl eq_refl Hc)) as Hk;
      destruct (Recompute.getBoundingClientRect host h) as [rect h']
  end.
  exact Hk.
Qed.

Lemma R_didNothingOrSpansLines_coherent hl prevRect :
  cacheCoherent host hl ->
  cacheCoherent host
    (snd (Recompute.didNothingOrSpansLines host hl prevRect)).
Proof.
  intros Hc. unfold Recompute.didNothingOrSpansLines.
  destruct prevRect as [prev|]; [|apply R_spansMultipleLines_coherent, Hc].
  pose proof (R_getBoundingClientRect_keeps hl Hc) as Hk.
  destruct (Recompute.getBoundingClientRect host hl) as [rect h'].
  cbn [snd] in Hk.
  destruct (rectanglesAreEqual prev rect);
    [exact Hk | apply R_spansMultipleLines_coherent, Hk].
Qed.

(** One growth attempt of the end: the probe is logged, the counter
    grows by at most one and by one when the attempt is accepted, within
    the budget; the end is moved or the range is as it was; and the
    cache is empty or up to date afterwards. *)
Lemma R_tryToExpandEnd_facts hl node off check :
  Recompute.probeLog (snd (Recompute.tryToExpandEnd host hl node off check))
  = (node, (off - 1)%nat) :: Recompute.probeLog hl
  /\ (Recompute.linesSpannedChecks hl
      <= Recompute.linesSpannedChecks
           (snd (Recompute.tryToExpandEnd host hl node off check))
      <= S (Recompute.linesSpannedChecks hl))%nat
  /\ (fst (Recompute.tryToExpandEnd host hl node off check) = true ->
      (Recompute.linesSpannedChecks hl
       < Recompute.linesSpannedChecks
           (snd (Recompute.tryToExpandEnd host hl node off check))
       <= Recompute.MAX_LINES_SPANNED_CHECKS)%nat
      /\ Recompute.range (snd (Recompute.tryToExpandEnd host hl node off check))
         = Range_setEnd (Recompute.range hl) node off)
  /\ (fst (Recompute.tryToExpandEnd host hl node off check) = false ->
      Recompute.range (snd (Recompute.tryToExpandEnd host hl node off check))
      = Recompute.range hl)
  /\ cacheCoherent host
       (snd (Recompute.tryToExpandEnd host hl node off check)).
Proof.
  unfold Recompute.tryToExpandEnd.
  set (hl0 := Recompute.logProbe hl node (off - 1)).
  pose proof (R_previousRect_view host hl0 check) as Hv1.
  destruct (Recompute.previousRect host hl0 check) as [prevRect hl1].
  view_fields Hv1.
  pose proof (R_didNothingOrSpansLines_view host
                (Recompute.setEnd hl1 node off) prevRect) as Hv2.
  pose proof (R_didNothingOrSpansLines_coherent
                (Recompute.setEnd hl1 node off) prevRect
                (or_introl eq_refl)) as Hcoh.
  destruct (Recompute.didNothingOrSpansLines host
              (Recompute.setEnd hl1 node off) prevRect) as [reject hl3].
  cbn [fst snd] in Hv2, Hcoh. destruct Hv2 as (V1 & V2 & V3 & V4).
  cbn [viewR v_range v_checks v_log Recompute.setEnd Recompute.withRange
       Recompute.invalidateBoundingClientRectangle Recompute.range
       Recompute.linesSpannedChecks Recompute.probeLog] in V1, V2, V3, V4.
  destruct reject; cbn [fst snd Recompute.setEnd Recompute.withRange
       Recompute.invalidateBoundingClientRectangle Recompute.range
       Recompute.linesSpannedChecks Recompute.probeLog].
  - split; [rewrite V2; exact Elog|]. split; [lia|].
    split; [discriminate|]. split; [|left; reflexivity].
    intros _. rewrite V1, Erange. apply Range_setEnd_back.
  - specialize (V4 eq_refl).
    split; [rewrite V2; exact Elog|]. split; [lia|].
    split; [|split; [discriminate | exact Hcoh]].
    intros _. split; [unfold Recompute.MAX_LINES_SPANNED_CHECKS in *; lia|].
    rewrite V1, Erange. reflexivity.
Qed.

Lemma R_tryToExpandStart_facts hl node off check :
  Recompute.probeLog (snd (Recompute.tryToExpandStart host hl node off check))
  = (node, off) :: Recompute.probeLog hl
  /\ (Recompute.linesSpannedChecks hl
      <= Recompute.linesSpannedChecks
           (snd (Recompute.tryToExpandStart host hl node off check))
      <= S (Recompute.linesSpannedChecks hl))%nat
  /\ (fst (Recompute.tryToExpandStart host hl node off check) = true ->
      (Recompute.linesSpannedChecks hl
       < Recompute.linesSpannedChecks
           (snd (Recompute.tryToExpandStart host hl node off check))
       <= Recompute.MAX_LINES_SPANNED_CHECKS)%nat
      /\ Recompute.range
           (snd (Recompute.tryToExpandStart host hl node off check))
         = Range_setStart (Recompute.range hl) node off)
  /\ (fst (Recompute.tryToExpandStart host hl node off check) = false ->
      Recompute.range (snd (Recompute.tryToExpandStart host hl node off check))
      = Recompute.range hl)
  /\ cacheCoherent host
       (snd (Recompute.tryToExpandStart host hl node off check)).
Proof.
  unfold Recompute.tryToExpandStart.
  set (hl0 := Recompute.logProbe hl node off).
  pose proof (R_previousRect_view host hl0 check) as Hv1.
  destruct (Recompute.previousRect host hl0 check) as [prevRect hl1].
  view_fields Hv1.
  pose proof (R_didNothingOrSpansLines_view host
                (Recompute.setStart hl1 node off) prevRect) as Hv2.
  pose proof (R_didNothingOrSpansLines_coherent
                (Recompute.setStart hl1 node off) prevRect
                (or_introl eq_refl)) as Hcoh.
  destruct (Recompute.didNothingOrSpansLines host
              (Recompute.setStart hl1 node off) prevRect) as [reject hl3].
  cbn [fst snd] in Hv2, Hcoh. destruct Hv2 as (V1 & V2 & V3 & V4).
  cbn [viewR v_range v_checks v_log Recompute.setStart Recompute.withRange
       Recompute.invalidateBoundingClientRectangle Recompute.range
       Recompute.linesSpannedChecks Recompute.probeLog] in V1, V2, V3, V4.
  destruct reject; cbn [fst snd Recompute.setStart Recompute.withRange
       Recompute.invalidateBoundingClientRectangle Recompute.range
       Recompute.linesSpannedChecks Recompute.probeLog].
  - split; [rewrite V2; exact Elog|]. split; [lia|].
    split; [discriminate|]. split; [|left; reflexivity].
    intros _. rewrite V1, Erange. apply Range_setStart_back.
  - specialize (V4 eq_refl).
    split; [rewrite V2; exact Elog|]. split; [lia|].
    split; [|split; [discriminate | exact Hcoh]].
    intros _. split; [unfold Recompute.MAX_LINES_SPANNED_CHECKS in *; lia|].
    rewrite V1, Erange. reflexivity.
Qed.

End CacheFacts.

(** ** The number of growth attempts of one line resolution *)

Section ProbeCount.

Variable body : Node.
Variable host : Host.

Lemma I_probes_bounded fuel hl caretPosition mouseY hl' :
  Incremental.setHighlightLineRange body host fuel hl caretPosition mouseY
  = Ok hl' ->
  probedAtMostI (Incremental.MAX_LINES_SPANNED_CHECKS + 2) hl hl'.
Proof.
  intros Hrun.
  assert (Hsame : forall h, Incremental.probeLog h = Incremental.probeLog hl ->
                            probedAtMostI
                              (Incremental.MAX_LINES_SPANNED_CHECKS + 2) hl h).
  { intros h Hh. exists []. split; [exact Hh | simpl; lia]. }
  destruct caretPosition as [cp|];
    [|injection Hrun as <-; apply Hsame; reflexivity].
  destruct (isTextNode body (Some (offsetNode cp))) eqn:Htext.
  2:{ unfold Incremental.setHighlightLineRange in Hrun.
      rewrite Htext in Hrun. injection Hrun as <-. apply Hsame. reflexivity. }
  destruct (I_setHighlightLineRange_cases _ _ _ _ _ _ _ Hrun Htext)
    as (_ & [(_ & ->) | [(_ & _ & ->) | (_ & _ & Hexp)]]);
    [apply Hsame; reflexivity | apply Hsame; reflexivity |].
  destruct Hexp as (ks & ke & hl1 & hl2 & hl3 & Halt & Hs & He & Hres).
  set (P := fun (k : nat) (h : Incremental.CachedLineRange) =>
              exists new,
                Incremental.probeLog h = new ++ Incremental.probeLog hl
                /\ (length new
                    <= Nat.min (Incremental.linesSpannedChecks h)
                         Incremental.MAX_LINES_SPANNED_CHECKS + k)%nat).
  assert (H3 : P 2%nat hl3).
  { apply (I_expansion_steps body host P) with (5 := Halt) (6 := Hs) (7 := He).
    - intros k h (new & Hn & Hl). exists new. split; [exact Hn | lia].
    - intros k h node off (new & Hn & Hl).
      destruct (I_tryToExpandEnd_facts host h node off) as (F1 & F2 & F3).
      destruct (fst (Incremental.tryToExpandEnd host h node off)).
      + specialize (F3 eq_refl). exists ((node, (off - 1)%nat) :: new).
        rewrite F1, F2, Hn. split; [reflexivity | cbn [length]; lia].
      + exists ((node, (off - 1)%nat) :: new).
        rewrite F1, F2, Hn. split; [reflexivity | cbn [length]; lia].
    - intros k h node off (new & Hn & Hl).
      destruct (I_tryToExpandStart_facts host h node off) as (F1 & F2 & F3).
      destruct (fst (Incremental.tryToExpandStart host h node off)).
      + specialize (F3 eq_refl). exists ((node, off) :: new).
        rewrite F1, F2, Hn. split; [reflexivity | cbn [length]; lia].
      + exists ((node, off) :: new).
        rewrite F1, F2, Hn. split; [reflexivity | cbn [length]; lia].
    - exists []. split; [reflexivity | cbn [length]; lia]. }
  destruct H3 as (new & Hn & Hl).
  exists new. split; [|lia].
  destruct Hres as [-> | ->]; exact Hn.
Qed.

Lemma R_probes_bounded fuel hl caretPosition mouseY hl' :
  Recompute.setHighlightLineRange body host fuel hl caretPosition mouseY
  = Ok hl' ->
  probedAtMostR (Recompute.MAX_LINES_SPANNED_CHECKS + 2) hl hl'.
Proof.
  intros Hrun.
  assert (Hsame : forall h, Recompute.probeLog h = Recompute.probeLog hl ->
                            probedAtMostR
                              (Recompute.MAX_LINES_SPANNED_CHECKS + 2) hl h).
  { intros h Hh. exists []. split; [exact Hh | simpl; lia]. }
  destruct caretPosition as [cp|];
    [|injection Hrun as <-; apply Hsame; reflexivity].
  destruct (isTextNode body (Some (offsetNode cp))) eqn:Htext.
  2:{ unfold Recompute.setHighlightLineRange in Hrun.
      rewrite Htext in Hrun. injection Hrun as <-. apply Hsame. reflexivity. }
  destruct (R_setHighlightLineRange_cases _ _ _ _ _ _ _ Hrun Htext)
    as (_ & [(_ & ->) | [(_ & _ & ->) | (_ & _ & Hexp)]]);
    [apply Hsame; reflexivity | apply Hsame; reflexivity |].
  destruct Hexp as (ks & ke & hl1 & hl2 & hl3 & Halt & Hs & He & Hres).
  set (P := fun (k : nat) (h : Recompute.CachedLineRange) =>
              exists new,
                Recompute.probeLog h = new ++ Recompute.probeLog hl
                /\ (length new
                    <= Nat.min (Recompute.linesSpannedChecks h)
                         Recompute.MAX_LINES_SPANNED_CHECKS + k)%nat).
  assert (H3 : P 2%nat hl3).
  { apply (R_expansion_steps body host P) with (5 := Halt) (6 := Hs) (7 := He).
    - intros k h (new & Hn & Hl). exists new. split; [exact Hn | lia].
    - intros k h node off check (new & Hn & Hl).
      destruct (R_tryToExpandEnd_facts host h node off check)
        as (F1 & F2 & F3 & _).
      destruct (fst (Recompute.tryToExpandEnd host h node off check)).
      + destruct (F3 eq_refl) as [F4 _]. exists ((node, (off - 1)%nat) :: new).
        rewrite F1, Hn. split; [reflexivity | cbn [length]; lia].
      + exists ((node, (off - 1)%nat) :: new).
        rewrite F1, Hn. split; [reflexivity | cbn [length]; lia].
    - intros k h node off check (new & Hn & Hl).
      destruct (R_tryToExpandStart_facts host h node off check)
        as (F1 & F2 & F3 & _).
      destruct (fst (Recompute.tryToExpandStart host h node off check)).
      + destruct (F3 eq_refl) as [F4 _]. exists ((node, off) :: new).
        rewrite F1, Hn. split; [reflexivity | cbn [length]; lia].
      + exists ((node, off) :: new).
        rewrite F1, Hn. split; [reflexivity | cbn [length]; lia].
    - exists []. split; [reflexivity | cbn [length]; lia]. }
  destruct H3 as (new & Hn & Hl).
  exists new. split; [|lia].
  destruct Hres as [-> | ->]; exact Hn.
Qed.

End ProbeCount.

(** X1. One line resolution hands at most budget + 2 characters to
    the single-line heuristic (107 in the revision with running bounds,
    117 in the one that recomputes), whatever the document, the layout
    and the state it starts from: the budget of accepted characters and
    one refused attempt for each end. On a line of 300 letters both
    bounds are reached. *)
Theorem line_resolution_probes_bounded :
  (forall body host fuel hl caretPosition mouseY hl',
      Incremental.setHighlightLineRange body host fuel hl caretPosition
        mouseY = Ok hl' ->
      probedAtMostI 107 hl hl')
  /\ (forall body host fuel hl caretPosition mouseY hl',
         Recompute.setHighlightLineRange body host fuel hl caretPosition
           mouseY = Ok hl' ->
         probedAtMostR 117 hl hl')
  /\ (exists hl',
         Incremental.setHighlightLineRange (paragraph [letters 300]) monoLine
           500 Incremental.newCachedLineRange (Some (mkCaret (runRef 0) 150))
           10 = Ok hl'
         /\ length (Incremental.probeLog hl') = 107%nat)
  /\ (exists hl',
         Recompute.setHighlightLineRange (paragraph [letters 300]) monoLine
           500 Recompute.newCachedLineRange (Some (mkCaret (runRef 0) 150))
           10 = Ok hl'
         /\ length (Recompute.probeLog hl') = 117%nat).
Proof.
  split; [|split; [|split]].
  - intros body host fuel hl caretPosition mouseY hl' Hrun.
    exact (I_probes_bounded body host fuel hl caretPosition mouseY hl' Hrun).
  - intros body host fuel hl caretPosition mouseY hl' Hrun.
    exact (R_probes_bounded body host fuel hl caretPosition mouseY hl' Hrun).
  - eexists. split; [vm_compute; reflexivity | vm_compute; reflexivity].
  - eexists. split; [vm_compute; reflexivity | vm_compute; reflexivity].
Qed.

Lemma line_resolution_probes_bounded_witness :
  (exists hl',
      Incremental.setHighlightLineRange (paragraph [run "ab cd"]) monoLine 200
        Incremental.newCachedLineRange (Some (mkCaret (runRef 0) 1)) 10
      = Ok hl'
      /\ probedAtMostI 107 Incremental.newCachedLineRange hl')
  /\ (exists hl',
         Recompute.setHighlightLineRange (paragraph [run "ab cd"]) monoLine
           200 Recompute.newCachedLineRange (Some (mkCaret (runRef 0) 1)) 10
         = Ok hl'
         /\ probedAtMostR 117 Recompute.newCachedLineRange hl').
Proof.
  split.
  - eexists. split; [vm_compute; reflexivity|].
    apply (proj1 line_resolution_probes_bounded (paragraph [run "ab cd"])
             monoLine 200%nat Incremental.newCachedLineRange
             (Some (mkCaret (runRef 0) 1)) 10).
    vm_compute. reflexivity.
  - eexists. split; [vm_compute; reflexivity|].
    apply (proj1 (proj2 line_resolution_probes_bounded)
             (paragraph [run "ab cd"]) monoLine 200%nat
             Recompute.newCachedLineRange (Some (mkCaret (runRef 0) 1)) 10).
    vm_compute. reflexivity.
Defined.

(** ** A growth attempt is all or nothing *)

Lemma I_tryToExpandEnd_atomic (host : Host) hl node off :
  if fst (Incremental.tryToExpandEnd host hl node off)
  then Incremental.range (snd (Incremental.tryToExpandEnd host hl node off))
       = Range_setEnd (Incremental.range hl) node off
  else Incremental.range (snd (Incremental.tryToExpandEnd host hl node off))
       = Incremental.range hl
       /\ sameBounds hl (snd (Incremental.tryToExpandEnd host hl node off)).
Proof.
  unfold Incremental.tryToExpandEnd.
  destruct (Incremental.MAX_LINES_SPANNED_CHECKS
            <? S (Incremental.linesSpannedChecks hl))%nat;
    [split; [reflexivity | repeat split]|].
  destruct (Incremental.sameLineCheck hl _) as [[[nt nb] mh] [|]];
    cbn [fst snd]; [reflexivity | split; [reflexivity | repeat split]].
Qed.

Lemma I_tryToExpandStart_atomic (host : Host) hl node off :
  if fst (Incremental.tryToExpandStart host hl node off)
  then Incremental.range (snd (Incremental.tryToExpandStart host hl node off))
       = Range_setStart (Incremental.range hl) node off
  else Incremental.range (snd (Incremental.tryToExpandStart host hl node off))
       = Incremental.range hl
       /\ sameBounds hl (snd (Incremental.tryToExpandStart host hl node off)).
Proof.
  unfold Incremental.tryToExpandStart.
  destruct (Incremental.MAX_LINES_SPANNED_CHECKS
            <? S (Incremental.linesSpannedChecks hl))%nat;
    [split; [reflexivity | repeat split]|].
  destruct (Incremental.sameLineCheck hl _) as [[[nt nb] mh] [|]];
    cbn [fst snd]; [reflexivity | split; [reflexivity | repeat split]].
Qed.

(** X2. A growth attempt is all or nothing, in both revisions and
    at both ends: when it answers [true] the boundary of its side is the
    requested one and the other boundary is untouched; when it answers
    [false], for whatever reason (budget, heuristic, rectangle that did
    not grow), the range is the one before the attempt. In the revision
    with running bounds a refused attempt also leaves the running bounds
    and the minimum height as they were; in the one that recomputes the
    rollback empties the cache. *)
Theorem growth_attempt_is_atomic :
  (forall host hl node off,
      if fst (Incremental.tryToExpandEnd host hl node off)
      then Incremental.range
             (snd (Incremental.tryToExpandEnd host hl node off))
           = Range_setEnd (Incremental.range hl) node off
      else Incremental.range
             (snd (Incremental.tryToExpandEnd host hl node off))
           = Incremental.range hl
           /\ sameBounds hl
                (snd (Incremental.tryToExpandEnd host hl node off)))
  /\ (forall host hl node off,
         if fst (Incremental.tryToExpandStart host hl node off)
         then Incremental.range
                (snd (Incremental.tryToExpandStart host hl node off))
              = Range_setStart (Incremental.range hl) node off
         else Incremental.range
                (snd (Incremental.tryToExpandStart host hl node off))
              = Incremental.range hl
              /\ sameBounds hl
                   (snd (Incremental.tryToExpandStart host hl node off)))
  /\ (forall host hl node off check,
         if fst (Recompute.tryToExpandEnd host hl node off check)
         then Recompute.range
                (snd (Recompute.tryToExpandEnd host hl node off check))
              = Range_setEnd (Recompute.range hl) node off
         else Recompute.range
                (snd (Recompute.tryToExpandEnd host hl node off check))
              = Recompute.range hl
              /\ Recompute.boundingClientRect
                   (snd (Recompute.tryToExpandEnd host hl node off check))
                 = None)
  /\ (forall host hl node off check,
         if fst (Recompute.tryToExpandStart host hl node off check)
         then Recompute.range
                (snd (Recompute.tryToExpandStart host hl node off check))
              = Range_setStart (Recompute.range hl) node off
         else Recompute.range
                (snd (Recompute.tryToExpandStart host hl node off check))
              = Recompute.range hl
              /\ Recompute.boundingClientRect
                   (snd (Recompute.tryToExpandStart host hl node off check))
                 = None).
Proof.
  split; [exact I_tryToExpandEnd_atomic|].
  split; [exact I_tryToExpandStart_atomic|].
  split.
  - intros host hl node off check.
    destruct (R_tryToExpandEnd_facts host hl node off check)
      as (_ & _ & F3 & F4 & _).
    destruct (fst (Recompute.tryToExpandEnd host hl node off check)) eqn:E.
    + apply F3. reflexivity.
    + split; [apply F4; reflexivity|].
      unfold Recompute.tryToExpandEnd in *.
      destruct (Recompute.previousRect host _ check) as [prevRect hl1].
      destruct (Recompute.didNothingOrSpansLines host _ prevRect)
        as [[|] hl3]; [reflexivity | discriminate].
  - intros host hl node off check.
    destruct (R_tryToExpandStart_facts host hl node off check)
      as (_ & _ & F3 & F4 & _).
    destruct (fst (Recompute.tryToExpandStart host hl node off check)) eqn:E.
    + apply F3. reflexivity.
    + split; [apply F4; reflexivity|].
      unfold Recompute.tryToExpandStart in *.
      destruct (Recompute.previousRect host _ check) as [prevRect hl1].
      destruct (Recompute.didNothingOrSpansLines host _ prevRect)
        as [[|] hl3]; [reflexivity | discriminate].
Qed.

(** ** The running bounds *)

Lemma sameLineCheck_band (seed : Rect) hl rect nt nb mh :
  bandAround seed hl ->
  Incremental.sameLineCheck hl rect = (nt, nb, mh, true) ->
  nt <= top seed /\ bottom seed <= nb /\ 0 < mh <= height seed
  /\ 100 * (nb - nt) < 175 * mh
  /\ nt <= top rect /\ bottom rect <= nb /\ mh <= height rect
  /\ Z.max (top rect) (Incremental.manualBoundingRectTop hl)
     < Z.min (bottom rect) (Incremental.manualBoundingRectBottom hl).
Proof.
  intros (Ht & Hb & Hm & Hband) Hcheck.
  unfold Incremental.sameLineCheck in Hcheck.
  destruct (top rect <? Incremental.manualBoundingRectTop hl) eqn:E1;
    destruct (Incremental.manualBoundingRectBottom hl <? bottom rect) eqn:E2;
    pose proof (f_equal (fun p => fst (fst (fst p))) Hcheck) as Hnt;
    pose proof (f_equal (fun p => snd (fst (fst p))) Hcheck) as Hnb;
    pose proof (f_equal (fun p => snd (fst p)) Hcheck) as Hmh;
    pose proof (f_equal snd Hcheck) as Hsame;
    cbn [fst snd] in Hnt, Hnb, Hmh, Hsame; clear Hcheck;
    subst nt nb mh;
    apply andb_true_iff in Hsame; destruct Hsame as [S1 S2];
    apply Z.ltb_lt in S1; apply Z.ltb_lt in S2;
    first [apply Z.ltb_lt in E1 | apply Z.ltb_ge in E1];
    first [apply Z.ltb_lt in E2 | apply Z.ltb_ge in E2];
    unfold height in *; repeat split; lia.
Qed.

Lemma I_tryToExpandEnd_band (host : Host) (seed : Rect) hl node off :
  bandAround seed hl ->
  bandAround seed (snd (Incremental.tryToExpandEnd host hl node off)).
Proof.
  intros Hband. unfold Incremental.tryToExpandEnd.
  destruct (Incremental.MAX_LINES_SPANNED_CHECKS
            <? S (Incremental.linesSpannedChecks hl))%nat; [exact Hband|].
  destruct (Incremental.sameLineCheck hl _) as [[[nt nb] mh] [|]] eqn:Hcheck;
    [|exact Hband].
  destruct (sameLineCheck_band seed hl _ nt nb mh Hband Hcheck)
    as (H1 & H2 & H3 & H4 & _).
  repeat split; cbn [snd Incremental.manualBoundingRectTop
                     Incremental.manualBoundingRectBottom
                     Incremental.minRectHeight]; lia.
Qed.

Lemma I_tryToExpandStart_band (host : Host) (seed : Rect) hl node off :
  bandAround seed hl ->
  bandAround seed (snd (Incremental.tryToExpandStart host hl node off)).
Proof.
  intros Hband. unfold Incremental.tryToExpandStart.
  destruct (Incremental.MAX_LINES_SPANNED_CHECKS
            <? S (Incremental.linesSpannedChecks hl))%nat; [exact Hband|].
  destruct (Incremental.sameLineCheck hl _) as [[[nt nb] mh] [|]] eqn:Hcheck;
    [|exact Hband].
  destruct (sameLineCheck_band seed hl _ nt nb mh Hband Hcheck)
    as (H1 & H2 & H3 & H4 & _).
  repeat split; cbn [snd Incremental.manualBoundingRectTop
                     Incremental.manualBoundingRectBottom
                     Incremental.minRectHeight]; lia.
Qed.

(** X3. In the revision with running bounds, when the seed passes
    the vertical check and its bounding rectangle has a height that is
    not negative, the line object that line resolution returns keeps a
    band around the seed: the running top and bottom hold the rectangle
    of the seed, the minimum height is positive and at most the height
    of the seed, and the band is less than 1.75 times the minimum
    height. A character that is accepted, at the end or at the start,
    has a box of positive height that overlaps the band before it, and
    the band after it holds the box. *)
Theorem running_bounds_keep_the_seed :
  (forall body host fuel hl cp mouseY hl',
      Incremental.setHighlightLineRange body host fuel hl (Some cp) mouseY
      = Ok hl' ->
      isTextNode body (Some (offsetNode cp)) = true ->
      seedOnLine host (seedRange body cp) mouseY ->
      0 <= height (Range_getBoundingClientRect host (seedRange body cp)) ->
      bandAround (Range_getBoundingClientRect host (seedRange body cp)) hl')
  /\ (forall host seed hl node off,
         bandAround seed hl ->
         fst (Incremental.tryToExpandEnd host hl node off) = true ->
         let box := Range_getBoundingClientRect host (charRange node off) in
         let hl' := snd (Incremental.tryToExpandEnd host hl node off) in
         0 < height box
         /\ Z.max (top box) (Incremental.manualBoundingRectTop hl)
            < Z.min (bottom box) (Incremental.manualBoundingRectBottom hl)
         /\ Incremental.manualBoundingRectTop hl' <= top box
         /\ bottom box <= Incremental.manualBoundingRectBottom hl')
  /\ (forall host seed hl node off,
         bandAround seed hl ->
         fst (Incremental.tryToExpandStart host hl node off) = true ->
         let box :=
           Range_getBoundingClientRect host (charRangeFrom node off) in
         let hl' := snd (Incremental.tryToExpandStart host hl node off) in
         0 < height box
         /\ Z.max (top box) (Incremental.manualBoundingRectTop hl)
            < Z.min (bottom box) (Incremental.manualBoundingRectBottom hl)
         /\ Incremental.manualBoundingRectTop hl' <= top box
         /\ bottom box <= Incremental.manualBoundingRectBottom hl').
Proof.
  split; [|split].
  - intros body host fuel hl cp mouseY hl' Hrun Htext Hseed Hpos.
    set (seed := Range_getBoundingClientRect host (seedRange body cp)) in *.
    assert (H0 : bandAround seed
                   (Incremental.setInitialRect
                      (Incremental.withRange hl (seedRange body cp)) seed)).
    { destruct Hseed as (Hne & _). fold seed in Hne.
      unfold bandAround, Incremental.setInitialRect, height in *.
      cbn [Incremental.manualBoundingRectTop
           Incremental.manualBoundingRectBottom Incremental.minRectHeight].
      lia. }
    destruct (I_setHighlightLineRange_cases _ _ _ _ _ _ _ Hrun Htext)
      as (_ & [(Hno & _) | [(_ & _ & ->) | (_ & _ & Hexp)]]);
      [contradiction | exact H0 |].
    destruct Hexp as (ks & ke & hl1 & hl2 & hl3 & Halt & Hs & He & Hres).
    assert (H3 : bandAround seed hl3).
    { apply (I_expansion_steps body host (fun _ => bandAround seed))
        with (5 := Halt) (6 := Hs) (7 := He).
      - intros _ h Hh. exact Hh.
      - intros _ h node off Hh.
        pose proof (I_tryToExpandEnd_band host seed h node off Hh).
        destruct (fst _); assumption.
      - intros _ h node off Hh.
        pose proof (I_tryToExpandStart_band host seed h node off Hh).
        destruct (fst _); assumption.
      - exact H0. }
    destruct Hres as [-> | ->]; exact H3.
  - intros host seed hl node off Hband Hacc box hl'.
    unfold hl', box. unfold Incremental.tryToExpandEnd in *.
    destruct (Incremental.MAX_LINES_SPANNED_CHECKS
              <? S (Incremental.linesSpannedChecks hl))%nat; [discriminate|].
    change (Range_setEnd
              (Range_setStart (Incremental.singleCharRange hl) node (off - 1))
              node off) with (charRange node off) in *.
    destruct (Incremental.sameLineCheck hl _) as [[[nt nb] mh] [|]] eqn:Hcheck;
      [|discriminate].
    destruct (sameLineCheck_band seed hl _ nt nb mh Hband Hcheck)
      as (H1 & H2 & H3 & H4 & H5 & H6 & H7 & H8).
    cbn [snd Incremental.manualBoundingRectTop
         Incremental.manualBoundingRectBottom].
    repeat split; try assumption; lia.
  - intros host seed hl node off Hband Hacc box hl'.
    unfold hl', box. unfold Incremental.tryToExpandStart in *.
    destruct (Incremental.MAX_LINES_SPANNED_CHECKS
              <? S (Incremental.linesSpannedChecks hl))%nat; [discriminate|].
    change (Range_setEnd
              (Range_setStart (Incremental.singleCharRange hl) node off)
              node (S off)) with (charRangeFrom node off) in *.
    destruct (Incremental.sameLineCheck hl _) as [[[nt nb] mh] [|]] eqn:Hcheck;
      [|discriminate].
    destruct (sameLineCheck_band seed hl _ nt nb mh Hband Hcheck)
      as (H1 & H2 & H3 & H4 & H5 & H6 & H7 & H8).
    cbn [snd Incremental.manualBoundingRectTop
         Incremental.manualBoundingRectBottom].
    repeat split; try assumption; lia.
Qed.

Lemma running_bounds_keep_the_seed_witness :
  (exists hl',
      Incremental.setHighlightLineRange (paragraph [run "ab cd"]) monoLine 200
        Incremental.newCachedLineRange (Some (mkCaret (runRef 0) 1)) 10
      = Ok hl'
      /\ bandAround (monoRect 1 2) hl')
  /\ (0 < height (Range_getBoundingClientRect monoLine (charRange (runRef 0) 3))
     /\ Z.max (top (Range_getBoundingClientRect monoLine
                      (charRange (runRef 0) 3)))
          (Incremental.manualBoundingRectTop (lineAfterI 3))
        < Z.min (bottom (Range_getBoundingClientRect monoLine
                           (charRange (runRef 0) 3)))
            (Incremental.manualBoundingRectBottom (lineAfterI 3))
     /\ Incremental.manualBoundingRectTop
          (snd (Incremental.tryToExpandEnd monoLine (lineAfterI 3)
                  (runRef 0) 3))
        <= top (Range_getBoundingClientRect monoLine (charRange (runRef 0) 3))
     /\ bottom (Range_getBoundingClientRect monoLine (charRange (runRef 0) 3))
        <= Incremental.manualBoundingRectBottom
             (snd (Incremental.tryToExpandEnd monoLine (lineAfterI 3)
                     (runRef 0) 3)))
  /\ (0 < height (Range_getBoundingClientRect monoLine
                    (charRangeFrom (runRef 0) 1))
     /\ Z.max (top (Range_getBoundingClientRect monoLine
                      (charRangeFrom (runRef 0) 1)))
          (Incremental.manualBoundingRectTop (lineFromI 3))
        < Z.min (bottom (Range_getBoundingClientRect monoLine
                           (charRangeFrom (runRef 0) 1)))
            (Incremental.manualBoundingRectBottom (lineFromI 3))
     /\ Incremental.manualBoundingRectTop
          (snd (Incremental.tryToExpandStart monoLine (lineFromI 3)
                  (runRef 0) 1))
        <= top (Range_getBoundingClientRect monoLine
                  (charRangeFrom (runRef 0) 1))
     /\ bottom (Range_getBoundingClientRect monoLine
                  (charRangeFrom (runRef 0) 1))
        <= Incremental.manualBoundingRectBottom
             (snd (Incremental.tryToExpandStart monoLine (lineFromI 3)
                     (runRef 0) 1))).
Proof.
  split; [|split].
  - eexists. split; [vm_compute; reflexivity|].
    apply (proj1 running_bounds_keep_the_seed (paragraph [run "ab cd"])
             monoLine 200%nat Incremental.newCachedLineRange
             (mkCaret (runRef 0) 1) 10).
    + vm_compute. reflexivity.
    + reflexivity.
    + vm_compute. repeat split; discriminate.
    + vm_compute. discriminate.
  - apply (proj1 (proj2 running_bounds_keep_the_seed) monoLine (monoRect 0 1)
             (lineAfterI 3) (runRef 0) 3%nat).
    + unfold bandAround, height. simpl. lia.
    + vm_compute. reflexivity.
  - apply (proj2 (proj2 running_bounds_keep_the_seed) monoLine (monoRect 2 3)
             (lineFromI 3) (runRef 0) 1%nat).
    + unfold bandAround, height. simpl. lia.
    + vm_compute. reflexivity.
Defined.

(** ** The cache across a pointer-move *)

Section CacheInvariant.

Variable body : Node.
Variable host : Host.

Lemma R_isPointOutsideHighlightedLine_coherent hl x y :
  cacheCoherent host hl ->
  cacheCoherent host
    (snd (Recompute.isPointOutsideHighlightedLine host hl x y)).
Proof.
  intros Hc. unfold Recompute.isPointOutsideHighlightedLine.
  destruct (collapsed (Recompute.range hl)); [exact Hc|].
  pose proof (R_getBoundingClientRect_keeps host hl Hc) as Hk.
  destruct (Recompute.getBoundingClientRect host hl) as [rect h].
  exact Hk.
Qed.

Lemma R_setHighlightLineRange_coherent fuel hl caretPosition mouseY hl' :
  cacheCoherent host hl ->
  Recompute.setHighlightLineRange body host fuel hl caretPosition mouseY
  = Ok hl' ->
  cacheCoherent host hl'.
Proof.
  intros Hc Hrun.
  destruct caretPosition as [cp|]; [|injection Hrun as <-; exact Hc].
  destruct (isTextNode body (Some (offsetNode cp))) eqn:Htext.
  2:{ unfold Recompute.setHighlightLineRange in Hrun.
      rewrite Htext in Hrun. injection Hrun as <-. exact Hc. }
  destruct (R_setHighlightLineRange_cases _ _ _ _ _ _ _ Hrun Htext)
    as (_ & [(_ & ->) | [(_ & _ & ->) | (_ & _ & Hexp)]]);
    [left; reflexivity | left; reflexivity |].
  destruct Hexp as (ks & ke & hl1 & hl2 & hl3 & Halt & Hs & He & Hres).
  assert (H3 : cacheCoherent host hl3).
  { apply (R_expansion_steps body host (fun _ => cacheCoherent host))
      with (5 := Halt) (6 := Hs) (7 := He).
    - intros _ h Hh. exact Hh.
    - intros _ h node off check _.
      destruct (R_tryToExpandEnd_facts host h node off check)
        as (_ & _ & _ & _ & F5).
      destruct (fst _); exact F5.
    - intros _ h node off check _.
      destruct (R_tryToExpandStart_facts host h node off check)
        as (_ & _ & _ & _ & F5).
      destruct (fst _); exact F5.
    - right. reflexivity. }
  destruct Hres as [-> | ->]; [exact H3 | left; reflexivity].
Qed.

Lemma R_handler_coherent fuel st ev st' c :
  Recompute.pointerMoveHandler body host fuel st ev = Ok (st', c) ->
  cacheCoherent host (Recompute.highlightLineRange st').
Proof.
  unfold Recompute.pointerMoveHandler. intros Hrun.
  match type of Hrun with
  | bind ?e _ = _ => destruct e as [[word cp] | |]
  end; cbn [bind] in Hrun; try discriminate.
  pose proof (R_isPointOutsideHighlightedLine_coherent
                (Recompute.invalidateBoundingClientRectangle
                   (Recompute.highlightLineRange st))
                (ev_x ev) (ev_y ev) (or_introl eq_refl)) as H1.
  destruct (Recompute.isPointOutsideHighlightedLine host _ (ev_x ev) (ev_y ev))
    as [[|] hl1]; cbn [snd] in H1.
  - destruct (Recompute.setHighlightLineRange body host fuel _ _ (ev_y ev))
      as [hl2 | |] eqn:Hline; cbn [bind] in Hrun; try discriminate.
    assert (H2 : cacheCoherent host hl2).
    { apply (R_setHighlightLineRange_coherent _ _ _ _ _) with (2 := Hline).
      left. reflexivity. }
    pose proof (R_isPointOutsideHighlightedLine_coherent hl2
                  (ev_x ev) (ev_y ev) H2) as H3.
    destruct (Recompute.isPointOutsideHighlightedLine host hl2 _ _)
      as [[|] hl3]; cbn [snd] in H3; injection Hrun as <- _;
      cbn [Recompute.highlightLineRange]; [left; reflexivity | exact H3].
  - injection Hrun as <- _. exact H1.
Qed.

End CacheInvariant.

(** X4. In the revision that recomputes, the cached bounding
    rectangle of the line object is never stale: after a pointer-move
    handler that returns, from any state at all, the cache is empty or
    holds the rectangle that the engine gives for the line range as it
    is; line resolution keeps this, and so does every growth attempt,
    accepted or rolled back. *)
Theorem cached_rectangle_is_never_stale :
  (forall body host fuel st ev st' c,
      Recompute.pointerMoveHandler body host fuel st ev = Ok (st', c) ->
      cacheCoherent host (Recompute.highlightLineRange st'))
  /\ (forall body host fuel hl caretPosition mouseY hl',
         cacheCoherent host hl ->
         Recompute.setHighlightLineRange body host fuel hl caretPosition
           mouseY = Ok hl' ->
         cacheCoherent host hl')
  /\ (forall host hl node off check,
         cacheCoherent host
           (snd (Recompute.tryToExpandEnd host hl node off check))
         /\ cacheCoherent host
              (snd (Recompute.tryToExpandStart host hl node off check)))
  /\ (forall host hl,
         cacheCoherent host hl ->
         fst (Recompute.getBoundingClientRect host hl)
         = Range_getBoundingClientRect host (Recompute.range hl)).
Proof.
  split; [exact R_handler_coherent|].
  split; [exact R_setHighlightLineRange_coherent|].
  split.
  - intros host hl node off check. split.
    + apply R_tryToExpandEnd_facts.
    + apply R_tryToExpandStart_facts.
  - intros host hl Hc. apply R_getBoundingClientRect_coherent. exact Hc.
Qed.

Lemma cached_rectangle_is_never_stale_witness :
  (exists st' c,
      Recompute.pointerMoveHandler (paragraph [run "ab cd"]) monoLine 200
        sampleStateR (mkEvent 75 10) = Ok (st', c)
      /\ cacheCoherent monoLine (Recompute.highlightLineRange st'))
  /\ (exists hl',
         Recompute.setHighlightLineRange (paragraph [run "ab cd"]) monoLine
           200 Recompute.newCachedLineRange (Some (mkCaret (runRef 0) 1)) 10
         = Ok hl'
         /\ cacheCoherent monoLine hl')
  /\ fst (Recompute.getBoundingClientRect monoLine
            (Recompute.highlightLineRange sampleStateR))
     = Range_getBoundingClientRect monoLine
         (Recompute.range (Recompute.highlightLineRange sampleStateR)).
Proof.
  split; [|split].
  - eexists _, _. split; [vm_compute; reflexivity|].
    apply (proj1 cached_rectangle_is_never_stale (paragraph [run "ab cd"])
             monoLine 200%nat sampleStateR (mkEvent 75 10) _
             (Some (Some (mkCaret (runRef 0) 7)))).
    vm_compute. reflexivity.
  - eexists. split; [vm_compute; reflexivity|].
    apply (proj1 (proj2 cached_rectangle_is_never_stale)
             (paragraph [run "ab cd"]) monoLine 200%nat
             Recompute.newCachedLineRange (Some (mkCaret (runRef 0) 1)) 10).
    + left. reflexivity.
    + vm_compute. reflexivity.
  - apply (proj2 (proj2 (proj2 cached_rectangle_is_never_stale))).
    right. reflexivity.
Defined.

(** ** The vertical check of the seed *)

Lemma seed_check_fails (host : Host) (seed : Range) (mouseY : Z) :
  ~ seedOnLine host seed mouseY ->
  (height (Range_getBoundingClientRect host seed) =? 0)
  || (mouseY <? top (Range_getBoundingClientRect host seed))
  || (bottom (Range_getBoundingClientRect host seed) <? mouseY) = true.
Proof.
  intros Hno.
  destruct (_ || _ || _) eqn:Hcheck; [reflexivity|]. exfalso. apply Hno.
  apply orb_false_iff in Hcheck. destruct Hcheck as [Hcheck H3].
  apply orb_false_iff in Hcheck. destruct Hcheck as [H1 H2].
  apply Z.eqb_neq in H1. apply Z.ltb_ge in H2. apply Z.ltb_ge in H3.
  repeat split; assumption.
Qed.

(** X5. When the bounding rectangle of the seed character has no
    height, or the pointer is above or below it, line resolution returns
    at once, with any fuel: the line range is collapsed just after the
    seed character, no character was handed to the heuristic and the
    counter of checks is the one before. *)
Theorem seed_off_the_pointer_row_collapses :
  (forall body host fuel hl cp mouseY t,
      resolve body (offsetNode cp) = Some (TextNode t) ->
      t <> [] ->
      ~ seedOnLine host (seedRange body cp) mouseY ->
      exists hl',
        Incremental.setHighlightLineRange body host fuel hl (Some cp) mouseY
        = Ok hl'
        /\ Incremental.range hl'
           = Range_collapse (seedRange body cp)
        /\ Incremental.probeLog hl' = Incremental.probeLog hl
        /\ Incremental.linesSpannedChecks hl'
           = Incremental.linesSpannedChecks hl
        /\ sameBounds hl hl')
  /\ (forall body host fuel hl cp mouseY t,
         resolve body (offsetNode cp) = Some (TextNode t) ->
         t <> [] ->
         ~ seedOnLine host (seedRange body cp) mouseY ->
         exists hl',
           Recompute.setHighlightLineRange body host fuel hl (Some cp) mouseY
           = Ok hl'
           /\ Recompute.range hl' = Range_collapse (seedRange body cp)
           /\ Recompute.probeLog hl' = Recompute.probeLog hl
           /\ Recompute.linesSpannedChecks hl'
              = Recompute.linesSpannedChecks hl
           /\ Recompute.boundingClientRect hl' = None).
Proof.
  split.
  - intros body host fuel hl cp mouseY t Ht Hne Hno.
    unfold Incremental.setHighlightLineRange.
    rewrite (isTextNode_text body _ _ Ht). cbn [negb].
    unfold seedRange, seedOffsetOf in *.
    rewrite (textContentOf_text body _ _ Ht) in *.
    assert (Hlen : (length t =? 0)%nat = false)
      by (destruct t; [congruence | reflexivity]).
    rewrite Hlen.
    unfold Incremental.withRange, Range_setEnd, Range_setStart.
    cbn [Incremental.range startContainer startOffset endContainer endOffset].
    rewrite (seed_check_fails _ _ _ Hno).
    eexists. split; [reflexivity|]. repeat split.
  - intros body host fuel hl cp mouseY t Ht Hne Hno.
    unfold Recompute.setHighlightLineRange.
    rewrite (isTextNode_text body _ _ Ht). cbn [negb].
    unfold seedRange, seedOffsetOf in *.
    rewrite (textContentOf_text body _ _ Ht) in *.
    assert (Hlen : (length t =? 0)%nat = false)
      by (destruct t; [congruence | reflexivity]).
    rewrite Hlen.
    unfold Recompute.getBoundingClientRect, Recompute.setEnd,
      Recompute.setStart, Recompute.withRange,
      Recompute.invalidateBoundingClientRectangle, Range_setEnd,
      Range_setStart.
    cbn [Recompute.range Recompute.boundingClientRect startContainer
         startOffset endContainer endOffset].
    rewrite (seed_check_fails _ _ _ Hno).
    eexists. split; [reflexivity|]. repeat split.
Qed.

Lemma seed_off_the_pointer_row_collapses_witness :
  (exists hl',
      Incremental.setHighlightLineRange (paragraph [run "ab cd"]) monoLine 0
        (lineAfterI 3) (Some (mkCaret (runRef 0) 1)) 25 = Ok hl'
      /\ Incremental.range hl'
         = Range_collapse
             (seedRange (paragraph [run "ab cd"]) (mkCaret (runRef 0) 1))
      /\ Incremental.probeLog hl' = Incremental.probeLog (lineAfterI 3)
      /\ Incremental.linesSpannedChecks hl'
         = Incremental.linesSpannedChecks (lineAfterI 3)
      /\ sameBounds (lineAfterI 3) hl')
  /\ (exists hl',
         Recompute.setHighlightLineRange (paragraph [run "ab cd"]) monoLine 0
           (lineAfterR 3) (Some (mkCaret (runRef 0) 1)) 25 = Ok hl'
         /\ Recompute.range hl'
            = Range_collapse
                (seedRange (paragraph [run "ab cd"]) (mkCaret (runRef 0) 1))
         /\ Recompute.probeLog hl' = Recompute.probeLog (lineAfterR 3)
         /\ Recompute.linesSpannedChecks hl'
            = Recompute.linesSpannedChecks (lineAfterR 3)
         /\ Recompute.boundingClientRect hl' = None).
Proof.
  split.
  - apply (proj1 seed_off_the_pointer_row_collapses
             (paragraph [run "ab cd"]) monoLine 0%nat (lineAfterI 3)
             (mkCaret (runRef 0) 1) 25 (str "ab cd")).
    + reflexivity.
    + discriminate.
    + intros (_ & _ & H). vm_compute in H. apply H. reflexivity.
  - apply (proj2 seed_off_the_pointer_row_collapses
             (paragraph [run "ab cd"]) monoLine 0%nat (lineAfterR 3)
             (mkCaret (runRef 0) 1) 25 (str "ab cd")).
    + reflexivity.
    + discriminate.
    + intros (_ & _ & H). vm_compute in H. apply H. reflexivity.
Defined.

(** ** The hit-test on an empty text node *)

Lemma I_empty_text_throws body host fuel hl cp mouseY :
  resolve body (offsetNode cp) = Some (TextNode []) ->
  Incremental.setHighlightLineRange body host fuel hl (Some cp) mouseY = Throw.
Proof.
  intros Hd. unfold Incremental.setHighlightLineRange.
  rewrite (isTextNode_text body _ _ Hd), (textContentOf_text body _ _ Hd).
  reflexivity.
Qed.

Lemma R_empty_text_throws body host fuel hl cp mouseY :
  resolve body (offsetNode cp) = Some (TextNode []) ->
  Recompute.setHighlightLineRange body host fuel hl (Some cp) mouseY = Throw.
Proof.
  intros Hd. unfold Recompute.setHighlightLineRange.
  rewrite (isTextNode_text body _ _ Hd), (textContentOf_text body _ _ Hd).
  reflexivity.
Qed.

(** X6. The presupposition written in the script, that the hit-test
    never answers an empty text node, is needed by line resolution only.
    On an empty text node the seed offset is [Math.min(offset, -1)] and
    [setStart] throws: line resolution throws in both revisions, with
    any fuel, and a pointer-move handler that has to resolve the line
    there throws, after word resolution has returned. Word resolution
    itself returns on every text node, empty or not. *)
Theorem empty_text_node_throws_in_line_resolution :
  (forall body host fuel hl cp mouseY,
      resolve body (offsetNode cp) = Some (TextNode []) ->
      Incremental.setHighlightLineRange body host fuel hl (Some cp) mouseY
      = Throw)
  /\ (forall body host fuel hl cp mouseY,
         resolve body (offsetNode cp) = Some (TextNode []) ->
         Recompute.setHighlightLineRange body host fuel hl (Some cp) mouseY
         = Throw)
  /\ (forall body isDelimiter fuel wr cp d,
         isElement body ->
         (size body < fuel)%nat ->
         resolve body (offsetNode cp) = Some (TextNode d) ->
         (offset cp <= length d)%nat ->
         exists r,
           setHighlightWordRange body isDelimiter fuel wr (Some cp) = Ok r)
  /\ (forall body host fuel st ev cp,
         isElement body ->
         (size body < fuel)%nat ->
         caretPositionFromPoint host (ev_x ev) (ev_y ev) = Some cp ->
         resolve body (offsetNode cp) = Some (TextNode []) ->
         offset cp = 0%nat ->
         Incremental.isPointOutsideHighlightedLine host
           (Incremental.highlightLineRange st) (ev_x ev) (ev_y ev) = true ->
         Incremental.pointerMoveHandler body host fuel st ev = Throw)
  /\ (forall body host fuel st ev cp,
         isElement body ->
         (size body < fuel)%nat ->
         caretPositionFromPoint host (ev_x ev) (ev_y ev) = Some cp ->
         resolve body (offsetNode cp) = Some (TextNode []) ->
         offset cp = 0%nat ->
         fst (Recompute.isPointOutsideHighlightedLine host
                (Recompute.invalidateBoundingClientRectangle
                   (Recompute.highlightLineRange st)) (ev_x ev) (ev_y ev))
         = true ->
         Recompute.pointerMoveHandler body host fuel st ev = Throw).
Proof.
  split; [exact I_empty_text_throws|].
  split; [exact R_empty_text_throws|].
  split; [exact setHighlightWordRange_returns|].
  split.
  - intros body host fuel st ev cp Hb Hfuel Hcp Hd Hk Hout.
    unfold Incremental.pointerMoveHandler. rewrite Hcp, Hout.
    destruct (Incremental.isPointOutsideHighlightedWord host _ _ _).
    + destruct (setHighlightWordRange_returns body Incremental.isDelimiter
                  fuel (Range_collapse (Incremental.highlightWordRange st))
                  cp [] Hb Hfuel Hd) as [r Hr]; [rewrite Hk; apply Nat.le_refl|].
      rewrite Hr. cbn [bind].
      rewrite (I_empty_text_throws body host fuel _ cp _ Hd). reflexivity.
    + cbn [bind].
      rewrite (I_empty_text_throws body host fuel _ cp _ Hd). reflexivity.
  - intros body host fuel st ev cp Hb Hfuel Hcp Hd Hk Hout.
    unfold Recompute.pointerMoveHandler. rewrite Hcp.
    destruct (Recompute.isPointOutsideHighlightedLine host _ _ _)
      as [outside hl1]. cbn [fst] in Hout. subst outside.
    destruct (Recompute.isPointOutsideHighlightedWord host _ _ _).
    + destruct (setHighlightWordRange_returns body Recompute.isDelimiter
                  fuel (Range_collapse (Recompute.highlightWordRange st))
                  cp [] Hb Hfuel Hd) as [r Hr]; [rewrite Hk; apply Nat.le_refl|].
      rewrite Hr. cbn [bind].
      rewrite (R_empty_text_throws body host fuel _ cp _ Hd). reflexivity.
    + cbn [bind].
      rewrite (R_empty_text_throws body host fuel _ cp _ Hd). reflexivity.
Qed.

Lemma empty_text_node_throws_in_line_resolution_witness :
  Incremental.setHighlightLineRange (paragraph [run ""; run "ab"]) monoLine 0
    Incremental.newCachedLineRange (Some (mkCaret (runRef 0) 0)) 10 = Throw
  /\ Recompute.setHighlightLineRange (paragraph [run ""; run "ab"]) monoLine 0
       Recompute.newCachedLineRange (Some (mkCaret (runRef 0) 0)) 10 = Throw
  /\ (exists r,
         setHighlightWordRange (paragraph [run ""; run "ab"])
           Incremental.isDelimiter 10 createRange
           (Some (mkCaret (runRef 0) 0)) = Ok r)
  /\ Incremental.pointerMoveHandler (paragraph [run ""; run "ab"])
       (mkHost (fun _ => []) (fun _ => mkRect 0 0 0 0)
          (fun _ _ => Some (mkCaret (runRef 0) 0)))
       10 Incremental.initialState (mkEvent 5 10) = Throw
  /\ Recompute.pointerMoveHandler (paragraph [run ""; run "ab"])
       (mkHost (fun _ => []) (fun _ => mkRect 0 0 0 0)
          (fun _ _ => Some (mkCaret (runRef 0) 0)))
       10 Recompute.initialState (mkEvent 5 10) = Throw.
Proof.
  split; [|split; [|split; [|split]]].
  - apply (proj1 empty_text_node_throws_in_line_resolution). reflexivity.
  - apply (proj1 (proj2 empty_text_node_throws_in_line_resolution)).
    reflexivity.
  - apply (proj1 (proj2 (proj2 empty_text_node_throws_in_line_resolution))
             _ _ _ _ _ []).
    + exact I.
    + vm_compute. lia.
    + reflexivity.
    + simpl. lia.
  - apply (proj1 (proj2 (proj2 (proj2
             empty_text_node_throws_in_line_resolution)))
             _ _ _ _ _ (mkCaret (runRef 0) 0)).
    + exact I.
    + vm_compute. lia.
    + reflexivity.
    + reflexivity.
    + reflexivity.
    + reflexivity.
  - apply (proj2 (proj2 (proj2 (proj2
             empty_text_node_throws_in_line_resolution)))
             _ _ _ _ _ (mkCaret (runRef 0) 0)).
    + exact I.
    + vm_compute. lia.
    + reflexivity.
    + reflexivity.
    + reflexivity.
    + reflexivity.
Defined.

(** ** What a pointer-move leaves highlighted *)

Section HandlerResults.

Variable body : Node.
Variable host : Host.

Lemma R_isPointOutsideHighlightedLine_again hl x y :
  fst (Recompute.isPointOutsideHighlightedLine host
         (snd (Recompute.isPointOutsideHighlightedLine host hl x y)) x y)
  = fst (Recompute.isPointOutsideHighlightedLine host hl x y).
Proof.
  unfold Recompute.isPointOutsideHighlightedLine.
  destruct (collapsed (Recompute.range hl)) eqn:Hc; cbn [fst snd];
    [rewrite Hc; reflexivity|].
  unfold Recompute.getBoundingClientRect.
  destruct (Recompute.boundingClientRect hl) as [rect|] eqn:Hb;
    cbn [fst snd Recompute.range Recompute.boundingClientRect];
    rewrite Hc, ?Hb; reflexivity.
Qed.

Lemma R_isPointOutsideHighlightedLine_range hl x y :
  Recompute.range (snd (Recompute.isPointOutsideHighlightedLine host hl x y))
  = Recompute.range hl.
Proof.
  unfold Recompute.isPointOutsideHighlightedLine.
  destruct (collapsed (Recompute.range hl)); [reflexivity|].
  unfold Recompute.getBoundingClientRect.
  destruct (Recompute.boundingClientRect hl); reflexivity.
Qed.

Lemma I_handler_result fuel st ev st' c :
  Incremental.pointerMoveHandler body host fuel st ev = Ok (st', c) ->
  (Incremental.isPointOutsideHighlightedWord host
     (Incremental.highlightWordRange st') (ev_x ev) (ev_y ev) = true ->
   collapsed (Incremental.highlightWordRange st') = true)
  /\ (Incremental.isPointOutsideHighlightedLine host
        (Incremental.highlightLineRange st') (ev_x ev) (ev_y ev) = true ->
      collapsed (Incremental.range (Incremental.highlightLineRange st'))
      = true).
Proof.
  unfold Incremental.pointerMoveHandler. intros Hrun.
  assert (Hword : exists word cp,
             (if Incremental.isPointOutsideHighlightedWord host
                   (Incremental.highlightWordRange st) (ev_x ev) (ev_y ev)
              then
                word <- setHighlightWordRange body Incremental.isDelimiter
                          fuel (Range_collapse (Incremental.highlightWordRange st))
                          (caretPositionFromPoint host (ev_x ev) (ev_y ev)) ;;
                Ok (if Incremental.isPointOutsideHighlightedWord host word
                         (ev_x ev) (ev_y ev)
                    then Range_collapse word else word,
                    Some (caretPositionFromPoint host (ev_x ev) (ev_y ev)))
              else Ok (Incremental.highlightWordRange st, None))
             = Ok (word, cp)
             /\ (Incremental.isPointOutsideHighlightedWord host word
                   (ev_x ev) (ev_y ev) = true ->
                 collapsed word = true)).
  { destruct (Incremental.isPointOutsideHighlightedWord host
                (Incremental.highlightWordRange st) _ _) eqn:Hout.
    - destruct (setHighlightWordRange _ _ _ _ _) as [r | |];
        cbn [bind] in *; try discriminate.
      eexists _, _. split; [reflexivity|].
      destruct (Incremental.isPointOutsideHighlightedWord host r _ _) eqn:Hr;
        [intros _; apply collapsed_collapse | congruence].
    - eexists _, _. split; [reflexivity | congruence]. }
  destruct Hword as (word & cp & Hw & Hwok). rewrite Hw in Hrun.
  cbn [bind] in Hrun.
  destruct (Incremental.isPointOutsideHighlightedLine host
              (Incremental.highlightLineRange st) _ _) eqn:Hout.
  - destruct (Incremental.setHighlightLineRange _ _ _ _ _ _) as [hl | |];
      cbn [bind] in Hrun; try discriminate.
    injection Hrun as <- _.
    cbn [Incremental.highlightWordRange Incremental.highlightLineRange].
    split; [exact Hwok|].
    destruct (Incremental.isPointOutsideHighlightedLine host hl _ _) eqn:Hl;
      [intros _; apply collapsed_collapse | congruence].
  - injection Hrun as <- _.
    cbn [Incremental.highlightWordRange Incremental.highlightLineRange].
    split; [exact Hwok | congruence].
Qed.

Lemma R_handler_result fuel st ev st' c :
  Recompute.pointerMoveHandler body host fuel st ev = Ok (st', c) ->
  (Recompute.isPointOutsideHighlightedWord host
     (Recompute.highlightWordRange st') (ev_x ev) (ev_y ev) = true ->
   collapsed (Recompute.highlightWordRange st') = true)
  /\ (fst (Recompute.isPointOutsideHighlightedLine host
             (Recompute.highlightLineRange st') (ev_x ev) (ev_y ev)) = true ->
      collapsed (Recompute.range (Recompute.highlightLineRange st')) = true).
Proof.
  unfold Recompute.pointerMoveHandler. intros Hrun.
  assert (Hword : exists word cp,
             (if Recompute.isPointOutsideHighlightedWord host
                   (Recompute.highlightWordRange st) (ev_x ev) (ev_y ev)
              then
                word <- setHighlightWordRange body Recompute.isDelimiter
                          fuel (Range_collapse (Recompute.highlightWordRange st))
                          (caretPositionFromPoint host (ev_x ev) (ev_y ev)) ;;
                Ok (if Recompute.isPointOutsideHighlightedWord host word
                         (ev_x ev) (ev_y ev)
                    then Range_collapse word else word,
                    Some (caretPositionFromPoint host (ev_x ev) (ev_y ev)))
              else Ok (Recompute.highlightWordRange st, None))
             = Ok (word, cp)
             /\ (Recompute.isPointOutsideHighlightedWord host word
                   (ev_x ev) (ev_y ev) = true ->
                 collapsed word = true)).
  { destruct (Recompute.isPointOutsideHighlightedWord host
                (Recompute.highlightWordRange st) _ _) eqn:Hout.
    - destruct (setHighlightWordRange _ _ _ _ _) as [r | |];
        cbn [bind] in *; try discriminate.
      eexists _, _. split; [reflexivity|].
      destruct (Recompute.isPointOutsideHighlightedWord host r _ _) eqn:Hr;
        [intros _; apply collapsed_collapse | congruence].
    - eexists _, _. split; [reflexivity | congruence]. }
  destruct Hword as (word & cp & Hw & Hwok). rewrite Hw in Hrun.
  cbn [bind] in Hrun.
  pose proof (R_isPointOutsideHighlightedLine_again
                (Recompute.invalidateBoundingClientRectangle
                   (Recompute.highlightLineRange st)) (ev_x ev) (ev_y ev))
    as Hagain.
  destruct (Recompute.isPointOutsideHighlightedLine host
              (Recompute.invalidateBoundingClientRectangle
                 (Recompute.highlightLineRange st)) _ _) as [[|] hl1].
  - destruct (Recompute.setHighlightLineRange _ _ _ _ _ _) as [hl | |];
      cbn [bind] in Hrun; try discriminate.
    pose proof (R_isPointOutsideHighlightedLine_again hl (ev_x ev) (ev_y ev))
      as Hagain2.
    destruct (Recompute.isPointOutsideHighlightedLine host hl _ _)
      as [[|] hl2]; injection Hrun as <- _;
      cbn [Recompute.highlightWordRange Recompute.highlightLineRange fst snd]
        in *.
    + split; [exact Hwok|]. intros _.
      unfold Recompute.collapse. cbn [Recompute.range Recompute.withRange
        Recompute.invalidateBoundingClientRectangle].
      apply collapsed_collapse.
    + split; [exact Hwok | congruence].
  - injection Hrun as <- _.
    cbn [Recompute.highlightWordRange Recompute.highlightLineRange fst snd]
      in *.
    split; [exact Hwok | congruence].
Qed.

Lemma I_handler_no_text fuel st ev :
  hitsNoText body host (ev_x ev) (ev_y ev) ->
  exists st' c,
    Incremental.pointerMoveHandler body host fuel st ev = Ok (st', c)
    /\ (Incremental.highlightWordRange st' = Incremental.highlightWordRange st
        \/ collapsed (Incremental.highlightWordRange st') = true)
    /\ (Incremental.highlightLineRange st' = Incremental.highlightLineRange st
        \/ collapsed (Incremental.range (Incremental.highlightLineRange st'))
           = true).
Proof.
  intros Hhit. unfold hitsNoText in Hhit.
  assert (Hw : forall wr,
             setHighlightWordRange body Incremental.isDelimiter fuel wr
               (caretPositionFromPoint host (ev_x ev) (ev_y ev)) = Ok wr).
  { intros wr. unfold setHighlightWordRange.
    destruct (caretPositionFromPoint host _ _) as [cp|]; [|reflexivity].
    rewrite Hhit. reflexivity. }
  assert (Hl : forall hl,
             Incremental.setHighlightLineRange body host fuel hl
               (caretPositionFromPoint host (ev_x ev) (ev_y ev)) (ev_y ev)
             = Ok hl).
  { intros hl. unfold Incremental.setHighlightLineRange.
    destruct (caretPositionFromPoint host _ _) as [cp|]; [|reflexivity].
    rewrite Hhit. reflexivity. }
  unfold Incremental.pointerMoveHandler.
  destruct (Incremental.isPointOutsideHighlightedWord host
              (Incremental.highlightWordRange st) _ _).
  - rewrite Hw. cbn [bind].
    destruct (Incremental.isPointOutsideHighlightedLine host
                (Incremental.highlightLineRange st) _ _).
    + rewrite Hl. cbn [bind]. eexists _, _. split; [reflexivity|].
      cbn [Incremental.highlightWordRange Incremental.highlightLineRange].
      split; right.
      * destruct (Incremental.isPointOutsideHighlightedWord host _ _ _);
          repeat apply collapsed_collapse.
      * destruct (Incremental.isPointOutsideHighlightedLine host _ _ _);
          repeat apply collapsed_collapse.
    + eexists _, _. split; [reflexivity|].
      cbn [Incremental.highlightWordRange Incremental.highlightLineRange].
      split; [right | left; reflexivity].
      destruct (Incremental.isPointOutsideHighlightedWord host _ _ _);
        repeat apply collapsed_collapse.
  - cbn [bind].
    destruct (Incremental.isPointOutsideHighlightedLine host
                (Incremental.highlightLineRange st) _ _).
    + rewrite Hl. cbn [bind]. eexists _, _. split; [reflexivity|].
      cbn [Incremental.highlightWordRange Incremental.highlightLineRange].
      split; [left; reflexivity | right].
      destruct (Incremental.isPointOutsideHighlightedLine host _ _ _);
        repeat apply collapsed_collapse.
    + eexists _, _. split; [reflexivity|].
      split; left; reflexivity.
Qed.

End HandlerResults.

Lemma R_handler_no_text body host fuel st ev :
  hitsNoText body host (ev_x ev) (ev_y ev) ->
  exists st' c,
    Recompute.pointerMoveHandler body host fuel st ev = Ok (st', c)
    /\ (Recompute.highlightWordRange st' = Recompute.highlightWordRange st
        \/ collapsed (Recompute.highlightWordRange st') = true)
    /\ (Recompute.range (Recompute.highlightLineRange st')
        = Recompute.range (Recompute.highlightLineRange st)
        \/ collapsed (Recompute.range (Recompute.highlightLineRange st'))
           = true).
Proof.
  intros Hhit. unfold hitsNoText in Hhit.
  assert (Hw : forall wr,
             setHighlightWordRange body Recompute.isDelimiter fuel wr
               (caretPositionFromPoint host (ev_x ev) (ev_y ev)) = Ok wr).
  { intros wr. unfold setHighlightWordRange.
    destruct (caretPositionFromPoint host _ _) as [cp|]; [|reflexivity].
    rewrite Hhit. reflexivity. }
  assert (Hl : forall hl,
             Recompute.setHighlightLineRange body host fuel hl
               (caretPositionFromPoint host (ev_x ev) (ev_y ev)) (ev_y ev)
             = Ok hl).
  { intros hl. unfold Recompute.setHighlightLineRange.
    destruct (caretPositionFromPoint host _ _) as [cp|]; [|reflexivity].
    rewrite Hhit. reflexivity. }
  assert (Hcol : forall hl x y,
             collapsed (Recompute.range hl) = true ->
             Recompute.isPointOutsideHighlightedLine host hl x y = (true, hl)).
  { intros hl x y Hc. unfold Recompute.isPointOutsideHighlightedLine.
    rewrite Hc. reflexivity. }
  assert (Hcc : forall hl, collapsed (Recompute.range (Recompute.collapse hl))
                           = true).
  { intros hl. apply collapsed_collapse. }
  unfold Recompute.pointerMoveHandler.
  pose proof (R_isPointOutsideHighlightedLine_range host
                (Recompute.invalidateBoundingClientRectangle
                   (Recompute.highlightLineRange st)) (ev_x ev) (ev_y ev))
    as Hrange.
  destruct (Recompute.isPointOutsideHighlightedLine host
              (Recompute.invalidateBoundingClientRectangle
                 (Recompute.highlightLineRange st)) _ _) as [outside hl1].
  cbn [snd] in Hrange.
  destruct (Recompute.isPointOutsideHighlightedWord host
              (Recompute.highlightWordRange st) _ _).
  - rewrite Hw. cbn [bind].
    destruct outside.
    + rewrite Hl. cbn [bind]. rewrite (Hcol _ _ _ (Hcc hl1)).
      eexists _, _. split; [reflexivity|].
      cbn [Recompute.highlightWordRange Recompute.highlightLineRange].
      split; right; [|apply Hcc].
      destruct (Recompute.isPointOutsideHighlightedWord host _ _ _);
        repeat apply collapsed_collapse.
    + eexists _, _. split; [reflexivity|].
      cbn [Recompute.highlightWordRange Recompute.highlightLineRange].
      split; [right | left; exact Hrange].
      destruct (Recompute.isPointOutsideHighlightedWord host _ _ _);
        repeat apply collapsed_collapse.
  - cbn [bind].
    destruct outside.
    + rewrite Hl. cbn [bind]. rewrite (Hcol _ _ _ (Hcc hl1)).
      eexists _, _. split; [reflexivity|].
      cbn [Recompute.highlightWordRange Recompute.highlightLineRange].
      split; [left; reflexivity | right; apply Hcc].
    + eexists _, _. split; [reflexivity|].
      cbn [Recompute.highlightWordRange Recompute.highlightLineRange].
      split; [left; reflexivity | left; exact Hrange].
Qed.

(** X7. After a pointer-move handler that returns, no highlight
    is left where the pointer is not: when the pointer is outside the
    word range the word range is collapsed, and when it is outside the
    line range the line range is collapsed, in both revisions and from
    any state. *)
Theorem no_highlight_away_from_the_pointer :
  (forall body host fuel st ev st' c,
      Incremental.pointerMoveHandler body host fuel st ev = Ok (st', c) ->
      (Incremental.isPointOutsideHighlightedWord host
         (Incremental.highlightWordRange st') (ev_x ev) (ev_y ev) = true ->
       collapsed (Incremental.highlightWordRange st') = true)
      /\ (Incremental.isPointOutsideHighlightedLine host
            (Incremental.highlightLineRange st') (ev_x ev) (ev_y ev) = true ->
          collapsed (Incremental.range (Incremental.highlightLineRange st'))
          = true))
  /\ (forall body host fuel st ev st' c,
         Recompute.pointerMoveHandler body host fuel st ev = Ok (st', c) ->
         (Recompute.isPointOutsideHighlightedWord host
            (Recompute.highlightWordRange st') (ev_x ev) (ev_y ev) = true ->
          collapsed (Recompute.highlightWordRange st') = true)
         /\ (fst (Recompute.isPointOutsideHighlightedLine host
                    (Recompute.highlightLineRange st') (ev_x ev) (ev_y ev))
             = true ->
             collapsed (Recompute.range (Recompute.highlightLineRange st'))
             = true)).
Proof.
  split.
  - exact I_handler_result.
  - exact R_handler_result.
Qed.

Lemma no_highlight_away_from_the_pointer_witness :
  (exists st' c,
      Incremental.pointerMoveHandler (paragraph [run "ab cd"]) monoLine 200
        sampleStateI (mkEvent 75 10) = Ok (st', c)
      /\ (Incremental.isPointOutsideHighlightedWord monoLine
            (Incremental.highlightWordRange st') 75 10 = true ->
          collapsed (Incremental.highlightWordRange st') = true)
      /\ (Incremental.isPointOutsideHighlightedLine monoLine
            (Incremental.highlightLineRange st') 75 10 = true ->
          collapsed (Incremental.range (Incremental.highlightLineRange st'))
          = true))
  /\ (exists st' c,
         Recompute.pointerMoveHandler (paragraph [run "ab cd"]) monoLine 200
           sampleStateR (mkEvent 75 10) = Ok (st', c)
         /\ (Recompute.isPointOutsideHighlightedWord monoLine
               (Recompute.highlightWordRange st') 75 10 = true ->
             collapsed (Recompute.highlightWordRange st') = true)
         /\ (fst (Recompute.isPointOutsideHighlightedLine monoLine
                    (Recompute.highlightLineRange st') 75 10) = true ->
             collapsed (Recompute.range (Recompute.highlightLineRange st'))
             = true)).
Proof.
  split.
  - eexists _, _. split; [vm_compute; reflexivity|].
    apply (proj1 no_highlight_away_from_the_pointer (paragraph [run "ab cd"])
             monoLine 200%nat sampleStateI (mkEvent 75 10) _
             (Some (Some (mkCaret (runRef 0) 7)))).
    vm_compute. reflexivity.
  - eexists _, _. split; [vm_compute; reflexivity|].
    apply (proj2 no_highlight_away_from_the_pointer (paragraph [run "ab cd"])
             monoLine 200%nat sampleStateR (mkEvent 75 10) _
             (Some (Some (mkCaret (runRef 0) 7)))).
    vm_compute. reflexivity.
Defined.

(** X8. When the hit-test at the pointer answers no position, or a
    position in a node that is not a text node, the handler returns with
    any fuel and highlights nothing new: each of the two ranges is the
    one before the event (the pointer is still inside it) or is
    collapsed. *)
Theorem no_text_under_the_pointer_highlights_nothing :
  (forall body host fuel st ev,
      hitsNoText body host (ev_x ev) (ev_y ev) ->
      exists st' c,
        Incremental.pointerMoveHandler body host fuel st ev = Ok (st', c)
        /\ (Incremental.highlightWordRange st'
            = Incremental.highlightWordRange st
            \/ collapsed (Incremental.highlightWordRange st') = true)
        /\ (Incremental.highlightLineRange st'
            = Incremental.highlightLineRange st
            \/ collapsed
                 (Incremental.range (Incremental.highlightLineRange st'))
               = true))
  /\ (forall body host fuel st ev,
         hitsNoText body host (ev_x ev) (ev_y ev) ->
         exists st' c,
           Recompute.pointerMoveHandler body host fuel st ev = Ok (st', c)
           /\ (Recompute.highlightWordRange st'
               = Recompute.highlightWordRange st
               \/ collapsed (Recompute.highlightWordRange st') = true)
           /\ (Recompute.range (Recompute.highlightLineRange st')
               = Recompute.range (Recompute.highlightLineRange st)
               \/ collapsed
                    (Recompute.range (Recompute.highlightLineRange st'))
                  = true)).
Proof.
  split.
  - exact I_handler_no_text.
  - exact R_handler_no_text.
Qed.

Lemma no_text_under_the_pointer_highlights_nothing_witness :
  (exists st' c,
      Incremental.pointerMoveHandler (paragraph [run "ab cd"])
        (mkHost (Range_getClientRects monoLine)
           (Range_getBoundingClientRect monoLine)
           (fun _ _ => Some (mkCaret [0%nat] 0)))
        0 sampleStateI (mkEvent 75 10) = Ok (st', c)
      /\ (Incremental.highlightWordRange st'
          = Incremental.highlightWordRange sampleStateI
          \/ collapsed (Incremental.highlightWordRange st') = true)
      /\ (Incremental.highlightLineRange st'
          = Incremental.highlightLineRange sampleStateI
          \/ collapsed (Incremental.range (Incremental.highlightLineRange st'))
             = true))
  /\ (exists st' c,
         Recompute.pointerMoveHandler (paragraph [run "ab cd"])
           (mkHost (Range_getClientRects monoLine)
              (Range_getBoundingClientRect monoLine) (fun _ _ => None))
           0 sampleStateR (mkEvent 75 10) = Ok (st', c)
         /\ (Recompute.highlightWordRange st'
             = Recompute.highlightWordRange sampleStateR
             \/ collapsed (Recompute.highlightWordRange st') = true)
         /\ (Recompute.range (Recompute.highlightLineRange st')
             = Recompute.range (Recompute.highlightLineRange sampleStateR)
             \/ collapsed
                  (Recompute.range (Recompute.highlightLineRange st'))
                = true)).
Proof.
  split.
  - apply (proj1 no_text_under_the_pointer_highlights_nothing).
    reflexivity.
  - apply (proj2 no_text_under_the_pointer_highlights_nothing).
    exact I.
Defined.

(** ** The two searches for a text node *)

Lemma firstAmongChildren_hd find texts self l :
  Forall (fun c => forall s, find c s = hd_error (texts c s)) l ->
  forall i,
    firstAmongChildren find self l i
    = hd_error (textsAmongChildren texts self l i).
Proof.
  induction 1 as [|c l Hc _ IH]; intros i; cbn [firstAmongChildren
    textsAmongChildren]; [reflexivity|].
  destruct (occupiesSpace c); cbn [negb app]; [|apply IH].
  rewrite Hc. destruct (texts c (i :: self)) as [|x xs]; [apply IH|].
  reflexivity.
Qed.

Lemma lastAmongChildren_hd find texts self l :
  Forall (fun c => forall s, find c s = hd_error (rev (texts c s))) l ->
  forall i,
    lastAmongChildren find self l i
    = hd_error (rev (textsAmongChildren texts self l i)).
Proof.
  induction 1 as [|c l Hc _ IH]; intros i; cbn [lastAmongChildren
    textsAmongChildren]; [reflexivity|].
  rewrite rev_app_distr, IH.
  destruct (rev (textsAmongChildren texts self l (S i))) as [|x xs];
    [|reflexivity].
  cbn [hd_error app].
  destruct (occupiesSpace c); cbn [negb]; [apply Hc | reflexivity].
Qed.

Lemma getNextTextNode_first (n : Node) :
  forall self, getNextTextNode n self = hd_error (visibleTexts n self).
Proof.
  induction n as [d | d | w h cs IH] using Node_nested_ind; intros self;
    cbn [getNextTextNode visibleTexts].
  - destruct (isEmpty d); reflexivity.
  - reflexivity.
  - apply firstAmongChildren_hd. exact IH.
Qed.

Lemma getLastNonEmptyTextNode_last (n : Node) :
  forall self,
    getLastNonEmptyTextNode n self = hd_error (rev (visibleTexts n self)).
Proof.
  induction n as [d | d | w h cs IH] using Node_nested_ind; intros self;
    cbn [getLastNonEmptyTextNode visibleTexts].
  - destruct (isEmpty d); reflexivity.
  - reflexivity.
  - apply lastAmongChildren_hd. exact IH.
Qed.

Lemma textsAmongChildren_in texts self l t :
  forall i,
    In t (textsAmongChildren texts self l i) ->
    exists j c,
      nth_error l j = Some c /\ occupiesSpace c = true
      /\ In t (texts c ((i + j)%nat :: self)).
Proof.
  induction l as [|c l IH]; intros i H; cbn [textsAmongChildren] in H;
    [contradiction|].
  apply in_app_or in H. destruct H as [H | H].
  - destruct (occupiesSpace c) eqn:Hocc; [|contradiction].
    exists 0%nat, c. rewrite Nat.add_0_r. repeat split; assumption.
  - destruct (IH _ H) as (j & c' & Hj & Hocc & Hin).
    exists (S j), c'. split; [exact Hj|]. split; [exact Hocc|].
    replace (i + S j)%nat with (S i + j)%nat by lia. exact Hin.
Qed.

(** A visible text node is a text node with some text, and every node
    from it up to the root of the search, the root left out, occupies
    space. *)
Lemma visibleTexts_visible (body : Node) (n : Node) :
  forall self t,
    resolve body self = Some n ->
    In t (visibleTexts n self) ->
    nonEmptyText body t /\ visibleBelow body self t.
Proof.
  induction n as [d | d | w h cs IH] using Node_nested_ind;
    intros self t Hself Hin; cbn [visibleTexts] in Hin.
  - destruct d as [|c d]; cbn [isEmpty] in Hin; [contradiction|].
    destruct Hin as [<- | []]. split.
    + exists (c :: d). split; [exact Hself | discriminate].
    + exists []. split; [reflexivity|].
      intros l1 l2 E Hne. symmetry in E. apply app_eq_nil in E.
      destruct E as [_ ->]. congruence.
  - contradiction.
  - destruct (textsAmongChildren_in _ _ _ _ _ Hin) as (j & c & Hj & Hocc & Hc).
    cbn [Nat.add] in Hc.
    assert (Hres : resolve body (j :: self) = Some c).
    { rewrite resolve_cons, (childrenAt_element body _ _ _ _ Hself).
      exact Hj. }
    rewrite Forall_forall in IH.
    destruct (IH c (nth_error_In _ _ Hj) (j :: self) t Hres Hc)
      as [Ht (l & -> & Hvis)].
    split; [exact Ht|]. exists (l ++ [j]).
    split; [rewrite <- app_assoc; reflexivity|].
    intros l1 l2 E Hne.
    destruct (rev l2) as [|x r] eqn:Hr.
    { apply (f_equal (@rev nat)) in Hr. rewrite rev_involutive in Hr.
      simpl in Hr. congruence. }
    assert (Hl2 : l2 = rev r ++ [x]).
    { apply (f_equal (@rev nat)) in Hr. rewrite rev_involutive in Hr.
      exact Hr. }
    subst l2. rewrite app_assoc in E. apply app_inj_tail in E.
    destruct E as [E ->]. rewrite <- app_assoc. cbn [app].
    destruct (rev r) as [|y r'] eqn:Hrr.
    + cbn [app]. unfold occupiesSpaceAt. rewrite Hres. exact Hocc.
    + apply (Hvis l1 (y :: r')); [exact E | discriminate].
Qed.

(** X9. The two searches agree on what a visible text node is and
    look from the two ends of the same list: [getNextTextNode] answers
    the first, and [getLastNonEmptyTextNode] the last, of the text nodes
    with some text of the subtree, in document order, that are not below
    a child element without an area; so one finds a node exactly when
    the other does. What they find is never hidden: every node from it
    up to the root of the search, the root left out, occupies space. *)
Theorem searches_find_first_and_last_visible_text :
  (forall root self,
      getNextTextNode root self = hd_error (visibleTexts root self)
      /\ getLastNonEmptyTextNode root self
         = hd_error (rev (visibleTexts root self)))
  /\ (forall root self,
         getNextTextNode root self = None
         <-> getLastNonEmptyTextNode root self = None)
  /\ (forall body root self t,
         resolve body self = Some root ->
         getNextTextNode root self = Some t
         \/ getLastNonEmptyTextNode root self = Some t ->
         nonEmptyText body t /\ visibleBelow body self t).
Proof.
  split; [|split].
  - intros root self. split.
    + apply getNextTextNode_first.
    + apply getLastNonEmptyTextNode_last.
  - intros root self.
    rewrite getNextTextNode_first, getLastNonEmptyTextNode_last.
    destruct (visibleTexts root self) as [|x l] eqn:E; [split; reflexivity|].
    split; [discriminate|].
    destruct (rev (x :: l)) as [|y r] eqn:Hr; [|discriminate].
    apply (f_equal (@rev NodeRef)) in Hr. rewrite rev_involutive in Hr.
    discriminate.
  - intros body root self t Hself Hfound.
    apply (visibleTexts_visible body root self t Hself).
    destruct Hfound as [H | H].
    + rewrite getNextTextNode_first in H.
      destruct (visibleTexts root self) as [|x l]; [discriminate|].
      injection H as ->. left. reflexivity.
    + rewrite getLastNonEmptyTextNode_last in H.
      apply in_rev.
      destruct (rev (visibleTexts root self)) as [|x l]; [discriminate|].
      injection H as ->. left. reflexivity.
Qed.

Lemma searches_find_first_and_last_visible_text_witness :
  nonEmptyText
    (ElementNode 300 100
       [ElementNode 0 0 [run "no"]; ElementNode 300 20 [run ""; run "ab"]])
    [1%nat; 1%nat]
  /\ visibleBelow
       (ElementNode 300 100
          [ElementNode 0 0 [run "no"]; ElementNode 300 20 [run ""; run "ab"]])
       [] [1%nat; 1%nat].
Proof.
  apply (proj2 (proj2 searches_find_first_and_last_visible_text)
           (ElementNode 300 100
              [ElementNode 0 0 [run "no"];
               ElementNode 300 20 [run ""; run "ab"]])
           (ElementNode 300 100
              [ElementNode 0 0 [run "no"];
               ElementNode 300 20 [run ""; run "ab"]])
           [] [1%nat; 1%nat]).
  - reflexivity.
  - left. reflexivity.
Defined.

(** ** The test of the client rectangles of the seed *)

Lemma adjacentRectsDiffer_two (rects : list Rect) :
  Incremental.adjacentRectsDiffer rects = true -> twoDistinctInARow rects.
Proof.
  induction rects as [|r1 rest IH]; cbn [Incremental.adjacentRectsDiffer];
    [discriminate|].
  destruct rest as [|r2 rest]; [discriminate|].
  destruct (rectOccupiesSpace r1 && rectOccupiesSpace r2
            && (negb (left r1 =? left r2) || negb (top r1 =? top r2)
                || negb (width r1 =? width r2)
                || negb (height r1 =? height r2))) eqn:Hpair.
  - intros _. exists [], r1, r2, rest.
    apply andb_true_iff in Hpair. destruct Hpair as [Hocc Hd].
    apply andb_true_iff in Hocc. destruct Hocc as [H1 H2].
    split; [reflexivity|]. split; [exact H1|]. split; [exact H2|].
    repeat (apply orb_true_iff in Hd; destruct Hd as [Hd | Hd]);
      apply negb_true_iff, Z.eqb_neq in Hd; tauto.
  - intros H. destruct (IH H) as (l1 & a & b & l2 & E & H1 & H2 & Hd).
    exists (r1 :: l1), a, b, l2. rewrite E. repeat split; assumption.
Qed.

(** X10. [hasMoreThanOne], the test of the revision with running
    bounds on the client rectangles of the seed, answers [true] exactly
    when two rectangles that follow one another in the list both have an
    area and differ in position or size. So it never answers [true] on
    fewer than two rectangles, on copies of one rectangle, or for two
    rectangles with an area that a rectangle without an area
    separates. *)
Theorem hasMoreThanOne_is_two_distinct_in_a_row :
  (forall rects,
      Incremental.hasMoreThanOne rects = true <-> twoDistinctInARow rects)
  /\ (forall r n, Incremental.hasMoreThanOne (repeat r n) = false)
  /\ (forall r1 flat r2,
         rectOccupiesSpace flat = false ->
         Incremental.hasMoreThanOne [r1; flat; r2] = false).
Proof.
  split; [|split].
  - intros rects. split; [|apply hasMoreThanOne_true].
    unfold Incremental.hasMoreThanOne.
    destruct (length rects <=? 1)%nat; [discriminate|].
    apply adjacentRectsDiffer_two.
  - intros r n. unfold Incremental.hasMoreThanOne.
    destruct (length (repeat r n) <=? 1)%nat; [reflexivity|].
    induction n as [|n IH]; [reflexivity|].
    cbn [repeat Incremental.adjacentRectsDiffer].
    destruct n as [|n]; [reflexivity|]. cbn [repeat] in *.
    rewrite !Z.eqb_refl. cbn [negb orb]. rewrite andb_false_r. exact IH.
  - intros r1 flat r2 Hflat. unfold Incremental.hasMoreThanOne.
    cbn [length Nat.leb Incremental.adjacentRectsDiffer].
    rewrite Hflat. rewrite andb_false_r. reflexivity.
Qed.

Lemma hasMoreThanOne_is_two_distinct_in_a_row_witness :
  Incremental.hasMoreThanOne [monoRect 0 1; mkRect 5 5 5 5; monoRect 0 2]
  = false.
Proof.
  apply (proj2 (proj2 hasMoreThanOne_is_two_distinct_in_a_row)).
  reflexivity.
Defined.

(** ** The two classifiers of characters *)

(** X11. How the classifiers relate. Every whitespace character is a
    delimiter in both revisions. The two revisions classify every
    character alike but the em dash, a delimiter in the revision with
    running bounds only. A character that line expansion skips as
    zero-width and that is not whitespace (a soft hyphen, a zero-width
    joiner) is a word character, so a word may hold it. And a character
    that is not there ([text[i]] out of bounds, [undefined]) is a word
    character for both. *)
Theorem classifiers_relate :
  (forall c,
      regexWhiteSpace c = true ->
      Incremental.isDelimiter (Some c) = true
      /\ Recompute.isDelimiter (Some c) = true)
  /\ (forall ch,
         Incremental.isDelimiter ch <> Recompute.isDelimiter ch
         <-> ch = Some emDash)
  /\ (forall c,
         isWhitespaceOrZeroWidth (Some c) = true ->
         regexWhiteSpace c = false ->
         Incremental.isWordChar (Some c) = true
         /\ Recompute.isWordChar (Some c) = true)
  /\ (Incremental.isWordChar None = true /\ Recompute.isWordChar None = true
      /\ isWhitespaceOrZeroWidth None = false).
Proof.
  split; [|split; [|split]].
  - intros c Hws. split.
    + apply isDelimiter_incremental_spec. left. exact Hws.
    + apply isDelimiter_recompute_spec. left. exact Hws.
  - intros [c|]; [|split; [intros H; exfalso; apply H; reflexivity
                           | discriminate]].
    split.
    + intros Hne.
      destruct (Incremental.isDelimiter (Some c)) eqn:EI;
        destruct (Recompute.isDelimiter (Some c)) eqn:ER;
        try (exfalso; apply Hne; reflexivity).
      * apply isDelimiter_incremental_spec in EI.
        assert (Hno : ~ DelimiterChar [hyphenMinus; enDash] c).
        { intros H. apply isDelimiter_recompute_spec in H. congruence. }
        unfold DelimiterChar in *. cbn [In] in *.
        f_equal. symmetry. tauto.
      * apply isDelimiter_recompute_spec in ER.
        assert (Hno : ~ DelimiterChar [hyphenMinus; emDash; enDash] c).
        { intros H. apply isDelimiter_incremental_spec in H. congruence. }
        unfold DelimiterChar in *. cbn [In] in *. exfalso. tauto.
    + intros E. injection E as ->. vm_compute. discriminate.
  - intros c Hzw Hws.
    cbn [isWhitespaceOrZeroWidth] in Hzw. rewrite Hws in Hzw.
    cbn [orb] in Hzw.
    assert (Hfmt : c = 173 \/ 1536 <= c <= 1541 \/ c = 1564 \/ c = 1757
                   \/ c = 1807 \/ 2192 <= c <= 2193 \/ c = 2274 \/ c = 6158
                   \/ 8203 <= c <= 8207 \/ 8234 <= c <= 8238
                   \/ 8288 <= c <= 8292 \/ 8294 <= c <= 8303 \/ c = 65279
                   \/ 65529 <= c <= 65531).
    { unfold regexFormat, inRange in Hzw.
      repeat rewrite orb_true_iff in Hzw.
      repeat rewrite andb_true_iff in Hzw.
      repeat rewrite Z.eqb_eq in Hzw. repeat rewrite Z.leb_le in Hzw.
      tauto. }
    assert (Hnot : ~ DelimiterChar [hyphenMinus; emDash; enDash] c).
    { unfold DelimiterChar. cbn [In]. rewrite Hws.
      unfold underscore, hyphenMinus, emDash, enDash, slash, openParen,
        closeParen, openCurly, closeCurly, openSquare, closeSquare, comma,
        dot, colon, semicolon, questionMark, exclamationMark, ellipsis.
      intros H. repeat (destruct H as [H | H]); try discriminate; try lia. }
    unfold Incremental.isWordChar, Recompute.isWordChar. split.
    + destruct (Incremental.isDelimiter (Some c)) eqn:E; [|reflexivity].
      apply isDelimiter_incremental_spec in E. contradiction.
    + destruct (Recompute.isDelimiter (Some c)) eqn:E; [|reflexivity].
      apply isDelimiter_recompute_spec in E. exfalso. apply Hnot.
      unfold DelimiterChar in *. cbn [In] in *. tauto.
  - repeat split.
Qed.

Lemma classifiers_relate_witness :
  (Incremental.isDelimiter (Some 160) = true
   /\ Recompute.isDelimiter (Some 160) = true)
  /\ (Incremental.isWordChar (Some 173) = true
      /\ Recompute.isWordChar (Some 173) = true).
Proof.
  split.
  - apply (proj1 classifiers_relate). reflexivity.
  - apply (proj1 (proj2 (proj2 classifiers_relate))); reflexivity.
Defined.

(** ** The position at the end of a run *)

(** X12. At the end of a text run (the offset is the length of the
    run: the pointer is after the last word of a paragraph, or on a
    letter that an empty run follows) word resolution does not look at
    any character under the position: it returns the run of word
    characters that ends there joined with the one that starts in the
    sibling runs that follow, whatever the character before is. The text
    before the start followed by [wordBefore] is the text before the
    position, and the text before the end is the text before the
    position followed by [wordAfter]. *)
Theorem word_at_the_end_of_a_run :
  forall (body : Node) (isDelimiter : option codeunit -> bool) (q : NodeRef)
         (i : nat) (t : list codeunit) (fuel : nat) (wr : Range),
    nth_error (childrenAt body q) i = Some (TextNode t) ->
    (length (childrenAt body q) < fuel)%nat ->
    exists js os je oe,
      setHighlightWordRange body isDelimiter fuel wr
        (Some (mkCaret (i :: q) (length t)))
      = Ok (mkRange (js :: q) os (je :: q) oe)
      /\ (js <= i <= je)%nat
      /\ textBefore (childrenAt body q) js os
         ++ wordBefore isDelimiter (childrenAt body q) i (length t)
         = textBefore (childrenAt body q) i (length t)
      /\ textBefore (childrenAt body q) je oe
         = textBefore (childrenAt body q) i (length t)
           ++ wordAfter isDelimiter (childrenAt body q) i (length t).
Proof.
  intros body isDelimiter q i t fuel wr Hi Hfuel.
  destruct (sibling_text body q i t Hi) as [Htext Hcontent].
  unfold setHighlightWordRange. cbn [offsetNode offset].
  unfold NodeRef in *. rewrite Htext, Hcontent. cbn [negb].
  rewrite Nat.leb_refl.
  assert (Hilt : (i < length (childrenAt body q))%nat)
    by (apply nth_error_Some; rewrite Hi; discriminate).
  pose proof (textsIn_length (skipn (S i) (childrenAt body q))) as Hti.
  rewrite length_skipn in Hti.
  destruct (findWordEnd_spec body isDelimiter q fuel i t (length t) Hi) as
    (je & te & oe & Hend & Hje & Hte & Hoe & Htbe); [lia | lia |].
  destruct (findWordStart_spec body isDelimiter q fuel i t (length t) Hi) as
    (js & ts & os & Hstart & Hjs & Hts & Hos & Hor & Htbs); [lia | lia |].
  rewrite Hend. cbn [bind]. rewrite Hstart. cbn [bind].
  exists js, os, je, oe.
  split; [reflexivity|]. split; [lia|]. split.
  - unfold wordBefore. rewrite (nth_error_nth _ _ _ Hi). cbn [textOf].
    exact Htbs.
  - unfold wordAfter. rewrite (nth_error_nth _ _ _ Hi). cbn [textOf].
    exact Htbe.
Qed.

Lemma word_at_the_end_of_a_run_witness :
  exists js os je oe,
    setHighlightWordRange (paragraph [run "to be"; run ""; run "gin."])
      Recompute.isDelimiter 4 createRange (Some (mkCaret (runRef 0) 5))
    = Ok (mkRange [js; 0%nat] os [je; 0%nat] oe)
    /\ (js <= 0 <= je)%nat
    /\ textBefore [run "to be"; run ""; run "gin."] js os
       ++ wordBefore Recompute.isDelimiter
            [run "to be"; run ""; run "gin."] 0 5
       = textBefore [run "to be"; run ""; run "gin."] 0 5
    /\ textBefore [run "to be"; run ""; run "gin."] je oe
       = textBefore [run "to be"; run ""; run "gin."] 0 5
         ++ wordAfter Recompute.isDelimiter
              [run "to be"; run ""; run "gin."] 0 5.
Proof.
  apply (word_at_the_end_of_a_run
           (paragraph [run "to be"; run ""; run "gin."])
           Recompute.isDelimiter [0%nat] 0%nat (str "to be") 4%nat
           createRange).
  - reflexivity.
  - simpl. lia.
Defined.

(** ** Turning the extension on and off *)

Section Toggle.

Variable ScriptState : Type.
Variable target : EventTarget.
Variable initialState : ScriptState.
Variable pointerLeaveHandler : ScriptState -> ScriptState.
Variable writeColor : string -> option string -> StyleCall.

Let script := injectedScript target initialState pointerLeaveHandler
                writeColor.

Lemma sameListener_refl (l : Listener) : sameListener l l = true.
Proof.
  destruct l as [[|] [|] [r | r]]; unfold sameListener; simpl;
    apply Nat.eqb_refl.
Qed.

Lemma sameListener_run (l l' : Listener) :
  sameListener l l' = true ->
  callbackRun (l_callback l) = callbackRun (l_callback l').
Proof.
  unfold sameListener. intros H.
  apply andb_true_iff in H. destruct H as [_ H].
  destruct (l_callback l), (l_callback l'); simpl in *;
    first [discriminate | apply Nat.eqb_eq; exact H].
Qed.

Lemma fresh_listener (ls : list Listener) (l : Listener) (n : nat) :
  (forall l', In l' ls -> (callbackRun (l_callback l') < n)%nat) ->
  callbackRun (l_callback l) = n ->
  existsb (sameListener l) ls = false.
Proof.
  intros Hall Hl. destruct (existsb (sameListener l) ls) eqn:E; [|reflexivity].
  apply existsb_exists in E. destruct E as (l' & Hin & Hsame).
  apply sameListener_run in Hsame. specialize (Hall l' Hin). lia.
Qed.

Lemma removeEventListener_fresh (ls rest : list Listener) (l : Listener) :
  existsb (sameListener l) ls = false ->
  removeEventListener (ls ++ l :: rest) l = ls ++ rest.
Proof.
  induction ls as [|a ls IH]; intros H; cbn [app removeEventListener].
  - rewrite sameListener_refl. reflexivity.
  - cbn [existsb] in H. apply orb_false_iff in H. destruct H as [Ha Hls].
    rewrite Ha, (IH Hls). reflexivity.
Qed.

Lemma highlights_set_fresh (m : list (string * list RangeObject)) k v :
  highlights_get m k = None -> highlights_set m k v = m ++ [(k, v)].
Proof.
  induction m as [|[k' v'] m IH]; intros H; cbn [highlights_set app];
    [reflexivity|].
  cbn [highlights_get] in H. destruct (String.eqb k' k); [discriminate|].
  rewrite (IH H). reflexivity.
Qed.

Lemma highlights_delete_fresh (m rest : list (string * list RangeObject)) k v :
  highlights_get m k = None ->
  highlights_delete (m ++ (k, v) :: rest) k = m ++ rest.
Proof.
  induction m as [|[k' v'] m IH]; intros H; cbn [highlights_delete app].
  - rewrite String.eqb_refl. reflexivity.
  - cbn [highlights_get] in H. destruct (String.eqb k' k); [discriminate|].
    rewrite (IH H). reflexivity.
Qed.

Lemma highlights_get_app_other (m : list (string * list RangeObject)) k k' v :
  String.eqb k' k = false ->
  highlights_get m k = None ->
  highlights_get (m ++ [(k', v)]) k = None.
Proof.
  intros Hk. induction m as [|[k0 v0] m IH]; intros H;
    cbn [highlights_get app].
  - rewrite Hk. reflexivity.
  - cbn [highlights_get] in H. destruct (String.eqb k0 k); [discriminate|].
    exact (IH H).
Qed.

Lemma updateRun_last (rs : list ScriptState) (s : ScriptState)
  (f : ScriptState -> ScriptState) :
  updateRun (rs ++ [s]) (length rs) f = rs ++ [f s].
Proof.
  induction rs as [|a rs IH]; cbn [updateRun app length]; [reflexivity|].
  rewrite IH. reflexivity.
Qed.

Lemma updateRun_length (rs : list ScriptState) r f :
  length (updateRun rs r f) = length rs.
Proof.
  revert r. induction rs as [|a rs IH]; intros r; [reflexivity|].
  destruct r; cbn [updateRun length]; [reflexivity | rewrite IH; reflexivity].
Qed.

(** Turning on, from a page that is off. *)
Lemma script_turns_on page args :
  wellFormedPage page ->
  hoverHighlighterInfo page = None ->
  hoverHighlighterArgs page = Some args ->
  namesFree page ->
  script page
  = ({| hoverHighlighterInfo := Some (length (runs page));
        hoverHighlighterArgs := Some args;
        listeners :=
          listeners page
          ++ [mkListener target Pointermove
                (PointerMoveHandlerOf (length (runs page)));
              mkListener target Pointerleave
                (PointerLeaveHandlerOf (length (runs page)))];
        highlights :=
          highlights page
          ++ [(CSS_HIGHLIGHT_LINE_KEY, [LineRangeOf (length (runs page))]);
              (CSS_HIGHLIGHT_WORD_KEY, [WordRangeOf (length (runs page))])];
        styleCalls :=
          [writeColor "--hover_highlighter-word_text_color"
             (wordTextColor args);
           writeColor "--hover_highlighter-word_background_color"
             (wordBackgroundColor args);
           writeColor "--hover_highlighter-line_text_color"
             (lineTextColor args);
           writeColor "--hover_highlighter-line_background_color"
             (lineBackgroundColor args)] ++ styleCalls page;
        runs := runs page ++ [initialState] |},
     Some true).
Proof.
  intros [Hls _] Hinfo Hargs [Hline Hword].
  unfold script, injectedScript. rewrite Hinfo, Hargs.
  rewrite (highlights_set_fresh _ _ _ Hline).
  rewrite (highlights_set_fresh _ CSS_HIGHLIGHT_WORD_KEY);
    [|apply highlights_get_app_other; [reflexivity | exact Hword]].
  set (m := mkListener target Pointermove
              (PointerMoveHandlerOf (length (runs page)))).
  set (lv := mkListener target Pointerleave
               (PointerLeaveHandlerOf (length (runs page)))).
  assert (Hm : existsb (sameListener m) (listeners page) = false)
    by (apply (fresh_listener _ m (length (runs page)) Hls); reflexivity).
  assert (Hlv : existsb (sameListener lv) (listeners page) = false)
    by (apply (fresh_listener _ lv (length (runs page)) Hls); reflexivity).
  unfold addEventListener. rewrite Hm.
  rewrite existsb_app, Hlv. cbn [existsb orb].
  assert (Hdiff : sameListener lv m = false).
  { unfold sameListener, lv, m. cbn [l_type l_target l_callback].
    destruct target; reflexivity. }
  rewrite Hdiff. rewrite <- !app_assoc. reflexivity.
Qed.

(** Turning off what [script_turns_on] turned on. *)
Lemma script_round_trip page args :
  wellFormedPage page ->
  hoverHighlighterInfo page = None ->
  hoverHighlighterArgs page = Some args ->
  namesFree page ->
  script (fst (script page))
  = ({| hoverHighlighterInfo := None;
        hoverHighlighterArgs := Some args;
        listeners := listeners page;
        highlights := highlights page;
        styleCalls := styleCalls (fst (script page));
        runs := runs page ++ [pointerLeaveHandler initialState] |},
     Some false).
Proof.
  intros Hwf Hinfo Hargs Hfree.
  rewrite (script_turns_on page args Hwf Hinfo Hargs Hfree).
  destruct Hwf as [Hls _]. destruct Hfree as [Hline Hword].
  unfold script, injectedScript.
  cbn [fst hoverHighlighterInfo hoverHighlighterArgs listeners highlights
       styleCalls runs].
  set (m := mkListener target Pointermove
              (PointerMoveHandlerOf (length (runs page)))).
  set (lv := mkListener target Pointerleave
               (PointerLeaveHandlerOf (length (runs page)))).
  assert (Hm : existsb (sameListener m) (listeners page) = false)
    by (apply (fresh_listener _ m (length (runs page)) Hls); reflexivity).
  assert (Hlv : existsb (sameListener lv) (listeners page) = false)
    by (apply (fresh_listener _ lv (length (runs page)) Hls); reflexivity).
  rewrite (removeEventListener_fresh (listeners page) [lv] m Hm).
  rewrite (removeEventListener_fresh (listeners page) [] lv Hlv).
  rewrite app_nil_r, updateRun_last.
  replace (highlights page
           ++ [(CSS_HIGHLIGHT_LINE_KEY, [LineRangeOf (length (runs page))]);
               (CSS_HIGHLIGHT_WORD_KEY, [WordRangeOf (length (runs page))])])
    with ((highlights page
           ++ [(CSS_HIGHLIGHT_LINE_KEY, [LineRangeOf (length (runs page))])])
          ++ (CSS_HIGHLIGHT_WORD_KEY, [WordRangeOf (length (runs page))]) :: [])
    by (rewrite <- app_assoc; reflexivity).
  rewrite highlights_delete_fresh;
    [|apply highlights_get_app_other; [reflexivity | exact Hword]].
  rewrite app_nil_r, (highlights_delete_fresh (highlights page) [] _ _ Hline).
  rewrite app_nil_r. reflexivity.
Qed.

End Toggle.

Section ToggleMore.

Variable ScriptState : Type.
Variable target : EventTarget.
Variable initialState : ScriptState.
Variable pointerLeaveHandler : ScriptState -> ScriptState.
Variable writeColor : string -> option string -> StyleCall.
Variable move : ScriptState -> PointerEvent -> result ScriptState.

Let script := injectedScript target initialState pointerLeaveHandler
                writeColor.

(** Without [window.hoverHighlighterArgs] the script throws after it
    has registered its highlights and its listeners, and before it
    records that it is on. *)
Lemma script_without_args page :
  wellFormedPage page ->
  hoverHighlighterInfo page = None ->
  hoverHighlighterArgs page = None ->
  snd (script page) = None
  /\ hoverHighlighterInfo (fst (script page)) = None
  /\ hoverHighlighterArgs (fst (script page)) = None
  /\ listeners (fst (script page))
     = listeners page
       ++ [mkListener target Pointermove
             (PointerMoveHandlerOf (length (runs page)));
           mkListener target Pointerleave
             (PointerLeaveHandlerOf (length (runs page)))]
  /\ runs (fst (script page)) = runs page ++ [initialState]
  /\ styleCalls (fst (script page)) = styleCalls page
  /\ wellFormedPage (fst (script page)).
Proof.
  intros [Hls Hinf] Hinfo Hargs.
  unfold script, injectedScript. rewrite Hinfo, Hargs.
  cbn [fst snd hoverHighlighterInfo hoverHighlighterArgs listeners runs
       styleCalls].
  set (m := mkListener target Pointermove
              (PointerMoveHandlerOf (length (runs page)))).
  set (lv := mkListener target Pointerleave
               (PointerLeaveHandlerOf (length (runs page)))).
  assert (Hm : existsb (sameListener m) (listeners page) = false)
    by (apply (fresh_listener _ m (length (runs page)) Hls); reflexivity).
  assert (Hlv : existsb (sameListener lv) (listeners page) = false)
    by (apply (fresh_listener _ lv (length (runs page)) Hls); reflexivity).
  assert (Hdiff : sameListener lv m = false).
  { unfold sameListener, lv, m. cbn [l_type l_target l_callback].
    destruct target; reflexivity. }
  assert (Hadd : addEventListener (addEventListener (listeners page) m) lv
                 = listeners page ++ [m; lv]).
  { unfold addEventListener. rewrite Hm, existsb_app, Hlv.
    cbn [existsb orb]. rewrite Hdiff. rewrite <- app_assoc. reflexivity. }
  rewrite Hadd.
  split; [reflexivity|]. split; [reflexivity|]. split; [reflexivity|].
  split; [reflexivity|]. split; [reflexivity|]. split; [reflexivity|].
  split; cbn [listeners runs hoverHighlighterInfo]; [|discriminate].
  intros l Hin. rewrite length_app. cbn [length].
  apply in_app_or in Hin. destruct Hin as [Hin | [<- | [<- | []]]].
  - specialize (Hls l Hin). lia.
  - cbn [m l_callback callbackRun]. lia.
  - cbn [lv l_callback callbackRun]. lia.
Qed.

Lemma runTimes_without_args n :
  forall page,
    wellFormedPage page ->
    hoverHighlighterInfo page = None ->
    hoverHighlighterArgs page = None ->
    snd (runTimes script n page) = repeat None n
    /\ hoverHighlighterInfo (fst (runTimes script n page)) = None
    /\ length (listeners (fst (runTimes script n page)))
       = (length (listeners page) + 2 * n)%nat
    /\ length (runs (fst (runTimes script n page)))
       = (length (runs page) + n)%nat.
Proof.
  induction n as [|n IH]; intros page Hwf Hinfo Hargs; cbn [runTimes].
  - cbn [fst snd repeat]. repeat split; try assumption; lia.
  - destruct (script_without_args page Hwf Hinfo Hargs)
      as (H1 & H2 & H3 & H4 & H5 & _ & H7).
    destruct (script page) as [page1 answer]. cbn [fst snd] in *.
    destruct (IH page1 H7 H2 H3) as (I1 & I2 & I3 & I4).
    destruct (runTimes script n page1) as [page2 answers].
    cbn [fst snd repeat] in *. subst answer answers.
    split; [reflexivity|]. split; [exact I2|].
    rewrite I3, I4, H4, H5, !length_app. cbn [length]. lia.
Qed.

Lemma sameTarget_refl (t : EventTarget) : sameTarget t t = true.
Proof. destruct t; reflexivity. Qed.

(** While the extension is on, the listeners of a run that are on their
    target: a pointer-move runs the handler once, on the state of the
    run; a pointer-leave runs [pointerLeaveHandler]; on another object
    nothing runs. *)
Lemma invokeAll_on (rs : list ScriptState) event :
  let ls := listenersOf target (length rs) in
  invokeAll pointerLeaveHandler move ls target Pointermove event
    (rs ++ [initialState])
  = (s' <- move initialState event ;; Ok (rs ++ [s']))
  /\ invokeAll pointerLeaveHandler move ls target Pointerleave event
       (rs ++ [initialState])
     = Ok (rs ++ [pointerLeaveHandler initialState])
  /\ (forall other type rs',
         sameTarget target other = false ->
         invokeAll pointerLeaveHandler move ls other type event rs' = Ok rs').
Proof.
  intros ls. unfold ls, listenersOf.
  split; [|split].
  - cbn [invokeAll l_target l_type l_callback sameType].
    rewrite sameTarget_refl. cbn [andb invoke].
    rewrite nth_error_app2, Nat.sub_diag by apply Nat.le_refl.
    cbn [nth_error]. rewrite ?andb_false_r.
    destruct (move initialState event) as [s' | |]; cbn [bind];
      try reflexivity.
    rewrite updateRun_last. reflexivity.
  - cbn [invokeAll l_target l_type l_callback sameType].
    rewrite sameTarget_refl. cbn [andb invoke bind].
    rewrite ?andb_false_r, updateRun_last. reflexivity.
  - intros other type rs' Hother.
    cbn [invokeAll l_target l_type l_callback]. rewrite Hother.
    reflexivity.
Qed.

(** The page after the script turned it on, and after the script
    turned it off again. *)
Lemma pages_on_and_off page args :
  wellFormedPage page ->
  hoverHighlighterInfo page = None ->
  hoverHighlighterArgs page = Some args ->
  namesFree page ->
  listeners page = [] ->
  listeners (fst (script page)) = listenersOf target (length (runs page))
  /\ runs (fst (script page)) = runs page ++ [initialState]
  /\ listeners (fst (script (fst (script page)))) = [].
Proof.
  intros Hwf Hinfo Hargs Hfree Hnone.
  unfold script.
  rewrite (script_round_trip _ target initialState pointerLeaveHandler
             writeColor page args Hwf Hinfo Hargs Hfree).
  rewrite (script_turns_on _ target initialState pointerLeaveHandler
             writeColor page args Hwf Hinfo Hargs Hfree).
  cbn [fst listeners runs]. rewrite Hnone. repeat split.
Qed.

Lemma dispatch_off (page : Page ScriptState) origin type event :
  listeners page = [] ->
  dispatch pointerLeaveHandler move page origin type event = Ok (runs page).
Proof.
  intros Hnone. unfold dispatch. rewrite Hnone.
  destruct type, origin; reflexivity.
Qed.

End ToggleMore.

Lemma script_toggles (St : Type) target (initialState : St)
  pointerLeaveHandler writeColor page args :
  readyToTurnOn page args ->
  togglesOnAndOff
    (injectedScript target initialState pointerLeaveHandler writeColor)
    target initialState pointerLeaveHandler writeColor page args.
Proof.
  intros (Hwf & Hinfo & Hargs & Hfree). unfold togglesOnAndOff.
  rewrite (script_round_trip _ target initialState pointerLeaveHandler
             writeColor page args Hwf Hinfo Hargs Hfree).
  rewrite (script_turns_on _ target initialState pointerLeaveHandler
             writeColor page args Hwf Hinfo Hargs Hfree).
  cbn [fst snd hoverHighlighterInfo hoverHighlighterArgs listeners highlights
       styleCalls runs].
  repeat (split; [reflexivity|]).
  split; [|split; [reflexivity | split; [reflexivity | exact Hfree]]].
  destruct Hwf as [Hls _]. split; cbn [listeners runs hoverHighlighterInfo];
    [|discriminate].
  intros l Hin. specialize (Hls l Hin). rewrite length_app. lia.
Qed.

(** X13. The injected script is a toggle. Run on a page that is
    off (the window property is not set, the arguments are there and no
    highlight has one of its two names), it answers [true], registers
    the line highlight and then the word highlight, so that the word
    paints over the line, adds one pointer-move and one pointer-leave
    listener (on [document] in the revision with running bounds, on
    [document.body] in the other) and writes the four colours; run
    again, it answers [false] and takes all of it back but the colours:
    the listeners and the highlights are those before the first run,
    the ranges of the run are collapsed by [pointerLeaveHandler], and
    the page is ready to be turned on again. The revision with running
    bounds removes the property of a colour that is missing; the other
    passes the missing value to [setProperty]. *)
Theorem injected_script_toggles :
  (forall page args,
      readyToTurnOn page args ->
      togglesOnAndOff Incremental_injectedScript TargetDocument
        Incremental.initialState Incremental.pointerLeaveHandler
        updateProperty page args)
  /\ (forall page args,
         readyToTurnOn page args ->
         togglesOnAndOff Recompute_injectedScript TargetBody
           Recompute.initialState Recompute.pointerLeaveHandler
           SetProperty page args)
  /\ (forall name value,
         updateProperty name value <> SetProperty name None
         /\ (value = None -> updateProperty name value = RemoveProperty name)).
Proof.
  split; [|split].
  - intros page args Hready. apply script_toggles. exact Hready.
  - intros page args Hready. apply script_toggles. exact Hready.
  - intros name [v|]; split; try discriminate; reflexivity.
Qed.

Lemma injected_script_toggles_witness :
  togglesOnAndOff Incremental_injectedScript TargetDocument
    Incremental.initialState Incremental.pointerLeaveHandler updateProperty
    (freshPage (Some partialArgs)) partialArgs
  /\ togglesOnAndOff Recompute_injectedScript TargetBody
       Recompute.initialState Recompute.pointerLeaveHandler SetProperty
       (freshPage (Some partialArgs)) partialArgs.
Proof.
  split.
  - apply (proj1 injected_script_toggles).
    split; [split; [intros l [] | discriminate]|].
    split; [reflexivity|]. split; [reflexivity|]. split; reflexivity.
  - apply (proj1 (proj2 injected_script_toggles)).
    split; [split; [intros l [] | discriminate]|].
    split; [reflexivity|]. split; [reflexivity|]. split; reflexivity.
Defined.

(** X14. When [window.hoverHighlighterArgs] is not set, the script
    throws (reading a property of [undefined]) after it has registered
    its highlights and added its two listeners, and before it records
    in the window that it is on; no colour is written. So the next run
    does not turn the extension off: it starts a new run and throws
    again, and after [n] runs there are [2 * n] listeners more and [n]
    pairs of ranges. *)
Theorem script_without_arguments_throws_and_piles_up :
  (forall page n,
      wellFormedPage page ->
      hoverHighlighterInfo page = None ->
      hoverHighlighterArgs page = None ->
      snd (Incremental_injectedScript page) = None
      /\ listeners (fst (Incremental_injectedScript page))
         = listeners page ++ listenersOf TargetDocument (length (runs page))
      /\ styleCalls (fst (Incremental_injectedScript page)) = styleCalls page
      /\ snd (runTimes Incremental_injectedScript n page) = repeat None n
      /\ hoverHighlighterInfo (fst (runTimes Incremental_injectedScript n page))
         = None
      /\ length (listeners (fst (runTimes Incremental_injectedScript n page)))
         = (length (listeners page) + 2 * n)%nat
      /\ length (runs (fst (runTimes Incremental_injectedScript n page)))
         = (length (runs page) + n)%nat)
  /\ (forall page n,
         wellFormedPage page ->
         hoverHighlighterInfo page = None ->
         hoverHighlighterArgs page = None ->
         snd (Recompute_injectedScript page) = None
         /\ listeners (fst (Recompute_injectedScript page))
            = listeners page ++ listenersOf TargetBody (length (runs page))
         /\ styleCalls (fst (Recompute_injectedScript page)) = styleCalls page
         /\ snd (runTimes Recompute_injectedScript n page) = repeat None n
         /\ hoverHighlighterInfo
              (fst (runTimes Recompute_injectedScript n page)) = None
         /\ length (listeners (fst (runTimes Recompute_injectedScript n page)))
            = (length (listeners page) + 2 * n)%nat
         /\ length (runs (fst (runTimes Recompute_injectedScript n page)))
            = (length (runs page) + n)%nat).
Proof.
  split.
  - intros page n Hwf Hinfo Hargs.
    destruct (script_without_args _ TargetDocument Incremental.initialState
                Incremental.pointerLeaveHandler updateProperty page
                Hwf Hinfo Hargs) as (H1 & _ & _ & H4 & _ & H6 & _).
    destruct (runTimes_without_args _ TargetDocument Incremental.initialState
                Incremental.pointerLeaveHandler updateProperty n page
                Hwf Hinfo Hargs) as (R1 & R2 & R3 & R4).
    repeat split; assumption.
  - intros page n Hwf Hinfo Hargs.
    destruct (script_without_args _ TargetBody Recompute.initialState
                Recompute.pointerLeaveHandler SetProperty page
                Hwf Hinfo Hargs) as (H1 & _ & _ & H4 & _ & H6 & _).
    destruct (runTimes_without_args _ TargetBody Recompute.initialState
                Recompute.pointerLeaveHandler SetProperty n page
                Hwf Hinfo Hargs) as (R1 & R2 & R3 & R4).
    repeat split; assumption.
Qed.

Lemma script_without_arguments_throws_and_piles_up_witness :
  snd (Recompute_injectedScript (freshPage None)) = None
  /\ listeners (fst (Recompute_injectedScript (freshPage None)))
     = [] ++ listenersOf TargetBody 0
  /\ styleCalls (fst (Recompute_injectedScript (freshPage None)))
     = []
  /\ snd (runTimes Recompute_injectedScript 3 (freshPage None))
     = repeat None 3
  /\ hoverHighlighterInfo
       (fst (runTimes Recompute_injectedScript 3
               (freshPage None))) = None
  /\ length (listeners
               (fst (runTimes Recompute_injectedScript 3
                       (freshPage None))))
     = (0 + 2 * 3)%nat
  /\ length (runs
               (fst (runTimes Recompute_injectedScript 3
                       (freshPage None))))
     = (0 + 3)%nat.
Proof.
  apply (proj2 script_without_arguments_throws_and_piles_up
           (freshPage None) 3%nat).
  - split; [intros l [] | discriminate].
  - reflexivity.
  - reflexivity.
Defined.

(** X15. The handlers run only while the extension is on, and the
    two revisions hear different events, because one listens on
    [document] and the other on [document.body]. On a page without
    other listeners, once the script turned it on: with running bounds
    a pointer-move dispatched anywhere in the document runs the
    pointer-move handler once on the ranges of the run (the event
    bubbles up to [document]), and only a pointer-leave dispatched at
    [document] itself collapses them (the event does not bubble); in
    the revision that recomputes a pointer-move at the body or below it
    runs the handler once, one at the root element or at [document]
    runs nothing, and only a pointer-leave at the body collapses the
    ranges. Once the script turned the page off again, no event runs
    anything. *)
Theorem handlers_run_only_while_on :
  (forall body host fuel page args event,
      readyToTurnOn page args ->
      listeners page = [] ->
      let on := fst (Incremental_injectedScript page) in
      let off := fst (Incremental_injectedScript on) in
      (forall origin,
          Incremental_dispatch body host fuel on origin Pointermove event
          = (st' <- Incremental_move body host fuel Incremental.initialState
                      event ;;
             Ok (runs page ++ [st'])))
      /\ Incremental_dispatch body host fuel on AtDocument Pointerleave
           event
         = Ok (runs page
               ++ [Incremental.pointerLeaveHandler Incremental.initialState])
      /\ (forall origin,
             origin <> AtDocument ->
             Incremental_dispatch body host fuel on origin Pointerleave
               event
             = Ok (runs on))
      /\ (forall origin type,
             Incremental_dispatch body host fuel off origin type event
             = Ok (runs off)))
  /\ (forall body host fuel page args event,
         readyToTurnOn page args ->
         listeners page = [] ->
         let on := fst (Recompute_injectedScript page) in
         let off := fst (Recompute_injectedScript on) in
         (forall origin,
             origin = AtBody \/ origin = BelowBody ->
             Recompute_dispatch body host fuel on origin Pointermove event
             = (st' <- Recompute_move body host fuel Recompute.initialState
                         event ;;
                Ok (runs page ++ [st'])))
         /\ (forall origin,
                origin = AtDocument \/ origin = AtRoot ->
                Recompute_dispatch body host fuel on origin Pointermove event
                = Ok (runs on))
         /\ Recompute_dispatch body host fuel on AtBody Pointerleave event
            = Ok (runs page
                  ++ [Recompute.pointerLeaveHandler Recompute.initialState])
         /\ (forall origin,
                origin <> AtBody ->
                Recompute_dispatch body host fuel on origin Pointerleave
                  event
                = Ok (runs on))
         /\ (forall origin type,
                Recompute_dispatch body host fuel off origin type event
                = Ok (runs off))).
Proof.
  split.
  - intros body host fuel page args event (Hwf & Hinfo & Hargs & Hfree) Hnone
      on off.
    destruct (pages_on_and_off _ TargetDocument Incremental.initialState
                Incremental.pointerLeaveHandler updateProperty page args
                Hwf Hinfo Hargs Hfree Hnone) as (Hls & Hrs & Hoff).
    destruct (invokeAll_on _ TargetDocument Incremental.initialState
                Incremental.pointerLeaveHandler
                (Incremental_move body host fuel) (runs page) event)
      as (A1 & A2 & A3).
    fold Incremental_injectedScript in Hls, Hrs, Hoff. fold on in Hls, Hrs.
    split; [|split; [|split]].
    + intros origin. unfold Incremental_dispatch, dispatch.
      rewrite Hls, Hrs. cbn [bubbles].
      destruct origin; cbn [eventPath invokeAlong];
        rewrite ?(A3 TargetBody Pointermove _ eq_refl); cbn [bind];
        rewrite A1;
        destruct (Incremental_move body host fuel Incremental.initialState
                    event); reflexivity.
    + unfold Incremental_dispatch, dispatch. rewrite Hls, Hrs.
      cbn [bubbles targetOf invokeAlong]. rewrite A2. reflexivity.
    + intros origin Hne. unfold Incremental_dispatch, dispatch.
      rewrite Hls. cbn [bubbles].
      destruct origin; cbn [targetOf invokeAlong];
        [congruence | reflexivity | | reflexivity].
      rewrite (A3 TargetBody Pointerleave _ eq_refl). reflexivity.
    + intros origin type. apply dispatch_off. exact Hoff.
  - intros body host fuel page args event (Hwf & Hinfo & Hargs & Hfree) Hnone
      on off.
    destruct (pages_on_and_off _ TargetBody Recompute.initialState
                Recompute.pointerLeaveHandler SetProperty page args
                Hwf Hinfo Hargs Hfree Hnone) as (Hls & Hrs & Hoff).
    destruct (invokeAll_on _ TargetBody Recompute.initialState
                Recompute.pointerLeaveHandler
                (Recompute_move body host fuel) (runs page) event)
      as (A1 & A2 & A3).
    fold Recompute_injectedScript in Hls, Hrs, Hoff. fold on in Hls, Hrs.
    split; [|split; [|split; [|split]]].
    + intros origin Horigin. unfold Recompute_dispatch, dispatch.
      rewrite Hls, Hrs. cbn [bubbles].
      destruct Horigin as [-> | ->]; cbn [eventPath invokeAlong];
        rewrite A1;
        destruct (Recompute_move body host fuel Recompute.initialState
                    event); cbn [bind];
        rewrite ?(A3 TargetDocument Pointermove _ eq_refl); reflexivity.
    + intros origin Horigin. unfold Recompute_dispatch, dispatch.
      rewrite Hls. cbn [bubbles].
      destruct Horigin as [-> | ->]; cbn [eventPath invokeAlong];
        rewrite (A3 TargetDocument Pointermove _ eq_refl); reflexivity.
    + unfold Recompute_dispatch, dispatch. rewrite Hls, Hrs.
      cbn [bubbles targetOf invokeAlong]. rewrite A2. reflexivity.
    + intros origin Hne. unfold Recompute_dispatch, dispatch.
      rewrite Hls. cbn [bubbles].
      destruct origin; cbn [targetOf invokeAlong];
        [ | reflexivity | congruence | reflexivity].
      rewrite (A3 TargetDocument Pointerleave _ eq_refl). reflexivity.
    + intros origin type. apply dispatch_off. exact Hoff.
Qed.

Lemma handlers_run_only_while_on_witness :
  Incremental_dispatch (paragraph [run "ab cd"]) monoLine 200
    (fst (Incremental_injectedScript (freshPage (Some partialArgs))))
    BelowBody Pointermove (mkEvent 15 10)
  = (st' <- Incremental_move (paragraph [run "ab cd"]) monoLine 200
              Incremental.initialState (mkEvent 15 10) ;;
     Ok (runs (freshPage (Some partialArgs)) ++ [st']))
  /\ Recompute_dispatch (paragraph [run "ab cd"]) monoLine 200
       (fst (Recompute_injectedScript (freshPage (Some partialArgs))))
       AtRoot Pointermove (mkEvent 15 10)
     = Ok (runs (fst (Recompute_injectedScript
                        (freshPage (Some partialArgs)))))
  /\ Recompute_dispatch (paragraph [run "ab cd"]) monoLine 200
       (fst (Recompute_injectedScript (freshPage (Some partialArgs))))
       AtBody Pointerleave (mkEvent 15 10)
     = Ok (runs (freshPage (Some partialArgs))
           ++ [Recompute.pointerLeaveHandler Recompute.initialState]).
Proof.
  assert (Hready : forall St : Type,
             readyToTurnOn (freshPage (St := St) (Some partialArgs))
               partialArgs).
  { intros St. split; [split; [intros l [] | discriminate]|].
    split; [reflexivity|]. split; [reflexivity|]. split; reflexivity. }
  split; [|split].
  - apply (proj1 (proj1 handlers_run_only_while_on
                    (paragraph [run "ab cd"]) monoLine 200%nat
                    (freshPage (Some partialArgs)) partialArgs
                    (mkEvent 15 10) (Hready _) eq_refl)).
  - apply (proj1 (proj2 (proj2 handlers_run_only_while_on
                           (paragraph [run "ab cd"]) monoLine 200%nat
                           (freshPage (Some partialArgs)) partialArgs
                           (mkEvent 15 10) (Hready _) eq_refl))).
    right. reflexivity.
  - apply (proj1 (proj2 (proj2 (proj2 handlers_run_only_while_on
                                  (paragraph [run "ab cd"]) monoLine 200%nat
                                  (freshPage (Some partialArgs)) partialArgs
                                  (mkEvent 15 10) (Hready _) eq_refl)))).
Defined.

(** ** The service worker *)

Section Clicks.

Variable St : Type.
Variable target : EventTarget.
Variable initialState : St.
Variable pointerLeaveHandler : St -> St.
Variable writeColor : string -> option string -> StyleCall.
Variable policy : ThrowPolicy.
Variable carriesOut : ApiCall -> Tab St -> bool.
Variable args : Args.

Let script := injectedScript target initialState pointerLeaveHandler
                writeColor.
Let click := onClicked policy carriesOut (Some args) script.

Lemma removeCSS_head (css : list string) (file : string) :
  removeCSS (file :: css) file = css.
Proof. cbn [removeCSS]. rewrite String.eqb_refl. reflexivity. Qed.

Lemma promiseAll_turnedOn (tab : Tab St) :
  (forall call, carriesOut call tab = true) ->
  promiseAll carriesOut turnedOn tab
  = (setBadgeText "ON" (setTitle "Hover Highlighter (ON)" (insertCSS tab)),
     Fulfilled).
Proof.
  intros H. unfold promiseAll, turnedOn. cbn [fold_left forallb fst snd].
  rewrite !H. reflexivity.
Qed.

Lemma promiseAll_turnedOff (tab : Tab St) :
  (forall call, carriesOut call tab = true) ->
  promiseAll carriesOut turnedOff tab
  = (setBadgeText "" (setTitle "Hover Highlighter (OFF)"
                        (removeInjectedCSS tab)),
     Fulfilled).
Proof.
  intros H. unfold promiseAll, turnedOff. cbn [fold_left forallb fst snd].
  rewrite !H. reflexivity.
Qed.

(** A click on a tab that the extension may script: the script runs on
    the page with the arguments assigned, and the three calls that
    follow its answer are carried out. *)
Lemma click_scriptable (tab : Tab St) address :
  url tab = Some address ->
  String.prefix "chrome://" address = false ->
  scriptable carriesOut tab ->
  click tab
  = (let page := fst (script (withArgs (tabPage tab) args)) in
     match snd (script (withArgs (tabPage tab) args)) with
     | Some true =>
         setBadgeText "ON"
           (setTitle "Hover Highlighter (ON)"
              (insertCSS (withPage tab page)))
     | _ =>
         setBadgeText ""
           (setTitle "Hover Highlighter (OFF)"
              (removeInjectedCSS (withPage tab page)))
     end, Fulfilled).
Proof.
  intros Hurl Hprefix Hok. unfold click, onClicked. rewrite Hurl, Hprefix.
  unfold assignArgs. rewrite (Hok ExecuteScript tab eq_refl).
  change {| hoverHighlighterInfo := hoverHighlighterInfo (tabPage tab);
            hoverHighlighterArgs := Some args;
            listeners := listeners (tabPage tab);
            highlights := highlights (tabPage tab);
            styleCalls := styleCalls (tabPage tab);
            runs := runs (tabPage tab) |}
    with (withArgs (tabPage tab) args).
  rewrite (Hok ExecuteScript (withPage tab (withArgs (tabPage tab) args))
             eq_refl).
  cbn [withPage tabPage].
  assert (Hanswer : snd (script (withArgs (tabPage tab) args)) <> None).
  { unfold script, injectedScript.
    cbn [withArgs hoverHighlighterInfo hoverHighlighterArgs].
    destruct (hoverHighlighterInfo (tabPage tab)); discriminate. }
  destruct (script (withArgs (tabPage tab) args)) as [page [[|]|]];
    cbn [fst snd] in *; [| |congruence].
  - apply promiseAll_turnedOn. intros call. apply Hok. reflexivity.
  - apply promiseAll_turnedOff. intros call. apply Hok. reflexivity.
Qed.

Lemma click_in_sync (tab : Tab St) address :
  url tab = Some address ->
  String.prefix "chrome://" address = false ->
  scriptable carriesOut tab ->
  exists tab',
    click tab = (tab', Fulfilled) /\ inSync tab' /\ url tab' = url tab
    /\ hoverHighlighterArgs (tabPage tab') = Some args.
Proof.
  intros Hurl Hprefix Hok.
  rewrite (click_scriptable tab address Hurl Hprefix Hok).
  unfold script, injectedScript.
  cbn [withArgs hoverHighlighterInfo hoverHighlighterArgs].
  destruct (hoverHighlighterInfo (tabPage tab)) as [r|]; cbn [fst snd].
  - eexists. split; [reflexivity|]. split; [|split; reflexivity].
    right. repeat split.
  - eexists. split; [reflexivity|]. split; [|split; reflexivity].
    left. split; [discriminate|]. split; [reflexivity|].
    split; [reflexivity | left; reflexivity].
Qed.

Lemma click_twice (tab : Tab St) address :
  url tab = Some address ->
  String.prefix "chrome://" address = false ->
  scriptable carriesOut tab ->
  wellFormedPage (tabPage tab) ->
  hoverHighlighterInfo (tabPage tab) = None ->
  namesFree (tabPage tab) ->
  clickedTwice click tab.
Proof.
  intros Hurl Hprefix Hok Hwf Hinfo Hfree.
  assert (Hready : readyToTurnOn (withArgs (tabPage tab) args) args).
  { split; [exact Hwf|]. split; [exact Hinfo|].
    split; [reflexivity | exact Hfree]. }
  destruct Hready as (Hwf' & Hinfo' & Hargs' & Hfree').
  pose proof (script_turns_on _ target initialState pointerLeaveHandler
                writeColor _ args Hwf' Hinfo' Hargs' Hfree') as Hon.
  pose proof (script_round_trip _ target initialState pointerLeaveHandler
                writeColor _ args Hwf' Hinfo' Hargs' Hfree') as Hoff.
  rewrite Hon in Hoff. cbn [fst] in Hoff.
  fold script in Hon, Hoff.
  unfold clickedTwice.
  pose proof (click_scriptable tab address Hurl Hprefix Hok) as Hfirst.
  rewrite Hon in Hfirst. cbn [fst snd] in Hfirst.
  eexists. eexists.
  split; [exact Hfirst|].
  split.
  { match goal with
    | |- click ?on = _ =>
        rewrite (click_scriptable on address); [|exact Hurl|exact Hprefix|]
    end.
    - cbn [setBadgeText setTitle insertCSS withPage tabPage withArgs
           hoverHighlighterInfo hoverHighlighterArgs listeners highlights
           styleCalls runs] in Hoff |- *.
      match goal with
      | |- context [script (withArgs ?p args)] =>
          change (withArgs p args) with p
      end.
      rewrite Hoff. cbn [fst snd]. reflexivity.
    - intros call tab' Htab'. apply Hok. exact Htab'. }
  cbn [setBadgeText setTitle insertCSS removeInjectedCSS withPage tabPage
       badgeText title insertedCSS hoverHighlighterInfo listeners highlights
       withArgs].
  split.
  { left. split; [discriminate|]. split; [reflexivity|].
    split; [reflexivity | left; reflexivity]. }
  split; [reflexivity|]. split; [right; repeat split|].
  split; [reflexivity|]. split; [apply removeCSS_head|].
  split; reflexivity.
Qed.

End Clicks.

(** X16. The listener of [chrome.action.onClicked]. A tab whose URL
    starts with [chrome://] is left alone, whatever the script. When
    the URL of the tab is not shown to the extension, or when the
    browser rejects [executeScript] on the tab (a page that extensions
    may not script), the promise of the listener is rejected and the
    tab is as it was: page, style sheets, title and badge. On a tab on
    whose URL the browser carries out the calls of the extension, the
    service worker that assigns the colours before it injects the
    script is fulfilled, and afterwards the badge and the title of the
    action say ON exactly when the window property of the page is set,
    the style sheet being inserted then: this holds whatever the tab
    was before. From a page that is off, a second click takes the first
    one back: the badge is empty again, and the style sheets, the
    listeners and the highlights are those before the first click. *)
Theorem service_worker_mirrors_the_page :
  (forall (St : Type) policy carriesOut assigned
          (script : Page St -> Page St * option bool) (tab : Tab St) address,
      url tab = Some address ->
      String.prefix "chrome://" address = true ->
      onClicked policy carriesOut assigned script tab = (tab, Fulfilled))
  /\ (forall (St : Type) policy carriesOut assigned
             (script : Page St -> Page St * option bool) (tab : Tab St),
         url tab = None
         \/ (exists address,
                url tab = Some address
                /\ String.prefix "chrome://" address = false
                /\ carriesOut ExecuteScript tab = false) ->
         onClicked policy carriesOut assigned script tab = (tab, Rejected))
  /\ (forall policy carriesOut args (tab : Tab Incremental.State) address,
         url tab = Some address ->
         String.prefix "chrome://" address = false ->
         scriptable carriesOut tab ->
         exists tab',
           onClicked policy carriesOut (Some args) Incremental_injectedScript
             tab = (tab', Fulfilled)
           /\ inSync tab' /\ url tab' = url tab
           /\ hoverHighlighterArgs (tabPage tab') = Some args)
  /\ (forall policy carriesOut args (tab : Tab Recompute.State) address,
         url tab = Some address ->
         String.prefix "chrome://" address = false ->
         scriptable carriesOut tab ->
         exists tab',
           onClicked policy carriesOut (Some args) Recompute_injectedScript
             tab = (tab', Fulfilled)
           /\ inSync tab' /\ url tab' = url tab
           /\ hoverHighlighterArgs (tabPage tab') = Some args)
  /\ (forall policy carriesOut args (tab : Tab Incremental.State) address,
         url tab = Some address ->
         String.prefix "chrome://" address = false ->
         scriptable carriesOut tab ->
         wellFormedPage (tabPage tab) ->
         hoverHighlighterInfo (tabPage tab) = None ->
         namesFree (tabPage tab) ->
         clickedTwice
           (onClicked policy carriesOut (Some args)
              Incremental_injectedScript) tab)
  /\ (forall policy carriesOut args (tab : Tab Recompute.State) address,
         url tab = Some address ->
         String.prefix "chrome://" address = false ->
         scriptable carriesOut tab ->
         wellFormedPage (tabPage tab) ->
         hoverHighlighterInfo (tabPage tab) = None ->
         namesFree (tabPage tab) ->
         clickedTwice
           (onClicked policy carriesOut (Some args) Recompute_injectedScript)
           tab).
Proof.
  split; [|split; [|split; [|split; [|split]]]].
  - intros St policy carriesOut assigned script tab address Hurl Hprefix.
    unfold onClicked. rewrite Hurl, Hprefix. reflexivity.
  - intros St policy carriesOut assigned script tab
      [Hurl | (address & Hurl & Hprefix & Hno)];
      unfold onClicked; rewrite Hurl; [reflexivity|].
    rewrite Hprefix. unfold assignArgs.
    destruct assigned as [args|]; rewrite Hno; reflexivity.
  - intros policy carriesOut args tab address Hurl Hprefix Hok.
    apply (click_in_sync _ _ _ _ _ _ _ _ tab address); assumption.
  - intros policy carriesOut args tab address Hurl Hprefix Hok.
    apply (click_in_sync _ _ _ _ _ _ _ _ tab address); assumption.
  - intros policy carriesOut args tab address Hurl Hprefix Hok Hwf Hinfo
      Hfree.
    apply (click_twice _ _ _ _ _ _ _ _ tab address); assumption.
  - intros policy carriesOut args tab address Hurl Hprefix Hok Hwf Hinfo
      Hfree.
    apply (click_twice _ _ _ _ _ _ _ _ tab address); assumption.
Qed.

Lemma service_worker_mirrors_the_page_witness :
  onClicked PromiseRejected storeIsOffLimits None Recompute_injectedScript
    (newTab "chrome://extensions")
  = (newTab "chrome://extensions", Fulfilled)
  /\ onClicked ResultMissing storeIsOffLimits (Some serviceWorkerArgs)
       Recompute_injectedScript
       (newTab "https://chromewebstore.google.com/category/extensions")
     = (newTab "https://chromewebstore.google.com/category/extensions",
        Rejected)
  /\ (exists tab',
         onClicked ResultMissing storeIsOffLimits
           (Some serviceWorkerArgs_rgba) Incremental_injectedScript
           (newTab "https://en.wikipedia.org/wiki/Wikipedia")
         = (tab', Fulfilled)
         /\ inSync tab'
         /\ url tab' = Some "https://en.wikipedia.org/wiki/Wikipedia"%string
         /\ hoverHighlighterArgs (tabPage tab') = Some serviceWorkerArgs_rgba)
  /\ clickedTwice
       (onClicked PromiseRejected storeIsOffLimits (Some serviceWorkerArgs)
          Recompute_injectedScript)
       (newTab "https://en.wikipedia.org/wiki/Wikipedia").
Proof.
  split; [|split; [|split]].
  - apply (proj1 service_worker_mirrors_the_page _ _ _ _ _ _
             "chrome://extensions"%string); reflexivity.
  - apply (proj1 (proj2 service_worker_mirrors_the_page)).
    right.
    exists "https://chromewebstore.google.com/category/extensions"%string.
    split; [reflexivity|]. split; reflexivity.
  - apply (proj1 (proj2 (proj2 service_worker_mirrors_the_page))
             ResultMissing storeIsOffLimits serviceWorkerArgs_rgba
             (newTab "https://en.wikipedia.org/wiki/Wikipedia")
             "https://en.wikipedia.org/wiki/Wikipedia"%string).
    + reflexivity.
    + reflexivity.
    + intros call tab' Htab'. unfold storeIsOffLimits. rewrite Htab'.
      reflexivity.
  - apply (proj2 (proj2 (proj2 (proj2 (proj2
             service_worker_mirrors_the_page))))
             PromiseRejected storeIsOffLimits serviceWorkerArgs
             (newTab "https://en.wikipedia.org/wiki/Wikipedia")
             "https://en.wikipedia.org/wiki/Wikipedia"%string).
    + reflexivity.
    + reflexivity.
    + intros call tab' Htab'. unfold storeIsOffLimits. rewrite Htab'.
      reflexivity.
    + split; [intros l [] | discriminate].
    + reflexivity.
    + split; reflexivity.
Defined.

(** ** The line that the revision that recomputes leaves *)

Section OneLine.

Variable host : Host.

Lemma R_spansMultipleLines_false hl :
  cacheCoherent host hl ->
  fst (Recompute.spansMultipleLines host hl) = false ->
  looksLikeOneLine host (Recompute.range hl).
Proof.
  intros Hc. unfold Recompute.spansMultipleLines, looksLikeOneLine.
  destruct (Recompute.MAX_LINES_SPANNED_CHECKS
            <? S (Recompute.linesSpannedChecks hl))%nat; [discriminate|].
  cbn [Recompute.range].
  change (fun r : Rect => (0 <? width r) && (0 <? height r))
    with rectOccupiesSpace.
  destruct (length (filter rectOccupiesSpace
                      (Range_getClientRects host (Recompute.range hl)))
            <? 2)%nat eqn:Hlen.
  - intros _. left. apply Nat.ltb_lt. exact Hlen.
  - match goal with
    | |- context [Recompute.getBoundingClientRect host ?h] =>
        destruct (R_getBoundingClientRect_coherent host h
                    (cacheCoherent_fields host hl h eq_refl eq_refl Hc))
          as [Hrect _];
        destruct (Recompute.getBoundingClientRect host h) as [rect h']
    end.
    cbn [fst Recompute.range] in *. subst rect.
    intros Hno. right. apply Z.leb_gt in Hno. lia.
Qed.

Lemma R_didNothingOrSpansLines_false hl prevRect :
  cacheCoherent host hl ->
  fst (Recompute.didNothingOrSpansLines host hl prevRect) = false ->
  looksLikeOneLine host (Recompute.range hl).
Proof.
  intros Hc. unfold Recompute.didNothingOrSpansLines.
  destruct prevRect as [prev|]; [|apply R_spansMultipleLines_false, Hc].
  pose proof (R_getBoundingClientRect_keeps host hl Hc) as Hk.
  pose proof (f_equal v_range (R_getBoundingClientRect_view host hl)) as Hr.
  destruct (Recompute.getBoundingClientRect host hl) as [rect h'].
  cbn [snd viewR v_range] in Hk, Hr.
  destruct (rectanglesAreEqual prev rect); [discriminate|].
  intros Hno. rewrite <- Hr. apply R_spansMultipleLines_false; assumption.
Qed.

Lemma R_tryToExpandEnd_one_line hl node off check :
  looksLikeOneLine host (Recompute.range hl) ->
  looksLikeOneLine host
    (Recompute.range (snd (Recompute.tryToExpandEnd host hl node off check))).
Proof.
  intros Hold.
  destruct (R_tryToExpandEnd_facts host hl node off check)
    as (_ & _ & F3 & F4 & _).
  destruct (fst (Recompute.tryToExpandEnd host hl node off check)) eqn:Hacc;
    [|rewrite (F4 eq_refl); exact Hold].
  destruct (F3 eq_refl) as [_ Hrange]. rewrite Hrange.
  unfold Recompute.tryToExpandEnd in Hacc.
  pose proof (R_previousRect_view host
                (Recompute.logProbe hl node (off - 1)) check) as Hv1.
  destruct (Recompute.previousRect host _ check) as [prevRect hl1].
  view_fields Hv1.
  pose proof (R_didNothingOrSpansLines_false
                (Recompute.setEnd hl1 node off) prevRect (or_introl eq_refl))
    as Hone.
  destruct (Recompute.didNothingOrSpansLines host
              (Recompute.setEnd hl1 node off) prevRect) as [[|] hl3];
    [discriminate|].
  specialize (Hone eq_refl).
  cbn [Recompute.setEnd Recompute.withRange
       Recompute.invalidateBoundingClientRectangle Recompute.range] in Hone.
  rewrite Erange in Hone. exact Hone.
Qed.

Lemma R_tryToExpandStart_one_line hl node off check :
  looksLikeOneLine host (Recompute.range hl) ->
  looksLikeOneLine host
    (Recompute.range
       (snd (Recompute.tryToExpandStart host hl node off check))).
Proof.
  intros Hold.
  destruct (R_tryToExpandStart_facts host hl node off check)
    as (_ & _ & F3 & F4 & _).
  destruct (fst (Recompute.tryToExpandStart host hl node off check)) eqn:Hacc;
    [|rewrite (F4 eq_refl); exact Hold].
  destruct (F3 eq_refl) as [_ Hrange]. rewrite Hrange.
  unfold Recompute.tryToExpandStart in Hacc.
  pose proof (R_previousRect_view host
                (Recompute.logProbe hl node off) check) as Hv1.
  destruct (Recompute.previousRect host _ check) as [prevRect hl1].
  view_fields Hv1.
  pose proof (R_didNothingOrSpansLines_false
                (Recompute.setStart hl1 node off) prevRect (or_introl eq_refl))
    as Hone.
  destruct (Recompute.didNothingOrSpansLines host
              (Recompute.setStart hl1 node off) prevRect) as [[|] hl3];
    [discriminate|].
  specialize (Hone eq_refl).
  cbn [Recompute.setStart Recompute.withRange
       Recompute.invalidateBoundingClientRectangle Recompute.range] in Hone.
  rewrite Erange in Hone. exact Hone.
Qed.

End OneLine.

(** X17. In the revision that recomputes, the line range that
    line resolution leaves is collapsed or passes the single-line
    heuristic as a whole: it has fewer than two client rectangles with
    an area, or its bounding rectangle is less than 1.73 times as tall
    as the shortest of them. This holds whatever the layout, also when
    the budget cut the expansion short, because an attempt that fails
    the heuristic is rolled back. *)
Theorem resolved_line_looks_like_one_line :
  forall body host fuel hl cp mouseY hl',
    Recompute.setHighlightLineRange body host fuel hl (Some cp) mouseY
    = Ok hl' ->
    isTextNode body (Some (offsetNode cp)) = true ->
    collapsed (Recompute.range hl') = true
    \/ looksLikeOneLine host (Recompute.range hl').
Proof.
  intros body host fuel hl cp mouseY hl' Hrun Htext.
  destruct (R_setHighlightLineRange_cases _ _ _ _ _ _ _ Hrun Htext)
    as (_ & [(_ & ->) | [(_ & _ & ->) | (_ & Hfew & Hexp)]]);
    [left; apply collapsed_collapse | left; apply collapsed_collapse |].
  destruct Hexp as (ks & ke & hl1 & hl2 & hl3 & Halt & Hs & He & Hres).
  assert (H3 : looksLikeOneLine host (Recompute.range hl3)).
  { apply (R_expansion_steps body host
             (fun _ h => looksLikeOneLine host (Recompute.range h)))
      with (5 := Halt) (6 := Hs) (7 := He).
    - intros _ h Hh. exact Hh.
    - intros _ h node off check Hh.
      pose proof (R_tryToExpandEnd_one_line host h node off check Hh).
      destruct (fst _); assumption.
    - intros _ h node off check Hh.
      pose proof (R_tryToExpandStart_one_line host h node off check Hh).
      destruct (fst _); assumption.
    - left. cbn [Recompute.resetLinesSpannedChecksCount seedLine
                 Recompute.range].
      pose proof (filter_length_le rectOccupiesSpace
                    (Range_getClientRects host (seedRange body cp))).
      lia. }
  destruct Hres as [-> | ->]; [right; exact H3 | left; apply collapsed_collapse].
Qed.

Lemma resolved_line_looks_like_one_line_witness :
  exists hl',
    Recompute.setHighlightLineRange (paragraph [run "ab cd"]) monoLine 200
      Recompute.newCachedLineRange (Some (mkCaret (runRef 0) 1)) 10 = Ok hl'
    /\ (collapsed (Recompute.range hl') = true
        \/ looksLikeOneLine monoLine (Recompute.range hl')).
Proof.
  eexists. split; [vm_compute; reflexivity|].
  apply (resolved_line_looks_like_one_line (paragraph [run "ab cd"]) monoLine
           200%nat Recompute.newCachedLineRange (mkCaret (runRef 0) 1) 10).
  - vm_compute. reflexivity.
  - reflexivity.
Defined.

(** ** The walk from one text node to the next *)

Section Walk.

Variable body : Node.









Variable host : Host.



End Walk.



(** ** A hidden sibling, in the revision that recomputes *)

Section Beside.

Variable R : nat -> nat -> Prop.
Hypothesis R_trans : forall a b c, R a b -> R b c -> R a c.
Hypothesis R_irrefl : forall a, ~ R a a.

Lemma besideSubtree_trans a n n' :
  besideSubtree R a n -> besideSubtree R n n' -> besideSubtree R a n'.
Proof.
  intros (l & j & k & q & -> & -> & Hjk) (l' & j' & k' & q' & E & -> & Hjk').
  destruct l' as [|x l']; cbn [app] in E; injection E as E1 E2; subst.
  - exists l, j, k', q'. repeat split. exact (R_trans _ _ _ Hjk Hjk').
  - exists (l ++ j :: l'), j', k', q'. split; [|split; [reflexivity|exact Hjk']].
    rewrite <- app_assoc. reflexivity.
Qed.

Lemma besideSubtree_up i p n :
  besideSubtree R p n -> besideSubtree R (i :: p) n.
Proof.
  intros (l & j & k & q & -> & -> & Hjk).
  exists (i :: l), j, k, q. repeat split. exact Hjk.
Qed.

Lemma besideSubtree_outside a n t :
  besideSubtree R a n -> inSubtree n t -> ~ inSubtree a t.
Proof.
  intros (l & j & k & q & -> & -> & Hjk) [m ->] [x E].
  replace (m ++ k :: q) with ((m ++ [k]) ++ q) in E
    by (rewrite <- app_assoc; reflexivity).
  replace (x ++ l ++ j :: q) with (((x ++ l) ++ [j]) ++ q) in E
    by (rewrite <- !app_assoc; reflexivity).
  apply app_inv_tail in E. apply app_inj_tail in E. destruct E as [_ ->].
  exact (R_irrefl _ Hjk).
Qed.

End Beside.

Section HiddenSibling.

Variable body : Node.

Lemma getNextTextNodeAt_below (n t : NodeRef) :
  getNextTextNodeAt body n = Some t -> inSubtree n t.
Proof.
  intros H. unfold getNextTextNodeAt in H.
  destruct (resolve body n) as [node|] eqn:Hn; [|discriminate].
  rewrite getNextTextNode_first in H.
  destruct (visibleTexts_visible body node n t Hn) as [_ (l & -> & _)].
  { destruct (visibleTexts node n) as [|x l]; [discriminate|].
    injection H as ->. left. reflexivity. }
  exists l. reflexivity.
Qed.

Lemma getLastNonEmptyTextNodeAt_below (n t : NodeRef) :
  getLastNonEmptyTextNodeAt body n = Some t -> inSubtree n t.
Proof.
  intros H. unfold getLastNonEmptyTextNodeAt in H.
  destruct (resolve body n) as [node|] eqn:Hn; [|discriminate].
  rewrite getLastNonEmptyTextNode_last in H.
  destruct (visibleTexts_visible body node n t Hn) as [_ (l & -> & _)].
  { apply in_rev. destruct (rev (visibleTexts node n)) as [|x l];
      [discriminate|].
    injection H as ->. left. reflexivity. }
  exists l. reflexivity.
Qed.

Lemma nextSibling_right cur s :
  nextSibling body cur = Some s -> besideSubtree lt cur s.
Proof.
  destruct cur as [|i q]; unfold nextSibling; [discriminate|].
  destruct (resolve body (S i :: q)); [|discriminate].
  intros H. injection H as <-. exists [], i, (S i), q.
  repeat split. lia.
Qed.

Lemma previousSibling_left cur s :
  previousSibling body cur = Some s -> besideSubtree gt cur s.
Proof.
  destruct cur as [|[|i] q]; unfold previousSibling; try discriminate.
  destruct (resolve body (i :: q)); [|discriminate].
  intros H. injection H as <-. exists [], (S i), i, q.
  repeat split. lia.
Qed.

Lemma R_nextUncle_right parent u :
  Recompute.nextUncle body parent = Some u -> besideSubtree lt parent u.
Proof.
  induction parent as [|i g IH]; cbn [Recompute.nextUncle]; [discriminate|].
  assert (Hup : Recompute.nextUncle body g = Some u ->
                besideSubtree lt (i :: g) u).
  { intros H. apply besideSubtree_up. exact (IH H). }
  destruct (nextSibling body (i :: g)) as [s|] eqn:Hs; [|exact Hup].
  destruct (occupiesSpaceAt body s); [|exact Hup].
  intros H. injection H as <-. exact (nextSibling_right _ _ Hs).
Qed.

Lemma R_previousUncle_left parent u :
  Recompute.previousUncle body parent = Some u -> besideSubtree gt parent u.
Proof.
  induction parent as [|i g IH]; cbn [Recompute.previousUncle];
    [discriminate|].
  assert (Hup : Recompute.previousUncle body g = Some u ->
                besideSubtree gt (i :: g) u).
  { intros H. apply besideSubtree_up. exact (IH H). }
  destruct (previousSibling body (i :: g)) as [s|] eqn:Hs; [|exact Hup].
  destruct (occupiesSpaceAt body s); [|exact Hup].
  intros H. injection H as <-. exact (previousSibling_left _ _ Hs).
Qed.

Lemma R_nextNodeOf_right cur n :
  Recompute.nextNodeOf body cur = Ok (Some n) -> besideSubtree lt cur n.
Proof.
  unfold Recompute.nextNodeOf.
  assert (Hclimb : match parentNode cur with
                   | None => Throw
                   | Some parent => Ok (Recompute.nextUncle body parent)
                   end = Ok (Some n) -> besideSubtree lt cur n).
  { destruct cur as [|i parent]; cbn [parentNode]; [discriminate|].
    intros H. injection H as H. apply besideSubtree_up.
    exact (R_nextUncle_right _ _ H). }
  destruct (nextSibling body cur) as [s|] eqn:Hs; [|exact Hclimb].
  destruct (occupiesSpaceAt body s); [|exact Hclimb].
  intros H. injection H as <-. exact (nextSibling_right _ _ Hs).
Qed.

Lemma R_previousNodeOf_left cur n :
  Recompute.previousNodeOf body cur = Ok (Some n) -> besideSubtree gt cur n.
Proof.
  unfold Recompute.previousNodeOf.
  assert (Hclimb : match parentNode cur with
                   | None => Throw
                   | Some parent => Ok (Recompute.previousUncle body parent)
                   end = Ok (Some n) -> besideSubtree gt cur n).
  { destruct cur as [|i parent]; cbn [parentNode]; [discriminate|].
    intros H. injection H as H. apply besideSubtree_up.
    exact (R_previousUncle_left _ _ H). }
  destruct (previousSibling body cur) as [s|] eqn:Hs; [|exact Hclimb].
  destruct (occupiesSpaceAt body s); [|exact Hclimb].
  intros H. injection H as <-. exact (previousSibling_left _ _ Hs).
Qed.

(** With a hidden next sibling the next node is beside the parent. *)
Lemma R_nextNodeOf_hidden i p s n :
  nextSibling body (i :: p) = Some s ->
  occupiesSpaceAt body s = false ->
  Recompute.nextNodeOf body (i :: p) = Ok (Some n) ->
  besideSubtree lt p n.
Proof.
  intros Hs Hocc. unfold Recompute.nextNodeOf. rewrite Hs, Hocc.
  cbn [parentNode]. intros H. injection H as H.
  exact (R_nextUncle_right _ _ H).
Qed.

Lemma R_previousNodeOf_hidden i p s n :
  previousSibling body (i :: p) = Some s ->
  occupiesSpaceAt body s = false ->
  Recompute.previousNodeOf body (i :: p) = Ok (Some n) ->
  besideSubtree gt p n.
Proof.
  intros Hs Hocc. unfold Recompute.previousNodeOf. rewrite Hs, Hocc.
  cbn [parentNode]. intros H. injection H as H.
  exact (R_previousUncle_left _ _ H).
Qed.

Lemma lt_trans' : forall a b c : nat, (a < b -> b < c -> a < c)%nat.
Proof. intros; lia. Qed.

Lemma gt_trans' : forall a b c : nat, (a > b -> b > c -> a > c)%nat.
Proof. intros; lia. Qed.

Lemma lt_irrefl' : forall a : nat, ~ (a < a)%nat.
Proof. intros; lia. Qed.

Lemma gt_irrefl' : forall a : nat, ~ (a > a)%nat.
Proof. intros; lia. Qed.

Lemma R_findNextTextNode_outside fuel :
  forall a cur t,
    (forall n, Recompute.nextNodeOf body cur = Ok (Some n) ->
               besideSubtree lt a n) ->
    Recompute.findNextTextNode body fuel cur = Ok (Some t) ->
    ~ inSubtree a t.
Proof.
  induction fuel as [|fuel IH]; intros a cur t Hfirst H;
    cbn [Recompute.findNextTextNode] in H; [discriminate|].
  destruct (Recompute.nextNodeOf body cur) as [[n|] | |] eqn:Hn;
    cbn [bind] in H; try discriminate.
  pose proof (Hfirst n eq_refl) as Han.
  destruct (getNextTextNodeAt body n) as [t'|] eqn:Ht.
  - injection H as <-.
    exact (besideSubtree_outside lt lt_irrefl' _ _ _ Han
             (getNextTextNodeAt_below _ _ Ht)).
  - apply (IH a n t); [|exact H].
    intros n' Hn'.
    exact (besideSubtree_trans lt lt_trans' _ _ _ Han
             (R_nextNodeOf_right _ _ Hn')).
Qed.

Variable host : Host.

Lemma R_stepToPreviousTextNode_outside fuel :
  forall a hl cur oneChar step hl',
    (forall n, Recompute.previousNodeOf body cur = Ok (Some n) ->
               besideSubtree gt a n) ->
    Recompute.stepToPreviousTextNode body host fuel hl cur oneChar
    = Ok (step, hl') ->
    (Recompute.probeLog hl' = Recompute.probeLog hl
     \/ exists node idx,
          Recompute.probeLog hl' = (node, idx) :: Recompute.probeLog hl
          /\ ~ inSubtree a node)
    /\ forall node off, step = inr (node, off) -> ~ inSubtree a node.
Proof.
  induction fuel as [|fuel IH]; intros a hl cur oneChar step hl' Hfirst H;
    cbn [Recompute.stepToPreviousTextNode] in H; [discriminate|].
  destruct (Recompute.previousNodeOf body cur) as [[n|] | |] eqn:Hn;
    cbn [bind] in H; try discriminate.
  - pose proof (Hfirst n eq_refl) as Han.
    destruct (getLastNonEmptyTextNodeAt body n) as [last|] eqn:Hlast.
    + pose proof (besideSubtree_outside gt gt_irrefl' _ _ _ Han
                    (getLastNonEmptyTextNodeAt_below _ _ Hlast)) as Hout.
      destruct (isWhitespaceOrZeroWidth _); cbn [andb negb] in H.
      * rewrite andb_false_r in H. injection H as <- <-.
        split; [left; reflexivity|].
        intros node off E. injection E as <- <-. exact Hout.
      * destruct (R_tryToExpandStart_facts host hl last
                    (length (textContentOf body last) - 1)%nat true)
          as [Hlog _].
        destruct (Recompute.tryToExpandStart host hl last _ true)
          as [[|] hl1]; cbn [snd] in Hlog.
        -- destruct oneChar; cbn [andb] in H; injection H as <- <-.
           ++ split; [right; eexists _, _; split; [exact Hlog | exact Hout]|].
              discriminate.
           ++ split; [right; eexists _, _; split; [exact Hlog | exact Hout]|].
              intros node off E. injection E as <- <-. exact Hout.
        -- injection H as <- <-.
           split; [right; eexists _, _; split; [exact Hlog | exact Hout]|].
           discriminate.
    + apply (IH a hl n oneChar step hl'); [|exact H].
      intros n' Hn'.
      exact (besideSubtree_trans gt gt_trans' _ _ _ Han
               (R_previousNodeOf_left _ _ Hn')).
  - injection H as <- <-. split; [left; reflexivity | discriminate].
Qed.

End HiddenSibling.

(** X19. In the revision that recomputes, a sibling that does not
    occupy space ends the walk through the parent. When the next
    sibling of the current node does not occupy space, the text node
    that the walk forward finds is not below the parent of the current
    node: the later children of the parent are not visited, and with
    the body as the parent nothing is found. The same holds on the
    other side for the node that the step back probes or moves to when
    the previous sibling does not occupy space. *)
Theorem hidden_sibling_ends_the_walk_through_the_parent :
  (forall body fuel i p s t,
      nextSibling body (i :: p) = Some s ->
      occupiesSpaceAt body s = false ->
      Recompute.findNextTextNode body fuel (i :: p) = Ok (Some t) ->
      ~ inSubtree p t)
  /\ (forall body host fuel hl i p s oneChar step hl',
         previousSibling body (i :: p) = Some s ->
         occupiesSpaceAt body s = false ->
         Recompute.stepToPreviousTextNode body host fuel hl (i :: p) oneChar
         = Ok (step, hl') ->
         (Recompute.probeLog hl' = Recompute.probeLog hl
          \/ exists node idx,
               Recompute.probeLog hl' = (node, idx) :: Recompute.probeLog hl
               /\ ~ inSubtree p node)
         /\ forall node off, step = inr (node, off) -> ~ inSubtree p node).
Proof.
  split.
  - intros body fuel i p s t Hs Hocc H.
    apply (R_findNextTextNode_outside body fuel p (i :: p) t); [|exact H].
    intros n. exact (R_nextNodeOf_hidden body i p s n Hs Hocc).
  - intros body host fuel hl i p s oneChar step hl' Hs Hocc H.
    apply (R_stepToPreviousTextNode_outside body host fuel p hl (i :: p)
             oneChar step hl'); [|exact H].
    intros n. exact (R_previousNodeOf_hidden body i p s n Hs Hocc).
Qed.

Lemma hidden_sibling_ends_the_walk_through_the_parent_witness :
  Recompute.findNextTextNode
    (ElementNode 300 100
       [ElementNode 300 20
          [run "ab"; ElementNode 0 0 [run "no"]; run "cd"];
        run "ef"])
    5%nat [0%nat; 0%nat] = Ok (Some [1%nat])
  /\ Incremental.findNextTextNode
       (ElementNode 300 100
          [ElementNode 300 20
             [run "ab"; ElementNode 0 0 [run "no"]; run "cd"];
           run "ef"])
       5%nat [0%nat; 0%nat] = Ok (Some [2%nat; 0%nat])
  /\ ~ inSubtree [0%nat] [1%nat].
Proof.
  split; [reflexivity|]. split; [reflexivity|].
  apply (proj1 hidden_sibling_ends_the_walk_through_the_parent
           (ElementNode 300 100
              [ElementNode 300 20
                 [run "ab"; ElementNode 0 0 [run "no"]; run "cd"];
               run "ef"])
           5%nat 0%nat [0%nat] [1%nat; 0%nat] [1%nat]).
  - reflexivity.
  - reflexivity.
  - reflexivity.
Defined.
